(* ===== verification/_CoqProject ===== *)
-Q . S2P
Prelude.v
Program.v
External.v
Queue.v
Edca.v
Rates.v
Ht20.v
RxFrame.v
Crypto.v
Sync.v
Registers.v
PhyAccess.v
PhyTemperature.v
PhyHelpers.v
ChipMac.v
ChipCalls.v
LowLevel.v
DmaList.v
RxQueue.v
RxSafety.v
Wifi.v
Control.v
ControlSpec.v
Transmit.v
TransmitSpec.v
Receive.v
Driver.v
Timing.v
PhyRfpll.v
PhyRfpllSpec.v
PhyTxGain.v
PhyTxGainSpec.v
PhyTemperatureSpec.v
PhyDc.v
PhyDcSpec.v
PhyIq.v
PhyIqSpec.v
PhyBus.v
PhyBusSpec.v
PhyTrack.v
PhyHwFreq.v
PhyHwFreqSpec.v
PhyTrackSpec.v
PhyRxGain.v
PhyRxGainSpec.v
PhyReg.v
PhyInit.v
PhyInitSpec.v
PhyRegSpec.v
PhyRxGainCal.v
PhyRxGainCalSpec.v
ChipMacSpec.v
PhyHelpersSpec.v
BuildScript.v
BuildSpec.v
PhyNative.v
PhyNativeSpec.v
Capture.v
CaptureHost.v
CaptureCrc.v
CaptureHostSpec.v
CaptureSpec.v
CaptureCommands.v
PhySmoke.v
