(* ===== verification/Prelude.v ===== *)
(** * A verification development for the [esp-wifi-hal] driver

    [esp-wifi-hal] drives the Wi-Fi MAC of the ESP32, S2, S3 and C3.  Its core
    is a low level driver over the register block ([src/esp-wifi-hal/src/ll.rs]),
    a receive queue of DMA descriptors that the driver shares with the DMA
    engine ([dma_list.rs]), signals between interrupt handlers and tasks
    ([sync.rs]) and an asynchronous driver that composes them
    ([async_driver.rs]).  Interrupts report to the signals; a transmission
    programs one of five hardware slots, waits for the signal of the slot and
    retries by the EDCA rules; a reception waits for the RX signal, takes the
    oldest descriptor from the queue, checks its header and returns the
    descriptor when the borrowed buffer is dropped.  Below it the PHY modules
    ([phy_*.rs]) replace vendor code for the C3 and S3: they tune the RF PLL,
    calibrate receiver and transmitter and track the temperature, each module
    over an [Access] trait of its own that stands for registers, parameter
    memory, ROM callbacks and the routines of other modules.

    ** Files and what they model

    - [Prelude]: fixed-width integers, [result], the state and panic monad
      [M], its total-correctness Hoare logic, slices, little-endian words.
    - [External]: the chip selection of [build.rs] and the [macro-bits] crate.
      [BuildScript], [BuildSpec]: the linker scripts of [build.rs].
    - [Queue]: [EdcaAccessCategory], [HardwareTxQueue] of [ll.rs].
    - [Edca]: [edca.rs].
    - [Rates]: the crate [src/esp-wifi-rates].
    - [Ht20]: [ht20.rs].
    - [RxFrame]: [rx.rs], [borrowed_buffer.rs] and [is_rx_frame_valid].
    - [Crypto]: [crypto.rs].
    - [Sync]: [sync.rs], with the class [Signal] that the three signals
      implement and the client theorems are proved against.
    - [Registers], [LowLevel]: the register file and [LowLevelDriver] of
      [ll.rs], function by function.  [ChipCalls]: the AGC and power control
      routines that [ffi.rs] re-exports from Rust on the C3 and the S3, run on
      the registers.
    - [DmaList]: [dma_list.rs]; the bits of a descriptor are those of
      [src/docs/esp32s3/tests/rust_dma.rs].  [RxQueue]: its invariant, the
      specification of each operation and the relation [reach] of the states a
      client that keeps two rules can bring the queue to; [RxSafety]: what
      holds for every client.
    - [Wifi]: the statics of [async_driver.rs], [mac_handler], [pwr_handler].
    - [Control], [ControlSpec]: channel, TSF, crypto and filter control.
    - [Transmit], [TransmitSpec]: preparation, [transmit_raw] poll by poll,
      one-shot and retrying transmission.
    - [Receive]: [AsyncReceive].  [Driver]: the [WiFi] object.
    - [Timing]: [timing.rs].
    - [Program]: programs over the calls of a trait, their execution, weakest
      preconditions, linking and protocols; [PhyAccess]: traits with reads and
      writes of memory.  The PHY files are built on these two.
    - [PhyRfpll], [PhyRfpllSpec]: [phy_rfpll.rs].
    - [PhyTxGain], [PhyTxGainSpec]: [phy_tx_gain.rs].
    - [PhyTemperature], [PhyTemperatureSpec]: [phy_dispatcher.rs],
      [phy_temperature.rs], [phy_lifecycle.rs].
    - [PhyDc], [PhyDcSpec]: [phy_rx_controls.rs], [phy_rx_dc.rs],
      [phy_dc_search.rs].
    - [PhyIq], [PhyIqSpec]: [phy_rx_iq.rs], [phy_rf_iq.rs],
      [phy_tx_iq_measure.rs], [phy_txiq_search.rs], [phy_txiq_wrappers.rs],
      [phy_tx_detector.rs].
    - [PhyBus], [PhyBusSpec]: [phy_pbus.rs], [phy_i2c.rs], [phy_i2c_iram.rs],
      [phy_pwdet.rs].
    - [PhyTrack], [PhyTrackSpec]: [phy_track.rs].
    - [PhyHwFreq], [PhyHwFreqSpec]: [phy_hw_freq.rs].
    - [PhyRxGain], [PhyRxGainSpec]: [phy_rx_gain.rs]; [PhyRxGainCal],
      [PhyRxGainCalSpec]: [phy_rx_gain_cal.rs].
    - [PhyReg], [PhyRegSpec]: [phy_reg.rs].
    - [PhyInit], [PhyInitSpec]: [phy_init.rs], and of [phy_init_native.rs] the
      initial parameters, the read-only tables, the known symbols and the
      dispatch of the entry points.
    - [PhyHelpers], [PhyHelpersSpec]: [phy_spur.rs], [phy_analog.rs],
      [phy_api.rs], [phy_basic.rs], [phy_feature.rs], [phy_debug.rs],
      [phy_wrappers.rs].
    - [PhyNative], [PhyNativeSpec]: what the dispatches in the native bindings
      of [phy_rfpll.rs], [phy_tx_gain.rs], [phy_rx_gain.rs], [phy_track.rs],
      [phy_hw_freq.rs], [phy_rx_gain_cal_native.rs] and [phy_spur_native.rs]
      carry out.
    - [ChipMac], [ChipMacSpec]: the MAC initialisation sequences [c3_mac.rs],
      [s3_mac.rs], [s3_mac_helpers.rs] and the direct PHY controls
      [c3_phy.rs], [s3_phy.rs], with the clock selection of [ffi.rs].
    - [Capture]: the capture application over the driver,
      [src/examples/src/capture_protocol.rs] and [bin/raw_capture.rs];
      [CaptureHost]: its host side, [decode.py] and the commands of
      [capture.py] in [src/docs/network/tools/raw-capture].  [CaptureCrc],
      [CaptureHostSpec], [CaptureSpec] and [CaptureCommands]: the checksum, the
      decoder, the application as a whole and its commands.
    - [PhySmoke]: the vectors of the on-target test
      [src/examples/src/bin/phy_lifetime_smoke.rs], on the models.

    ** How code becomes definitions

    A function that touches the hardware or a static is an element of
    [M S A = S -> option (A * S)], [None] being a panic.  [Result] is [result].
    Integers are [Z] with the wrap-around of a build without overflow checks.
    [#[cfg]] on a chip is a case on [Chip].  Code outside the repository is a
    class: [MacroBits] (bit masks), [RxCtrl] (the RX control header), [Pac]
    (positions of bit fields and reset values), [Ffi] (calls of vendor code, of
    the chip and channel initialisation, and of the PHY methods behind the power
    control), [AtomicWaker], [RxEngine] (the completion of a
    descriptor reload).  Every class has an instance by which the hypotheses
    of the theorems are shown satisfiable.

    Concurrency is explicit.  In [DmaList] the DMA engine may complete frames
    before every access of the driver, following a schedule over which the
    theorems quantify.  In [Sync] tasks and interrupts are the steps of the
    relation [world_step].  In [Transmit] the environment changes the driver
    state between two polls, by arbitrary functions, and the frames the MAC
    fetches when a slot is started are recorded.  In [Capture] the three
    tasks of the application are the steps of one relation between the states
    at their suspension points.

    A PHY routine is a [prog E A], [E] being the methods of its trait: a tree of
    calls that continues with the answers.  The order of the calls is that of
    the code, chip by chip ([s3] is [cfg!(esp32s3)]).  A theorem about a routine
    quantifies over the environments that obey a contract, a relation between
    call, state, answer and next state that says what is relied on (memory
    behaves as bytes, a callback computes an absolute value, an estimator
    writes only its buffer) and leaves the rest open; its witness gives such an
    environment.  The native implementations of the traits are environments.

    ** What the theorems show

    - Reception, on the C3 and the S3: for every schedule of the DMA engine and
      every client the chain is well linked, no descriptor is lost or
      duplicated, the engine writes only the slab and every operation returns
      ([rx_list_intact]).  For a client that clears the queue only while the
      engine completes nothing and restarts it only when it is stopped and
      drained, the engine writes only free descriptors, frames are delivered
      once and in order, and the engine does not stall while a buffer is free
      ([rx_queue_delivers], [take_first_oldest], [recycle_restarts],
      [receive_delivers_valid]); the code does not enforce the two rules;
      accepted frames are read within bounds ([accepted_frame_in_bounds]) and
      their rate is decoded ([rx_rate_roundtrip]).
    - Transmission: the retry policy ([retry_policy]), termination with the
      result of the first success ([transmit_with_retry_returns]), release of
      the slot on every way out ([slot_always_released]), the prepared frame
      and its errors ([prepared_frame], [prepare_errors]), the contention
      window ([contention_window_growth], [backoff_uniform]).
    - Signals and interrupts: [wakeups_not_lost], [signals_refine_mailboxes],
      [mac_handler_reports], [pwr_handler_signals].
    - Control: keys, filters, timers and channels ([set_key_reads_back] and
      the others of [ControlSpec]), [split_partitions], [split_transmits].
    - Encodings: rates, airtime and register words ([Rates], [Ht20], [Queue],
      [Crypto], [Timing]).
    - RF PLL: the divider digits tune the requested frequency within one unit
      ([pll_tuned]), the initial capacitor is the centre of the locked settings
      ([init_cap_centres]), a channel change keeps its bracket
      ([channel_protocol]); moving the capacitors of the frequency memory moves
      nothing else ([cap_memory_moves]).
    - Transmit power: both chips' gain searches compute the same reference
      function ([gain_searches_agree]); power limits are minima
      ([limits_minimum]).
    - Receive gain: the generated table is the ramp its inputs describe and is
      decoded as it was encoded ([gain_table_generated]); the calibration of
      the gains stays in its tables and buffers whatever is measured
      ([gain_iq_bounded], [gain_dc_confined]).
    - Initialisation: the MAC registers hold their defaults, bit by bit
      ([mac_init_defaults], [agc_pair_registers]); no entry point of the PHY
      initialisation panics and every symbol it names is known
      ([init_never_panics]), and the build links each to its replacement
      ([phy_symbols_linked]); the bindings serve every call the PHY routines
      make ([native_calls_served]); calibration data with a damaged word after the version is refused
      ([calibration_check_detects]), saved data is restored
      ([calibration_saved_restored]), and no power exceeds its limit
      ([power_table_limited]).
    - Registers and measurements: [iq_coefficient_programmed], [iq_unpacks],
      [rc_codes_in_range], [spur_power_quietest], [interpolate_calibrated].
    - Calibration: the DC table is filled from the nearest channel
      ([sort_copies_nearest]), the DC search ends with programmed coefficients
      in range ([one_step_programs]), IQ calibration restores what it borrows
      ([txiq_calibration_restores], [bluetooth_restores_analog]).
    - Tracking: [dispatch_protocol], [sensor_stays_calibrated],
      [pll_track_hysteresis]; buses: [pbus_programs_loaded],
      [i2c_transactions_atomic].
    - Capture application: no interleaving of its tasks loses a record
      unnoticed or panics ([capture_accounting]); the host declares a capture
      complete exactly when nothing was lost, and then has every selected frame
      ([capture_verdict]), in whatever pieces the stream arrives
      ([feeds_concat]); a damaged record is refused ([damage_detected]), the
      tabulated checksum of the firmware being the bitwise one of the host
      ([crc_firmware_host]); the firmware understands the commands of the
      recorder ([session_understood]).
    - On-target test: its vectors hold on the models ([lifetime_smoke_holds]).

    ** Bounds and fuel

    The loops of [dma_list.rs] follow [next] pointers; they run with the number
    of descriptors plus one as fuel and panic when it is used up, so the
    theorems that they return show that this never happens.  The loop of
    [receive] runs with the number of queued signals, frames written and
    frames scheduled as fuel; [receive_delivers_valid] shows that it is enough
    in every state of [reach].  [poll_reload] polls until the engine has consumed the
    request, which the class [RxEngine] bounds.  Spinning on a register reads a
    scripted list of inputs; a register that never changes is a program that
    does not return.  In the PHY files a loop that polls without a limit takes
    the number of polls as an argument and answers that it is still waiting
    when they are used up; [lookup_scan] and [lookup_walk] run with 257 and 256
    steps, more than the 255 entries their 8-bit index can address, and
    [gain_searches_agree] shows that they return; the calls of the RF PLL
    routines to each other are resolved four levels deep, the depth of the
    call graph.  The gain generator runs 127 turns and skips at most 256
    inputs, which [gain_table_generated] shows to be enough; [memory_loop] has
    256 turns, as its index has 8 bits.  [dc_modes] has 256 turns, one for each
    value of its 8-bit counter; [gain_dc_confined] shows that it returns for the
    stages that exist.  The entry points of the PHY initialisation that call
    each other are resolved three levels deep, the depth of their call graph, and
    [init_never_panics] shows that the depth is not exceeded.  The decoder of the
    capture host makes one turn more than its buffer has bytes; a turn that goes
    on shortens the buffer, and [loop_fuel] shows that more fuel changes nothing.

    ** What is not modelled

    Volatile register glue ([*_native.rs] and the [native] modules, but for
    the parts named with [PhyInit] and [PhyNative] above): it implements
    the traits by accesses to fixed addresses and calls through pointers, and
    is the environment of the theorems.  The OS adapter table and the foreign
    declarations of [ffi.rs], logging, the binding of interrupts and the clock
    ([mac_time]) belong to code outside the repository.  Of the capture
    application the setup of the peripherals, and the files, JSON and timing of
    the recorder are left out; of the on-target test its logging and power-up.
    The other examples ([sta_smoke], [test_cli] and smaller ones) demonstrate the
    driver with third-party frame parsers and network stacks.  [rates.rs] is not part of
    the module tree.  The MAC initialisation is reached from [LowLevel]
    through the class [Ffi], because the addresses of the named registers of
    [ll.rs] are those of the register crate. *)

From stdpp Require Export base tactics option list numbers gmap.
From Stdlib Require Export ZArith Lia Btauto.

Declare Scope hal_scope.
Delimit Scope hal_scope with hal.
#[global] Open Scope Z_scope.

(** ** Fixed-width integers

    A [uN] value is a [Z] in [0 .. 2^N - 1], an [iN] value a [Z] in
    [-2^(N-1) .. 2^(N-1) - 1].  [wrap] is Rust's [as uN] and the result of the
    [wrapping_*] operations, [sext] is [as iN]. *)

Definition wrap (w z : Z) : Z := z mod 2 ^ w.

Definition sext (w z : Z) : Z :=
  let r := wrap w z in if r <? 2 ^ (w - 1) then r else r - 2 ^ w.

Abbreviation u8 := (wrap 8).
Abbreviation u16 := (wrap 16).
Abbreviation u32 := (wrap 32).
Abbreviation u64 := (wrap 64).
Abbreviation i8 := (sext 8).
Abbreviation i16 := (sext 16).
Abbreviation i32 := (sext 32).
Abbreviation i64 := (sext 64).

Definition in_width (w z : Z) : Prop := 0 <= z < 2 ^ w.
Definition in_swidth (w z : Z) : Prop := - 2 ^ (w - 1) <= z < 2 ^ (w - 1).

Abbreviation is_u8 := (in_width 8).
Abbreviation is_u16 := (in_width 16).
Abbreviation is_u32 := (in_width 32).
Abbreviation is_i8 := (in_swidth 8).
Abbreviation is_i16 := (in_swidth 16).
Abbreviation is_i32 := (in_swidth 32).

#[export] Instance in_width_dec w z : Decision (in_width w z).
Proof. unfold in_width. apply _. Defined.
#[export] Instance in_swidth_dec w z : Decision (in_swidth w z).
Proof. unfold in_swidth. apply _. Defined.

(** [bool as u32] *)
Definition bool_to_Z (b : bool) : Z := if b then 1 else 0.

(** ** Results, panics and state

    [result] is Rust's [Result].  A computation that may panic returns an
    [option], [None] being the panic; [M S] threads a state [S] through such
    computations. *)

Inductive result (A E : Type) : Type :=
| Ok (a : A)
| Err (e : E).
Arguments Ok {A E} a.
Arguments Err {A E} e.

#[export] Instance result_eq_dec {A E} `{EqDecision A, EqDecision E} : EqDecision (result A E).
Proof. solve_decision. Defined.

Definition result_map {A B E} (f : A -> B) (r : result A E) : result B E :=
  match r with Ok a => Ok (f a) | Err e => Err e end.

Definition map_err {A E F} (f : E -> F) (r : result A E) : result A F :=
  match r with Ok a => Ok a | Err e => Err (f e) end.

Definition is_ok {A E} (r : result A E) : bool :=
  match r with Ok _ => true | Err _ => false end.

Definition ok_or {A E} (o : option A) (e : E) : result A E :=
  match o with Some a => Ok a | None => Err e end.

Definition M (S A : Type) : Type := S -> option (A * S).

#[export] Instance M_ret {S} : MRet (M S) := fun A a s => Some (a, s).
#[export] Instance M_bind {S} : MBind (M S) :=
  fun A B f m s => match m s with Some (a, s') => f a s' | None => None end.

Definition panic {S A} : M S A := fun _ => None.
Definition gets {S A} (f : S -> A) : M S A := fun s => Some (f s, s).
Definition modify {S} (f : S -> S) : M S unit := fun s => Some (tt, f s).

(** Run a computation on a component of the state. *)
Definition zoom {S T A} (get : S -> T) (set : T -> S -> S) (m : M T A) : M S A :=
  fun s => match m (get s) with Some (a, t) => Some (a, set t s) | None => None end.

(** [for x in l { f(x) }] *)
Fixpoint for_each {S A} (l : list A) (f : A -> M S unit) : M S unit :=
  match l with
  | [] => mret tt
  | x :: l' => f x ;; for_each l' f
  end.

Lemma M_bind_unfold {S A B} (m : M S A) (f : A -> M S B) (s : S) :
  (m ≫= f) s = match m s with Some (a, s') => f a s' | None => None end.
Proof. reflexivity. Qed.

Lemma for_each_app {S A} (l k : list A) (f : A -> M S unit) (s : S) :
  for_each (l ++ k) f s = (for_each l f ;; for_each k f) s.
Proof.
  revert s. induction l as [|x l IH]; intros s; [done|].
  cbn. unfold mbind, M_bind. destruct (f x s) as [[[] s']|]; [apply IH|done].
Qed.

(** A loop whose body only modifies the state is a fold. *)
Lemma for_each_modify {S A} (l : list A) (g : A -> S -> S) (s : S) :
  for_each l (fun x => modify (g x)) s = Some (tt, foldl (fun t x => g x t) s l).
Proof. revert s. induction l as [|x l IH]; intros s; [done|]. apply IH. Qed.

(** ** Total correctness

    [hoare P m Q]: from a state with [P] the computation returns, without a
    panic, and its result and final state satisfy [Q]. *)

Definition hoare {S A} (P : S -> Prop) (m : M S A) (Q : A -> S -> Prop) : Prop :=
  forall s, P s -> exists a s', m s = Some (a, s') /\ Q a s'.

Section Hoare.
Context {S : Type}.

Lemma hoare_ret {A} (P : S -> Prop) (a : A) (Q : A -> S -> Prop) :
  (forall s, P s -> Q a s) -> hoare P (mret a) Q.
Proof. intros H s Hs. by exists a, s; split; [|apply H]. Qed.

Lemma hoare_bind {A B} (P : S -> Prop) (m : M S A) (R : A -> S -> Prop) (f : A -> M S B) Q :
  hoare P m R -> (forall a, hoare (R a) (f a) Q) -> hoare P (m ≫= f) Q.
Proof.
  intros Hm Hf s Hs. destruct (Hm s Hs) as (a & s' & E & HR).
  rewrite M_bind_unfold, E. apply (Hf a s' HR).
Qed.

Lemma hoare_conseq {A} (P P' : S -> Prop) (m : M S A) (Q Q' : A -> S -> Prop) :
  hoare P m Q -> (forall s, P' s -> P s) -> (forall a s, Q a s -> Q' a s) -> hoare P' m Q'.
Proof. intros H HP HQ s Hs. destruct (H s (HP s Hs)) as (a & s' & E & HR). eauto. Qed.

Lemma hoare_pre {A} (P P' : S -> Prop) (m : M S A) (Q : A -> S -> Prop) :
  hoare P m Q -> (forall s, P' s -> P s) -> hoare P' m Q.
Proof. intros H HP. by apply (hoare_conseq P P' m Q Q). Qed.

Lemma hoare_post {A} (P : S -> Prop) (m : M S A) (Q Q' : A -> S -> Prop) :
  hoare P m Q -> (forall a s, Q a s -> Q' a s) -> hoare P m Q'.
Proof. intros H HQ. by apply (hoare_conseq P P m Q Q'). Qed.

Lemma hoare_gets {A} (P : S -> Prop) (f : S -> A) (Q : A -> S -> Prop) :
  (forall s, P s -> Q (f s) s) -> hoare P (gets f) Q.
Proof. intros H s Hs. eexists _, _. split; [reflexivity|auto]. Qed.

Lemma hoare_modify (P : S -> Prop) (f : S -> S) (Q : unit -> S -> Prop) :
  (forall s, P s -> Q tt (f s)) -> hoare P (modify f) Q.
Proof. intros H s Hs. eexists _, _. split; [reflexivity|auto]. Qed.

(** A fact that does not mention the state may be moved out of the
    precondition. *)
Lemma hoare_pure {A} (X : Prop) (P : S -> Prop) (m : M S A) (Q : A -> S -> Prop) :
  (X -> hoare P m Q) -> hoare (fun s => X /\ P s) m Q.
Proof. intros H s [HX Hs]. exact (H HX s Hs). Qed.

Lemma hoare_exists {A X} (P : X -> S -> Prop) (m : M S A) (Q : A -> S -> Prop) :
  (forall x, hoare (P x) m Q) -> hoare (fun s => exists x, P x s) m Q.
Proof. intros H s [x Hs]. exact (H x s Hs). Qed.

Lemma hoare_for_each {A} (I : list A -> S -> Prop) (l : list A) (f : A -> M S unit) :
  (forall done x rest, l = done ++ x :: rest -> hoare (I done) (f x) (fun _ => I (done ++ [x]))) ->
  hoare (I []) (for_each l f) (fun _ => I l).
Proof.
  intros Hf. enough (forall rest done, l = done ++ rest -> hoare (I done) (for_each rest f) (fun _ => I l))
    by (by apply (H l [])).
  induction rest as [|x rest IH]; intros done E; cbn [for_each].
  - apply hoare_ret. rewrite E, app_nil_r. done.
  - apply hoare_bind with (fun _ => I (done ++ [x])); [by apply (Hf done x rest)|].
    intros _. apply IH. by rewrite E, <- app_assoc.
Qed.

End Hoare.

Lemma hoare_zoom {S T A} (get : S -> T) (set : T -> S -> S) (m : M T A)
    (P : S -> Prop) (Q : A -> S -> Prop) :
  (forall s, P s -> exists a t, m (get s) = Some (a, t) /\ Q a (set t s)) ->
  hoare P (zoom get set m) Q.
Proof.
  intros H s Hs. destruct (H s Hs) as (a & t & E & HQ).
  unfold zoom. rewrite E. eauto.
Qed.

(** ** Slices

    [slice a b l] is [l.get(a..b)]. *)

Definition slice {A} (a b : nat) (l : list A) : option (list A) :=
  if bool_decide (a <= b <= length l)%nat then Some (take (b - a) (drop a l)) else None.

Lemma slice_length {A} a b (l k : list A) : slice a b l = Some k -> length k = (b - a)%nat.
Proof.
  unfold slice. case_bool_decide; [|done]. intros [= <-].
  rewrite length_take, length_drop. lia.
Qed.

Lemma slice_Some {A} a b (l : list A) :
  (a <= b <= length l)%nat -> slice a b l = Some (take (b - a) (drop a l)).
Proof. intros. unfold slice. by rewrite bool_decide_true. Qed.

Lemma slice_None {A} a b (l : list A) :
  (length l < b)%nat -> slice a b l = None.
Proof. intros. unfold slice. rewrite bool_decide_false; [done|lia]. Qed.

(** [l[a..a+k.len()].copy_from_slice(k)] *)
Definition splice {A} (a : nat) (k l : list A) : list A :=
  take a l ++ k ++ drop (a + length k) l.

Lemma splice_length {A} a (k l : list A) :
  (a + length k <= length l)%nat -> length (splice a k l) = length l.
Proof. intros. unfold splice. rewrite !length_app, length_take, length_drop. lia. Qed.

Lemma splice_lookup_out {A} a (k l : list A) i :
  (a + length k <= length l)%nat -> (i < a \/ a + length k <= i)%nat ->
  splice a k l !! i = l !! i.
Proof.
  intros Hl [Hi|Hi]; unfold splice.
  - rewrite lookup_app_l by (rewrite length_take; lia). by apply lookup_take_lt.
  - rewrite lookup_app_r by (rewrite length_take; lia).
    rewrite lookup_app_r by (rewrite length_take; lia).
    rewrite lookup_drop. f_equal. rewrite length_take. lia.
Qed.

Lemma splice_lookup_in {A} a (k l : list A) i :
  (a + length k <= length l)%nat -> (i < length k)%nat ->
  splice a k l !! (a + i)%nat = k !! i.
Proof.
  intros Hl Hi. unfold splice.
  rewrite lookup_app_r by (rewrite length_take; lia).
  rewrite length_take, lookup_app_l by lia. f_equal. lia.
Qed.

(** ** Little-endian words

    [le_word] is [uN::from_le_bytes], [le_bytes] is [to_le_bytes]; both chips
    families are little endian, so the [_ne_] variants are the same. *)

Fixpoint le_word (bs : list Z) : Z :=
  match bs with
  | [] => 0
  | b :: bs' => b + 256 * le_word bs'
  end.

Fixpoint le_bytes (n : nat) (v : Z) : list Z :=
  match n with
  | O => []
  | S n' => v mod 256 :: le_bytes n' (v / 256)
  end.

Lemma le_bytes_length n v : length (le_bytes n v) = n.
Proof. revert v. induction n; intros; cbn; auto. Qed.

Lemma le_word_bytes n v : le_word (le_bytes n v) = v mod 256 ^ Z.of_nat n.
Proof.
  revert v. induction n as [|n IH]; intros v; cbn [le_bytes le_word].
  - by rewrite Z.mod_1_r.
  - rewrite IH, Nat2Z.inj_succ, Z.pow_succ_r by lia.
    rewrite Z.rem_mul_r by lia. done.
Qed.

Lemma le_word_range bs :
  Forall is_u8 bs -> 0 <= le_word bs < 256 ^ Z.of_nat (length bs).
Proof.
  induction 1 as [|b bs Hb _ IH]; cbn [le_word length]; [lia|].
  unfold in_width in Hb. rewrite Nat2Z.inj_succ, Z.pow_succ_r by lia. lia.
Qed.

Lemma le_bytes_word bs : Forall is_u8 bs -> le_bytes (length bs) (le_word bs) = bs.
Proof.
  induction 1 as [|b bs Hb Hbs IH]; cbn [le_word le_bytes length]; [done|].
  unfold in_width in Hb. pose proof (le_word_range bs Hbs).
  rewrite (Z.mul_comm 256), Z.mod_add, Z.div_add by lia.
  by rewrite Z.mod_small, Z.div_small, Z.add_0_l, IH by lia.
Qed.

Lemma le_bytes_u8 n v : Forall is_u8 (le_bytes n v).
Proof.
  revert v. induction n as [|n IH]; intros v; cbn [le_bytes]; constructor; auto.
  unfold in_width. pose proof (Z.mod_pos_bound v 256). lia.
Qed.

(** ** Width lemmas *)

Lemma wrap_range w z : 0 <= w -> in_width w (wrap w z).
Proof. intros. unfold in_width, wrap. apply Z.mod_pos_bound. lia. Qed.

Lemma wrap_small w z : in_width w z -> wrap w z = z.
Proof. apply Z.mod_small. Qed.

Lemma wrap_idem w z : wrap w (wrap w z) = wrap w z.
Proof. unfold wrap. apply Zmod_mod. Qed.

Lemma pow2_half w : 0 < w -> 2 ^ w = 2 * 2 ^ (w - 1).
Proof. intros. rewrite <- Z.pow_succ_r by lia. f_equal. lia. Qed.

Lemma wrap_add_l w a b : wrap w (wrap w a + b) = wrap w (a + b).
Proof. apply Zplus_mod_idemp_l. Qed.

Lemma wrap_add_r w a b : wrap w (a + wrap w b) = wrap w (a + b).
Proof. apply Zplus_mod_idemp_r. Qed.

Lemma wrap_sub_l w a b : wrap w (wrap w a - b) = wrap w (a - b).
Proof. apply Zminus_mod_idemp_l. Qed.

Lemma wrap_sub_r w a b : wrap w (a - wrap w b) = wrap w (a - b).
Proof. apply Zminus_mod_idemp_r. Qed.

Lemma wrap_mul_l w a b : wrap w (wrap w a * b) = wrap w (a * b).
Proof. apply Zmult_mod_idemp_l. Qed.

Lemma wrap_mul_r w a b : wrap w (a * wrap w b) = wrap w (a * b).
Proof. apply Zmult_mod_idemp_r. Qed.

Lemma sext_range w z : 0 < w -> in_swidth w (sext w z).
Proof.
  intros. unfold in_swidth, sext. pose proof (wrap_range w z) as R.
  unfold in_width in R. pose proof (pow2_half w).
  destruct (Z.ltb_spec (wrap w z) (2 ^ (w - 1))); lia.
Qed.

Lemma sext_small w z : 0 < w -> in_swidth w z -> sext w z = z.
Proof.
  unfold in_swidth, sext, wrap. intros Hw Hz. pose proof (pow2_half w Hw).
  destruct (Z.le_gt_cases 0 z).
  - rewrite Z.mod_small by lia. destruct (Z.ltb_spec z (2 ^ (w - 1))); lia.
  - replace (z mod 2 ^ w) with (z + 2 ^ w).
    + destruct (Z.ltb_spec (z + 2 ^ w) (2 ^ (w - 1))); lia.
    + apply (Z.mod_unique_pos _ _ (-1)); lia.
Qed.

Lemma wrap_sext w z : 0 < w -> wrap w (sext w z) = wrap w z.
Proof.
  intros Hw. unfold sext. destruct (_ <? _); [apply wrap_idem|].
  unfold wrap. rewrite <- (Z.mod_add (z mod 2 ^ w - 2 ^ w) 1) by lia.
  rewrite Z.mul_1_l, Z.sub_add. apply Zmod_mod.
Qed.

Lemma sext_wrap w z : sext w (wrap w z) = sext w z.
Proof. unfold sext. by rewrite wrap_idem. Qed.

Lemma sext_cong w a b : wrap w a = wrap w b -> sext w a = sext w b.
Proof. intros Hw. unfold sext. by rewrite Hw. Qed.

Lemma sext_u32 z : in_swidth 32 z -> i32 (u32 z) = z.
Proof. intros Hz. rewrite sext_wrap. by apply sext_small. Qed.

Lemma wrap_wrap v w z : 0 <= v <= w -> wrap v (wrap w z) = wrap v z.
Proof.
  intros Hv. unfold wrap. apply Z.mod_mod_divide. exists (2 ^ (w - v)). rewrite <- Z.pow_add_r by lia. f_equal. lia.
Qed.

Lemma sext_wrap_wide v w z : 0 <= v <= w -> sext v (wrap w z) = sext v z.
Proof. intros Hv. unfold sext. by rewrite wrap_wrap. Qed.

(** ** Bits *)

Lemma land_le_r a b : 0 <= b -> 0 <= Z.land a b <= b.
Proof.
  intros Hb. split; [apply Z.land_nonneg; auto|].
  enough (0 <= b - Z.land a b) by lia.
  rewrite Z.sub_nocarry_ldiff.
  - apply Z.ldiff_nonneg. auto.
  - apply Z.bits_inj'. intros n Hn. rewrite Z.ldiff_spec, Z.land_spec, Z.bits_0.
    by destruct (Z.testbit a n), (Z.testbit b n).
Qed.

Lemma land_ones_mod a w : 0 <= w -> Z.land a (Z.ones w) = a mod 2 ^ w.
Proof. apply Z.land_ones. Qed.

(** Two [w]-bit words are equal when their bits are. *)
Lemma width_bits_ext w a b :
  0 <= w -> in_width w a -> in_width w b ->
  (forall i, 0 <= i < w -> Z.testbit a i = Z.testbit b i) -> a = b.
Proof.
  intros Hw Ha Hb H. apply Z.bits_inj'. intros i Hi.
  destruct (Z.lt_ge_cases i w); [auto|].
  rewrite <- (wrap_small w a Ha), <- (wrap_small w b Hb). unfold wrap.
  by rewrite !Z.mod_pow2_bits_high by lia.
Qed.

Lemma testbit_high w a i : in_width w a -> 0 <= w <= i -> Z.testbit a i = false.
Proof.
  intros Ha Hi. rewrite <- (wrap_small w a Ha). unfold wrap.
  by apply Z.mod_pow2_bits_high.
Qed.

Lemma land_disjoint n a b : 0 <= n -> 0 <= b < 2 ^ n -> Z.land (a * 2 ^ n) b = 0.
Proof.
  intros Hn Hb. apply Z.bits_inj'. intros i Hi. rewrite Z.land_spec, Z.bits_0.
  destruct (Z.lt_ge_cases i n).
  - by rewrite Z.mul_pow2_bits_low.
  - destruct (Z.eq_dec b 0) as [->|]; [by rewrite Z.bits_0, andb_false_r|].
    rewrite (Z.bits_above_log2 b), andb_false_r; [done|lia|].
    eapply Z.lt_le_trans; [|exact H]. apply Z.log2_lt_pow2; lia.
Qed.

Lemma lor_disjoint_add n a b : 0 <= n -> 0 <= b < 2 ^ n -> Z.lor (a * 2 ^ n) b = a * 2 ^ n + b.
Proof.
  intros Hn Hb. pose proof (land_disjoint n a b Hn Hb) as Hl.
  by rewrite Z.add_nocarry_lxor, Z.lxor_lor.
Qed.

Lemma lor_width w a b : 0 <= w -> in_width w a -> in_width w b -> in_width w (Z.lor a b).
Proof.
  intros Hw Ha Hb. unfold in_width in *.
  split; [apply Z.lor_nonneg; lia|].
  destruct (Z.eq_dec (Z.lor a b) 0) as [->|]; [lia|].
  apply Z.log2_lt_pow2; [|].
  { assert (0 <= Z.lor a b) by (apply Z.lor_nonneg; lia). lia. }
  rewrite Z.log2_lor by lia.
  destruct (Z.eq_dec a 0) as [->|], (Z.eq_dec b 0) as [->|]; cbn; try done.
  - rewrite Z.max_r by (cbn; apply Z.log2_nonneg). apply Z.log2_lt_pow2; lia.
  - rewrite Z.max_l by (cbn; apply Z.log2_nonneg). apply Z.log2_lt_pow2; lia.
  - apply Z.max_lub_lt; apply Z.log2_lt_pow2; lia.
Qed.

Lemma land_width w a b : in_width w b -> in_width w (Z.land a b).
Proof. intros [H1 H2]. pose proof (land_le_r a b H1). unfold in_width. lia. Qed.

(** ** Automation

    [width] discharges range side conditions; [case_bool] splits the boolean
    tests of the goal; [step] unfolds one monadic bind. *)

Create HintDb hal.
Create Rewrite HintDb hal_rw.
#[export] Hint Resolve wrap_range sext_range : hal.

Ltac width :=
  unfold in_width, in_swidth in *;
  repeat match goal with |- context [2 ^ ?n] => is_ground n; let v := eval compute in (2 ^ n) in change (2 ^ n) with v end;
  repeat match goal with H : context [2 ^ ?n] |- _ => is_ground n; let v := eval compute in (2 ^ n) in change (2 ^ n) with v in H end;
  try lia.

Ltac case_bool :=
  repeat match goal with
  | |- context [?a =? ?b] => destruct (Z.eqb_spec a b)
  | |- context [?a <? ?b] => destruct (Z.ltb_spec a b)
  | |- context [?a <=? ?b] => destruct (Z.leb_spec a b)
  | |- context [bool_decide ?P] => case_bool_decide
  end.

Ltac inv_some :=
  repeat match goal with
  | H : Some _ = Some _ |- _ => injection H as H; subst
  | H : Some _ = None |- _ => discriminate H
  | H : None = Some _ |- _ => discriminate H
  | H : (_, _) = (_, _) |- _ => injection H as H; subst
  end.

(** Decide a closed proposition by evaluation. *)
Ltac decide_now := apply (bool_decide_unpack _); vm_compute; exact I.

(** Unfold the binds of the state monad in a hypothesis or the goal. *)
Ltac unmonad := unfold mbind, M_bind, mret, M_ret, gets, modify, panic, zoom in *; cbn in *.

(** ** Bit extensionality

    [bits_of E] pushes [Z.testbit] through the bitwise operators; [bit_cases i]
    enumerates a bit index below 32 so that the bits of literals compute. *)

Lemma in_seqZ m lo n : lo <= m < lo + n -> m ∈ seqZ lo n.
Proof. intros. by apply elem_of_seqZ. Qed.

(** Enumerate an integer confined to an explicit list. *)
Ltac enum_in H :=
  repeat match type of H with
  | _ ∈ _ :: _ => apply elem_of_cons in H as [->|H]
  | _ ∈ [] => by apply not_elem_of_nil in H
  end.

Ltac bit_range i lo n :=
  let H := fresh in
  assert (i ∈ seqZ lo n) as H by (apply in_seqZ; lia);
  vm_compute seqZ in H; enum_in H.

Ltac bit_cases i n := bit_range i 0 n.

Lemma shiftl_testbit a n i : 0 <= n -> 0 <= i ->
  Z.testbit (Z.shiftl a n) i = (n <=? i) && Z.testbit a (i - n).
Proof.
  intros Hn Hi. rewrite Z.shiftl_spec by lia.
  destruct (Z.leb_spec n i); [done|]. by rewrite Z.testbit_neg_r by lia.
Qed.

Lemma wrap_testbit w a i : 0 <= w -> 0 <= i ->
  Z.testbit (wrap w a) i = (i <? w) && Z.testbit a i.
Proof. intros. unfold wrap. by rewrite Z.testbit_mod_pow2 by lia. Qed.

Create Rewrite HintDb hal_bits.
#[export] Hint Rewrite Z.lor_spec Z.land_spec Z.lxor_spec Z.lnot_spec Z.ldiff_spec
  shiftl_testbit Z.shiftr_spec wrap_testbit Z.bits_0 using lia : hal_bits.

(** Decide an equality of bits at a concrete position. *)
Ltac bit_solve :=
  autorewrite with hal_bits; cbn -[Z.testbit wrap sext];
  repeat match goal with
  | |- context [Z.testbit (Zpos ?p) ?n] => let v := eval vm_compute in (Z.testbit (Zpos p) n) in change (Z.testbit (Zpos p) n) with v
  | |- context [Z.testbit (Zneg ?p) ?n] => let v := eval vm_compute in (Z.testbit (Zneg p) n) in change (Z.testbit (Zneg p) n) with v
  | |- context [Z.testbit Z0 ?n] => change (Z.testbit Z0 n) with false
  end;
  rewrite ?andb_false_r, ?andb_true_r, ?orb_false_r, ?orb_true_r, ?andb_false_l, ?andb_true_l; cbn -[Z.testbit].
