(* ===== verification/Program.v ===== *)
(** * Programs over a hardware interface

    The PHY modules are generic over an [Access] trait: every effect they have
    is a call of one of its methods.  A module is a [prog E A]: a tree of calls
    [E], each continuing with the answer of the environment, an integer; the
    answer of a method that returns nothing is ignored.  [Crash] is a panic.

    [exec] runs a program against a handler, a function of the call and of a
    state of any type, so a theorem about every handler is about every
    environment.  [wp] is the weakest precondition calculus by which such
    theorems are proved; [exec_wp] is its soundness. *)

From S2P Require Import Prelude.

Inductive prog (E A : Type) : Type :=
| Ret (a : A)
| Do (e : E) (k : Z -> prog E A)
| Crash.
Arguments Ret {E A} a.
Arguments Do {E A} e k.
Arguments Crash {E A}.

#[export] Instance prog_ret {E} : MRet (prog E) := fun A a => Ret a.

Fixpoint prog_bind_def {E A B} (f : A -> prog E B) (p : prog E A) : prog E B :=
  match p with
  | Ret a => f a
  | Do e k => Do e (fun x => prog_bind_def f (k x))
  | Crash => Crash
  end.

#[export] Instance prog_bind {E} : MBind (prog E) := fun A B f p => prog_bind_def f p.

Definition call {E} (e : E) : prog E Z := Do e Ret.

(** [assert!] *)
Definition assert {E} (b : bool) : prog E unit := if b then Ret tt else Crash.

(** ** Loops *)

Inductive flow (B : Type) := Next (b : B) | Break (b : B).
Arguments Next {B} b.
Arguments Break {B} b.

(** A [for] loop that carries [b] and can be left by [Break]. *)
Fixpoint for_loop {E I B} (l : list I) (b : B) (body : I -> B -> prog E (flow B)) : prog E B :=
  match l with
  | [] => Ret b
  | i :: l' =>
      r ← body i b;
      match r with
      | Next b' => for_loop l' b' body
      | Break b' => Ret b'
      end
  end.

(** A [for] loop without state or [break]. *)
Fixpoint for_all {E I} (l : list I) (body : I -> prog E unit) : prog E unit :=
  match l with
  | [] => Ret tt
  | i :: l' => body i ;; for_all l' body
  end.

(** A [for] loop that carries a value. *)
Definition for_each_with {E I B} (l : list I) (b : B) (f : I -> B -> prog E B) : prog E B :=
  for_loop l b (fun i b => b' ← f i b; mret (Next b')).

(** [a..b] *)
Definition range (a b : nat) : list Z := Z.of_nat <$> seq a (b - a).

(** ** Execution *)

Fixpoint exec {E S A} (h : E -> S -> Z * S) (p : prog E A) (s : S) : option (A * S) :=
  match p with
  | Ret a => Some (a, s)
  | Do e k => let '(x, s') := h e s in exec h (k x) s'
  | Crash => None
  end.

(** An environment that answers by the history of the calls, which it keeps. *)
Definition logged {E} (answer : list (E * Z) -> E -> Z) (e : E) (tr : list (E * Z)) : Z * list (E * Z) :=
  (answer tr e, tr ++ [(e, answer tr e)]).

(** Replace the calls of some methods by programs. *)
Fixpoint link_with {E A} (body : E -> option (prog E Z)) (p : prog E A) : prog E A :=
  match p with
  | Ret a => Ret a
  | Crash => Crash
  | Do e k =>
      match body e with
      | Some q => q ≫= (fun x => link_with body (k x))
      | None => Do e (fun x => link_with body (k x))
      end
  end.

(** ** Weakest preconditions

    [R e s x s'] says that in state [s] the environment may answer [x] to [e]
    and move to [s']; [G e s] is what the program must ensure when it calls
    [e]. *)
Section Wp.
Context {E S : Type}.
Variable G : E -> S -> Prop.
Variable R : E -> S -> Z -> S -> Prop.

Fixpoint wp {A} (p : prog E A) (Q : A -> S -> Prop) (s : S) : Prop :=
  match p with
  | Ret a => Q a s
  | Do e k => G e s /\ forall x s', R e s x s' -> wp (k x) Q s'
  | Crash => False
  end.

Lemma wp_mono {A} (p : prog E A) (Q Q' : A -> S -> Prop) s :
  (forall a s', Q a s' -> Q' a s') -> wp p Q s -> wp p Q' s.
Proof.
  intros HQ. revert s. induction p as [a|e k IH|]; intros s; simpl; auto.
  intros [? Hk]. split; [done|]. intros x s' Hx. by apply IH, Hk.
Qed.

Lemma wp_bind {A B} (p : prog E A) (f : A -> prog E B) Q s :
  wp p (fun a s' => wp (f a) Q s') s -> wp (p ≫= f) Q s.
Proof.
  revert s. unfold mbind, prog_bind. induction p as [a|e k IH|]; intros s; simpl; auto.
  intros [? Hk]. split; [done|]. intros x s' Hx. by apply IH, Hk.
Qed.

Lemma wp_ret {A} (a : A) (Q : A -> S -> Prop) s : Q a s -> wp (mret a) Q s.
Proof. done. Qed.

Lemma wp_call e (Q : Z -> S -> Prop) s :
  G e s -> (forall x s', R e s x s' -> Q x s') -> wp (call e) Q s.
Proof. by split. Qed.

Lemma wp_assert b (Q : unit -> S -> Prop) s : b = true -> Q tt s -> wp (assert b) Q s.
Proof. by intros ->. Qed.

Lemma wp_for_loop {I B} (Inv : list I -> B -> S -> Prop) (l : list I) b body (Q : B -> S -> Prop) s :
  Inv l b s ->
  (forall i l' b s, Inv (i :: l') b s ->
     wp (body i b) (fun r s' => match r with Next b' => Inv l' b' s' | Break b' => Q b' s' end) s) ->
  (forall b s, Inv [] b s -> Q b s) ->
  wp (for_loop l b body) Q s.
Proof.
  intros Hinv Hbody Hend. revert b s Hinv. induction l as [|i l IH]; intros b s Hinv; simpl; auto.
  apply wp_bind. eapply wp_mono, Hbody, Hinv. intros [b'|b'] s'; simpl; auto.
Qed.

Lemma wp_for_all {I} (Inv : list I -> S -> Prop) (l : list I) body (Q : unit -> S -> Prop) s :
  Inv l s ->
  (forall i l' s, Inv (i :: l') s -> wp (body i) (fun _ s' => Inv l' s') s) ->
  (forall s, Inv [] s -> Q tt s) ->
  wp (for_all l body) Q s.
Proof.
  intros Hinv Hbody Hend. revert s Hinv. induction l as [|i l IH]; intros s Hinv; simpl; auto.
  apply wp_bind. eapply wp_mono, Hbody, Hinv. intros [] s'; simpl; auto.
Qed.

Lemma wp_for_range (Inv : nat -> S -> Prop) a n body (Q : unit -> S -> Prop) s :
  (a <= n)%nat -> Inv a s ->
  (forall k s, (a <= k < n)%nat -> Inv k s -> wp (body (Z.of_nat k)) (fun _ s' => Inv (Datatypes.S k) s') s) ->
  (forall s, Inv n s -> Q tt s) ->
  wp (for_all (range a n) body) Q s.
Proof.
  intros Han Ha Hstep Hend.
  apply (wp_for_all (fun rest s => exists k, (a <= k <= n)%nat /\ rest = range k n /\ Inv k s)).
  - exists a. split_and!; [lia..|done|done].
  - intros i l s0 (k & Hk & Hrest & HI). unfold range in Hrest.
    destruct (n - k)%nat as [|j] eqn:Hj; cbn [seq fmap list_fmap] in Hrest; simplify_eq.
    eapply wp_mono; [|apply Hstep; [lia|exact HI]]. intros ? s1 HI'. exists (Datatypes.S k).
    split_and!; [lia..| |done]. unfold range. by replace (n - Datatypes.S k)%nat with j by lia.
  - intros s0 (k & Hk & Hrest & HI). unfold range in Hrest.
    destruct (n - k)%nat as [|j] eqn:Hj; [|done]. apply Hend. by replace n with k by lia.
Qed.

Lemma wp_for_each_with {I B} (Inv : list I -> B -> S -> Prop) (l : list I) b body (Q : B -> S -> Prop) s :
  Inv l b s ->
  (forall i l' b s, Inv (i :: l') b s -> wp (body i b) (fun b' s' => Inv l' b' s') s) ->
  (forall b s, Inv [] b s -> Q b s) ->
  wp (for_each_with l b body) Q s.
Proof.
  intros Hinv Hbody Hend. apply (wp_for_loop Inv); auto.
  intros i l' b0 s0 Hi. apply wp_bind. eapply wp_mono, Hbody, Hi. done.
Qed.

Lemma wp_for_each_range {B} (Inv : nat -> B -> S -> Prop) a n b body (Q : B -> S -> Prop) s :
  (a <= n)%nat -> Inv a b s ->
  (forall k b s, (a <= k < n)%nat -> Inv k b s -> wp (body (Z.of_nat k) b) (fun b' s' => Inv (Datatypes.S k) b' s') s) ->
  (forall b s, Inv n b s -> Q b s) ->
  wp (for_each_with (range a n) b body) Q s.
Proof.
  intros Han Ha Hstep Hend.
  apply (wp_for_each_with (fun rest b s => exists k, (a <= k <= n)%nat /\ rest = range k n /\ Inv k b s)).
  - exists a. split_and!; [lia..|done|done].
  - intros i l b0 s0 (k & Hk & Hrest & HI). unfold range in Hrest.
    destruct (n - k)%nat as [|j] eqn:Hj; cbn [seq fmap list_fmap] in Hrest; simplify_eq.
    eapply wp_mono; [|apply Hstep; [lia|exact HI]]. intros ? s1 HI'. exists (Datatypes.S k).
    split_and!; [lia..| |done]. unfold range. by replace (n - Datatypes.S k)%nat with j by lia.
  - intros b0 s0 (k & Hk & Hrest & HI). unfold range in Hrest.
    destruct (n - k)%nat as [|j] eqn:Hj; [|done]. apply Hend. by replace n with k by lia.
Qed.

(** A handler that behaves as [R] when called as [G] demands. *)
Definition obeys_contract (h : E -> S -> Z * S) : Prop :=
  forall e s, G e s -> R e s (h e s).1 (h e s).2.

Lemma exec_wp {A} h (p : prog E A) Q s :
  obeys_contract h -> wp p Q s -> exists a s', exec h p s = Some (a, s') /\ Q a s'.
Proof.
  intros Hh. revert s. induction p as [a|e k IH|]; intros s; simpl; [by eauto| |done].
  intros [HG Hk]. specialize (Hh e s HG). destruct (h e s) as [x s']. by eapply IH, Hk.
Qed.

End Wp.

Lemma exec_bind {E S A B} (h : E -> S -> Z * S) (p : prog E A) (f : A -> prog E B) s :
  exec h (p ≫= f) s = '(a, s') ← exec h p s; exec h (f a) s'.
Proof.
  unfold mbind at 1, prog_bind. revert s. induction p as [a|e k IH|]; intros s; simpl; auto.
  destruct (h e s) as [x s']. apply IH.
Qed.

Lemma exec_call {E S} (h : E -> S -> Z * S) e s : exec h (call e) s = Some (h e s).
Proof. simpl. by destruct (h e s). Qed.

(** ** History environments *)

Definition any_reply {E} (ok : E -> Z -> Prop) (e : E) (tr : list (E * Z)) (x : Z) (tr' : list (E * Z)) : Prop :=
  ok e x /\ tr' = tr ++ [(e, x)].

Definition no_guard {E S} (e : E) (s : S) : Prop := True.

Lemma logged_obeys {E} (ok : E -> Z -> Prop) answer :
  (forall tr e, ok e (answer tr e)) ->
  obeys_contract (E := E) no_guard (any_reply ok) (logged answer).
Proof. intros Hok e tr _. by split; [apply Hok|]. Qed.

(** A guard on the calls holds of every call of a run. *)
Lemma wp_logged {E A} (allowed : E -> Prop) (ok : E -> Z -> Prop) (p : prog E A) Q answer tr0 :
  (forall tr e, ok e (answer tr e)) -> wp (fun e _ => allowed e) (any_reply ok) p Q tr0 ->
  exists a tr, exec (logged answer) p tr0 = Some (a, tr0 ++ tr) /\ Forall (fun c => allowed c.1) tr /\ Q a (tr0 ++ tr).
Proof.
  intros Hok. revert tr0. induction p as [a|e k IH|]; intros tr0 Hw; simpl in Hw; [| |done].
  - exists a, []. by rewrite app_nil_r.
  - destruct Hw as [He Hk]. destruct (IH (answer tr0 e) (tr0 ++ [(e, answer tr0 e)])) as (a & tr & Hx & Hf & HQ).
    { apply Hk. by split. }
    exists a, ((e, answer tr0 e) :: tr). rewrite <- app_assoc in Hx, HQ. simpl. by split_and!; [|constructor|].
Qed.

(** Step through a program: binds, calls, returns. *)
Ltac wp_step :=
  lazymatch goal with
  | |- wp _ _ (_ ≫= _) _ _ => apply wp_bind
  | |- wp _ _ (mret _) _ _ => apply wp_ret
  | |- wp _ _ (Ret _) _ _ => apply wp_ret
  | |- wp _ _ (call _) _ _ => apply wp_call
  | |- wp _ _ (assert _) _ _ => apply wp_assert
  end.

(** ** Frames: what a program calls, whatever the answers are *)

Fixpoint calls_only {E A} (P : E -> Prop) (p : prog E A) : Prop :=
  match p with
  | Ret _ => True
  | Do e k => P e /\ forall x, calls_only P (k x)
  | Crash => False
  end.

Lemma calls_only_bind {E A B} (P : E -> Prop) (p : prog E A) (f : A -> prog E B) :
  calls_only P p -> (forall a, calls_only P (f a)) -> calls_only P (p ≫= f).
Proof.
  intros Hp Hf. revert Hp. unfold mbind, prog_bind. induction p as [a|e k IH|]; simpl; auto.
  intros [? Hk]. split; auto.
Qed.

Lemma calls_only_for_loop {E I B} (P : E -> Prop) (l : list I) (b : B) body :
  (forall i b, calls_only P (body i b)) -> calls_only P (for_loop l b body).
Proof.
  intros Hbody. revert b. induction l as [|i l IH]; intros b; simpl; [done|].
  apply calls_only_bind; [done|]. by intros [].
Qed.

Lemma calls_only_for_all {E I} (P : E -> Prop) (l : list I) body :
  (forall i, calls_only P (body i)) -> calls_only P (for_all l body).
Proof. intros Hbody. induction l as [|i l IH]; simpl; [done|]. by apply calls_only_bind. Qed.

Lemma calls_only_range {E} (P : E -> Prop) a n body :
  (forall k, (a <= k < n)%nat -> calls_only P (body (Z.of_nat k))) -> calls_only P (for_all (range a n) body).
Proof.
  intros Hbody. unfold range. remember (n - a)%nat as d eqn:Hd. revert a Hd Hbody.
  induction d as [|d IH]; intros a Hd Hbody; cbn [seq fmap list_fmap for_all]; [done|].
  apply calls_only_bind; [apply Hbody; lia|]. intros _. apply IH; [lia|]. intros k Hk. apply Hbody. lia.
Qed.

Lemma calls_only_link {E A} (P : E -> Prop) body (p : prog E A) :
  calls_only (fun e => match body e with Some q => calls_only P q | None => P e end) p ->
  calls_only P (link_with body p).
Proof.
  induction p as [a|e k IH|]; simpl; auto. intros [He Hk]. destruct (body e) as [q|]; simpl; auto.
  apply calls_only_bind; auto.
Qed.

Lemma wp_frame {E S A} G R (P : E -> Prop) (I : S -> Prop) (p : prog E A) s :
  calls_only P p ->
  (forall e s, P e -> I s -> G e s) ->
  (forall e s x s', P e -> I s -> R e s x s' -> I s') ->
  I s -> wp G R p (fun _ s' => I s') s.
Proof.
  intros Hp HG HR. revert s Hp. induction p as [a|e k IH|]; intros s; simpl; auto.
  intros [He Hk] HI. split; [by apply HG|]. intros x s' Hx. apply IH; [done|]. by eapply HR.
Qed.

(** ** Counting calls *)

(** The calls of a kind that a run makes. *)
Fixpoint count_calls {E S A} (P : E -> bool) (h : E -> S -> Z * S) (p : prog E A) (s : S) : nat :=
  match p with
  | Do e k => let '(x, s') := h e s in ((if P e then 1 else 0) + count_calls P h (k x) s')%nat
  | _ => 0%nat
  end.

(** At most [n] calls of a kind, whatever they answer. *)
Fixpoint at_most {E A} (P : E -> bool) (n : nat) (p : prog E A) : Prop :=
  match p with
  | Do e k =>
      if P e then match n with O => False | S n' => forall x, at_most P n' (k x) end
      else forall x, at_most P n (k x)
  | _ => True
  end.

Lemma count_at_most {E S A} (P : E -> bool) h (p : prog E A) (s : S) n :
  at_most P n p -> (count_calls P h p s <= n)%nat.
Proof.
  revert n s. induction p as [a|e k IH|]; intros n s Hp; simpl in *; [lia| |lia].
  destruct (h e s) as [x s']. destruct (P e); [|by apply IH].
  destruct n as [|n]; [done|]. specialize (IH x n s' (Hp x)). lia.
Qed.

Lemma at_most_mono {E A} (P : E -> bool) n m (p : prog E A) : (n <= m)%nat -> at_most P n p -> at_most P m p.
Proof.
  revert n m. induction p as [a|e k IH|]; intros n m Hnm; simpl; auto. destruct (P e).
  - destruct n as [|n]; [done|]. destruct m as [|m]; [lia|]. intros Hk x. apply (IH x n m); [lia|done].
  - intros Hk x. by apply (IH x n m).
Qed.

Lemma at_most_bind {E A B} (P : E -> bool) n m (p : prog E A) (f : A -> prog E B) :
  at_most P n p -> (forall a, at_most P m (f a)) -> at_most P (n + m) (p ≫= f).
Proof.
  intros Hp Hf. unfold mbind, prog_bind. revert n Hp. induction p as [a|e k IH|]; intros n Hp; simpl in *.
  - apply (at_most_mono P m); [lia|done].
  - destruct (P e); [|auto]. destruct n as [|n]; [done|]. simpl. auto.
  - done.
Qed.

Lemma at_most_for_loop {E I B} (P : E -> bool) n (l : list I) (b : B) body :
  (forall i b, at_most P n (body i b)) -> at_most P (length l * n) (for_loop l b body).
Proof.
  intros Hb. revert b. induction l as [|i l IH]; intros b; simpl; [done|].
  apply at_most_bind; [done|]. by intros [].
Qed.

Lemma at_most_none {E A} (P : E -> bool) (p : prog E A) : calls_only (fun e => P e = false) p -> at_most P 0 p.
Proof. induction p as [a|e k IH|]; simpl; [done| |done]. intros [-> Hk] x. auto. Qed.

(** Prove [calls_only] by walking through a program. *)
Ltac calls_step :=
  lazymatch goal with
  | |- calls_only _ (_ ≫= _) => apply calls_only_bind; [|intros ?]
  | |- calls_only _ (for_loop _ _ _) => apply calls_only_for_loop; intros ? ?
  | |- calls_only _ (for_all _ _) => apply calls_only_for_all; intros ?
  | |- calls_only _ (mret _) => exact I
  | |- calls_only _ (Ret _) => exact I
  | |- calls_only _ (call _) => split; [|intros ?; exact I]
  | |- calls_only _ (if ?b then _ else _) => destruct b
  | |- calls_only _ (let '(_, _) := ?x in _) => destruct x
  end.

(** ** Byte memory *)

Abbreviation mem := (Z -> Z).

Definition mem_read (m : mem) (a w : Z) : Z := le_word ((fun i => m (a + Z.of_nat i)) <$> seq 0 (Z.to_nat w)).

Definition mem_write (m : mem) (a w v : Z) : mem :=
  fun b => if a <=? b then default (m b) (le_bytes (Z.to_nat w) v !! Z.to_nat (b - a)) else m b.

Lemma mem_read_ext m m' a w :
  (forall b, a <= b < a + w -> m b = m' b) -> mem_read m a w = mem_read m' a w.
Proof.
  intros Hm. unfold mem_read. f_equal. apply list_fmap_ext. intros i x Hx.
  apply lookup_seq in Hx as [-> ?]. apply Hm. lia.
Qed.

Lemma mem_write_out m a w v b : b < a \/ a + w <= b -> mem_write m a w v b = m b.
Proof.
  intros Hb. unfold mem_write. destruct (Z.leb_spec a b); [|done].
  rewrite lookup_ge_None_2; [done|]. rewrite le_bytes_length. lia.
Qed.

Lemma mem_read_write_same m a w v : 0 <= w -> mem_read (mem_write m a w v) a w = v mod 256 ^ w.
Proof.
  intros Hw. unfold mem_read.
  assert ((fun i => mem_write m a w v (a + Z.of_nat i)) <$> seq 0 (Z.to_nat w) = le_bytes (Z.to_nat w) v) as ->.
  { apply list_eq. intros i. rewrite list_lookup_fmap. destruct (decide (i < Z.to_nat w)%nat) as [Hi|Hi].
    - rewrite lookup_seq_lt by done. cbn [fmap option_fmap option_map]. unfold mem_write.
      rewrite (proj2 (Z.leb_le _ _)) by lia. replace (a + Z.of_nat (0 + i) - a) with (Z.of_nat i) by lia.
      rewrite Nat2Z.id. destruct (lookup_lt_is_Some_2 (le_bytes (Z.to_nat w) v) i) as [x ->]; [by rewrite le_bytes_length|done].
    - rewrite (lookup_ge_None_2 (le_bytes _ _)) by (rewrite le_bytes_length; lia).
      by rewrite lookup_ge_None_2 by (rewrite length_seq; lia). }
  rewrite le_word_bytes. f_equal. f_equal. lia.
Qed.

Lemma mem_read_write_other m a w v a' w' :
  a' + w' <= a \/ a + w <= a' -> mem_read (mem_write m a w v) a' w' = mem_read m a' w'.
Proof. intros Ha. apply mem_read_ext. intros b Hb. apply mem_write_out. lia. Qed.

Lemma mem_write_byte m a w v b : (forall b, is_u8 (m b)) -> is_u8 (mem_write m a w v b).
Proof.
  intros Hm. unfold mem_write. destruct (a <=? b); [|apply Hm].
  destruct (le_bytes _ _ !! _) as [x|] eqn:Hx; [|apply Hm]. simpl.
  by eapply (Forall_lookup_1 is_u8); [apply le_bytes_u8|].
Qed.

Lemma mem_read_range m a w : (forall b, is_u8 (m b)) -> 0 <= w -> 0 <= mem_read m a w < 256 ^ w.
Proof.
  intros Hm Hw. unfold mem_read.
  assert (Forall is_u8 ((fun i => m (a + Z.of_nat i)) <$> seq 0 (Z.to_nat w))) as Hf.
  { apply Forall_fmap, Forall_true. intros i. apply Hm. }
  apply le_word_range in Hf. rewrite length_fmap, length_seq in Hf. by rewrite Z2Nat.id in Hf.
Qed.

Lemma mem_read_1 m a : mem_read m a 1 = m a.
Proof.
  unfold mem_read. change (seq 0 (Z.to_nat 1)) with [0%nat]. cbn [fmap list_fmap le_word].
  change (Z.of_nat 0) with 0. by rewrite Z.mul_0_r, !Z.add_0_r.
Qed.

Lemma mem_write_1 m a v : mem_write m a 1 v a = u8 v.
Proof. rewrite <- mem_read_1. by rewrite mem_read_write_same. Qed.

(** Two areas do not overlap. *)
Definition apart (a w b v : Z) : Prop := a + w <= b \/ b + v <= a.

Lemma calls_only_mono {E A} (P P' : E -> Prop) (p : prog E A) :
  (forall e, P e -> P' e) -> calls_only P p -> calls_only P' p.
Proof. intros HP. induction p as [a|e k IH|]; simpl; auto. intros [? Hk]. auto. Qed.

(** ** Weakest preconditions of linked programs *)
Section Wpl.
Context {E S : Type}.
Variable G : E -> S -> Prop.
Variable R : E -> S -> Z -> S -> Prop.
Variable body : E -> option (prog E Z).

Fixpoint wpl {A} (p : prog E A) (Q : A -> S -> Prop) (s : S) : Prop :=
  match p with
  | Ret a => Q a s
  | Crash => False
  | Do e k =>
      match body e with
      | Some q => wp G R q (fun x s' => wpl (k x) Q s') s
      | None => G e s /\ forall x s', R e s x s' -> wpl (k x) Q s'
      end
  end.

Lemma wpl_mono {A} (p : prog E A) (Q Q' : A -> S -> Prop) s :
  (forall a s', Q a s' -> Q' a s') -> wpl p Q s -> wpl p Q' s.
Proof.
  intros HQ. revert s. induction p as [a|e k IH|]; intros s; simpl; auto. destruct (body e) as [q|].
  - apply wp_mono. auto.
  - intros [? Hk]. split; [done|]. auto.
Qed.

Lemma wpl_sound {A} (p : prog E A) Q s : wpl p Q s -> wp G R (link_with body p) Q s.
Proof.
  revert s. induction p as [a|e k IH|]; intros s; simpl; auto. destruct (body e) as [q|].
  - intros Hq. apply wp_bind. eapply wp_mono, Hq. auto.
  - intros [? Hk]. split; [done|]. auto.
Qed.

Lemma wpl_bind {A B} (p : prog E A) (f : A -> prog E B) Q s :
  wpl p (fun a s' => wpl (f a) Q s') s -> wpl (p ≫= f) Q s.
Proof.
  revert s. unfold mbind, prog_bind. induction p as [a|e k IH|]; intros s; simpl; auto. destruct (body e) as [q|].
  - apply wp_mono. auto.
  - intros [? Hk]. split; [done|]. auto.
Qed.

Lemma wpl_call e q (Q : Z -> S -> Prop) s : body e = Some q -> wp G R q Q s -> wpl (call e) Q s.
Proof. intros He. simpl. by rewrite He. Qed.

Lemma wpl_unlinked {A} (p : prog E A) Q s :
  calls_only (fun e => body e = None) p -> wp G R p Q s -> wpl p Q s.
Proof.
  revert s. induction p as [a|e k IH|]; intros s; simpl; auto. intros [He Hk]. rewrite He.
  intros [? Hr]. split; [done|]. auto.
Qed.

End Wpl.

(** ** Protocols

    A protocol is an automaton over calls and answers; [None] is a violation.
    [respects] says that whatever the environment answers, as long as each
    answer is possible by [ok], the program returns and its whole trace is
    accepted. *)
Section Protocol.
Context {E St : Type}.
Variable step : E -> Z -> St -> option St.
Variable ok : E -> Z -> Prop.

Fixpoint accepts (tr : list (E * Z)) (st : St) : option St :=
  match tr with
  | [] => Some st
  | (e, x) :: tr' => st' ← step e x st; accepts tr' st'
  end.

Definition step_allowed (e : E) (st : St) : Prop := forall x, ok e x -> is_Some (step e x st).
Definition step_reply (e : E) (st : St) (x : Z) (st' : St) : Prop := ok e x /\ step e x st = Some st'.

Definition respects {A} (p : prog E A) (st : St) (Q : A -> St -> Prop) : Prop :=
  forall answer, (forall tr e, ok e (answer tr e)) -> forall tr0,
  exists a tr st', exec (logged answer) p tr0 = Some (a, tr0 ++ tr) /\ accepts tr st = Some st' /\ Q a st'.

Lemma wp_respects {A} (p : prog E A) st Q : wp step_allowed step_reply p Q st -> respects p st Q.
Proof.
  intros Hw answer Hok. revert st Hw. induction p as [a|e k IH|]; intros st Hw tr0; simpl in Hw; [| |done].
  - exists a, [], st. by rewrite app_nil_r.
  - destruct Hw as [Ha Hk]. pose proof (Hok tr0 e) as Hx. destruct (Ha _ Hx) as [st1 Hst1].
    destruct (IH _ st1 (Hk _ _ (conj Hx Hst1)) (tr0 ++ [(e, answer tr0 e)])) as (a & tr & st' & He & Hacc & HQ).
    exists a, ((e, answer tr0 e) :: tr), st'. split_and!; [|simpl; by rewrite Hst1|done].
    rewrite <- app_assoc in He. done.
Qed.

Lemma wp_step_call e (Q : Z -> St -> Prop) st :
  (forall x, ok e x -> exists st', step e x st = Some st' /\ Q x st') -> wp step_allowed step_reply (call e) Q st.
Proof.
  intros H. apply wp_call.
  - intros x Hx. destruct (H x Hx) as (? & ? & _). by eexists.
  - intros x st' [Hx Hs]. destruct (H x Hx) as (? & ? & ?). by simplify_eq.
Qed.

End Protocol.
