(* ===== verification/External.v ===== *)
(** * Build configuration and the code outside the repository

    [Chip] is the chip feature selected at build time ([build.rs],
    [Cargo.toml]); every [#[cfg]] and [cfg_select!] of the driver becomes a
    case on it.  [MacroBits] states what the driver relies on of the
    [macro-bits] crate, whose sources are not part of the repository. *)

From S2P Require Import Prelude.

Inductive Chip := Esp32 | Esp32s2 | Esp32s3 | Esp32c3.

#[export] Instance Chip_eq_dec : EqDecision Chip.
Proof. solve_decision. Defined.

(** The items of the chip metadata that [build.rs] turns into [cfg]s. *)
Inductive Meta := PWR_INTERRUPT_PRESENT | OSI_FUNCS_REQUIRED | NOMAC_CHANNEL_SET
  | OSI_FUNCS_IN_ROM | TSF_TIMER_PRESENT.

#[export] Instance Meta_eq_dec : EqDecision Meta.
Proof. solve_decision. Defined.

Definition chip_meta (c : Chip) : list Meta :=
  match c with
  | Esp32s3 => [PWR_INTERRUPT_PRESENT; OSI_FUNCS_REQUIRED; OSI_FUNCS_IN_ROM]
  | Esp32 => [NOMAC_CHANNEL_SET]
  | Esp32s2 => [PWR_INTERRUPT_PRESENT; OSI_FUNCS_REQUIRED]
  | Esp32c3 => [PWR_INTERRUPT_PRESENT; OSI_FUNCS_REQUIRED; OSI_FUNCS_IN_ROM; TSF_TIMER_PRESENT]
  end.

Definition has_meta (c : Chip) (m : Meta) : bool := bool_decide (m ∈ chip_meta c).

(** [any(feature = "esp32s3", feature = "esp32c3")] *)
Definition c3_or_s3 (c : Chip) : bool :=
  match c with Esp32s3 | Esp32c3 => true | _ => false end.

(** [bit!(n)] and [check_bit!(value, mask)] of [macro-bits].  The driver uses
    [bit!] at types of at most 32 bits. *)
Class MacroBits := {
  bit : Z -> Z;
  check_bit : Z -> Z -> bool;
  bit_spec : forall n, 0 <= n < 32 -> bit n = Z.shiftl 1 n;
  check_bit_spec : forall v m, check_bit v m = negb (Z.land v m =? 0)
}.

(** The reference reading of the two macros, used to evaluate the model. *)
Definition macro_bits_ref : MacroBits :=
  {| bit n := Z.shiftl 1 n;
     check_bit v m := negb (Z.land v m =? 0);
     bit_spec _ _ := eq_refl;
     check_bit_spec _ _ := eq_refl |}.

Lemma land_pow2 v n : 0 <= n -> Z.land v (2 ^ n) = if Z.testbit v n then 2 ^ n else 0.
Proof.
  intros Hn. apply Z.bits_inj'. intros i Hi. rewrite Z.land_spec.
  destruct (Z.eq_dec i n) as [->|Hne].
  - rewrite Z.pow2_bits_true by lia. destruct (Z.testbit v n) eqn:E.
    + by rewrite Z.pow2_bits_true by lia.
    + by rewrite Z.bits_0.
  - rewrite Z.pow2_bits_false by lia. rewrite andb_false_r.
    destruct (Z.testbit v n); [by rewrite Z.pow2_bits_false by lia|by rewrite Z.bits_0].
Qed.

(** Testing one bit with the two macros is [Z.testbit]. *)
Lemma check_bit_bit `{MacroBits} v n : 0 <= n < 32 -> check_bit v (bit n) = Z.testbit v n.
Proof.
  intros Hn. rewrite check_bit_spec, bit_spec, Z.shiftl_1_l, land_pow2 by lia.
  destruct (Z.testbit v n); [|done].
  assert (0 < 2 ^ n) by lia. by destruct (Z.eqb_spec (2 ^ n) 0); [lia|].
Qed.

#[export] Hint Rewrite @check_bit_bit using lia : hal_rw.
