(* ===== verification/Queue.v ===== *)
(** * Hardware transmit queues ([ll.rs])

    The EDCA access categories, the five hardware queues and the numbering of
    the hardware slots. *)

From S2P Require Import Prelude.

(** The sizes of the hardware's register arrays. *)
Definition INTERFACE_COUNT : nat := 4.
Definition TSF_TIMER_COUNT : nat := 4.
Definition KEY_SLOT_COUNT : nat := 25.

Inductive EdcaAccessCategory := Background | BestEffort | Video | Voice.

#[export] Instance EdcaAccessCategory_eq_dec : EqDecision EdcaAccessCategory.
Proof. solve_decision. Defined.

Inductive HardwareTxQueue := Beacon | Edcaf (ac : EdcaAccessCategory).

#[export] Instance HardwareTxQueue_eq_dec : EqDecision HardwareTxQueue.
Proof. solve_decision. Defined.

(** [RangeInclusive<u8>], never iterated here, so just its bounds. *)
Record RangeInclusive := mkRange { range_start : Z; range_end : Z }.

Definition range_is_empty (r : RangeInclusive) : bool := negb (range_start r <=? range_end r).

Module EdcaAC.

Definition default_cw_exponent_range (ac : EdcaAccessCategory) : RangeInclusive :=
  match ac with
  | Background => mkRange 4 10
  | BestEffort => mkRange 4 10
  | Video => mkRange 3 10
  | Voice => mkRange 2 10
  end.

Definition access_category_index (ac : EdcaAccessCategory) : nat :=
  match ac with
  | Background => 1
  | BestEffort => 0
  | Video => 2
  | Voice => 3
  end.

Definition from_access_category_index (aci : nat) : option EdcaAccessCategory :=
  match aci with
  | 1%nat => Some Background
  | 0%nat => Some BestEffort
  | 2%nat => Some Video
  | 3%nat => Some Voice
  | _ => None
  end.

(** [*self as usize], the discriminants of the enumeration. *)
Definition hardware_slot (ac : EdcaAccessCategory) : nat :=
  match ac with
  | Background => 1
  | BestEffort => 2
  | Video => 3
  | Voice => 4
  end.

Definition from_hardware_slot (slot : nat) : option EdcaAccessCategory :=
  match slot with
  | 1%nat => Some Background
  | 2%nat => Some BestEffort
  | 3%nat => Some Video
  | 4%nat => Some Voice
  | _ => None
  end.

End EdcaAC.

Definition default_aifsn (q : HardwareTxQueue) : Z :=
  match q with
  | Edcaf Background => 7
  | Edcaf BestEffort => 3
  | Edcaf Video => 2
  | Edcaf Voice => 2
  | Beacon => 1
  end.

Definition hardware_slot (q : HardwareTxQueue) : nat :=
  match q with
  | Beacon => 0
  | Edcaf ac => EdcaAC.hardware_slot ac
  end.

Definition from_hardware_slot (slot : nat) : option HardwareTxQueue :=
  if (slot =? 0)%nat then Some Beacon
  else match EdcaAC.from_hardware_slot slot with
       | Some ac => Some (Edcaf ac)
       | None => None
       end.

Definition is_edca (q : HardwareTxQueue) : bool :=
  match q with Edcaf _ => true | Beacon => false end.

Definition DEFAULT_MANAGEMENT_QUEUE : HardwareTxQueue := Edcaf Voice.

Lemma hardware_slot_lt q : (hardware_slot q < 5)%nat.
Proof. destruct q as [|[]]; cbn; lia. Qed.

Lemma from_hardware_slot_Some n : (n < 5)%nat -> is_Some (from_hardware_slot n).
Proof. do 5 (destruct n as [|n]; [by eexists|]). lia. Qed.

Lemma hardware_slot_from n q : from_hardware_slot n = Some q -> hardware_slot q = n.
Proof. do 5 (destruct n as [|n]; [by intros [= <-]|]). done. Qed.

Lemma from_hardware_slot_slot q : from_hardware_slot (hardware_slot q) = Some q.
Proof. by destruct q as [|[]]. Qed.

Lemma hardware_slot_inj q1 q2 : hardware_slot q1 = hardware_slot q2 -> q1 = q2.
Proof.
  intros E. pose proof (from_hardware_slot_slot q1) as H.
  rewrite E, from_hardware_slot_slot in H. by injection H.
Qed.

#[export] Hint Resolve hardware_slot_lt from_hardware_slot_slot : hal.

(** The queues and the slots [0..4] are in bijection, and the access
    categories and the access category indices [0..3] are. *)
Theorem slot_numbering_bijective :
  (forall q, from_hardware_slot (hardware_slot q) = Some q) /\
  (forall n q, from_hardware_slot n = Some q -> hardware_slot q = n) /\
  (forall n, is_Some (from_hardware_slot n) <-> (n < 5)%nat) /\
  (forall ac, EdcaAC.from_access_category_index (EdcaAC.access_category_index ac) = Some ac) /\
  (forall n, is_Some (EdcaAC.from_access_category_index n) <-> (n < 4)%nat).
Proof.
  split_and!; auto using from_hardware_slot_slot, hardware_slot_from.
  - intros n. split; [|apply from_hardware_slot_Some].
    intros [q Hq]. apply hardware_slot_from in Hq as <-. auto with hal.
  - by intros [].
  - intros n. do 4 (destruct n as [|n]; [split; [lia|by eexists]|]). split; [by intros []|lia].
Qed.
