(* ===== verification/Edca.v ===== *)
(** * EDCA contention state ([edca.rs])

    The contention window of one transmission and its growth on retries. *)

From S2P Require Import Prelude External Queue.

Record EdcaContentionState := mkEdca {
  contention_window_exponent_range : RangeInclusive;
  current_cw : Z;
  short_retry_count : Z;
  long_retry_count : Z
}.

(** [1u32 << n], the shift amount masked as in a build without overflow
    checks. *)
Definition shl1_u32 (n : Z) : Z := u32 (Z.shiftl 1 (n mod 32)).

Module Edca.
Section Edca.
Context `{MacroBits}.

Definition new (r : RangeInclusive) : option EdcaContentionState :=
  if range_is_empty r then None
  else Some (mkEdca r (u32 (bit (range_start r) - 1)) 0 0).

Definition advance_contention_window (s : EdcaContentionState) : EdcaContentionState :=
  let cw := u32 (Z.shiftl (current_cw s) 1) in
  let cw := u32 (cw + 1) in
  let cw := Z.min cw (u32 (shl1_u32 (range_end (contention_window_exponent_range s)) - 1)) in
  mkEdca (contention_window_exponent_range s) cw (short_retry_count s) (long_retry_count s).

Definition increment_src (s : EdcaContentionState) : EdcaContentionState :=
  advance_contention_window
    (mkEdca (contention_window_exponent_range s) (current_cw s)
       (u8 (short_retry_count s + 1)) (long_retry_count s)).

Definition reset_src (s : EdcaContentionState) : EdcaContentionState :=
  mkEdca (contention_window_exponent_range s) (current_cw s) 0 (long_retry_count s).

Definition increment_lrc (s : EdcaContentionState) : EdcaContentionState :=
  advance_contention_window
    (mkEdca (contention_window_exponent_range s) (current_cw s)
       (short_retry_count s) (u8 (long_retry_count s + 1))).

(** [random] is the word drawn from the hardware generator. *)
Definition random_backoff_slot_count (random : Z) (s : EdcaContentionState) : Z :=
  Z.land random (current_cw s).

End Edca.
End Edca.

(** The operations the retry loop applies, and their effect. *)
Inductive edca_op := IncrementSrc | IncrementLrc | ResetSrc.

Definition edca_apply (s : EdcaContentionState) (o : edca_op) : EdcaContentionState :=
  match o with
  | IncrementSrc => Edca.increment_src s
  | IncrementLrc => Edca.increment_lrc s
  | ResetSrc => Edca.reset_src s
  end.

Definition edca_run (s : EdcaContentionState) (l : list edca_op) : EdcaContentionState :=
  foldl edca_apply s l.

Definition grows (o : edca_op) : bool := match o with ResetSrc => false | _ => true end.

Definition growths (l : list edca_op) : nat := length (filter (fun o => grows o = true) l).

(** The contention window is [2^k - 1] for an exponent [k] of the range. *)
Definition cw_at (r : RangeInclusive) (k : Z) (s : EdcaContentionState) : Prop :=
  contention_window_exponent_range s = r /\ current_cw s = 2 ^ k - 1.

Definition valid_range (r : RangeInclusive) : Prop :=
  0 <= range_start r <= range_end r /\ range_end r < 32.

Lemma pow2_le_32 k : 0 <= k <= 32 -> 1 <= 2 ^ k <= 2 ^ 32.
Proof. intros. split; [|apply Z.pow_le_mono_r; lia]. pose proof (Z.pow_pos_nonneg 2 k). lia. Qed.

Lemma advance_cw r k s :
  valid_range r -> 0 <= k <= range_end r -> cw_at r k s ->
  cw_at r (Z.min (k + 1) (range_end r)) (Edca.advance_contention_window s).
Proof.
  intros [Hr He] Hk [Hs Hc]. split; [done|]. cbn. rewrite Hs, Hc. unfold shl1_u32.
  rewrite Z.shiftl_1_l, Z.mod_small by lia.
  pose proof (pow2_le_32 k ltac:(lia)). pose proof (pow2_le_32 (range_end r) ltac:(lia)).
  assert (2 ^ k <= 2 ^ 31 /\ 2 ^ range_end r <= 2 ^ 31) as [] by (split; apply Z.pow_le_mono_r; lia).
  rewrite Z.shiftl_mul_pow2 by lia.
  rewrite !wrap_small by (unfold in_width; rewrite ?wrap_small by width; width).
  destruct (Z.le_gt_cases (k + 1) (range_end r)) as [Hle|Hlt].
  -
    assert (2 ^ (k + 1) <= 2 ^ range_end r) as P by (apply Z.pow_le_mono_r; lia).
    rewrite (Z.min_l (k + 1)), Z.pow_add_r by lia. rewrite Z.pow_add_r in P by lia. lia.
  - rewrite (Z.min_r (k + 1)) by lia. replace k with (range_end r) by lia. lia.
Qed.

Lemma apply_cw r k s o :
  valid_range r -> 0 <= k <= range_end r -> cw_at r k s ->
  cw_at r (if grows o then Z.min (k + 1) (range_end r) else k) (edca_apply s o).
Proof. intros Hr Hk Hs. destruct o; [| |exact Hs]; by apply advance_cw. Qed.

Lemma run_cw r k s l :
  valid_range r -> 0 <= k <= range_end r -> cw_at r k s ->
  cw_at r (Z.min (k + Z.of_nat (growths l)) (range_end r)) (edca_run s l).
Proof.
  intros Hr. revert k s. induction l as [|o l IH]; intros k s Hk Hs.
  - cbn. by rewrite Z.add_0_r, Z.min_l by lia.
  - pose proof (apply_cw r k s o Hr Hk Hs) as H1.
    specialize (IH (if grows o then Z.min (k + 1) (range_end r) else k) (edca_apply s o)).
    cbn [edca_run foldl]. unfold edca_run in IH.
    assert (growths (o :: l) = ((if grows o then 1 else 0) + growths l)%nat) as ->.
    { unfold growths. rewrite filter_cons. destruct o; cbn; done. }
    replace (Z.min (k + Z.of_nat ((if grows o then 1 else 0) + growths l)) (range_end r))
      with (Z.min ((if grows o then Z.min (k + 1) (range_end r) else k) + Z.of_nat (growths l)) (range_end r))
      by (destruct (grows o); lia).
    apply IH; [destruct (grows o); lia|done].
Qed.

Lemma new_cw `{MacroBits} r s :
  valid_range r -> Edca.new r = Some s -> cw_at r (range_start r) s.
Proof.
  intros [Hr He] Hs. unfold Edca.new in Hs. case_match; inv_some. split; [done|]. cbn.
  rewrite bit_spec, Z.shiftl_1_l by lia.
  pose proof (pow2_le_32 (range_start r) ltac:(lia)).
  rewrite wrap_small; [done|]. width.
Qed.

Lemma new_run_cw `{MacroBits} r s l :
  valid_range r -> Edca.new r = Some s ->
  cw_at r (Z.min (range_start r + Z.of_nat (growths l)) (range_end r)) (edca_run s l).
Proof.
  intros Hr Hs. apply run_cw; [done|unfold valid_range in Hr; lia|by apply new_cw].
Qed.

(** C20: from a fresh state over a non-empty range of exponents that ends below
    32 (for a larger end the code's 32-bit shift overflows), after any
    sequence of retry bookkeeping operations the contention window is
    [2^k - 1] with [k] the initial exponent plus the number of increments,
    capped at the end of the range: it doubles on every failure, ignores
    [reset_src], and never leaves the window range. *)
Theorem contention_window_growth `{MacroBits} r s l :
  valid_range r -> Edca.new r = Some s ->
  current_cw (edca_run s l) =
    2 ^ Z.min (range_start r + Z.of_nat (growths l)) (range_end r) - 1.
Proof.
  intros Hr Hs. by apply (new_run_cw r s l).
Qed.

Lemma contention_window_growth_witness :
  exists s, @Edca.new macro_bits_ref (mkRange 4 10) = Some s /\
    current_cw (edca_run s [IncrementSrc; IncrementLrc; ResetSrc]) = 63.
Proof.
  eexists. split; [reflexivity|].
  rewrite (@contention_window_growth macro_bits_ref (mkRange 4 10)) by (cbn; unfold valid_range; cbn; (lia || reflexivity)).
  reflexivity.
Defined.

Lemma cw_backoff r k s random :
  0 <= k -> cw_at r k s ->
  Edca.random_backoff_slot_count random s = random mod 2 ^ k.
Proof.
  intros Hk [_ Hc]. unfold Edca.random_backoff_slot_count. rewrite Hc.
  replace (2 ^ k - 1) with (Z.ones k) by (rewrite Z.ones_equiv; lia).
  by apply Z.land_ones.
Qed.

(** The backoff drawn in such a state is the random word modulo
    [current_cw + 1]: it is at most the contention window, and every slot of
    the window is drawn by some word, so masking does not skew the choice. *)
Theorem backoff_uniform `{MacroBits} r s l random :
  valid_range r -> Edca.new r = Some s ->
  let s' := edca_run s l in
  Edca.random_backoff_slot_count random s' = random mod (current_cw s' + 1) /\
  0 <= Edca.random_backoff_slot_count random s' <= current_cw s' /\
  (forall slot, 0 <= slot <= current_cw s' -> Edca.random_backoff_slot_count slot s' = slot).
Proof.
  intros Hr Hs s'. pose proof (new_run_cw r s l Hr Hs) as C. fold s' in C.
  set (k := Z.min _ _) in C. assert (0 <= k) as Hk by (unfold valid_range in Hr; lia).
  pose proof (proj2 C) as G.
  pose proof (Z.pow_pos_nonneg 2 k ltac:(lia) Hk).
  split_and!.
  - rewrite (cw_backoff _ _ _ _ Hk C), G. f_equal. lia.
  - rewrite (cw_backoff _ _ _ _ Hk C). pose proof (Z.mod_pos_bound random (2 ^ k)). lia.
  - rewrite (cw_backoff _ _ _ _ Hk C). pose proof (Z.mod_pos_bound random (2 ^ k)). lia.
  - intros slot Hslot. rewrite (cw_backoff _ _ _ _ Hk C). apply Z.mod_small. lia.
Qed.

Lemma backoff_uniform_witness :
  exists s, @Edca.new macro_bits_ref (mkRange 2 10) = Some s /\
    Edca.random_backoff_slot_count 0xdeadbeef (edca_run s [IncrementLrc]) = 7.
Proof.
  exists (mkEdca (mkRange 2 10) 3 0 0). split; [reflexivity|].
  destruct (@backoff_uniform macro_bits_ref (mkRange 2 10) (mkEdca (mkRange 2 10) 3 0 0) [IncrementLrc] 0xdeadbeef)
    as (E & _ & _); [unfold valid_range; cbn; lia|reflexivity|].
  rewrite E. reflexivity.
Defined.
