(* ===== verification/Rates.v ===== *)
(** * PHY rates ([esp-wifi-rates])

    The typed Wi-Fi rates the driver re-exports as [rates].  [usize] is 32 bits
    wide on every supported chip; sums and products wrap at that width, as in a
    build without overflow checks.  [None] is a panic: [unreachable!] and
    [assert_eq!]. *)

From S2P Require Import Prelude.

Notation "a +u b" := (u32 (a + b)) (at level 50, left associativity) : hal_scope.
Notation "a *u b" := (u32 (a * b)) (at level 40, left associativity) : hal_scope.
#[local] Open Scope hal_scope.

Definition KILO : Z := 1000.
Definition MEGA : Z := 1000000.
Definition GIGA : Z := 1000000000.

(** [a.div_ceil(b)]; the quotient and the incremented quotient never wrap. *)
Definition div_ceil (a b : Z) : Z := if 0 <? a mod b then a / b + 1 else a / b.

(** ** Data *)

Inductive Constellation := Bpsk | Qpsk | Qam16 | Qam64.

Definition coded_bits (c : Constellation) : Z :=
  match c with Bpsk => 1 | Qpsk => 2 | Qam16 => 4 | Qam64 => 6 end.

Record HrDsssRate := mkHrDsss { rate_index : Z; short_preamble : bool }.

Inductive OfdmRate := Mbits6 | Mbits9 | Mbits12 | Mbits18 | Mbits24 | Mbits36 | Mbits48 | Mbits54.

#[export] Instance OfdmRate_eq_dec : EqDecision OfdmRate.
Proof. solve_decision. Defined.

Definition ofdm_value (r : OfdmRate) : Z :=
  match r with
  | Mbits6 => 0x0b
  | Mbits9 => 0x0f
  | Mbits12 => 0x0a
  | Mbits18 => 0x0e
  | Mbits24 => 0x09
  | Mbits36 => 0x0d
  | Mbits48 => 0x08
  | Mbits54 => 0x0c
  end.

(** [RateDirection] and its two implementations. *)
Inductive Direction := Tx | Rx.

Definition MAX_HT_RATE (d : Direction) : Z := match d with Tx => 7 | Rx => 32 end.

Record HtRate (d : Direction) := mkHt { mcs_index : Z; short_gi : bool; cbw40 : bool }.
Arguments mkHt {d} _ _ _.
Arguments mcs_index {d} _.
Arguments short_gi {d} _.
Arguments cbw40 {d} _.

Inductive PhyRate (d : Direction) :=
| HrDsss (r : HrDsssRate)
| Ofdm (r : OfdmRate)
| Ht (r : HtRate d).
Arguments HrDsss {d} r.
Arguments Ofdm {d} r.
Arguments Ht {d} r.

Abbreviation TxPhyRate := (PhyRate Tx).
Abbreviation RxPhyRate := (PhyRate Rx).

Definition phy_default {d} : PhyRate d := Ofdm Mbits6.

Definition as_hardware_rate {d} (r : PhyRate d) : Z :=
  match r with
  | HrDsss h => u8 (rate_index h + 4 * bool_to_Z (short_preamble h))
  | Ofdm o => ofdm_value o
  | Ht h => u8 (0x10 + mcs_index h * (1 + bool_to_Z (short_gi h)))
  end.

(** The [Rate] trait. *)
Class Rate (A : Type) := {
  bandwidth : A -> Z;
  constellation : A -> option Constellation;
  symbol_interval : A -> Z;
  symbol_rate : A -> Z;
  data_rate : A -> option Z;
  airtime : A -> Z -> option Z
}.

(** The provided body of [Rate::symbol_rate]. *)
Definition default_symbol_rate (interval : Z) : Z := GIGA / interval.

(** ** HR/DSSS *)

Module HrDsssRate.

Definition new (rate_index : Z) (short_preamble : bool) : option HrDsssRate :=
  if (3 <? rate_index) || ((rate_index =? 0) && short_preamble) then None
  else Some (mkHrDsss rate_index short_preamble).

Definition set_rate (r : HrDsssRate) (index : Z) : HrDsssRate :=
  if ((index =? 0) && negb (short_preamble r)) && (index <=? 3)
  then mkHrDsss index (short_preamble r) else r.

Definition set_short_preamble (r : HrDsssRate) (short : bool) : HrDsssRate :=
  if negb (rate_index r =? 0) then mkHrDsss (rate_index r) short else r.

Definition is_cck (r : HrDsssRate) : bool := 2 <=? rate_index r.

Definition constellation (r : HrDsssRate) : Constellation :=
  if rate_index r mod 2 =? 0 then Bpsk else Qpsk.

Definition symbol_interval (r : HrDsssRate) : Z :=
  if is_cck r then KILO *u 8 / 11 else KILO.

Definition symbol_rate (r : HrDsssRate) : Z :=
  if is_cck r then 11 *u MEGA / 8 else MEGA.

Definition data_rate (r : HrDsssRate) : option Z :=
  match rate_index r with
  | 0 => Some MEGA
  | 1 => Some (2 *u MEGA)
  | 2 => Some (11 *u MEGA / 2)
  | 3 => Some (11 *u MEGA)
  | _ => None
  end.

Definition airtime (r : HrDsssRate) (ppdu_length : Z) : option Z :=
  let preamble_duration := (if short_preamble r then 96 else 192) *u KILO in
  let data_bits := ppdu_length *u 8 in
  data_duration ← match rate_index r with
    | 0 => Some (data_bits *u KILO)
    | 1 => Some (data_bits *u KILO / 2)
    | 2 => Some (data_bits *u KILO / 11)
    | 3 => Some (data_bits *u KILO / 22)
    | _ => None
    end;
  Some (preamble_duration +u data_duration).

End HrDsssRate.

#[export] Instance HrDsssRate_Rate : Rate HrDsssRate := {|
  bandwidth _ := 22 *u MEGA;
  constellation r := Some (HrDsssRate.constellation r);
  symbol_interval := HrDsssRate.symbol_interval;
  symbol_rate := HrDsssRate.symbol_rate;
  data_rate := HrDsssRate.data_rate;
  airtime := HrDsssRate.airtime
|}.

(** ** The provided methods of [OfdmBasedRate]

    They only depend on the required methods, passed here as arguments. *)

Module OfdmBased.

Definition modulated_subcarriers (data pilot : Z) : Z := data +u pilot.

Definition subcarrier_spacing (bandwidth total : Z) : Z := bandwidth / total.

Definition dft_period (total bandwidth : Z) : Z := (total *u KILO) / (bandwidth / MEGA).

Definition coded_bits_per_ofdm_symbol (c : Constellation) (data streams : Z) : Z :=
  coded_bits c *u data *u streams.

(** [coding_rate] is a [Ratio] built with [new_raw]: numerator, denominator. *)
Definition data_bits_per_ofdm_symbol (coded : Z) (coding_rate : Z * Z) : Z :=
  coded *u coding_rate.1 / coding_rate.2.

End OfdmBased.

(** ** OFDM *)

Module OfdmRate.

Definition constellation (r : OfdmRate) : option Constellation :=
  match 3 - Z.land (ofdm_value r - 8) 3 with
  | 0 => Some Bpsk
  | 1 => Some Qpsk
  | 2 => Some Qam16
  | 3 => Some Qam64
  | _ => None
  end.

Definition bandwidth (r : OfdmRate) : Z := 20 *u MEGA.
Definition data_subcarriers (r : OfdmRate) : Z := 48.
Definition pilot_subcarriers (r : OfdmRate) : Z := 4.
Definition total_subcarriers (r : OfdmRate) : Z := 64.
Definition spatial_streams (r : OfdmRate) : Z := 1.
Definition guard_interval_duration (r : OfdmRate) : Z := 800.

Definition coding_rate (r : OfdmRate) : Z * Z :=
  if bool_decide (r = Mbits48) then (2, 3)
  else if negb (Z.land (ofdm_value r - 8) 4 =? 0) then (3, 4)
  else (1, 2).

Definition dft_period (r : OfdmRate) : Z :=
  OfdmBased.dft_period (total_subcarriers r) (bandwidth r).

Definition symbol_interval (r : OfdmRate) : Z := dft_period r +u guard_interval_duration r.

Definition data_bits_per_ofdm_symbol (r : OfdmRate) : option Z :=
  c ← constellation r;
  Some (OfdmBased.data_bits_per_ofdm_symbol
          (OfdmBased.coded_bits_per_ofdm_symbol c (data_subcarriers r) (spatial_streams r))
          (coding_rate r)).

Definition data_rate (r : OfdmRate) : option Z :=
  bits ← data_bits_per_ofdm_symbol r;
  Some (default_symbol_rate (symbol_interval r) *u bits).

Definition airtime (r : OfdmRate) (ppdu_length : Z) : option Z :=
  let preamble_duration :=
    10 *u (dft_period r / 4) +u 2 *u dft_period r +u dft_period r / 2 in
  if negb (preamble_duration =? 16 *u KILO) then None else
  let data_bits := 16 +u ppdu_length *u 8 +u 6 in
  bits ← data_bits_per_ofdm_symbol r;
  let data_symbols := div_ceil data_bits bits in
  let data_duration := (data_symbols +u 1) *u symbol_interval r in
  Some (preamble_duration +u data_duration).

End OfdmRate.

#[export] Instance OfdmRate_Rate : Rate OfdmRate := {|
  bandwidth := OfdmRate.bandwidth;
  constellation := OfdmRate.constellation;
  symbol_interval := OfdmRate.symbol_interval;
  symbol_rate r := default_symbol_rate (OfdmRate.symbol_interval r);
  data_rate := OfdmRate.data_rate;
  airtime := OfdmRate.airtime
|}.

(** ** HT *)

Module HtRate.
Section HtRate.
Context {d : Direction}.
Implicit Types r : HtRate d.

Definition new (mcs : Z) (sgi cbw : bool) : option (HtRate d) :=
  if mcs <=? MAX_HT_RATE d then Some (mkHt mcs sgi cbw) else None.

Definition new_lgi_ht20 (mcs : Z) : option (HtRate d) := new mcs false false.

Definition default : HtRate d := mkHt 0 false false.

Definition set_mcs_index r (mcs : Z) : HtRate d :=
  if mcs <=? MAX_HT_RATE d then mkHt mcs (short_gi r) (cbw40 r) else r.
Definition set_short_gi r (sgi : bool) : HtRate d := mkHt (mcs_index r) sgi (cbw40 r).
Definition set_cbw40 r (cbw : bool) : HtRate d := mkHt (mcs_index r) (short_gi r) cbw.

Definition constellation r : option Constellation :=
  if mcs_index r =? 32 then Some Bpsk else
  match mcs_index r mod 8 with
  | 0 => Some Bpsk
  | 1 | 2 => Some Qpsk
  | 3 | 4 => Some Qam16
  | 5 | 6 | 7 => Some Qam64
  | _ => None
  end.

Definition bandwidth r : Z := (if cbw40 r then 40 else 20) *u MEGA.

Definition data_subcarriers r : Z :=
  if cbw40 r then 108 else if mcs_index r =? 32 then 48 else 52.

Definition pilot_subcarriers r : Z := if cbw40 r then 6 else 4.

Definition total_subcarriers r : Z :=
  if cbw40 r && negb (mcs_index r =? 32) then 128 else 64.

Definition coding_rate r : option (Z * Z) :=
  if mcs_index r =? 32 then Some (1, 2) else
  match mcs_index r mod 8 with
  | 0 | 1 | 3 => Some (1, 2)
  | 5 => Some (2, 3)
  | 2 | 4 | 6 => Some (3, 4)
  | 7 => Some (5, 6)
  | _ => None
  end.

Definition spatial_streams r : option Z :=
  let m := mcs_index r in
  if m <? 32 then Some (m / 8 + 1)
  else if m =? 32 then Some 1
  else if (33 <=? m) && (m <=? 38) then Some 2
  else if (39 <=? m) && (m <=? 52) then Some 3
  else if (53 <=? m) && (m <=? 76) then Some 4
  else None.

Definition guard_interval_duration r : Z := if short_gi r then 400 else 800.

Definition dft_period r : Z := OfdmBased.dft_period (total_subcarriers r) (bandwidth r).

Definition symbol_interval r : Z := dft_period r +u guard_interval_duration r.

Definition data_bits_per_ofdm_symbol r : option Z :=
  c ← constellation r;
  streams ← spatial_streams r;
  code ← coding_rate r;
  Some (OfdmBased.data_bits_per_ofdm_symbol
          (OfdmBased.coded_bits_per_ofdm_symbol c (data_subcarriers r) streams) code).

Definition data_rate r : option Z :=
  bits ← data_bits_per_ofdm_symbol r;
  Some (default_symbol_rate (symbol_interval r) *u bits).

Definition airtime r (ppdu_length : Z) : option Z :=
  streams ← spatial_streams r;
  let preamble_symbols := 2 *u 2 +u 1 +u 2 +u 1 *u (1 +u streams) in
  let data_bits := 16 +u ppdu_length *u 8 +u 6 in
  bits ← data_bits_per_ofdm_symbol r;
  let data_symbols := div_ceil data_bits bits in
  Some (preamble_symbols *u (4 *u KILO) +u data_symbols *u symbol_interval r).

End HtRate.
End HtRate.

#[export] Instance HtRate_Rate {d} : Rate (HtRate d) := {|
  bandwidth := HtRate.bandwidth;
  constellation := HtRate.constellation;
  symbol_interval := HtRate.symbol_interval;
  symbol_rate r := default_symbol_rate (HtRate.symbol_interval r);
  data_rate := HtRate.data_rate;
  airtime := HtRate.airtime
|}.

(** ** The sum of the three PHYs

    [symbol_rate] is not forwarded to the variants: [impl Rate for PhyRate]
    keeps the provided body. *)

#[export] Instance PhyRate_Rate {d} : Rate (PhyRate d) :=
  let interval r := match r with
    | HrDsss r => symbol_interval r | Ofdm r => symbol_interval r | Ht r => symbol_interval r
    end in {|
  bandwidth r := match r with
    | HrDsss r => bandwidth r | Ofdm r => bandwidth r | Ht r => bandwidth r end;
  constellation r := match r with
    | HrDsss r => constellation r | Ofdm r => constellation r | Ht r => constellation r end;
  symbol_interval := interval;
  symbol_rate r := default_symbol_rate (interval r);
  data_rate r := match r with
    | HrDsss r => data_rate r | Ofdm r => data_rate r | Ht r => data_rate r end;
  airtime r n := match r with
    | HrDsss r => airtime r n | Ofdm r => airtime r n | Ht r => airtime r n end
|}.

(** ** Well-formed rates *)

Definition hr_valid (r : HrDsssRate) : bool :=
  (0 <=? rate_index r) && (rate_index r <=? 3) && negb ((rate_index r =? 0) && short_preamble r).

Definition ht_valid {d} (r : HtRate d) : bool :=
  (0 <=? mcs_index r) && (mcs_index r <=? MAX_HT_RATE d).

Definition phy_valid {d} (r : PhyRate d) : bool :=
  match r with HrDsss r => hr_valid r | Ofdm _ => true | Ht r => ht_valid r end.

Lemma hr_valid_cases r : hr_valid r = true ->
  r ∈ [mkHrDsss 0 false; mkHrDsss 1 false; mkHrDsss 1 true; mkHrDsss 2 false;
       mkHrDsss 2 true; mkHrDsss 3 false; mkHrDsss 3 true].
Proof.
  destruct r as [i p]. unfold hr_valid. cbn. rewrite !andb_true_iff, !Z.leb_le. intros [[H0 H1] H2].
  assert (i ∈ seqZ 0 4) as H by (apply in_seqZ; lia). vm_compute seqZ in H.
  enum_in H; destruct p; try done; set_solver.
Qed.

(** Check a property on every HT rate of a direction. *)
Definition ht_check (d : Direction) (f : HtRate d -> bool) : bool :=
  forallb (fun m => f (mkHt m true true) && f (mkHt m true false)
                    && f (mkHt m false true) && f (mkHt m false false))
    (seqZ 0 (MAX_HT_RATE d + 1)).

Lemma ht_check_sound {d} (f : HtRate d -> bool) (r : HtRate d) :
  ht_check d f = true -> ht_valid r = true -> f r = true.
Proof.
  intros Hf Hr. destruct r as [m g c]. unfold ht_valid in Hr. cbn in Hr.
  rewrite andb_true_iff, !Z.leb_le in Hr. unfold ht_check in Hf.
  rewrite forallb_forall in Hf. specialize (Hf m). rewrite <- list_elem_of_In in Hf.
  specialize (Hf (in_seqZ m 0 (MAX_HT_RATE d + 1) ltac:(lia))).
  rewrite !andb_true_iff in Hf. destruct g, c; tauto.
Qed.

(** Prove a boolean test of a valid rate by evaluating it on all of them. *)
Ltac ht_enum d r Hr :=
  lazymatch goal with |- ?b = true =>
    let f := eval pattern r in b in
    lazymatch f with ?g _ => refine (ht_check_sound g r _ Hr) end
  end; clear; destruct d; vm_compute; reflexivity.

(** ** No panics, and the numbers of 802.11 *)

Lemma div_ceil_spec a b :
  0 < b -> (div_ceil a b - 1) * b < a <= div_ceil a b * b.
Proof.
  intros Hb. unfold div_ceil. pose proof (Z.div_mod a b). pose proof (Z.mod_pos_bound a b).
  destruct (Z.ltb_spec 0 (a mod b)); nia.
Qed.

Lemma div_ceil_le a b : 0 <= a -> 0 < b -> 0 <= div_ceil a b <= a.
Proof.
  intros Ha Hb. unfold div_ceil. pose proof (Z.div_mod a b). pose proof (Z.mod_pos_bound a b).
  pose proof (Z.div_pos a b). destruct (Z.ltb_spec 0 (a mod b)); nia.
Qed.

(** The number of data bits per symbol, positive on every valid rate. *)
Definition ht_bits {d} (r : HtRate d) : Z :=
  match HtRate.data_bits_per_ofdm_symbol r with Some b => b | None => 0 end.
Definition ofdm_bits (r : OfdmRate) : Z :=
  match OfdmRate.data_bits_per_ofdm_symbol r with Some b => b | None => 0 end.

Lemma ht_bits_ok {d} (r : HtRate d) : ht_valid r = true ->
  HtRate.data_bits_per_ofdm_symbol r = Some (ht_bits r) /\ 24 <= ht_bits r <= 2160 /\
  1600 <= HtRate.symbol_interval r <= 4000 /\
  exists n, HtRate.spatial_streams r = Some n /\ 1 <= n <= 4.
Proof.
  intros Hr.
  assert (match HtRate.data_bits_per_ofdm_symbol r, HtRate.spatial_streams r with
          | Some b, Some n => (24 <=? b) && (b <=? 2160) && (1 <=? n) && (n <=? 4) &&
              (1600 <=? HtRate.symbol_interval r) && (HtRate.symbol_interval r <=? 4000)
          | _, _ => false end = true) as H.
  { ht_enum d r Hr. }
  unfold ht_bits.
  destruct (HtRate.data_bits_per_ofdm_symbol r); [|done].
  destruct (HtRate.spatial_streams r); [|done].
  rewrite !andb_true_iff, !Z.leb_le in H. split_and!; try lia; eauto with lia.
Qed.

Lemma ofdm_bits_ok (r : OfdmRate) :
  OfdmRate.data_bits_per_ofdm_symbol r = Some (ofdm_bits r) /\ 24 <= ofdm_bits r <= 216.
Proof. destruct r; vm_compute; split_and!; congruence. Qed.

(** Nominal rates of 802.11 clause 17, in Mbit/s. *)
Definition ofdm_mbits (r : OfdmRate) : Z :=
  match r with
  | Mbits6 => 6 | Mbits9 => 9 | Mbits12 => 12 | Mbits18 => 18
  | Mbits24 => 24 | Mbits36 => 36 | Mbits48 => 48 | Mbits54 => 54
  end.

Definition hr_kbits (r : HrDsssRate) : Z :=
  match rate_index r with 0 => 1000 | 1 => 2000 | 2 => 5500 | _ => 11000 end.

(** The computed data rates are the nominal ones: exact for every HR/DSSS
    and OFDM rate; for a well-formed HT rate with bits-per-symbol [N] and
    symbol interval [T], the reported rate [r] is [10^9 * N / T] rounded down
    by less than [N], and exact with the long guard interval.  No rate
    computation panics or wraps. *)
Theorem data_rate_nominal :
  (forall r : HrDsssRate, hr_valid r = true -> data_rate r = Some (hr_kbits r * KILO)) /\
  (forall r : OfdmRate, data_rate r = Some (ofdm_mbits r * MEGA)) /\
  (forall d (r : HtRate d), ht_valid r = true -> exists v,
     data_rate r = Some v /\
     v * symbol_interval r <= GIGA * ht_bits r < (v + ht_bits r) * symbol_interval r /\
     (short_gi r = false -> mcs_index r <> 32 -> v * symbol_interval r = GIGA * ht_bits r)).
Proof.
  split_and!.
  - intros r Hr. apply hr_valid_cases in Hr. enum_in Hr; reflexivity.
  - by intros [].
  - intros d r Hr.
    assert (match data_rate r with
            | Some v => (v * symbol_interval r <=? GIGA * ht_bits r) &&
                        (GIGA * ht_bits r <? (v + ht_bits r) * symbol_interval r) &&
                        (short_gi r || (mcs_index r =? 32) || (v * symbol_interval r =? GIGA * ht_bits r))
            | None => false end = true) as H.
    { ht_enum d r Hr. }
    case_match eqn:E; [|done]. eexists. split; [done|].
    rewrite !andb_true_iff, !orb_true_iff, Z.leb_le, Z.ltb_lt, !Z.eqb_eq in H.
    split; [lia|]. intros Hg Hm. rewrite Hg in H. intuition congruence.
Qed.

Lemma bits_no_wrap n : 0 <= n <= 65535 -> (16 +u n *u 8 +u 6) = 8 * n + 22.
Proof. intros. rewrite (wrap_small 32 (n * 8)), (wrap_small 32 (16 + _)), wrap_small by width. lia. Qed.

Lemma ofdm_periods r : OfdmRate.dft_period r = 3200 /\ OfdmRate.symbol_interval r = 4000.
Proof. by vm_compute. Qed.

Lemma ofdm_airtime r n : 0 <= n <= 65535 ->
  airtime r n = Some (20000 + div_ceil (8 * n + 22) (ofdm_bits r) * 4000).
Proof.
  intros Hn. cbn [airtime OfdmRate_Rate]. unfold OfdmRate.airtime.
  destruct (ofdm_bits_ok r) as [-> Hb], (ofdm_periods r) as [-> ->]. rewrite (bits_no_wrap n Hn).
  pose proof (div_ceil_le (8 * n + 22) (ofdm_bits r) ltac:(lia) ltac:(lia)).
  assert (div_ceil (8 * n + 22) (ofdm_bits r) <= 21847).
  { pose proof (div_ceil_spec (8 * n + 22) (ofdm_bits r) ltac:(lia)). nia. }
  change (10 *u (3200 / 4) +u 2 *u 3200 +u 3200 / 2) with 16000.
  change (negb _) with false. cbn [mbind option_bind]. f_equal.
  rewrite (wrap_small 32 (_ + 1)), (wrap_small 32 (_ * 4000)), wrap_small by width. lia.
Qed.

Lemma ht_airtime {d} (r : HtRate d) n : ht_valid r = true -> 0 <= n <= 65535 ->
  exists streams, HtRate.spatial_streams r = Some streams /\
  airtime r n = Some ((8 + streams) * 4000 +
                      div_ceil (8 * n + 22) (ht_bits r) * symbol_interval r).
Proof.
  intros Hr Hn. destruct (ht_bits_ok r Hr) as (Hb & Hb1 & Hi & st & Hs & Hst).
  exists st. split; [done|]. cbn [airtime symbol_interval HtRate_Rate]. unfold HtRate.airtime. rewrite Hs, Hb. cbn [mbind option_bind].
  rewrite (bits_no_wrap n Hn). f_equal.
  pose proof (div_ceil_le (8 * n + 22) (ht_bits r) ltac:(lia) ltac:(lia)).
  assert (div_ceil (8 * n + 22) (ht_bits r) <= 21847).
  { pose proof (div_ceil_spec (8 * n + 22) (ht_bits r) ltac:(lia)). nia. }
  assert (0 <= div_ceil (8 * n + 22) (ht_bits r) * HtRate.symbol_interval r <= 21847 * 4000) by nia.
  replace (2 *u 2 +u 1 +u 2 +u 1 *u (1 +u st))%hal with (8 + st).
  2: { change (2 *u 2 +u 1 +u 2) with 7.
       rewrite (wrap_small 32 (1 + st)) by width. rewrite Z.mul_1_l.
       rewrite (wrap_small 32 (1 + st)) by width. rewrite wrap_small by width. lia. }
  rewrite (wrap_small 32 (div_ceil _ _ * _)) by width.
  replace (4 *u KILO)%hal with 4000 by done.
  rewrite (wrap_small 32 ((8 + st) * 4000)) by width. rewrite wrap_small by width. done.
Qed.

(** C21: the airtime of a PPDU of [n] bytes is exact, panic free and does not
    wrap for any length up to 65535: it is a preamble plus [k] data symbols,
    where [k] is the least number of symbols whose data bits hold the service
    field, the [8 n] payload bits and the tail. *)
Theorem airtime_minimal :
  (forall (r : OfdmRate) n, 0 <= n <= 65535 -> exists k,
     airtime r n = Some (20000 + k * symbol_interval r) /\
     (k - 1) * ofdm_bits r < 16 + 8 * n + 6 <= k * ofdm_bits r) /\
  (forall d (r : HtRate d) n, ht_valid r = true -> 0 <= n <= 65535 -> exists streams k,
     HtRate.spatial_streams r = Some streams /\
     airtime r n = Some ((8 + streams) * 4000 + k * symbol_interval r) /\
     (k - 1) * ht_bits r < 16 + 8 * n + 6 <= k * ht_bits r).
Proof.
  split.
  - intros r n Hn. exists (div_ceil (8 * n + 22) (ofdm_bits r)). rewrite ofdm_airtime by lia.
    destruct (ofdm_bits_ok r) as [_ Hb]. split; [by destruct r|].
    pose proof (div_ceil_spec (8 * n + 22) (ofdm_bits r)). lia.
  - intros d r n Hr Hn. destruct (ht_airtime r n Hr Hn) as (st & Hs & Ha).
    destruct (ht_bits_ok r Hr) as (_ & Hb & _).
    exists st, (div_ceil (8 * n + 22) (ht_bits r)). rewrite Ha. split_and!; [done..| |].
    all: pose proof (div_ceil_spec (8 * n + 22) (ht_bits r)); lia.
Qed.
