(* ===== verification/Ht20.v ===== *)
(** * HT20 register encodings of the C3 and S3 ([ht20.rs])

    [None] is the failed [assert!] of the source. *)

From S2P Require Import Prelude.

Definition ht_rate (mcs : Z) (short_gi : bool) : option Z :=
  if mcs <? 8 then Some (u8 (0x10 + mcs + 8 * bool_to_Z short_gi)) else None.

Definition ht_sig (mcs : Z) (short_gi : bool) (length : Z) : option Z :=
  if mcs <? 8 then
    Some (Z.lor (Z.lor (Z.lor mcs (u32 (Z.shiftl (Z.land (u32 length) 0xffff) 8))) 0x07000000)
                (u32 (Z.shiftl (bool_to_Z short_gi) 31)))
  else None.

Definition tx_misc (current response_rate : Z) (interface : nat) : option Z :=
  if (interface <? 4)%nat then
    Some (Z.lor (Z.lor (Z.lor
            (Z.land current (u32 (Z.lnot (Z.lor (Z.shiftl 0xff 6) (Z.shiftl 0x3 28)))))
            (Z.shiftl 1 5))
            (u32 (Z.shiftl response_rate 6)))
            (u32 (Z.shiftl (Z.of_nat interface) 28)))
  else None.

(** A bit field of a word. *)
Definition field (lo width w : Z) : Z := Z.land (Z.shiftr w lo) (Z.ones width).

Lemma field_testbit lo width w i : 0 <= lo -> 0 <= width -> 0 <= i ->
  Z.testbit (field lo width w) i = (i <? width) && Z.testbit w (i + lo).
Proof.
  intros. unfold field. rewrite Z.land_spec, Z.shiftr_spec, Z.testbit_ones_nonneg by lia.
  apply andb_comm.
Qed.

Lemma field_range lo w x : 0 <= w -> in_width w (field lo w x).
Proof.
  intros. unfold field. rewrite Z.land_ones by lia. apply Z.mod_pos_bound. lia.
Qed.

#[export] Hint Rewrite field_testbit using lia : hal_bits.

(** Bits above the width of a hypothesis are clear. *)
Ltac bit_high :=
  repeat match goal with
  | H : in_width ?w ?a |- context [Z.testbit ?a ?i] =>
      rewrite (testbit_high w a i H) by lia
  end.

Ltac field_ext w :=
  apply (width_bits_ext w); [lia|first [apply field_range; lia|apply wrap_range; lia|assumption]
    |first [assumption|apply field_range; lia|apply wrap_range; lia]|];
  let i := fresh "i" in let Hi := fresh in intros i Hi; bit_cases i w; bit_solve; bit_high; try btauto; try done.

Lemma bool_to_Z_testbit b i : 0 <= i -> Z.testbit (bool_to_Z b) i = (i =? 0) && b.
Proof.
  intros. destruct b; cbn [bool_to_Z]; [|by rewrite Z.bits_0, andb_false_r].
  destruct (Z.eqb_spec i 0) as [->|]; [done|].
  change 1 with (2 ^ 0). by rewrite Z.pow2_bits_false by lia.
Qed.

#[export] Hint Rewrite bool_to_Z_testbit using lia : hal_bits.

(** The C3/S3 HT rate codes are a bijection between MCS 0..7 with either
    guard interval and the codes 16..31: [ht_rate] panics exactly on an MCS
    above 7, is injective, and its range is [16 .. 31]. *)
Theorem ht_rate_bijective :
  (forall mcs g, 0 <= mcs -> ht_rate mcs g = None <-> 8 <= mcs) /\
  (forall m1 g1 m2 g2 r, 0 <= m1 -> 0 <= m2 ->
     ht_rate m1 g1 = Some r -> ht_rate m2 g2 = Some r -> m1 = m2 /\ g1 = g2) /\
  (forall r, 16 <= r <= 31 <-> exists mcs g, 0 <= mcs /\ ht_rate mcs g = Some r).
Proof.
  unfold ht_rate. split_and!.
  - intros mcs g Hm. destruct (Z.ltb_spec mcs 8); split; try done; lia.
  - intros m1 g1 m2 g2 r H1 H2. destruct (Z.ltb_spec m1 8), (Z.ltb_spec m2 8); try done.
    rewrite !wrap_small by (destruct g1, g2; cbn; width).
    destruct g1, g2; cbn; intros E1 E2; inv_some; split; (lia || done).
  - intros r. split.
    + intros Hr. destruct (Z.ltb_spec r 24).
      * exists (r - 16), false. split; [lia|]. rewrite (proj2 (Z.ltb_lt _ _)) by lia.
        cbn. f_equal. rewrite wrap_small by width. lia.
      * exists (r - 24), true. split; [lia|]. rewrite (proj2 (Z.ltb_lt _ _)) by lia.
        cbn. f_equal. rewrite wrap_small by width. lia.
    + intros (m & g & Hm & E). destruct (Z.ltb_spec m 8); [|done].
      inv_some. rewrite wrap_small; destruct g; cbn; width.
Qed.

Lemma ht_sig_spec mcs g len s : 0 <= mcs -> 0 <= len -> ht_sig mcs g len = Some s ->
  field 0 3 s = mcs /\ field 8 16 s = u16 len /\ field 24 3 s = 7 /\
  Z.testbit s 31 = g /\ (forall i, i ∈ [3; 4; 5; 6; 7; 27; 28; 29; 30] -> Z.testbit s i = false).
Proof.
  intros Hm Hl. unfold ht_sig. destruct (Z.ltb_spec mcs 8) as [Hm8|]; [|done]. intros [= <-].
  assert (in_width 3 mcs) as W by (unfold in_width; lia).
  split_and!.
  - field_ext 3.
  - field_ext 16.
  - apply (width_bits_ext 3); [lia|apply field_range; lia|width|].
    intros i Hi. bit_cases i 3; bit_solve; bit_high; done.
  - bit_solve. bit_high. done.
  - intros i Hi. enum_in Hi; bit_solve; bit_high; done.
Qed.

Lemma tx_misc_spec current rate interface w :
  is_u32 current -> is_u8 rate -> tx_misc current rate interface = Some w ->
  field 6 8 w = rate /\ field 28 2 w = Z.of_nat interface /\ Z.testbit w 5 = true /\
  (forall i, 0 <= i < 32 -> i <> 5 -> ~ 6 <= i < 14 -> ~ 28 <= i < 30 ->
     Z.testbit w i = Z.testbit current i).
Proof.
  intros Hc Hr. unfold tx_misc. destruct (Nat.ltb_spec interface 4) as [Hi4|]; [|done]. intros [= <-].
  assert (in_width 2 (Z.of_nat interface)) as W by (unfold in_width; lia).
  set (iface := Z.of_nat interface) in *.
  split_and!.
  - field_ext 8.
  - field_ext 2.
  - bit_solve. bit_high. done.
  - intros i Hi H1 H2 H3. bit_cases i 32; try lia; bit_solve; bit_high; btauto.
Qed.

(** The two C3/S3 register images are read back field by field.  [ht_sig]
    holds the MCS in bits 0..2, the length modulo 2^16 in bits 8..23, the
    constant 7 in bits 24..26 and the short guard interval only in bit 31, all
    other bits clear; [tx_misc] replaces the response rate and the interface,
    sets bit 5 and leaves every other bit of the slot register as it was. *)
Theorem slot_words_read_back :
  (forall mcs g len s, 0 <= mcs -> 0 <= len -> ht_sig mcs g len = Some s ->
     field 0 3 s = mcs /\ field 8 16 s = u16 len /\ field 24 3 s = 7 /\
     Z.testbit s 31 = g /\ (forall i, i ∈ [3; 4; 5; 6; 7; 27; 28; 29; 30] -> Z.testbit s i = false)) /\
  (forall current rate interface w, is_u32 current -> is_u8 rate ->
     tx_misc current rate interface = Some w ->
     field 6 8 w = rate /\ field 28 2 w = Z.of_nat interface /\ Z.testbit w 5 = true /\
     (forall i, 0 <= i < 32 -> i <> 5 -> ~ 6 <= i < 14 -> ~ 28 <= i < 30 ->
        Z.testbit w i = Z.testbit current i)).
Proof. split; [apply ht_sig_spec|apply tx_misc_spec]. Qed.
