(* ===== verification/RxFrame.v ===== *)
(** * Received frames ([rx.rs], [borrowed_buffer.rs], [is_rx_frame_valid])

    A borrowed buffer is the memory its descriptor points to, cut at the
    descriptor's length: the hardware RX control header followed by the padded
    MPDU.  The layout of the header is [wifi_pkt_rx_ctrl_t] of the vendor
    bindings, which is not part of the repository: its accessors are the
    parameter [RxCtrl]. *)

From S2P Require Import Prelude External Queue Rates.
#[local] Open Scope hal_scope.

(** ** [rx.rs] *)

Definition CONTROL_HEADER_LENGTH : nat := 48.

Definition descriptor_address (raw high_bits : Z) : option Z :=
  let offset := Z.land raw 0xfffff in
  if offset =? 0 then None else Some (Z.lor (Z.land high_bits 0xfff00000) offset).

Definition valid_length (buffer : list Z) : bool :=
  match slice 44 CONTROL_HEADER_LENGTH buffer with
  | None => false
  | Some word =>
      let payload_length := (length buffer - CONTROL_HEADER_LENGTH)%nat in
      let sig_length := Z.land (le_word word) 0xfff in
      (4 <=? payload_length)%nat && (Z.of_nat payload_length <=? sig_length)
  end.

(** ** The vendor header

    [size_of::<wifi_pkt_rx_ctrl_t>()] and the bit-field accessors used by the
    driver, on the bytes of the header. *)

Class RxCtrl := {
  header_length : nat;
  sig_len : list Z -> Z;
  hdr_rssi : list Z -> Z;
  hdr_timestamp : list Z -> Z;
  hdr_cwb : list Z -> Z;
  hdr_sgi : list Z -> Z;
  hdr_mcs : list Z -> Z;
  hdr_rate : list Z -> Z;
  hdr_sig_mode : list Z -> Z
}.

(** What the C3/S3 driver states about the header: it is 48 bytes long
    (asserted at compile time) and its last word holds [SIG_LEN] in the low 12
    bits. *)
Class RxCtrl48 (R : RxCtrl) : Prop := {
  header_length_48 : header_length = CONTROL_HEADER_LENGTH;
  sig_len_last_word : forall h, length h = CONTROL_HEADER_LENGTH ->
    sig_len h = Z.land (le_word (drop 44 h)) 0xfff
}.

(** ** [is_rx_frame_valid] *)

Definition RX_BUFFER_SIZE : nat := 1600.

(** [len] and [buffer] are the descriptor's length and the bytes it points to,
    [None] for a null pointer; the result is [None] when [buffer[24..28]]
    panics. *)
Definition is_rx_frame_valid `{RxCtrl} (c : Chip) (len : nat) (buffer : option (list Z)) : option bool :=
  match buffer with
  | None => Some false
  | Some memory =>
      if (RX_BUFFER_SIZE <? len)%nat || (len <? header_length)%nat then Some false else
      let buffer := take len memory in
      if c3_or_s3 c then Some (valid_length buffer) else
      word ← slice 24 28 buffer;
      let lengths := le_word word in
      Some ((Z.land lengths 0xfff <? Z.of_nat len) &&
            (Z.land (Z.shiftr lengths 12) 0xfff <? Z.of_nat len))
  end.

(** ** [BorrowedBuffer]

    The functions take the padded buffer, whose length is
    [dma_descriptor.len()]. [usize] arithmetic wraps at 32 bits. *)

Module BorrowedBuffer.
Section BorrowedBuffer.
Context `{MacroBits} `{RxCtrl}.
Implicit Types b : list Z.

Definition usz (n : nat) : Z := Z.of_nat n.

(** [raw_header()]: the accessors only look at the header bytes. *)
Definition raw_header b : list Z := take header_length b.

Definition trailer_length b : Z :=
  let padded_len := u32 (usz (length b) - usz header_length) in
  let delta := u32 (sig_len (raw_header b) - padded_len) in
  if Z.land delta 3 =? 0 then delta
  else Z.land delta (u32 (Z.lnot 3)) +u 4.

Definition unpadded_buffer_len b : Z :=
  u32 (sig_len (raw_header b) - trailer_length b) +u usz header_length.

Definition raw_buffer b : list Z :=
  match slice 0 (Z.to_nat (unpadded_buffer_len b)) b with
  | Some k => k
  | None => b
  end.

(** The mutable variants index instead of using [get]: [None] is the panic. *)
Definition raw_buffer_mut b : option (list Z) := slice 0 (Z.to_nat (unpadded_buffer_len b)) b.

Definition mpdu_buffer b : option (list Z) :=
  let raw := raw_buffer b in slice header_length (length raw) raw.

Definition mpdu_buffer_mut b : option (list Z) :=
  raw ← raw_buffer_mut b; slice header_length (length raw) raw.

Definition header_buffer b : option (list Z) := slice 0 header_length b.

Definition rssi (c : Chip) b : Z :=
  let offset := match c with Esp32 => -96 | _ => 0 end in
  i8 (i8 (hdr_rssi (raw_header b)) + offset).

Definition timestamp b : Z := hdr_timestamp (raw_header b).

Definition aggregation b : option bool :=
  h ← header_buffer b; byte ← h !! 7%nat; Some (check_bit byte (bit 3)).

(** The outer [option] is a panic ([unreachable!]). *)
Definition phy_rate b : option (option RxPhyRate) :=
  let h := raw_header b in
  let cbw40 := hdr_cwb h =? 1 in
  let short_gi := hdr_sgi h =? 1 in
  let mcs := u8 (hdr_mcs h) in
  let rate := u8 (hdr_rate h) in
  match hdr_sig_mode h with
  | 0 =>
      if rate <=? 7 then
        Some (HrDsss <$> HrDsssRate.new (rate mod 4) (rate / 4 =? 1))
      else if rate <=? 15 then
        r ← match rate with
            | 0x0b => Some Mbits6
            | 0x0f => Some Mbits9
            | 0x0a => Some Mbits12
            | 0x0e => Some Mbits18
            | 0x09 => Some Mbits24
            | 0x0d => Some Mbits36
            | 0x08 => Some Mbits48
            | 0x0c => Some Mbits54
            | _ => None
            end;
        Some (Some (Ofdm r))
      else Some None
  | 1 => Some (Ht <$> HtRate.new mcs short_gi cbw40)
  | _ => Some None
  end.

Definition is_frame_for_interface b (interface : nat) : option bool :=
  if (interface <? INTERFACE_COUNT)%nat then
    h ← header_buffer b; byte ← h !! 3%nat;
    Some (check_bit byte (bit (Z.of_nat interface + 4)))
  else Some false.

Definition interface_iterator b : option (list nat) :=
  h ← header_buffer b; byte ← h !! 3%nat;
  Some (List.filter (fun i => check_bit byte (bit (Z.of_nat i + 4))) (seq 0 INTERFACE_COUNT)).

Definition rx_state b : option Z :=
  h ← header_buffer b; h !! (header_length - 1)%nat.

Definition is_fragment b : bool :=
  match raw_buffer b !! (header_length + 1)%nat with
  | Some byte => negb (Z.land byte 4 =? 0)
  | None => false
  end.

End BorrowedBuffer.
End BorrowedBuffer.

(** ** Theorems *)

Lemma sig_field_range x : 0 <= Z.land x 0xfff <= 4095.
Proof. apply land_le_r. lia. Qed.

Lemma valid_length_spec b : valid_length b = true <->
  (52 <= length b)%nat /\
  Z.of_nat (length b - 48) <= Z.land (le_word (drop 44 (take 48 b))) 0xfff.
Proof.
  unfold valid_length, CONTROL_HEADER_LENGTH.
  destruct (decide (48 <= length b)%nat) as [Hl|Hl].
  - rewrite slice_Some by lia.
    replace (take (48 - 44) (drop 44 b)) with (drop 44 (take 48 b))
      by (by rewrite skipn_firstn_comm).
    rewrite andb_true_iff, Nat.leb_le, Z.leb_le. lia.
  - rewrite slice_None by lia. split; [done|lia].
Qed.

(** Rounding up to a multiple of four, as the trailer arithmetic does it. *)
Definition round4 (d : Z) : Z := if d mod 4 =? 0 then d else d / 4 * 4 + 4.

Lemma round4_spec d : d <= round4 d < d + 4 /\ round4 d mod 4 = 0.
Proof.
  unfold round4. pose proof (Z.div_mod d 4). pose proof (Z.mod_pos_bound d 4).
  destruct (Z.eqb_spec (d mod 4) 0); [lia|]. split; [lia|].
  rewrite Z.add_mod, Z.mod_mul by lia. done.
Qed.

Lemma land_not3 d : 0 <= d < 2 ^ 32 -> Z.land d (u32 (Z.lnot 3)) = d / 4 * 4.
Proof.
  intros Hd. change (u32 (Z.lnot 3)) with 0xfffffffc.
  replace (d / 4 * 4) with (Z.shiftl (Z.shiftr d 2) 2)
    by (by rewrite Z.shiftl_mul_pow2, Z.shiftr_div_pow2 by lia).
  apply (width_bits_ext 32); [lia|by apply land_width; width| |].
  - unfold in_width. rewrite Z.shiftl_mul_pow2, Z.shiftr_div_pow2 by lia.
    change (2 ^ 2) with 4. pose proof (Z.div_mod d 4). pose proof (Z.mod_pos_bound d 4). lia.
  - intros i Hi. bit_cases i 32; bit_solve; done.
Qed.

Section Lengths.
Context `{MacroBits} `{R : RxCtrl} `{!RxCtrl48 R}.
Implicit Types b : list Z.

Lemma header_sig_len b : (48 <= length b)%nat ->
  sig_len (BorrowedBuffer.raw_header b) = Z.land (le_word (drop 44 (take 48 b))) 0xfff.
Proof.
  intros Hl. unfold BorrowedBuffer.raw_header. rewrite header_length_48.
  apply sig_len_last_word. rewrite length_take. unfold CONTROL_HEADER_LENGTH. lia.
Qed.

(** The lengths of a frame accepted on C3/S3: nothing underflows. *)
Lemma accepted_lengths b :
  valid_length b = true -> (length b <= RX_BUFFER_SIZE)%nat ->
  let sig := sig_len (BorrowedBuffer.raw_header b) in
  let payload := Z.of_nat (length b - 48) in
  4 <= payload <= sig /\ sig <= 4095 /\
  BorrowedBuffer.trailer_length b = round4 (sig - payload) /\
  BorrowedBuffer.unpadded_buffer_len b = sig - round4 (sig - payload) + 48.
Proof.
  intros Hv Hb. pose proof (proj1 (valid_length_spec b) Hv) as [Hl Hs]. unfold RX_BUFFER_SIZE in Hb.
  cbn zeta. rewrite <- (header_sig_len b) in Hs by lia.
  set (sig := sig_len (BorrowedBuffer.raw_header b)) in *.
  assert (sig <= 4095) as Hsig.
  { unfold sig. rewrite header_sig_len by lia. apply sig_field_range. }
  pose proof (round4_spec (sig - Z.of_nat (length b - 48))) as [Hr _].
  assert (BorrowedBuffer.trailer_length b = round4 (sig - Z.of_nat (length b - 48))) as T.
  { unfold BorrowedBuffer.trailer_length, BorrowedBuffer.usz. rewrite header_length_48. fold sig.
    replace (Z.of_nat (length b) - Z.of_nat CONTROL_HEADER_LENGTH) with (Z.of_nat (length b - 48))
      by (unfold CONTROL_HEADER_LENGTH; lia).
    rewrite (wrap_small 32 (Z.of_nat _)) by width.
    rewrite (wrap_small 32 (sig - _)) by width.
    rewrite (Z.land_ones _ 2) by lia. rewrite land_not3 by width.
    change (2 ^ 2) with 4. unfold round4. unfold round4 in Hr. case_match; [done|].
    rewrite wrap_small by width. done. }
  split_and!; [lia|lia|done|done|].
  unfold BorrowedBuffer.unpadded_buffer_len, BorrowedBuffer.usz.
  rewrite header_length_48, T. fold sig. unfold CONTROL_HEADER_LENGTH.
  rewrite (wrap_small 32 (sig - _)), wrap_small by width. lia.
Qed.

End Lengths.

(** The views of an accepted frame. *)
Lemma accepted_views `{MacroBits} `{R : RxCtrl} `{!RxCtrl48 R} c memory len :
  c3_or_s3 c = true -> (len <= length memory)%nat ->
  is_rx_frame_valid c len (Some memory) = Some true ->
  let b := take len memory in
  let sig := sig_len (BorrowedBuffer.raw_header b) in
  let payload := Z.of_nat (len - 48) in
  BorrowedBuffer.trailer_length b = round4 (sig - payload) /\
  exists mpdu padding, b = take 48 b ++ mpdu ++ padding /\
    BorrowedBuffer.mpdu_buffer b = Some mpdu /\ BorrowedBuffer.mpdu_buffer_mut b = Some mpdu /\
    Z.of_nat (length mpdu) = sig - BorrowedBuffer.trailer_length b /\
    payload - 3 <= Z.of_nat (length mpdu) <= payload.
Proof.
  intros Hc Hm Hv b sig payload.
  unfold is_rx_frame_valid in Hv. rewrite Hc in Hv. case_match eqn:E; [done|].
  apply orb_false_iff in E as [E1 E2]. rewrite Nat.ltb_ge in E1. injection Hv as Hv. fold b in Hv.
  assert (length b = len) as Hlen by (unfold b; rewrite length_take; lia).
  assert (length b <= RX_BUFFER_SIZE)%nat as Hb by lia.
  destruct (accepted_lengths b Hv Hb) as (Hp & Hsig & Ht & Hu). fold sig in Hp, Hsig, Ht, Hu.
  rewrite Hlen in Hp, Ht, Hu. fold payload in Hp, Ht, Hu. split; [done|].
  pose proof (round4_spec (sig - payload)) as [Hr _].
  set (n := Z.to_nat (BorrowedBuffer.unpadded_buffer_len b)).
  assert (48 <= n <= len)%nat as Hn by (unfold n, payload in *; lia).
  assert (slice 0 n b = Some (take n b)) as Hs.
  { rewrite slice_Some by lia. by rewrite drop_0, Nat.sub_0_r. }
  assert (BorrowedBuffer.raw_buffer b = take n b) as Hraw.
  { unfold BorrowedBuffer.raw_buffer. fold n. by rewrite Hs. }
  assert (slice 48 (length (take n b)) (take n b) = Some (drop 48 (take n b))) as Hm2.
  { rewrite length_take, slice_Some by (rewrite length_take; lia). f_equal.
    apply take_ge. rewrite length_drop, length_take. lia. }
  exists (drop 48 (take n b)), (drop n b). split_and!.
  - rewrite app_assoc. rewrite <- (take_drop n b) at 1. f_equal.
    rewrite <- (take_drop 48 (take n b)) at 1. f_equal. rewrite take_take. f_equal. lia.
  - unfold BorrowedBuffer.mpdu_buffer. by rewrite Hraw, header_length_48.
  - unfold BorrowedBuffer.mpdu_buffer_mut, BorrowedBuffer.raw_buffer_mut. fold n.
    rewrite Hs. cbn. by rewrite header_length_48.
  - rewrite length_drop, length_take. unfold n. rewrite Ht. unfold payload in *. lia.
  - rewrite length_drop, length_take. unfold n. unfold payload in *. lia.
  - rewrite length_drop, length_take. unfold n. unfold payload in *. lia.
Qed.

(** C11: on C3 and S3, every frame that [is_rx_frame_valid] accepts can be read
    safely.  Writing [sig] for the header's signal length and [payload] for
    the padded MPDU length, the trailer is [sig - payload] rounded up to a
    multiple of four, no length computation underflows, and both MPDU views
    are the [sig - trailer] bytes that follow the 48-byte header: between
    [payload - 3] and [payload] bytes, all inside the descriptor's buffer. *)
Theorem accepted_frame_in_bounds `{MacroBits} `{R : RxCtrl} `{!RxCtrl48 R} c memory len :
  c3_or_s3 c = true -> (len <= length memory)%nat ->
  is_rx_frame_valid c len (Some memory) = Some true ->
  let b := take len memory in
  let sig := sig_len (BorrowedBuffer.raw_header b) in
  let payload := Z.of_nat (len - 48) in
  BorrowedBuffer.trailer_length b = round4 (sig - payload) /\
  exists mpdu padding, b = take 48 b ++ mpdu ++ padding /\
    BorrowedBuffer.mpdu_buffer b = Some mpdu /\ BorrowedBuffer.mpdu_buffer_mut b = Some mpdu /\
    Z.of_nat (length mpdu) = sig - BorrowedBuffer.trailer_length b /\
    payload - 3 <= Z.of_nat (length mpdu) <= payload.
Proof. apply accepted_views. Qed.

(** A concrete header, used to evaluate the model: the accessors of the
    non-length fields are constants. *)
Definition rx_ctrl_ref : RxCtrl :=
  {| header_length := 48;
     sig_len h := Z.land (le_word (drop 44 h)) 0xfff;
     hdr_rssi _ := 0xd8; hdr_timestamp _ := 0; hdr_cwb _ := 0; hdr_sgi _ := 0;
     hdr_mcs _ := 0; hdr_rate _ := 0x0b; hdr_sig_mode _ := 0 |}.

Lemma rx_ctrl_ref_48 : RxCtrl48 rx_ctrl_ref.
Proof. split; [done|]. by intros h _. Qed.

Lemma accepted_frame_in_bounds_witness :
  exists memory, @is_rx_frame_valid rx_ctrl_ref Esp32c3 70 (Some memory) = Some true /\
    exists mpdu, @BorrowedBuffer.mpdu_buffer rx_ctrl_ref (take 70 memory) = Some mpdu /\
    length mpdu = 21%nat.
Proof.
  exists (replicate 44 0 ++ [29; 0; 0; 0] ++ replicate 22 7 ++ replicate 40 0).
  split; [reflexivity|].
  destruct (@accepted_frame_in_bounds macro_bits_ref rx_ctrl_ref rx_ctrl_ref_48 Esp32c3
    (replicate 44 0 ++ [29; 0; 0; 0] ++ replicate 22 7 ++ replicate 40 0) 70)
    as (Ht & mpdu & pad & _ & Hm & _ & Hl & _); [reflexivity|cbn; lia|reflexivity|].
  exists mpdu. split; [exact Hm|].
  match type of Hl with _ = ?r => change r with 21 in Hl end. lia.
Defined.

(** Decoding the rate of a received frame. *)
Lemma phy_rate_total `{RxCtrl} b : is_Some (BorrowedBuffer.phy_rate b).
Proof.
  unfold BorrowedBuffer.phy_rate.
  destruct (hdr_sig_mode _) as [|[p|p|]|p]; try by eexists.
  pose proof (wrap_range 8 (hdr_rate (BorrowedBuffer.raw_header b)) ltac:(lia)) as W.
  set (rate := u8 _) in *. destruct (Z.leb_spec rate 7); [by eexists|].
  destruct (Z.leb_spec rate 15); [|by eexists].
  assert (rate ∈ seqZ 8 8) as E by (apply in_seqZ; lia). vm_compute seqZ in E.
  enum_in E; by eexists.
Qed.

Lemma phy_rate_legacy `{RxCtrl} b (r : RxPhyRate) :
  let h := BorrowedBuffer.raw_header b in
  match r with HrDsss _ | Ofdm _ => True | Ht _ => False end ->
  phy_valid r = true -> hdr_sig_mode h = 0 -> hdr_rate h = as_hardware_rate r ->
  BorrowedBuffer.phy_rate b = Some (Some r).
Proof.
  intros h Hr Hv Hm Hrate. unfold BorrowedBuffer.phy_rate. fold h. rewrite Hm, Hrate.
  destruct r as [hr|o|]; [| |done].
  - cbn in Hv. apply hr_valid_cases in Hv. enum_in Hv; reflexivity.
  - by destruct o.
Qed.

Lemma phy_rate_ht `{RxCtrl} b (r : HtRate Rx) :
  let h := BorrowedBuffer.raw_header b in
  ht_valid r = true -> hdr_sig_mode h = 1 ->
  hdr_mcs h = mcs_index r -> hdr_sgi h = bool_to_Z (short_gi r) -> hdr_cwb h = bool_to_Z (cbw40 r) ->
  BorrowedBuffer.phy_rate b = Some (Some (Ht r)).
Proof.
  intros h Hv Hm Hmcs Hg Hc. unfold BorrowedBuffer.phy_rate. fold h. rewrite Hm, Hmcs, Hg, Hc.
  destruct r as [m g c]. unfold ht_valid in Hv. cbn in *.
  rewrite andb_true_iff, !Z.leb_le in Hv. rewrite wrap_small by width. unfold HtRate.new. cbn.
  rewrite (proj2 (Z.leb_le m 32)) by lia. by destruct g, c.
Qed.

(** C22: decoding the RX rate is total and inverts the rate encoding: the
    [unreachable!] arm is never taken, whatever the header holds; a legacy
    header carrying the hardware code of a well-formed HR/DSSS or OFDM rate
    decodes to that rate, and an HT header to the HT rate of its fields. *)
Theorem rx_rate_roundtrip `{RxCtrl} :
  (forall b, is_Some (BorrowedBuffer.phy_rate b)) /\
  (forall b (r : RxPhyRate),
     match r with HrDsss _ | Ofdm _ => True | Ht _ => False end -> phy_valid r = true ->
     hdr_sig_mode (BorrowedBuffer.raw_header b) = 0 ->
     hdr_rate (BorrowedBuffer.raw_header b) = as_hardware_rate r ->
     BorrowedBuffer.phy_rate b = Some (Some r)) /\
  (forall b (r : HtRate Rx), ht_valid r = true ->
     let h := BorrowedBuffer.raw_header b in hdr_sig_mode h = 1 ->
     hdr_mcs h = mcs_index r -> hdr_sgi h = bool_to_Z (short_gi r) -> hdr_cwb h = bool_to_Z (cbw40 r) ->
     BorrowedBuffer.phy_rate b = Some (Some (Ht r))).
Proof. split_and!; [apply phy_rate_total|apply phy_rate_legacy|intros; by apply phy_rate_ht]. Qed.

(** The interfaces a frame is for are those whose bit is set in byte 3. *)
Lemma interface_iterator_spec `{MacroBits} `{RxCtrl} b l :
  BorrowedBuffer.interface_iterator b = Some l ->
  forall i, In i l <-> BorrowedBuffer.is_frame_for_interface b i = Some true.
Proof.
  unfold BorrowedBuffer.interface_iterator, BorrowedBuffer.is_frame_for_interface.
  intros E i. destruct (BorrowedBuffer.header_buffer b) as [h|]; [|done]. cbn [mbind option_bind] in *.
  destruct (h !! 3%nat) as [byte|]; [|done]. cbn [mbind option_bind] in *.
  assert (l = List.filter (fun i => check_bit byte (bit (Z.of_nat i + 4))) (seq 0 INTERFACE_COUNT))
    as -> by congruence.
  rewrite filter_In, in_seq. change INTERFACE_COUNT with 4%nat.
  destruct (Nat.ltb_spec i 4); split; try done.
  - by intros [_ ->].
  - intros [= ->]. split; [lia|done].
  - intros [? _]. lia.
Qed.
