(* ===== verification/Crypto.v ===== *)
(** * Cipher parameters ([crypto.rs])

    A reference to a byte array [&[u8; N]] is a list of bytes; [MultiLengthKey.ok] states
    its length and that its elements are bytes. *)

From S2P Require Import Prelude.

Definition WEP40_KEY_LENGTH : nat := 5.
Definition WEP104_KEY_LENGTH : nat := 13.
Definition TKIP_KEY_LENGTH : nat := 16.
Definition AES_128_KEY_LENGTH : nat := 16.
Definition AES_256_KEY_LENGTH : nat := 32.

Inductive MultiLengthKey (SHORT LONG : nat) :=
| Short (key : list Z)
| Long (key : list Z).
Arguments Short {SHORT LONG} key.
Arguments Long {SHORT LONG} key.

Module MultiLengthKey.

Definition key_length {S L} (k : MultiLengthKey S L) : nat :=
  match k with Short _ => S | Long _ => L end.

Definition key {S L} (k : MultiLengthKey S L) : list Z :=
  match k with Short key => key | Long key => key end.

(** The array lengths of the type. *)
Definition ok {S L} (k : MultiLengthKey S L) : Prop :=
  length (key k) = key_length k /\ Forall is_u8 (key k).

End MultiLengthKey.

Inductive KeyType := Pairwise | Group.

#[export] Instance KeyType_eq_dec : EqDecision KeyType.
Proof. solve_decision. Defined.

Record AesCipherParameters := mkAes {
  aes_key : MultiLengthKey AES_128_KEY_LENGTH AES_256_KEY_LENGTH;
  aes_key_type : KeyType;
  mfp_enabled : bool;
  spp_enabled : bool
}.

Inductive CipherParameters :=
| Wep (key : MultiLengthKey WEP40_KEY_LENGTH WEP104_KEY_LENGTH)
| Tkip (key : list Z) (key_type : KeyType)
| Ccmp (parameters : AesCipherParameters).

Module CipherParameters.
Implicit Types p : CipherParameters.

Definition aes_cipher_parameters p : option AesCipherParameters :=
  match p with Ccmp parameters => Some parameters | _ => None end.

(** [Option::is_none_or] *)
Definition is_none_or {A} (o : option A) (f : A -> bool) : bool :=
  match o with None => true | Some a => f a end.

Definition is_256_bit_key p : bool :=
  is_none_or (aes_cipher_parameters p)
    (fun a => (MultiLengthKey.key_length (aes_key a) =? AES_256_KEY_LENGTH)%nat).

Definition is_wep_104 p : bool :=
  match p with
  | Wep key => (MultiLengthKey.key_length key =? WEP104_KEY_LENGTH)%nat
  | _ => false
  end.

Definition is_spp_enabled p : bool := is_none_or (aes_cipher_parameters p) spp_enabled.

Definition is_mfp_enabled p : bool := is_none_or (aes_cipher_parameters p) mfp_enabled.

Definition key_type p : option KeyType :=
  match option_map aes_key_type (aes_cipher_parameters p) with
  | Some t => Some t
  | None => match p with Tkip _ t => Some t | _ => None end
  end.

(** [aes_cipher_parameters().unwrap()] cannot panic: the remaining variant is
    [Ccmp].  [None] would be the panic. *)
Definition key p : option (list Z) :=
  match p with
  | Wep key => Some (MultiLengthKey.key key)
  | Tkip key _ => Some key
  | _ => a ← aes_cipher_parameters p; Some (MultiLengthKey.key (aes_key a))
  end.

Definition is_aead p : bool := match p with Wep _ => true | _ => false end.

Definition is_pairwise p : bool :=
  match key_type p with Some t => bool_decide (t = Pairwise) | None => true end.

Definition is_group p : bool :=
  match key_type p with Some t => bool_decide (t = Group) | None => true end.

Definition algorithm p : Z := match p with Wep _ => 1 | Tkip _ _ => 2 | Ccmp _ => 3 end.

Definition mic_length p : nat :=
  match aes_cipher_parameters p with
  | None => 0
  | Some a => MultiLengthKey.key_length (aes_key a)
  end.

(** The lengths the Rust types guarantee. *)
Definition ok p : Prop :=
  match p with
  | Wep key => MultiLengthKey.ok key
  | Tkip key _ => length key = TKIP_KEY_LENGTH /\ Forall is_u8 key
  | Ccmp a => MultiLengthKey.ok (aes_key a)
  end.

Lemma key_ok p : ok p -> exists k, key p = Some k /\ Forall is_u8 k /\ (length k <= 32)%nat /\ (0 < length k)%nat.
Proof.
  destruct p as [[k|k]|k t|[[k|k] ? ? ?]]; cbn; intros [Hl Hb]; exists k;
    (split_and!; [done..| |]); cbn in Hl; rewrite Hl; vm_compute; lia.
Qed.

End CipherParameters.

(** The key usage derived from the cipher is consistent: a key slot is
    always for pairwise or for group traffic, it is for both exactly with WEP,
    [key_type] is absent exactly with WEP, and the key handed to the hardware
    exists, consists of bytes and has 1 to 32 of them, so programming it never
    panics. *)
Theorem cipher_usage_consistent p :
  CipherParameters.ok p ->
  (CipherParameters.is_pairwise p || CipherParameters.is_group p) = true /\
  ((CipherParameters.is_pairwise p && CipherParameters.is_group p) = true <-> exists k, p = Wep k) /\
  (CipherParameters.key_type p = None <-> exists k, p = Wep k) /\
  exists k, CipherParameters.key p = Some k /\ Forall is_u8 k /\ (1 <= length k <= 32)%nat.
Proof.
  intros Hp. destruct (CipherParameters.key_ok p Hp) as (k & Hk & Hb & Hl & H0).
  split_and!; [| | |exists k; split_and!; (done || lia)].
  - by destruct p as [|? []|[? [] ? ?]].
  - destruct p as [k'|? []|[? [] ? ?]]; (split; [try done; by eexists|by intros [? ?]]).
  - destruct p as [k'|? []|[? [] ? ?]]; (split; [try done; by eexists|by intros [? ?]]).
Qed.

Lemma cipher_usage_consistent_witness :
  exists k, CipherParameters.key (Tkip (replicate 16 7) Group) = Some k /\ Forall is_u8 k.
Proof.
  destruct (cipher_usage_consistent (Tkip (replicate 16 7) Group)) as (_ & _ & _ & k & H & Hb & _).
  - split; [reflexivity|]. repeat constructor; (vm_compute; congruence).
  - by exists k.
Defined.

(** The documented meaning of [is_aead] is inverted: it holds exactly for WEP,
    the one cipher that is not an AEAD. *)
Lemma is_aead_only_wep p : CipherParameters.is_aead p = true <-> exists k, p = Wep k.
Proof. destruct p; cbn; (split; [try done; by eexists|by intros [? ?]]). Qed.

(** [mic_length] is the length of the AES key, 16 for CCMP-128, whose MIC has
    8 bytes. *)
Lemma mic_length_is_key_length a :
  CipherParameters.mic_length (Ccmp a) = MultiLengthKey.key_length (aes_key a).
Proof. reflexivity. Qed.

(** [is_256_bit_key], [is_spp_enabled] and [is_mfp_enabled] hold for every
    cipher without AES parameters. *)
Lemma non_aes_flags p : CipherParameters.aes_cipher_parameters p = None ->
  CipherParameters.is_256_bit_key p = true /\ CipherParameters.is_spp_enabled p = true /\
  CipherParameters.is_mfp_enabled p = true.
Proof. intros E. unfold CipherParameters.is_256_bit_key, CipherParameters.is_spp_enabled, CipherParameters.is_mfp_enabled. by rewrite E. Qed.
