(* ===== verification/Sync.v ===== *)
(** * Synchronisation primitives ([sync.rs])

    The three signals between the interrupt handlers and the waiting tasks.
    Each primitive is an atomic cell and an [AtomicWaker]; the waker is
    [esp_hal]'s, so it is a parameter with the behaviour the driver relies on:
    waking after a registration wakes the registered task.  The body of the
    [poll_fn] closures runs inside a lock that excludes the interrupt handler,
    so a poll is one step. *)

From S2P Require Import Prelude.

(** [esp_hal::asynch::AtomicWaker]: [wake] returns whether a task was woken. *)
Class AtomicWaker := {
  Waker : Type;
  waker_new : Waker;
  waker_register : Waker -> Waker;
  waker_wake : Waker -> Waker * bool;
  wake_registered : forall w, (waker_wake (waker_register w)).2 = true
}.

(** A waker that remembers whether a task is registered. *)
Definition atomic_waker_ref : AtomicWaker :=
  {| Waker := bool; waker_new := false; waker_register _ := true;
     waker_wake w := (false, w); wake_registered _ := eq_refl |}.

Inductive ChannelAccessError := Timeout | Collision.

#[export] Instance ChannelAccessError_eq_dec : EqDecision ChannelAccessError.
Proof. solve_decision. Defined.

Inductive Poll (A : Type) := Ready (a : A) | Pending.
Arguments Ready {A} a.
Arguments Pending {A}.

(** ** [HardwareTxResultSignal] *)

Module TxSignal.
Section TxSignal.
Context `{AtomicWaker}.

Definition PENDING_OR_INACTIVE : Z := 0.
Definition SUCCESS : Z := 1.
Definition TIMEOUT : Z := 2.
Definition COLLISION : Z := 3.

Record HardwareTxResultSignal := mk { state : Z; waker : Waker }.

Definition new : HardwareTxResultSignal := mk PENDING_OR_INACTIVE waker_new.

Definition reset (s : HardwareTxResultSignal) : HardwareTxResultSignal :=
  mk PENDING_OR_INACTIVE (waker s).

(** Returns whether a task was woken. *)
Definition signal (status : result unit ChannelAccessError) (s : HardwareTxResultSignal)
    : HardwareTxResultSignal * bool :=
  let st := match status with
            | Ok _ => SUCCESS
            | Err Timeout => TIMEOUT
            | Err Collision => COLLISION
            end in
  let '(w, woken) := waker_wake (waker s) in
  (mk st w, woken).

(** One poll of the future returned by [wait]; [None] is [unreachable!]. *)
Definition wait (s : HardwareTxResultSignal)
    : option (Poll (result unit ChannelAccessError) * HardwareTxResultSignal) :=
  if negb (state s =? PENDING_OR_INACTIVE) then
    r ← match state s with
        | 1 => Some (Ok tt)
        | 2 => Some (Err Timeout)
        | 3 => Some (Err Collision)
        | _ => None
        end;
    Some (Ready r, reset s)
  else Some (Pending, mk (state s) (waker_register (waker s))).

End TxSignal.
End TxSignal.

(** ** [EventSignal] *)

Module EventSignal.
Section EventSignal.
Context `{AtomicWaker}.

Record EventSignal := mk { fired : bool; waker : Waker }.

Definition new : EventSignal := mk false waker_new.

Definition signal (s : EventSignal) : EventSignal * bool :=
  let '(w, woken) := waker_wake (waker s) in (mk true w, woken).

Definition reset (s : EventSignal) : EventSignal := mk false (waker s).

Definition wait (s : EventSignal) : Poll unit * EventSignal :=
  if fired s then (Ready tt, mk false (waker s))
  else (Pending, mk false (waker_register (waker s))).

End EventSignal.
End EventSignal.

(** ** [SignalQueue] *)

Module SignalQueue.
Section SignalQueue.
Context `{AtomicWaker}.

Record SignalQueue := mk { waker : Waker; queued_signals : Z }.

Definition new : SignalQueue := mk waker_new 0.

(** [fetch_add] wraps and returns the previous value. *)
Definition put (s : SignalQueue) : SignalQueue * bool :=
  let q := u32 (queued_signals s + 1) in
  if queued_signals s =? 0 then
    let '(w, woken) := waker_wake (waker s) in (mk w q, woken)
  else (mk (waker s) q, false).

Definition reset (s : SignalQueue) : SignalQueue := mk (waker s) 0.

Definition next (s : SignalQueue) : Poll unit * SignalQueue :=
  if queued_signals s =? 0 then (Pending, mk (waker_register (waker s)) (queued_signals s))
  else (Ready tt, mk (waker s) (queued_signals s - 1)).

End SignalQueue.
End SignalQueue.

(** ** [DropGuard]

    A guard carries the closure to run on drop; [defuse] forgets it and
    [detonate] drops it right away. *)

Module DropGuard.

Record DropGuard (S : Type) := mk { drop_closure : S -> S }.
Arguments mk {S} _.
Arguments drop_closure {S} _.

Definition new {S} (f : S -> S) : DropGuard S := mk f.
Definition defuse {S} (g : DropGuard S) (s : S) : S := s.
Definition drop {S} (g : DropGuard S) (s : S) : S := drop_closure g s.
Definition detonate {S} (g : DropGuard S) (s : S) : S := drop g s.

End DropGuard.

(** ** A signal and the task that waits for it

    The interface the three primitives share: a notification by the interrupt
    handler, a reset by the task, and a poll. *)

Class Signal (T Note Res : Type) := {
  sig_notify : Note -> T -> T * bool;
  sig_reset : T -> T;
  sig_poll : T -> option (Poll Res * T);
  (** [true] when a poll would return [Ready]. *)
  sig_available : T -> bool;
  (** [true] when a poll registered the task and nothing woke it since. *)
  sig_listening : T -> Prop;
  notify_wakes : forall n s, sig_listening s -> sig_available s = false -> (sig_notify n s).2 = true;
  reset_listening : forall s, sig_listening s -> sig_listening (sig_reset s);
  reset_available : forall s, sig_available (sig_reset s) = false;
  poll_pending : forall s s', sig_poll s = Some (Pending, s') ->
    sig_listening s' /\ sig_available s' = false;
  poll_ready : forall s r s', sig_poll s = Some (Ready r, s') -> sig_available s = true;
  poll_available : forall s, sig_available s = true -> forall s', sig_poll s <> Some (Pending, s')
}.

#[export] Instance TxSignal_Signal `{AtomicWaker} :
  Signal TxSignal.HardwareTxResultSignal (result unit ChannelAccessError) (result unit ChannelAccessError).
Proof.
  refine {| sig_notify := TxSignal.signal; sig_reset := TxSignal.reset; sig_poll := TxSignal.wait;
            sig_available s := negb (TxSignal.state s =? 0);
            sig_listening s := (waker_wake (TxSignal.waker s)).2 = true |}.
  - intros n s Hl _. unfold TxSignal.signal. by destruct (waker_wake _).
  - done.
  - done.
  - intros s s'. unfold TxSignal.wait, TxSignal.PENDING_OR_INACTIVE. destruct (negb _) eqn:E.
    + by destruct (match TxSignal.state s with Zpos _ => _ | _ => _ end).
    + intros [= <-]. cbn. by rewrite wake_registered.
  - intros s r s'. unfold TxSignal.wait, TxSignal.PENDING_OR_INACTIVE. by destruct (negb _).
  - intros s E s'. unfold TxSignal.wait, TxSignal.PENDING_OR_INACTIVE. rewrite E.
    by destruct (match TxSignal.state s with Zpos _ => _ | _ => _ end).
Defined.

#[export] Instance EventSignal_Signal `{AtomicWaker} : Signal EventSignal.EventSignal unit unit.
Proof.
  refine {| sig_notify _ := EventSignal.signal; sig_reset := EventSignal.reset;
            sig_poll s := Some (EventSignal.wait s); sig_available := EventSignal.fired;
            sig_listening s := (waker_wake (EventSignal.waker s)).2 = true |}.
  - intros _ s Hl _. unfold EventSignal.signal. by destruct (waker_wake _).
  - done.
  - done.
  - intros s s'. unfold EventSignal.wait. destruct (EventSignal.fired s); intros [= <-].
    cbn. by rewrite wake_registered.
  - intros s r s'. unfold EventSignal.wait. by destruct (EventSignal.fired s).
  - intros s E s'. unfold EventSignal.wait. by rewrite E.
Defined.

#[export] Instance SignalQueue_Signal `{AtomicWaker} : Signal SignalQueue.SignalQueue unit unit.
Proof.
  refine {| sig_notify _ := SignalQueue.put; sig_reset := SignalQueue.reset;
            sig_poll s := Some (SignalQueue.next s);
            sig_available s := negb (SignalQueue.queued_signals s =? 0);
            sig_listening s := (waker_wake (SignalQueue.waker s)).2 = true |}.
  - intros _ s Hl Ha. unfold SignalQueue.put. apply negb_false_iff in Ha. rewrite Ha.
    by destruct (waker_wake _).
  - done.
  - done.
  - intros s s'. unfold SignalQueue.next. destruct (_ =? 0) eqn:E; intros [= <-].
    cbn. by rewrite wake_registered, E.
  - intros s r s'. unfold SignalQueue.next. by destruct (_ =? 0).
  - intros s E s'. unfold SignalQueue.next. apply negb_true_iff in E. by rewrite E.
Defined.

(** One task and one signal.  The executor polls the task when it is
    [Scheduled]; a task whose poll was [Pending] is [Parked] until it is
    woken. *)
Inductive task := Idle | Scheduled | Parked.

Record world (T : Type) := mkWorld { w_signal : T; w_task : task }.
Arguments mkWorld {T} _ _.
Arguments w_signal {T} _.
Arguments w_task {T} _.

(** The steps of a system with one signal, over the operations of the signal:
    [notify] by the interrupt handler, [reset], and [poll] by the executor. *)
Section Steps.
Context {T Note Res : Type} (notify : Note -> T -> T * bool) (reset : T -> T) (poll : T -> option (Poll Res * T)).

Inductive world_step : world T -> world T -> Prop :=
| step_notify n s s' woken t :
    notify n s = (s', woken) ->
    world_step (mkWorld s t)
      (mkWorld s' (match t with Parked => if woken then Scheduled else Parked | _ => t end))
| step_reset s t : world_step (mkWorld s t) (mkWorld (reset s) t)
| step_start s : world_step (mkWorld s Idle) (mkWorld s Scheduled)
| step_cancel s t : world_step (mkWorld s t) (mkWorld s Idle)
| step_ready s r s' :
    poll s = Some (Ready r, s') -> world_step (mkWorld s Scheduled) (mkWorld s' Idle)
| step_pending s s' :
    poll s = Some (Pending, s') -> world_step (mkWorld s Scheduled) (mkWorld s' Parked).

End Steps.

Section World.
Context {T Note Res : Type} {Sg : Signal T Note Res}.
Abbreviation sig_step := (world_step sig_notify sig_reset sig_poll).

Definition no_lost_wakeup (w : world T) : Prop :=
  w_task w = Parked -> sig_available (w_signal w) = false /\ sig_listening (w_signal w).

Lemma no_lost_wakeup_step w w' :
  no_lost_wakeup w -> sig_step w w' -> no_lost_wakeup w'.
Proof.
  intros I. destruct 1 as [n s s' woken t E|s t|s|s t|s r s' E|s s' E]; intros HP; cbn in *; try done.
  - destruct t; try done. destruct (I eq_refl) as [Ha Hl]. cbn in *.
    pose proof (notify_wakes n s Hl Ha) as W. rewrite E in W. cbn in W. by subst woken.
  - destruct (I HP) as [_ Hl]. cbn in *. auto using reset_available, reset_listening.
  - by destruct (poll_pending s s' E).
Qed.

(** What the interface promises a client: a parked task has nothing to read
    and is woken by the next notification. *)
Lemma parked_wakes (s : T) t w n :
  t <> Parked -> rtc sig_step (mkWorld s t) w -> w_task w = Parked ->
  sig_available (w_signal w) = false /\ (sig_notify n (w_signal w)).2 = true.
Proof.
  intros Ht Hr. assert (no_lost_wakeup (mkWorld s t)) as I by (intros E; by destruct Ht).
  revert I. induction Hr as [w|w1 w2 w3 Hs _ IH]; intros I HP.
  - destruct (I HP) as [Ha Hl]. auto using notify_wakes.
  - apply IH; [|done]. by apply (no_lost_wakeup_step w1).
Qed.

End World.

(** C8: no wakeup is lost, by the transmit result signal, the event signal and
    the RX signal queue.  In every state reachable from one where the task is
    not parked, by any interleaving of notifications from the interrupt
    handler, resets, cancellations and polls, a parked task has nothing waiting
    for it (the state is pending, the flag is down, the count is zero), and the
    next notification wakes it.  The waker is any that wakes a task registered
    last. *)
Theorem wakeups_not_lost `{AtomicWaker} :
  (forall s t w n, t <> Parked -> rtc (world_step TxSignal.signal TxSignal.reset TxSignal.wait) (mkWorld s t) w ->
     w_task w = Parked ->
     TxSignal.state (w_signal w) = TxSignal.PENDING_OR_INACTIVE /\ (TxSignal.signal n (w_signal w)).2 = true) /\
  (forall s t w, t <> Parked ->
     rtc (world_step (fun _ : unit => EventSignal.signal) EventSignal.reset (fun s => Some (EventSignal.wait s))) (mkWorld s t) w ->
     w_task w = Parked ->
     EventSignal.fired (w_signal w) = false /\ (EventSignal.signal (w_signal w)).2 = true) /\
  (forall s t w, t <> Parked ->
     rtc (world_step (fun _ : unit => SignalQueue.put) SignalQueue.reset (fun s => Some (SignalQueue.next s))) (mkWorld s t) w ->
     w_task w = Parked ->
     SignalQueue.queued_signals (w_signal w) = 0 /\ (SignalQueue.put (w_signal w)).2 = true).
Proof.
  split_and!.
  - intros s t w n Ht Hr HP. destruct (parked_wakes (Sg := TxSignal_Signal) s t w n Ht Hr HP) as [Ha Hn].
    apply negb_false_iff, Z.eqb_eq in Ha. exact (conj Ha Hn).
  - intros s t w Ht Hr HP. exact (parked_wakes (Sg := EventSignal_Signal) s t w tt Ht Hr HP).
  - intros s t w Ht Hr HP. destruct (parked_wakes (Sg := SignalQueue_Signal) s t w tt Ht Hr HP) as [Ha Hn].
    apply negb_false_iff, Z.eqb_eq in Ha. exact (conj Ha Hn).
Qed.

Lemma wakeups_not_lost_witness :
  (TxSignal.signal (Ok tt) (@TxSignal.mk atomic_waker_ref 0 true)).2 = true /\
  (EventSignal.signal (@EventSignal.mk atomic_waker_ref false true)).2 = true /\
  (SignalQueue.put (@SignalQueue.mk atomic_waker_ref true 0)).2 = true.
Proof.
  destruct (@wakeups_not_lost atomic_waker_ref) as (Ht & He & Hq). split_and!.
  - apply (Ht (@TxSignal.new atomic_waker_ref) Scheduled (mkWorld (@TxSignal.mk atomic_waker_ref 0 true) Parked) (Ok tt));
      [done|apply rtc_once; by apply step_pending|done].
  - apply (He (@EventSignal.new atomic_waker_ref) Scheduled (mkWorld (@EventSignal.mk atomic_waker_ref false true) Parked));
      [done|apply rtc_once; by apply step_pending|done].
  - apply (Hq (@SignalQueue.new atomic_waker_ref) Scheduled (mkWorld (@SignalQueue.mk atomic_waker_ref true 0) Parked));
      [done|apply rtc_once; by apply step_pending|done].
Defined.

(** ** What the signals deliver

    The observable behaviour of a signal is the answers to its polls.  Each
    primitive refines a specification without a waker: a one-place mailbox that
    keeps the latest result, a flag, and a counter. *)

Inductive sig_event (Note : Type) := Notify (n : Note) | Reset | PollOnce.
Arguments Notify {Note} n.
Arguments Reset {Note}.
Arguments PollOnce {Note}.

(** The answers of a signal to a sequence of events; [None] is a panic. *)
Fixpoint sig_answers {T Note Res} {Sg : Signal T Note Res} (l : list (sig_event Note)) (s : T)
    : option (list (Poll Res)) :=
  match l with
  | [] => Some []
  | Notify n :: l' => sig_answers l' (sig_notify n s).1
  | Reset :: l' => sig_answers l' (sig_reset s)
  | PollOnce :: l' => '(r, s') ← sig_poll s; rs ← sig_answers l' s'; Some (r :: rs)
  end.

(** The specification: [notify], the reset value and [take] of an abstract
    state. *)
Fixpoint spec_answers {A Note Res} (notify : Note -> A -> A) (zero : A) (take : A -> Poll Res * A)
    (l : list (sig_event Note)) (a : A) : list (Poll Res) :=
  match l with
  | [] => []
  | Notify n :: l' => spec_answers notify zero take l' (notify n a)
  | Reset :: l' => spec_answers notify zero take l' zero
  | PollOnce :: l' => let '(r, a') := take a in r :: spec_answers notify zero take l' a'
  end.

Lemma answers_refine {T Note Res A} {Sg : Signal T Note Res} (abs : T -> A -> Prop)
    (notify : Note -> A -> A) (zero : A) (take : A -> Poll Res * A) :
  (forall n s a, abs s a -> abs (sig_notify n s).1 (notify n a)) ->
  (forall s a, abs s a -> abs (sig_reset s) zero) ->
  (forall s a, abs s a -> exists s', sig_poll s = Some ((take a).1, s') /\ abs s' (take a).2) ->
  forall l s a, abs s a -> sig_answers l s = Some (spec_answers notify zero take l a).
Proof.
  intros Hn Hr Hp l. induction l as [|[n| |] l IH]; intros s a Ha; cbn [sig_answers spec_answers]; eauto.
  destruct (Hp s a Ha) as (s' & -> & Ha'). cbn [mbind option_bind].
  rewrite (IH s' (take a).2 Ha'). by destruct (take a).
Qed.

Definition mailbox_take {A} (o : option A) : Poll A * option A :=
  match o with Some a => (Ready a, None) | None => (Pending, None) end.

Definition counter_take (n : Z) : Poll unit * Z :=
  if n =? 0 then (Pending, n) else (Ready tt, n - 1).

Section Delivery.
Context `{AtomicWaker}.

Definition tx_abs (s : TxSignal.HardwareTxResultSignal) (o : option (result unit ChannelAccessError)) : Prop :=
  TxSignal.state s = match o with
                     | None => 0 | Some (Ok tt) => 1
                     | Some (Err Timeout) => 2 | Some (Err Collision) => 3 end.

Lemma tx_answers l s o : tx_abs s o ->
  sig_answers l s = Some (spec_answers (fun r _ => Some r) None mailbox_take l o).
Proof.
  apply answers_refine.
  - intros n s' a _. cbn. unfold TxSignal.signal, tx_abs. destruct (waker_wake _).
    by destruct n as [[]|[]].
  - done.
  - intros s' a Ha. unfold tx_abs in Ha. cbn. unfold TxSignal.wait. rewrite Ha.
    destruct a as [[[]|[]]|]; cbn; eexists; split; done.
Qed.

Lemma event_answers l s :
  sig_answers l s = Some (spec_answers (fun _ _ => Some tt) None mailbox_take l
                            (if EventSignal.fired s then Some tt else None)).
Proof.
  apply (answers_refine (fun s a => a = if EventSignal.fired s then Some tt else None)); [| | |done].
  - intros n s' a _. cbn. unfold EventSignal.signal. by destruct (waker_wake _).
  - done.
  - intros s' a ->. cbn. unfold EventSignal.wait.
    destruct (EventSignal.fired s'); eexists; split; done.
Qed.

Lemma queue_answers l s :
  sig_answers l s = Some (spec_answers (fun _ n => u32 (n + 1)) 0 counter_take l
                            (SignalQueue.queued_signals s)).
Proof.
  apply (answers_refine (fun s a => a = SignalQueue.queued_signals s)); [| | |done].
  - intros n s' a ->. cbn. unfold SignalQueue.put. destruct (_ =? 0); [|done]. by destruct (waker_wake _).
  - done.
  - intros s' a ->. cbn. unfold SignalQueue.next, counter_take.
    destruct (_ =? 0); eexists; split; done.
Qed.

End Delivery.

(** C9: what a task receives.  For every sequence of notifications, resets and
    polls, the polls of a [HardwareTxResultSignal] answer like a mailbox that
    holds the latest result and is emptied by a poll or a reset, those of an
    [EventSignal] like a flag that collapses repeated events into one, and
    those of a [SignalQueue] like a 32-bit counter; none of them panics. *)
Theorem signals_refine_mailboxes `{AtomicWaker} :
  (forall l, sig_answers l TxSignal.new = Some (spec_answers (fun r _ => Some r) None mailbox_take l None)) /\
  (forall l, sig_answers l EventSignal.new = Some (spec_answers (fun _ _ => Some tt) None mailbox_take l None)) /\
  (forall l, sig_answers l SignalQueue.new = Some (spec_answers (fun _ n => u32 (n + 1)) 0 counter_take l 0)).
Proof.
  split_and!; intros l; [by apply tx_answers|apply event_answers|apply queue_answers].
Qed.
