(* ===== verification/Registers.v ===== *)
(** * The register file of the Wi-Fi peripheral

    The registers the low level driver accesses, bit fields, and the volatile
    access operations.  Register names and array bounds are those used in
    [ll.rs]; the positions of the bit fields and the reset values come from
    the peripheral access crate, which is not part of the repository: they are
    the parameter [Pac], with the documented property that the fields of one
    register do not overlap. *)

From S2P Require Import Prelude External Queue.

Inductive Reg :=
| CTRL | MAC_TIME
| RX_CTRL | RX_DESCR_BASE | RX_DESCR_NEXT | RX_DESCR_LAST
| C3_RX_ADDRESS_HIGH
| FILTER_ADDR_LOW (bank i : nat) | FILTER_ADDR_HIGH (bank i : nat)
| FILTER_MASK_LOW (bank i : nat) | FILTER_MASK_HIGH (bank i : nat)
| FILTER_CONTROL (i : nat) | RX_CTRL_FILTER (i : nat)
| TX_COMPLETE_STATUS | TX_ERROR_STATUS | TX_COMPLETE_CLEAR | TX_ERROR_CLEAR
| TX_SLOT_PLCP0 (slot : nat) | TX_SLOT_CONFIG (slot : nat)
| PLCP1 (slot : nat) | PLCP2 (slot : nat) | DURATION (slot : nat)
| HT_SIG (slot : nat) | HT_UNKNOWN (slot : nat) | PMD (slot : nat)
| INTERFACE_CRYPTO_CONTROL (i : nat) | GENERAL_CRYPTO_CONTROL | CRYPTO_KEY_SLOT_STATE
| KEY_ADDR_LOW (key : nat) | KEY_ADDR_HIGH (key : nat) | KEY_VALUE (key word : nat)
| WIFI_INT_STATUS | WIFI_INT_CLEAR | PWR_INT_STATUS | PWR_INT_CLEAR | PWR_INT_ENABLE
| TSF_CTRL | TSF_TIME_LOW | TSF_TIME_HIGH | TSF_LOAD_LOW | TSF_LOAD_HIGH
| TSF_CFG (i : nat) | TSF_TIMER_TARGET (t : nat) | TSF_TIMER_CFG (t : nat)
| TBTT_CFG (i : nat) | TBTT_START
| SYSCON_WIFI_CLK_EN | SYSCON_WIFI_RST_EN | LPWR_DIG_PWC | LPWR_DIG_ISO
(** A word of the baseband that [c3_phy.rs] and [s3_phy.rs] access by its
    address *)
| PHY_WORD (address : Z).

#[export] Instance Reg_eq_dec : EqDecision Reg.
Proof. solve_decision. Defined.

(** ** Bit fields *)

Record Field := mkField { f_lo : Z; f_width : Z }.

Definition field_ok (f : Field) : Prop := 0 <= f_lo f /\ 0 < f_width f /\ f_lo f + f_width f <= 32.

Definition disjoint_fields (f g : Field) : Prop :=
  f_lo f + f_width f <= f_lo g \/ f_lo g + f_width g <= f_lo f.

Definition fget (f : Field) (w : Z) : Z := Z.land (Z.shiftr w (f_lo f)) (Z.ones (f_width f)).

(** [w.field().bits(v)]: the value is cut to the width of the field. *)
Definition fset (f : Field) (v w : Z) : Z :=
  Z.lor (Z.ldiff w (Z.shiftl (Z.ones (f_width f)) (f_lo f)))
        (Z.shiftl (Z.land v (Z.ones (f_width f))) (f_lo f)).

Definition fbit (f : Field) (w : Z) : bool := negb (fget f w =? 0).
Definition fset_bit (f : Field) (b : bool) (w : Z) : Z := fset f (bool_to_Z b) w.

Lemma fget_testbit f w i : field_ok f -> 0 <= i ->
  Z.testbit (fget f w) i = (i <? f_width f) && Z.testbit w (i + f_lo f).
Proof.
  intros (Hl & Hw & _) Hi. unfold fget.
  rewrite Z.land_spec, Z.shiftr_spec, Z.testbit_ones_nonneg by lia. apply andb_comm.
Qed.

Lemma fset_testbit f v w i : field_ok f -> 0 <= i ->
  Z.testbit (fset f v w) i =
    if (f_lo f <=? i) && (i <? f_lo f + f_width f) then Z.testbit v (i - f_lo f) else Z.testbit w i.
Proof.
  intros (Hl & Hw & _) Hi. unfold fset.
  rewrite Z.lor_spec, Z.ldiff_spec, !shiftl_testbit, Z.land_spec by lia.
  destruct (Z.leb_spec (f_lo f) i); cbn.
  - rewrite !Z.testbit_ones_nonneg by lia.
    destruct (Z.ltb_spec (i - f_lo f) (f_width f)), (Z.ltb_spec i (f_lo f + f_width f)); try lia; btauto.
  - btauto.
Qed.

Lemma fget_fset f v w : field_ok f -> fget f (fset f v w) = v mod 2 ^ f_width f.
Proof.
  intros Hf. apply Z.bits_inj'. intros i Hi.
  rewrite fget_testbit by done. destruct Hf as (Hl & Hw & Hh).
  rewrite Z.testbit_mod_pow2 by lia. destruct (Z.ltb_spec i (f_width f)); [|done]. cbn.
  rewrite fset_testbit by (repeat split; lia).
  rewrite (proj2 (Z.leb_le _ _)), (proj2 (Z.ltb_lt _ _)) by lia. cbn. f_equal. lia.
Qed.

Lemma fget_fset_ne f g v w : field_ok f -> field_ok g -> disjoint_fields f g ->
  fget f (fset g v w) = fget f w.
Proof.
  intros Hf Hg Hd. apply Z.bits_inj'. intros i Hi.
  rewrite !fget_testbit by done. destruct (Z.ltb_spec i (f_width f)); [|done]. cbn.
  rewrite fset_testbit by (try done; destruct Hf as (? & ? & ?); lia).
  destruct (Z.leb_spec (f_lo g) (i + f_lo f)), (Z.ltb_spec (i + f_lo f) (f_lo g + f_width g)); cbn; try done.
  destruct Hd; lia.
Qed.

Lemma fbit_fset f b w : field_ok f -> fbit f (fset_bit f b w) = b.
Proof.
  intros Hf. unfold fbit, fset_bit. rewrite fget_fset by done. destruct Hf as (Hl & Hw & _).
  assert (2 ^ 1 <= 2 ^ f_width f) by (apply Z.pow_le_mono_r; lia).
  rewrite Z.mod_small by (destruct b; cbn; lia). by destruct b.
Qed.

Lemma fset_u32 f v w : field_ok f -> is_u32 w -> is_u32 (fset f v w).
Proof.
  intros Hf Hw. pose proof Hf as (Hl & Hwd & Hh). unfold fset.
  apply lor_width; [lia| |].
  - destruct Hw as [H0 H1]. split; [apply Z.ldiff_nonneg; auto|].
    enough (Z.ldiff w (Z.shiftl (Z.ones (f_width f)) (f_lo f)) <= w) by lia.
    enough (0 <= w - Z.ldiff w (Z.shiftl (Z.ones (f_width f)) (f_lo f))) by lia.
    rewrite Z.sub_nocarry_ldiff.
    + apply Z.ldiff_nonneg. auto.
    + apply Z.bits_inj'. intros n Hn. rewrite !Z.ldiff_spec, Z.bits_0.
      by destruct (Z.testbit w n), (Z.testbit (Z.shiftl _ _) n).
  - unfold in_width. rewrite Z.shiftl_mul_pow2, Z.land_ones by lia.
    pose proof (Z.mod_pos_bound v (2 ^ f_width f) ltac:(lia)) as Hm.
    assert (2 ^ (f_width f + f_lo f) <= 2 ^ 32) as P by (apply Z.pow_le_mono_r; lia).
    rewrite Z.pow_add_r in P by lia. assert (0 < 2 ^ f_lo f) by lia. nia.
Qed.

(** ** What the peripheral access crate provides *)

Class Pac := {
  reset_value : Reg -> Z;
  RX_ENABLE : Field;
  RX_DESCR_RELOAD : Field;
  FILTER_ADDR : Field;
  FILTER_MASK : Field;
  FILTER_ENABLED : Field;
  BLOCK_UNICAST : Field;
  BLOCK_MULTICAST : Field;
  BSSID_CHECK : Field;
  SCAN_MODE : Field;
  DATA_AND_MGMT_MODE : Field;
  CONTROL_WRAPPER : Field;
  BLOCK_ACK_REQUEST : Field;
  BLOCK_ACK : Field;
  PS_POLL : Field;
  RTS : Field;
  CTS : Field;
  ACK : Field;
  CF_END : Field;
  CF_END_CF_ACK : Field;
  SLOT_DONE : nat -> Field;
  SLOT_TIMEOUT : nat -> Field;
  SLOT_COLLISION : nat -> Field;
  DMA_ADDR : Field;
  WAIT_FOR_ACK : Field;
  SLOT_VALID : Field;
  SLOT_ENABLED : Field;
  CONFIG_TIMEOUT : Field;
  CONFIG_BACKOFF_TIME : Field;
  CONFIG_AIFSN : Field;
  PLCP1_LEN : Field;
  PLCP1_RATE : Field;
  PLCP1_IS_80211_N : Field;
  PLCP1_INTERFACE_ID : Field;
  PLCP1_KEY_SLOT_ID : Field;
  PLCP1_BANDWIDTH : Field;
  PLCP2_UNKNOWN : Field;
  SPP_ENABLE : Field;
  PMF_DISABLE : Field;
  AEAD_CIPHER : Field;
  SMS4 : Field;
  KEY_SLOT_ENABLE : nat -> Field;
  KEY_ID : Field;
  PAIRWISE_KEY : Field;
  GROUP_KEY : Field;
  WEP_104 : Field;
  ALGORITHM : Field;
  KEY_INTERFACE_ID : Field;
  KEY_UNKNOWN : Field;
  KEY_ADDR : Field;
  TSF_LATCH : Field;
  TSF_LOAD : Field;
  TSF_LOAD_TBTT_START : Field;
  TSF_ENABLE : Field;
  TSF_ENABLE_AUX : Field;
  TBTT_ENABLE : Field;
  TSF_TIMER_ENABLE : Field;
  TBTT_INTERVAL : Field;
  TBTT_EARLY_TIME : Field;
  TBTT_START_TIME : Field;
  MAC_RST : Field;
  WIFI_FORCE_PD : Field;
  WIFI_FORCE_ISO : Field
}.

(** The fields of one register lie in the register and are pairwise
    disjoint. *)
Fixpoint fields_ok (l : list Field) : Prop :=
  match l with
  | [] => True
  | f :: l' => field_ok f /\ Forall (disjoint_fields f) l' /\ fields_ok l'
  end.

(** ** Volatile access

    [inputs r] holds the values the hardware will show at the next reads of
    [r], oldest first; when none is left a read returns the last value.  The
    log records the writes in program order. *)

Record ll := mkLl { regs : Reg -> Z; inputs : Reg -> list Z; log : list (Reg * Z) }.

Definition upd (r : Reg) (v : Z) (f : Reg -> Z) : Reg -> Z :=
  fun r' => if decide (r' = r) then v else f r'.

Definition read (r : Reg) : M ll Z :=
  fun s => match inputs s r with
           | [] => Some (regs s r, s)
           | v :: q => Some (v, mkLl (upd r v (regs s))
                                  (fun r' => if decide (r' = r) then q else inputs s r') (log s))
           end.

Definition write (r : Reg) (v : Z) : M ll unit :=
  fun s => Some (tt, mkLl (upd r v (regs s)) (inputs s) (log s ++ [(r, v)])).

Definition modify_reg (r : Reg) (f : Z -> Z) : M ll unit := v ← read r; write r (f v).

Definition reset_reg `{Pac} (r : Reg) : M ll unit := write r (reset_value r).

(** Register arrays: an index outside the array panics. *)
Definition check_index (i bound : nat) : M ll unit :=
  if (i <? bound)%nat then mret tt else panic.

(** [while cond(reg.read()) {}]: [None] when the condition holds at every
    value the hardware ever shows, that is when the loop does not end. *)
Fixpoint spin_inputs (cond : Z -> bool) (last : Z) (q : list Z) : option (Z * list Z) :=
  match q with
  | [] => if cond last then None else Some (last, [])
  | v :: q' => if cond v then spin_inputs cond v q' else Some (v, q')
  end.

Definition spin_while (r : Reg) (cond : Z -> bool) : M ll unit :=
  fun s => match spin_inputs cond (regs s r) (inputs s r) with
           | None => None
           | Some (v, q) => Some (tt, mkLl (upd r v (regs s))
                                        (fun r' => if decide (r' = r) then q else inputs s r') (log s))
           end.

Lemma upd_eq r v f : upd r v f r = v.
Proof. unfold upd. by rewrite decide_True. Qed.

Lemma upd_ne r r' v f : r' <> r -> upd r v f r' = f r'.
Proof. intros. unfold upd. by rewrite decide_False. Qed.

Lemma last_cons_irrel {A} (q : list A) (w d1 d2 : A) : List.last (w :: q) d1 = List.last (w :: q) d2.
Proof. revert w. induction q as [|v q IH]; intros w; [done|]. apply (IH v). Qed.

(** The loop ends exactly when the hardware shows a value that stops it. *)
Lemma spin_inputs_returns cond last q :
  is_Some (spin_inputs cond last q) <->
  (exists v, v ∈ q /\ cond v = false) \/ cond (List.last q last) = false.
Proof.
  revert last. induction q as [|v q IH]; intros last; cbn [spin_inputs].
  - destruct (cond last) eqn:E; split.
    + by intros [].
    + intros [(v & Hv & _)|H]; [set_solver|cbn in H; congruence].
    + auto.
    + by eexists.
  - destruct (cond v) eqn:E.
    + rewrite IH. replace (List.last (v :: q) last) with (List.last q v).
      2: { destruct q as [|w q]; [done|]. exact (last_cons_irrel q w v last). }
      split; [intros [(w & Hw & Ew)|]; [left; exists w; split; [set_solver|done]|auto]|].
      intros [(w & Hw & Ew)|]; [|auto]. left. exists w. split; [|done].
      apply elem_of_cons in Hw as [->|]; [congruence|done].
    + split; [|by eexists]. intros _. left. exists v. split; [set_solver|done].
Qed.

(** ** Running register sequences

    While the hardware shows stable values, that is while no read is scripted,
    a sequence of register accesses is a sequence of updates. *)

Definition still (d : ll) : Prop := forall r, inputs d r = [].

Lemma still_read r d : still d -> read r d = Some (regs d r, d).
Proof. intros E. unfold read. by rewrite E. Qed.

Lemma still_modify r f d : still d ->
  modify_reg r f d = Some (tt, mkLl (upd r (f (regs d r)) (regs d)) (inputs d) (Registers.log d ++ [(r, f (regs d r))])).
Proof. intros E. unfold modify_reg. by rewrite M_bind_unfold, (still_read _ _ E). Qed.

Lemma check_index_ok i n d : (i < n)%nat -> check_index i n d = Some (tt, d).
Proof. intros. unfold check_index. by rewrite (proj2 (Nat.ltb_lt i n)) by done. Qed.

Lemma check_index_bad i n d : (n <= i)%nat -> check_index i n d = None.
Proof. intros. unfold check_index. by rewrite (proj2 (Nat.ltb_ge i n)) by done. Qed.

(** Run the next access of a sequence in a [still] state. *)
Ltac ll_step St :=
  first
  [ rewrite M_bind_unfold
  | rewrite check_index_ok by lia
  | rewrite still_modify by exact St
  | rewrite still_read by exact St
  | progress (unfold write, reset_reg; cbn [regs inputs Registers.log])
  | progress (cbn [mret M_ret]) ].

Ltac ll_run St := repeat ll_step St.

(** Look up a register after updates of registers with other names. *)
Ltac regs_simpl := repeat first [ rewrite upd_eq | rewrite upd_ne by congruence ].

(** The pairwise facts of a register layout. *)
Lemma disjoint_fields_sym f g : disjoint_fields f g -> disjoint_fields g f.
Proof. unfold disjoint_fields. lia. Qed.

Lemma fields_ok_at l i f : fields_ok l -> l !! i = Some f -> field_ok f.
Proof.
  revert i. induction l as [|g l IH]; intros i; [done|]. intros (Hg & _ & Hl).
  destruct i as [|i]; [by intros [= <-]|]. by apply IH.
Qed.

Lemma fields_ok_disjoint l i j f g :
  fields_ok l -> i <> j -> l !! i = Some f -> l !! j = Some g -> disjoint_fields f g.
Proof.
  revert i j. induction l as [|h l IH]; intros i j; [done|]. intros (_ & Hd & Hl) Hne Hi Hj.
  destruct i as [|i], j as [|j]; cbn in Hi, Hj; [done| | |].
  - injection Hi as <-. exact (proj1 (Forall_lookup _ _) Hd j g Hj).
  - injection Hj as <-. apply disjoint_fields_sym. exact (proj1 (Forall_lookup _ _) Hd i f Hi).
  - by apply (IH i j); [| |..]; auto.
Qed.

(** A field written once in a register keeps its value under writes of the
    other fields of the layout. *)
Lemma fget_fset_layout l i j f g v w :
  fields_ok l -> l !! i = Some f -> l !! j = Some g -> i <> j -> fget f (fset g v w) = fget f w.
Proof.
  intros Hl Hi Hj Hne. apply fget_fset_ne; [by eapply fields_ok_at..|by eapply (fields_ok_disjoint l i j)].
Qed.

(** ** A reference layout

    A concrete instance of the peripheral access crate, used to evaluate the
    model. *)
Definition pac_ref : Pac := {|
  reset_value _ := 0;
  RX_ENABLE := mkField 31 1;
  RX_DESCR_RELOAD := mkField 0 1;
  FILTER_ADDR := mkField 0 16;
  FILTER_MASK := mkField 0 16;
  FILTER_ENABLED := mkField 16 1;
  BLOCK_UNICAST := mkField 0 1;
  BLOCK_MULTICAST := mkField 1 1;
  BSSID_CHECK := mkField 2 1;
  SCAN_MODE := mkField 3 1;
  DATA_AND_MGMT_MODE := mkField 4 1;
  CONTROL_WRAPPER := mkField 0 1;
  BLOCK_ACK_REQUEST := mkField 1 1;
  BLOCK_ACK := mkField 2 1;
  PS_POLL := mkField 3 1;
  RTS := mkField 4 1;
  CTS := mkField 5 1;
  ACK := mkField 6 1;
  CF_END := mkField 7 1;
  CF_END_CF_ACK := mkField 8 1;
  SLOT_DONE i := mkField (Z.of_nat i) 1;
  SLOT_TIMEOUT i := mkField (16 + Z.of_nat i) 1;
  SLOT_COLLISION i := mkField (Z.of_nat i) 1;
  DMA_ADDR := mkField 0 20;
  WAIT_FOR_ACK := mkField 24 1;
  SLOT_VALID := mkField 30 1;
  SLOT_ENABLED := mkField 31 1;
  CONFIG_TIMEOUT := mkField 0 12;
  CONFIG_BACKOFF_TIME := mkField 12 10;
  CONFIG_AIFSN := mkField 24 4;
  PLCP1_LEN := mkField 0 12;
  PLCP1_RATE := mkField 12 5;
  PLCP1_IS_80211_N := mkField 25 1;
  PLCP1_INTERFACE_ID := mkField 22 2;
  PLCP1_KEY_SLOT_ID := mkField 17 5;
  PLCP1_BANDWIDTH := mkField 24 1;
  PLCP2_UNKNOWN := mkField 5 1;
  SPP_ENABLE := mkField 2 1;
  PMF_DISABLE := mkField 3 1;
  AEAD_CIPHER := mkField 4 1;
  SMS4 := mkField 5 1;
  KEY_SLOT_ENABLE i := mkField (Z.of_nat i) 1;
  KEY_ID := mkField 30 2;
  PAIRWISE_KEY := mkField 29 1;
  GROUP_KEY := mkField 28 1;
  WEP_104 := mkField 27 1;
  ALGORITHM := mkField 18 3;
  KEY_INTERFACE_ID := mkField 24 2;
  KEY_UNKNOWN := mkField 23 1;
  KEY_ADDR := mkField 0 16;
  TSF_LATCH := mkField 0 4;
  TSF_LOAD := mkField 4 4;
  TSF_LOAD_TBTT_START := mkField 8 4;
  TSF_ENABLE := mkField 0 1;
  TSF_ENABLE_AUX := mkField 1 2;
  TBTT_ENABLE := mkField 3 1;
  TSF_TIMER_ENABLE := mkField 0 1;
  TBTT_INTERVAL := mkField 0 16;
  TBTT_EARLY_TIME := mkField 16 16;
  TBTT_START_TIME := mkField 0 26;
  MAC_RST := mkField 2 1;
  WIFI_FORCE_PD := mkField 17 1;
  WIFI_FORCE_ISO := mkField 28 1
|}.

#[export] Instance field_ok_dec f : Decision (field_ok f).
Proof. unfold field_ok. apply _. Defined.
#[export] Instance disjoint_fields_dec f g : Decision (disjoint_fields f g).
Proof. unfold disjoint_fields. apply _. Defined.
#[export] Instance fields_ok_dec l : Decision (fields_ok l).
Proof.
  induction l as [|f l IH]; cbn; [left; exact I|]. apply and_dec; [apply _|].
  apply and_dec; [apply _|exact IH].
Defined.
