(* ===== verification/PhyAccess.v ===== *)
(** * Memory and registers as seen by the PHY routines

    The [Access] traits of the calibration modules share two methods, a read
    and a write of 1, 2 or 4 bytes at an address; each trait adds methods of its
    own.  [io X] is such a trait, with the further methods [X].  [mem_io] is
    the contract of an environment in which reads and writes act on a byte
    memory, and the methods [X] as a relation [frame] says. *)

From S2P Require Import Prelude Program.

Inductive io (X : Type) : Type :=
| Read (address width : Z)
| Write (address width value : Z)
| Ext (x : X).
Arguments Read {X} address width.
Arguments Write {X} address width value.
Arguments Ext {X} x.

Definition read {X} (a w : Z) : prog (io X) Z := call (Read a w).
Definition write {X} (a w v : Z) : prog (io X) unit := call (Write a w v) ;; mret tt.
Definition ext {X} (x : X) : prog (io X) Z := call (Ext x).
(** A method whose answer is not used. *)
Definition run {X} (x : X) : prog (io X) unit := call (Ext x) ;; mret tt.

(** [!v] of a word *)
Definition not32 (v : Z) : Z := u32 (Z.lnot v).

(** Read a word, keep the bits of [keep] and set those of [set]. *)
Definition rmw {X} (address keep set : Z) : prog (io X) unit :=
  old ← read address 4;
  write address 4 (Z.lor (Z.land old keep) set).

(** [count_ones] *)
Definition count_ones (v : Z) : Z := foldr (fun i n => bool_to_Z (Z.testbit v i) + n) 0 (seqZ 0 32).

Lemma count_ones_bounds v : 0 <= count_ones v <= 32.
Proof.
  assert (forall l, 0 <= foldr (fun i n => bool_to_Z (Z.testbit v i) + n) 0 l <= Z.of_nat (length l)) as Hl.
  { induction l as [|i l IHl]; cbn [foldr length]; [lia|]. unfold bool_to_Z at 1 3. destruct (Z.testbit v i); lia. }
  apply (Hl (seqZ 0 32)).
Qed.

(** [clamp(lo, hi)] *)
Definition clamp (lo hi v : Z) : Z := Z.max lo (Z.min hi v).

Definition mem_io {X} (frame : X -> mem -> Z -> mem -> Prop) (e : io X) (m : mem) (x : Z) (m' : mem) : Prop :=
  match e with
  | Read a w => x = mem_read m a w /\ m' = m
  | Write a w v => m' = mem_write m a w v
  | Ext y => frame y m x m'
  end.

Section Memory.
Context {X : Type} {frame : X -> mem -> Z -> mem -> Prop}.
Abbreviation wpm := (wp no_guard (mem_io frame)).

Lemma wp_io_read a w (Q : Z -> mem -> Prop) m : Q (mem_read m a w) m -> wpm (read a w) Q m.
Proof. intros HQ. apply wp_call; [done|]. by intros x m' [-> ->]. Qed.

Lemma wp_io_write a w v (Q : unit -> mem -> Prop) m : Q tt (mem_write m a w v) -> wpm (write a w v) Q m.
Proof. intros HQ. unfold write. apply wp_bind, wp_call; [done|]. by intros x m' ->. Qed.

Lemma wp_io_ext y (Q : Z -> mem -> Prop) m : (forall x m', frame y m x m' -> Q x m') -> wpm (ext y) Q m.
Proof. intros HQ. apply wp_call; [done|]. exact HQ. Qed.

Lemma wp_io_run y (Q : unit -> mem -> Prop) m : (forall x m', frame y m x m' -> Q tt m') -> wpm (run y) Q m.
Proof. intros HQ. unfold run. apply wp_bind, wp_call; [done|]. exact HQ. Qed.

(** The memory and handler that carry out reads and writes, and answer the
    other methods by a function. *)
Definition mem_handler (method : X -> mem -> Z * mem) (e : io X) (m : mem) : Z * mem :=
  match e with
  | Read a w => (mem_read m a w, m)
  | Write a w v => (0, mem_write m a w v)
  | Ext y => method y m
  end.

Lemma mem_handler_obeys method :
  (forall y m, frame y m (method y m).1 (method y m).2) ->
  obeys_contract no_guard (mem_io frame) (mem_handler method).
Proof. intros Hm e m _. destruct e; [done..|]. apply Hm. Qed.

End Memory.

(** Run through reads, writes, binds and returns. *)
Ltac io_run :=
  repeat
    (cbv beta iota;
     lazymatch goal with
     | |- wp _ _ (read _ _) _ _ => apply wp_io_read
     | |- wp _ _ (write _ _ _) _ _ => apply wp_io_write
     | |- wp _ _ (_ ≫= _) _ _ => apply wp_bind
     | |- wp _ _ (mret _) _ _ => apply wp_ret
     end).

(** ** Memory with a further component of the environment's state *)

Definition ghost_io {X G} (frame : X -> mem * G -> Z -> mem * G -> Prop) (e : io X) (s : mem * G) (x : Z) (s' : mem * G) : Prop :=
  match e with
  | Read a w => x = mem_read s.1 a w /\ s' = s
  | Write a w v => s' = (mem_write s.1 a w v, s.2)
  | Ext y => frame y s x s'
  end.

Section Ghost.
Context {X G : Type} {frame : X -> mem * G -> Z -> mem * G -> Prop}.
Abbreviation wpg := (wp no_guard (ghost_io frame)).

Lemma wp_ghost_read a w (Q : Z -> mem * G -> Prop) s : Q (mem_read s.1 a w) s -> wpg (read a w) Q s.
Proof. intros HQ. apply wp_call; [done|]. by intros x s' [-> ->]. Qed.

Lemma wp_ghost_write a w v (Q : unit -> mem * G -> Prop) s : Q tt (mem_write s.1 a w v, s.2) -> wpg (write a w v) Q s.
Proof. intros HQ. unfold write. apply wp_bind, wp_call; [done|]. by intros x s' ->. Qed.

Lemma wp_ghost_ext y (Q : Z -> mem * G -> Prop) s : (forall x s', frame y s x s' -> Q x s') -> wpg (ext y) Q s.
Proof. intros HQ. apply wp_call; [done|]. exact HQ. Qed.

Lemma wp_ghost_run y (Q : unit -> mem * G -> Prop) s : (forall x s', frame y s x s' -> Q tt s') -> wpg (run y) Q s.
Proof. intros HQ. unfold run. apply wp_bind, wp_call; [done|]. exact HQ. Qed.

End Ghost.

Definition ghost_handler {X G} (method : X -> mem * G -> Z * (mem * G)) (e : io X) (s : mem * G) : Z * (mem * G) :=
  match e with
  | Read a w => (mem_read s.1 a w, s)
  | Write a w v => (0, (mem_write s.1 a w v, s.2))
  | Ext y => method y s
  end.

Ltac ghost_run :=
  repeat
    (cbv beta iota;
     lazymatch goal with
     | |- wp _ _ (read _ _) _ _ => apply wp_ghost_read
     | |- wp _ _ (write _ _ _) _ _ => apply wp_ghost_write
     | |- wp _ _ (_ ≫= _) _ _ => apply wp_bind
     | |- wp _ _ (mret _) _ _ => apply wp_ret
     end).

(** A program that makes only calls which leave the state alone. *)
Lemma wp_untouched {E S A} G R (P : E -> Prop) (p : prog E A) (s : S) :
  calls_only P p -> (forall e s, P e -> G e s) -> (forall e s x s', P e -> R e s x s' -> s' = s) ->
  wp G R p (fun _ s' => s' = s) s.
Proof.
  intros Hp HG HR. apply (wp_frame G R P (fun s' => s' = s) p s Hp); [by intros; apply HG| |done].
  intros e s1 x s2 He -> Hx. by eapply HR.
Qed.

(** Walk through a program for [calls_only], methods included. *)
Ltac io_calls :=
  repeat lazymatch goal with
  | |- calls_only _ (read _ _) => split; [|intros ?; exact I]
  | |- calls_only _ (ext _) => split; [|intros ?; exact I]
  | |- calls_only _ (write _ _ _) => unfold write
  | |- calls_only _ (run _) => unfold run
  | |- calls_only _ _ => calls_step
  end.
