(* ===== verification/PhyTemperature.v ===== *)
(** * Temperature sensor, its tracking state and the tracking dispatcher

    Models [phy_dispatcher.rs] (Module [Dispatcher]), [phy_temperature.rs]
    (Module [Temperature]) and [phy_lifecycle.rs] (Module [Lifecycle]).  In
    each module [acc] is the [Access] trait, [s3] selects the chip. *)

From S2P Require Import Prelude Program.

Module Dispatcher.

Inductive acc :=
| Read8 (offset : Z)
| Read32 (offset : Z)
| Enter (slot : Z)
| Exit (slot token : Z)
| TableTemperature (slot : Z)
| TablePower (slot enabled mode : Z)
| Temperature
| Power (enabled mode : Z)
| Pll (value : Z)
| Rfcal (value threshold : Z).

Definition run (e : acc) : prog acc unit := call e ;; mret tt.

Definition dispatch (s3 : bool) (enabled mode : Z) : prog acc unit :=
  if s3 then
    token ← call (Enter 0x160);
    gate ← call (Read32 0x2a0);
    (if Z.land gate 0xffff0000 =? 0 then
       run (TableTemperature 0x258) ;;
       run (TablePower 0x28c enabled mode) ;;
       on ← call (Read8 0x09c);
       if negb (on =? 0) then v ← call (Read8 0x09b); run (Pll v) else mret tt
     else mret tt) ;;
    run (Exit 0x164 token)
  else
    token ← call (Enter 0x184);
    first ← call (Read8 0x320);
    second ← call (Read8 0x31f);
    (if Z.lor first second =? 0 then
       run Temperature ;;
       run (Power enabled mode) ;;
       on ← call (Read8 0x09c);
       (if negb (on =? 0) then v ← call (Read8 0x09b); run (Pll v) else mret tt) ;;
       on ← call (Read8 0x216);
       if negb (on =? 0) then v ← call (Read8 0x09b); run (Rfcal v 20) else mret tt
     else mret tt) ;;
    run (Exit 0x188 token).

(** [tx_pwctrl_background], with 8-bit arguments. *)
Definition tx_pwctrl_background (s3 : bool) (enabled mode : Z) : prog acc unit :=
  dispatch s3 (u8 enabled) (u8 mode).

End Dispatcher.

Module Temperature.

Inductive acc :=
| Read8 (offset : Z)
| Write8 (offset value : Z)
| Write16 (offset value : Z)
| Attribute8 (offset : Z)
| Attribute16 (offset : Z)
| Table
| Slot (table offset : Z)
| Call (function : Z) (args : list Z).

Section Temperature.
Variable s3 : bool.

Definition READ_DAC : Z := if s3 then 0x188 else 0x1ac.
Definition READ_CODE : Z := if s3 then 0x1e4 else 0x208.
Definition CONVERT : Z := if s3 then 0x1f4 else 0x218.
Definition WRITE_DAC : Z := if s3 then 0x198 else 0x1bc.

Definition decode (value : Z) : Z :=
  let value := if s3 then Z.land value 0xff else value in
  if value =? 5 then 0 else if value =? 7 then 1 else if value =? 15 then 2
  else if value =? 11 then 3 else if value =? 10 then 4 else 5.

Definition attribute_row (index : Z) : prog acc Z := assert (index <? 5) ;; mret (index * 6).

Definition range_dac (temperature : Z) : Z :=
  if 99 <? temperature then 5
  else if 79 <? temperature then 7
  else if -9 <=? temperature then 15
  else if -29 <=? temperature then 11
  else 10.

Definition range (temperature index : Z) : prog acc Z :=
  let temperature := if s3 then i16 temperature else temperature in
  let index := if s3 then Z.land index 0xff else index in
  row ← attribute_row index;
  lower ← call (Attribute16 (row + 2));
  inside ← (if i16 lower <=? temperature
            then upper ← call (Attribute16 (row + 4)); mret (temperature <=? i16 upper)
            else mret false);
  if (inside : bool) then call (Attribute8 (row + 1))
  else
    let dac := range_dac temperature in
    table ← call Table;
    function ← call (Slot table WRITE_DAC);
    call (Call function [105; 0; 6; 3; 0; dac]) ;;
    mret dac.

Definition inner : prog acc Z :=
  table ← call Table;
  function ← call (Slot table READ_DAC);
  dac ← call (Call function [105; 0; 6; 0; 0; 0]);
  let index := decode (Z.land dac 15) in
  table ← call Table;
  function ← (if s3
              then call (Write8 0xaa (u8 index)) ;; call (Slot table READ_CODE)
              else function ← call (Slot table READ_CODE); call (Write8 0xaa (u8 index)) ;; mret function);
  code ← call (Call function [0; 0; 0; 0; 0; 0]);
  index ← call (Read8 0xaa);
  row ← attribute_row index;
  table ← call Table;
  offset ← call (Attribute8 row);
  function ← call (Slot table CONVERT);
  temperature ← call (Call function [code; u32 (i8 offset); 0; 0; 0; 0]);
  index ← call (Read8 0xaa);
  range (i32 temperature) index ;;
  mret temperature.

Definition forward : prog acc Z := inner.

Definition outer : prog acc Z :=
  value ← forward;
  call (Write16 0x92 (u16 value)) ;;
  mret value.

End Temperature.
End Temperature.

Module Lifecycle.

Inductive acc :=
| Read8 (offset : Z)
| Read16 (offset : Z)
| Write8 (offset value : Z)
| Write16 (offset value : Z)
| ReadRegister (address : Z)
| WriteRegister (address value : Z)
| Attribute8 (offset : Z)
| Table
| Slot (table offset : Z)
| WriteDac (function dac : Z)
| TableMeasure (function : Z)
| DirectMeasure.

Definition run (e : acc) : prog acc unit := call e ;; mret tt.

(** Read a register, change it and write it back. *)
Definition update (address : Z) (f : Z -> Z) : prog acc unit :=
  value ← call (ReadRegister address);
  run (WriteRegister address (f value)).

(** Copy a halfword of the parameters. *)
Definition copy16 (from to : Z) : prog acc unit :=
  value ← call (Read16 from);
  run (Write16 to value).

Section Lifecycle.
Variable s3 : bool.

Definition SENSOR : Z := if s3 then 0x60008850 else 0x60040058.
Definition OFF_FLAG : Z := if s3 then 0x2a2 else 0x31f.

Definition power (enabled : Z) : prog acc unit :=
  update SENSOR (fun old =>
    if s3 then Z.lor (Z.ldiff old (Z.shiftl 3 22)) (if Z.land enabled 255 =? 0 then 0 else Z.shiftl 3 22)
    else Z.lor (Z.ldiff old (Z.shiftl 1 22)) (Z.shiftl (Z.land enabled 1) 22)).

Definition xpd : prog acc unit :=
  off ← call (Read8 OFF_FLAG);
  (if off =? 0 then power 0 else mret tt) ;;
  run (Write8 OFF_FLAG 1).

Definition read_init (set_dac index : Z) : prog acc unit :=
  if s3 then
    update 0x60008034 (fun v => Z.lor v 0x00400000) ;;
    update 0x60008904 (fun v => Z.lor v 0x80000000) ;;
    update 0x60008904 (fun v => Z.lor v 0x20000000) ;;
    power 1 ;;
    update SENSOR (fun v => Z.ldiff v 0x01000000)
  else
    (if negb (set_dac =? 0) then
       assert (index <? 5) ;;
       table ← call Table;
       function ← call (Slot table 0x1bc);
       dac ← call (Attribute8 (index * 6 + 1));
       run (WriteDac function dac)
     else mret tt) ;;
    update 0x600c0014 (fun v => Z.lor v 0x400) ;;
    update 0x600c001c (fun v => Z.ldiff v 0x400) ;;
    update 0x6004005c (fun v => Z.lor v 0x8000) ;;
    power 1.

(** S3 only *)
Definition code : prog acc Z :=
  update SENSOR (fun v => Z.lor v 0x01000000) ;;
  update SENSOR (fun v => Z.ldiff v 0x01000000) ;;
  v ← call (ReadRegister SENSOR);
  mret (Z.land v 255).

Definition temp_to_power (current reference mode : Z) : Z :=
  let delta := i16 (u32 (current - reference)) in
  if s3 then
    let quotient := if 0 <? delta then Z.quot delta 5 else Z.quot delta 4 in
    let quotient := if (delta <=? 0) && (i8 quotient <? -12) then quotient - 1 else quotient in
    u8 quotient
  else
    let quotient :=
      if negb (mode =? 0) then (if 0 <? delta then Z.quot delta 4 else Z.quot delta 5)
      else if 0 <? delta then Z.quot delta 6 else Z.quot delta 4 in
    u32 (i8 quotient).

Definition get_temp_init (initial update : Z) : prog acc unit :=
  if s3 then
    let update := Z.land update 255 in
    table ← call Table;
    function ← call (Slot table 0x258);
    run (TableMeasure function) ;;
    mode ← call (Read8 0x204);
    (if mode =? 17 then copy16 0x206 0x20a
     else if negb (update =? 0) then copy16 0x92 0x20a else mret tt) ;;
    reference ← call (Read16 0x20a);
    current ← call (Read16 0x92);
    run (Write16 0x2c4 reference) ;;
    run (Write16 0x2c6 current) ;;
    run (Write16 0x96 reference) ;;
    run (Write16 0x94 current)
  else
    run DirectMeasure ;;
    mode ← call (Read8 0x204);
    (if mode =? 17 then copy16 0x20c 0x210
     else if negb (update =? 0) then copy16 0x92 0x210 else mret tt) ;;
    (if negb (initial =? 0) then copy16 0x92 0x212 else mret tt) ;;
    copy16 0x210 0x96 ;;
    value ← call (Read16 0x212);
    run (Write16 0x94 value) ;;
    run (Write16 0x214 value).

End Lifecycle.

(** Five rows: offset, DAC code, lower and upper limit. *)
Definition ATTRIBUTE_BYTES : list Z :=
  [254; 5; 50; 0; 125; 0; 255; 7; 20; 0; 100; 0; 0; 15; 246; 255; 80; 0; 1; 11; 226; 255; 50; 0;
   2; 10; 216; 255; 20; 0].

End Lifecycle.
