(* ===== verification/PhyHelpers.v ===== *)
(** * Smaller PHY modules

    Models [phy_spur.rs] (Module [Spur], S3 only), [phy_analog.rs] (Module
    [Analog]), [phy_api.rs] (Module [Api]), [phy_basic.rs] (Module [Basic]),
    [phy_feature.rs] (Module [Feature]), [phy_debug.rs] (Module [Debug]) and
    [phy_wrappers.rs] (Module [Wrappers]).  In
    each module the type of events is the [Access] trait, and [s3] selects the
    chip. *)

From S2P Require Import Prelude Program PhyAccess PhyTemperature.

Module Spur.

Inductive method :=
| Parameter_
| TableGlobal
| Call (target kind : Z) (args : list Z)
| Quotient (numerator denominator : Z).

Abbreviation prg := (prog (io method)).

Definition OFFSETS : list Z := [0x1d4; 0x50; 0x4c; 0x40; 0xf0; 0xf4; 0x104].

Definition call_ (kind : Z) (args : list Z) : prg Z :=
  target ← (if kind <? 7 then
              g ← ext TableGlobal;
              table ← read g 4;
              match OFFSETS !! Z.to_nat kind with Some o => read (table + o) 4 | None => Crash end
            else mret 0);
  ext (Call target kind args).

Definition do_ (kind : Z) (args : list Z) : prg unit := call_ kind args ;; mret tt.

Definition scale (value : Z) : Z := u32 (Z.quot (i32 (u32 (Z.shiftl value 10))) 100).

Definition clear (address : Z) : prg unit :=
  current ← read address 4;
  write address 4 (Z.land current (not32 0x2000)).

Definition width_value (width : Z) : Z := if width =? 1 then 26 else if width =? 2 then 24 else 40.

(** [forced != 0 || (p[0x2a6] != 0 && p[0x2d7] > 10)] *)
Definition filtered (forced param : Z) : prg bool :=
  if negb (forced =? 0) then mret true else
  v ← read (param + 0x2a6) 1;
  if v =? 0 then mret false else
  p ← read (param + 0x2d7) 1;
  mret (10 <? p).

Definition configure (a0 a1 a2 a3 a4 a5 a6 : Z) : prg unit :=
  let channel := i8 a0 in
  let mode := i8 a1 in
  let forced := u8 a2 in
  let width := u8 a3 in
  let flags := u16 a4 in
  let coefficient := u16 a5 in
  let enabled := u8 a6 in
  let multiplier := if mode <? 2 then 10 else 20 in
  divisor ← call_ 0 [u32 channel];
  param ← ext Parameter_;
  on ← filtered forced param;
  (if (on : bool) then
     v ← read (param + 0x2a6) 1;
     let actual_width := if negb (v =? 0) then 48 else width_value width in
     value ← call_ 1 [divisor; multiplier; actual_width; 1];
     do_ 2 [0; scale value]
   else clear 0x6001d014) ;;
  (if negb (flags =? 0) then
     value ← call_ 1 [divisor; multiplier; coefficient; enabled];
     let shift := u32 (channel - 1) mod 32 in
     let active := negb (value =? 0) && negb (Z.land (Z.land (Z.shiftr flags 14) (Z.shiftr flags shift)) 1 =? 0) in
     do_ 2 [1; if active then scale value else 0]
   else clear 0x6001d018) ;;
  v ← read 0x6001cc48 4;
  let shift := Z.land (Z.shiftr v 24) 31 in
  let numerator := i32 (u32 (Z.shiftl 80 shift)) in
  second ← read 0x6001cc48 4;
  quotient ← ext (Quotient numerator (i32 divisor));
  write 0x6001cc48 4 (Z.lor (Z.land second 0xff000000) (Z.land (u32 quotient) 0xffffff)).

(** [associated], [minimum] and [iteration] *)
Record estimate := { associated : Z; minimum : Z; iteration : Z }.

(** [(v.wrapping_add(8) as i32 >> 4) as u32] *)
Definition rounded (v : Z) : Z := u32 (Z.shiftr (i32 (u32 (v + 8))) 4).

(** The high word of [x * x + y * y] *)
Definition magnitude (a b c d : Z) : Z :=
  let x := i32 (u32 (a + d)) in
  let y := i32 (u32 (b - c)) in
  let sum := x * x + y * y in
  Z.shiftr (i32 (Z.shiftr sum 32)) 6.

Definition power_step (_ : Z) (s : estimate) : prg (flow estimate) :=
  do_ 4 [1; 4095] ;;
  a ← read 0x60006148 4;
  b ← read 0x6000614c 4;
  c ← read 0x60006150 4;
  d ← read 0x60006154 4;
  first ← call_ 6 [u32 (magnitude a b c d); 0];
  w ← read 0x60006164 4;
  let word := Z.shiftr (i32 w) 9 in
  second ← call_ 6 [u32 word; 0];
  let candidate := rounded second in
  do_ 5 [] ;;
  let s := if (iteration s =? 0) || (candidate <? minimum s)
           then {| associated := rounded first; minimum := candidate; iteration := iteration s |} else s in
  if minimum s <=? 24 then mret (Break s)
  else mret (Next {| associated := associated s; minimum := minimum s; iteration := iteration s + 1 |}).

Definition power (logging : Z) : prg unit :=
  timer ← read 0x60035000 4;
  do_ 7 [7; 0] ;;
  do_ 8 [2443; 0] ;;
  do_ 3 [1; 54] ;;
  do_ 9 [1; 128; 0; 0; 0; 0] ;;
  s ← for_loop (range 0 10) {| associated := 0; minimum := 0; iteration := 0 |} power_step;
  do_ 9 [0; 128; 0; 0; 0; 0] ;;
  do_ 3 [0; 54] ;;
  param ← ext Parameter_;
  write (param + 0x2d7) 1 (associated s) ;;
  write (param + 0x2d8) 1 (minimum s) ;;
  if negb (u8 logging =? 0) then
    now ← read 0x60035000 4;
    do_ 10 [0; iteration s; u32 (now - timer); associated s; minimum s]
  else mret tt.

End Spur.

Module Analog.

(** [divisors] yields two addresses: [Divisor 0] and [Divisor 1]. *)
Inductive method :=
| Param
| Divisor (index : Z)
| Table
| Slot (table offset : Z)
| MaskedWrite (target : Z) (args : list Z)
| MaskedRead (target : Z) (args : list Z)
| Delay (microseconds : Z)
| Measurement (selector : Z)
| SoftDouble (operation left right : Z).

Section Analog.
Variable s3 : bool.
Abbreviation prg := (prog (io method)).

Definition WRITE : Z := if s3 then 0x198 else 0x1bc.
Definition READ : Z := WRITE - 4.

Definition function (slot : Z) : prg Z := t ← ext Table; ext (Slot t slot).

Definition masked (args : list Z) : prg unit := f ← function WRITE; run (MaskedWrite f args).

Definition setting (selector : Z) : Z :=
  let s := u8 selector in
  if s =? 1 then 7 else if s =? 2 then 6 else if negb s3 && (s =? 3) then 13 else 11.

Definition measurement (selector : Z) : prg Z :=
  masked [106; 0; 2; 6; 5; 2] ;;
  masked [106; 0; 6; 4; 0; 2] ;;
  masked [106; 0; 4; 7; 4; setting selector] ;;
  masked [97; 0; 8; 2; 2; 1] ;;
  masked [106; 0; 4; 0; 0; 1] ;;
  masked [106; 0; 4; 3; 3; 0] ;;
  masked [106; 0; 4; 3; 3; 1] ;;
  run (Delay 100) ;;
  f ← function READ;
  result ← ext (MaskedRead f [106; 0; 5; 5; 0]);
  masked [97; 0; 8; 2; 2; 0] ;;
  masked [106; 0; 4; 0; 0; 0] ;;
  mret result.

Definition divided (numerator denominator : Z) : Z :=
  let value := if denominator =? 0 then -1 else Z.quot numerator denominator in
  i16 (value - 8).

(** The doubles 8.0, 260.0, 156.0 and 197.6 as bits *)
Definition EIGHT : Z := 0x4020000000000000.
Definition FIRST : Z := 0x4070400000000000.
Definition SECOND : Z := if s3 then 0x4068b33333333333 else 0x4063800000000000.

Definition double_code (numerator divisor : Z) : prg Z :=
  ratio ← ext (SoftDouble 1 numerator divisor);
  adjusted ← ext (SoftDouble 2 ratio EIGHT);
  v ← ext (SoftDouble 3 adjusted 0);
  mret (i16 v).

Definition write_codes (address : Z) (values : list Z) : prg unit :=
  for_all (zip (range 0 (length values)) values) (fun e => write (address + e.1) 1 (u8 (clamp 2 63 e.2))).

Definition divisors (mode : Z) : prg (Z * Z) :=
  if mode =? 0 then mret (190, 410)
  else if s3 then mret (155, 355)
  else
    left ← ext (Divisor 0);
    right ← ext (Divisor 1);
    ht20 ← read left 2;
    ht40 ← read right 2;
    mret (ht20, ht40).

Definition calibrate : prg unit :=
  param ← ext Param;
  flags ← read (param + 0x120) 4;
  if negb (Z.land flags (Z.shiftl 1 23) =? 0) then mret tt else
  mode ← read (param + if s3 then 0x2a5 else 0x322) 1;
  ht ← divisors mode;
  selector ← read (param + 0xf3) 1;
  sample ← ext (Measurement selector);
  write (param + 0x166) 1 (u8 sample) ;;
  let numerator := i32 (u32 ((sample + 56) * 82)) in
  write_codes (param + 0x167)
    [divided numerator 190; divided numerator ht.1; divided numerator 410; divided numerator ht.2] ;;
  double ← ext (SoftDouble 0 (u32 numerator) 0);
  first ← double_code double FIRST;
  let common := divided numerator 312 in
  second ← double_code double SECOND;
  write_codes (param + 0x16b) [first; common; second; common] ;;
  flags ← read (param + 0x120) 4;
  write (param + 0x120) 4 (Z.lor flags (Z.shiftl 1 23)).

(** [native::measurement]: the measurement is the exported routine. *)
Definition internal (e : io method) : option (prg Z) :=
  match e with Ext (Measurement selector) => Some (measurement selector) | _ => None end.

End Analog.
End Analog.

Module Api.

Inductive acc :=
| Wakeup
| Close
| FrequencyInit
| Measure
| Read8 (offset : Z)
| Read32 (offset : Z)
| Write32 (offset value : Z)
| Write8 (offset value : Z)
| Table
| Slot (table offset : Z)
| Channel (function channel : Z)
| ReadRegister (address : Z)
| WriteRegister (address value : Z).

Section Api.
Variable s3 : bool.
Definition run (e : acc) : prog acc unit := call e ;; mret tt.

Definition wakeup : prog acc unit :=
  run Wakeup ;;
  v ← call (Read32 0x120);
  if Z.land v 0x20 =? 0 then
    run FrequencyInit ;;
    table ← call Table;
    channel ← call (Read8 0x1f2);
    function ← call (Slot table (if s3 then 0xcc else 0xd8));
    run (Channel function channel) ;;
    flags ← call (Read32 0x120);
    run (Write32 0x120 (Z.lor flags 0x20))
  else mret tt.

Definition close : prog acc unit :=
  (if s3 then mret tt else v ← call (Read8 0x31f); if v =? 0 then run Measure else mret tt) ;;
  run Close ;;
  if s3 then mret tt else run (Write8 0x320 1).

Definition calibration_version : Z := if s3 then 0x2c7 else 0x4d0.

(** S3 only *)
Definition set_tx_seed (seed : Z) : prog acc unit :=
  previous ← call (ReadRegister 0x6001c400);
  run (WriteRegister 0x6001c400 (Z.lor (Z.land previous (not32 0x7f)) (Z.land seed 0x7f))).

End Api.
End Api.

Module Basic.

Inductive acc :=
| Enter
| Exit
| ReadRegister (address : Z)
| WriteRegister (address value : Z)
| Parameter_ (offset : Z)
| Power (value : Z).

Section Basic.
Variable s3 : bool.
Definition run (e : acc) : prog acc unit := call e ;; mret tt.

(** Poll until the controller is idle, at most [polls] times. *)
Fixpoint wait_idle (polls : nat) (address : Z) : prog acc bool :=
  match polls with
  | O => mret false
  | S polls' =>
      v ← call (ReadRegister address);
      if Z.land v (Z.shiftl 1 25) =? 0 then mret true else wait_idle polls' address
  end.

(** Reset one controller; whether the wait ended *)
Definition reset_one (polls : nat) (address : Z) : prog acc bool :=
  v ← call (ReadRegister address);
  if Z.land v (Z.shiftl 1 25) =? 0 then mret true
  else
    run (WriteRegister address (Z.shiftl 1 26)) ;;
    wait_idle polls address.

Definition reset (polls : nat) : prog acc (option unit) :=
  run Enter ;;
  first ← reset_one polls 0x6000e000;
  if (first : bool) then
    second ← reset_one polls 0x6000e004;
    if (second : bool) then run Exit ;; mret (Some tt) else mret None
  else mret None.

Definition channel14 (argument : Z) : prog acc unit :=
  let enabled := (if s3 then u8 argument else argument) =? 1 in
  previous ← call (ReadRegister 0x6001c400);
  let value := if enabled then Z.lor (Z.land previous (not32 0x6000)) 0x2000 else Z.lor previous 0x6000 in
  run (WriteRegister 0x6001c400 value) ;;
  power ← call (Parameter_ (if enabled then 0xe4 else 0x98));
  run (Power (i8 power)).

End Basic.

(** S3 only; [data.read] is the event. *)
Definition interpolate (channel : Z) : prog Z Z :=
  let index := u8 (channel - 1) in
  value ← (if index <? 6 then
             first ← call 0;
             second ← call 1;
             mret (first + Z.quot ((i8 second - i8 first) * index) 5)
           else
             third ← call 2;
             if 10 <? index then mret (third + 2)
             else
               second ← call 1;
               mret (second + Z.quot ((i8 third - i8 second) * (index - 5)) 5));
  mret (u8 value).

End Basic.

Module Feature.

Inductive acc :=
| Parameter_ (offset : Z)
| SetParameter (offset value : Z)
| Table
| Callback (table offset : Z)
| Call (target : Z) (args : list Z)
| Gain (channel : Z)
| ReadRegister (address : Z)
| WriteRegister (address value : Z)
| Backup (kind mode buffer : Z).

Section Feature.
Variable s3 : bool.
Definition run (e : acc) : prog acc unit := call e ;; mret tt.
Definition byte (v : Z) : Z := if s3 then u8 v else v.

Definition backup (kind mode buffer : Z) : prog acc Z := call (Backup kind (byte mode) buffer).

Definition power (value : Z) : prog acc unit :=
  if s3 then
    table ← call Table;
    run (SetParameter 0x98 (u8 value)) ;;
    callback ← call (Callback table 0x264);
    channel ← call (Parameter_ 0x1f2);
    run (Call callback [channel; 0; 0; 0])
  else
    run (SetParameter 0x98 (u8 value)) ;;
    channel ← call (Parameter_ 0x1f2);
    run (Gain channel).

Definition SLOT : Z := if s3 then 0x190 else 0x1b4.
Definition HOST : Z := if s3 then 0 else 1.

(** The filter code from the measured one *)
Definition computed (parameter narrow : Z) : Z :=
  Z.min ((parameter + 56) * 103 / (if narrow =? 0 then 100 else 50) - 8) 63.

(** One of the eight filter registers; [first] is the callback the C3 loads
    ahead. *)
Definition mode_register (enabled code first : Z) (e : Z * Z) : prog acc unit :=
  let index := e.1 in
  let ahead := negb s3 && (index =? 0) in
  table ← (if ahead then mret 0 else call Table);
  value ← (if negb (enabled =? 0) then mret code else call (Parameter_ (if index <? 4 then 0x167 else 0x168)));
  target ← (if ahead then mret first else call (Callback table SLOT));
  run (Call target [103; HOST; e.2; value]).

Definition mode (enabled narrow : Z) : prog acc unit :=
  let enabled := byte enabled in
  let narrow := byte narrow in
  table ← (if s3 then mret 0 else call Table);
  run (SetParameter 0xef (u8 enabled)) ;;
  run (SetParameter 0xf0 (u8 narrow)) ;;
  first ← (if s3 then mret 0 else call (Callback table SLOT));
  previous ← call (ReadRegister 0x6002600c);
  let selection := if enabled =? 0 then 0 else if narrow =? 0 then 4 else 5 in
  run (WriteRegister 0x6002600c (Z.lor (Z.land previous (not32 0x1c)) (Z.shiftl selection 2))) ;;
  previous ← call (ReadRegister 0x6001c030);
  run (WriteRegister 0x6001c030 (if enabled =? 0 then Z.lor previous 0x20 else Z.land previous (not32 0x20))) ;;
  code ← (if negb (enabled =? 0) then
            parameter ← call (Parameter_ 0x166);
            mret (computed parameter narrow)
          else mret 0);
  for_all (zip (range 0 8) [4; 5; 12; 13; 6; 7; 14; 15]) (mode_register enabled code first).

End Feature.
End Feature.

Module Debug.

Inductive acc :=
| Table
| Slot (table offset : Z)
| WriteIq (destination offset value : Z)
| WriteMask (target : Z) (args : list Z)
| Sample (target selector : Z)
| Setup (target : Z)
| Mode (target : Z) (args : list Z)
| Bias.

Section Debug.
Variable s3 : bool.
Definition run (e : acc) : prog acc unit := call e ;; mret tt.

Definition MASK : Z := if s3 then 0x198 else 0x1bc.
Definition SAMPLE : Z := if s3 then 0x12c else 0x150.
Definition MODE : Z := if s3 then 0x1a8 else 0x1cc.
Definition ENTER : Z := if s3 then 0x1b0 else 0x1d4.
Definition EXIT : Z := if s3 then 0x1b4 else 0x1d8.

Definition function (offset : Z) : prog acc Z := t ← call Table; call (Slot t offset).

Definition write_mask (args : list Z) : prog acc unit := f ← function MASK; run (WriteMask f args).

Definition iq (destination packed selector : Z) : prog acc unit :=
  let packed := if s3 then u16 packed else packed in
  let selector := if s3 then u8 selector else selector in
  let width := if selector =? 0 then 5 else 6 in
  let first := i8 (Z.shiftr (i32 (u32 (Z.shiftl (Z.shiftr packed 6) (32 - width)))) (32 - width)) in
  let second := i8 (Z.shiftr (i32 (u32 (Z.shiftl packed 26))) 26) in
  run (WriteIq destination 0 first) ;;
  run (WriteIq destination 1 second).

Definition bias : prog acc Z :=
  write_mask [106; 0; 2; 1; 1; 1] ;;
  write_mask [106; 0; 7; 3; 2; 1] ;;
  f ← function SAMPLE;
  result ← call (Sample f 3);
  write_mask [106; 0; 2; 1; 1; 0] ;;
  write_mask [106; 0; 7; 3; 2; 0] ;;
  mret result.

Definition voltage : prog acc Z :=
  bias ← call Bias;
  f ← function ENTER;
  run (Setup f) ;;
  f ← function MODE;
  run (Mode f [4; 1; 2]) ;;
  write_mask [107; 0; 9; 7; 7; 1] ;;
  f ← function SAMPLE;
  sample ← call (Sample f 3);
  let result := if bias =? 0 then sample else u16 (Z.quot (i32 (u32 (sample * 3840))) (i32 bias)) in
  write_mask [107; 0; 9; 7; 7; 0] ;;
  f ← function MODE;
  run (Mode f [4; 1; 0]) ;;
  f ← function EXIT;
  run (Setup f) ;;
  mret result.

(** [native::bias]: the bias is the exported routine. *)
Definition internal (e : acc) : option (prog acc Z) :=
  match e with Bias => Some bias | _ => None end.

End Debug.
End Debug.

Module Wrappers.

Definition tx_pwctrl_background (s3 : bool) (enabled mode : Z) : prog Dispatcher.acc unit :=
  Dispatcher.tx_pwctrl_background s3 enabled mode.

End Wrappers.
