(* ===== verification/ChipMac.v ===== *)
(** * Chip-specific MAC initialisation and PHY controls

    [c3_mac.rs], [s3_mac.rs] and [s3_mac_helpers.rs] bring the MAC up with
    sequences of 32-bit register accesses; [c3_phy.rs] and [s3_phy.rs] hold the
    low-rate, AGC and slow-clock operations the driver calls directly, [Ffi] the
    selection of the clock's period in [ffi.rs].  Each
    chip has its own copy of the code, and so has the model: the Modules are
    named after the files.  The accesses are the events [Read] and [Write];
    the wait for the MAC takes the number of polls. *)

From S2P Require Import Prelude External Program PhyAccess.

Abbreviation prg := (prog (io Empty_set)).

(** [read], [write] and [update] of each file *)
Definition mac_read (address : Z) : prg Z := read address 4.
Definition mac_write (address value : Z) : prg unit := write address 4 value.
Definition update (address keep set : Z) : prg unit := rmw address keep set.

(** [u32::MAX] *)
Definition ALL : Z := 0xffffffff.

Module C3Phy.

Definition disable_low_rate : prg unit :=
  update 0x6001c860 (not32 0x400) 0 ;;
  update 0x6001c860 (not32 0x800) 0 ;;
  update 0x6001c87c (not32 0x800) 0.

Definition disable_wifi_agc : prg unit :=
  update 0x6001c01c 0xff00ffff 0x007f0000 ;;
  update 0x6001c038 ALL 0x80 ;;
  update 0x6001c080 ALL 1.

Definition enable_wifi_agc : prg unit :=
  update 0x6001c080 (not32 1) 0 ;;
  update 0x6001c01c 0xff00ffff 0x00200000 ;;
  update 0x6001c038 ALL 0x80.

Definition slowclk_cal_get : prg Z :=
  selected ← mac_read 0x600c0024;
  if negb (Z.land selected (Z.shiftl 1 26) =? 0) then mret (Z.shiftl 1 12)
  else
    period ← mac_read 0x60008054;
    mret (Z.shiftr period 7).

End C3Phy.

Module S3Phy.

Definition disable_low_rate : prg unit :=
  update 0x6001c860 (not32 (Z.shiftl 1 10)) 0 ;;
  update 0x6001c860 (not32 (Z.shiftl 1 11)) 0 ;;
  update 0x6001c87c (not32 (Z.shiftl 1 11)) 0.

Definition disable_wifi_agc : prg unit :=
  update 0x6001c01c (not32 0x00ff0000) 0x007f0000 ;;
  update 0x6001c038 ALL 0x80 ;;
  update 0x6001c080 ALL 1.

Definition enable_wifi_agc : prg unit :=
  update 0x6001c080 (not32 1) 0 ;;
  update 0x6001c01c (not32 0x00ff0000) 0x00200000 ;;
  update 0x6001c038 ALL 0x80.

Definition slowclk_cal_get : prg Z :=
  selected ← mac_read 0x600c002c;
  if negb (Z.land selected (Z.shiftl 1 26) =? 0) then mret (Z.shiftl 1 12)
  else
    period ← mac_read 0x60008054;
    mret (Z.shiftr period 7).

End S3Phy.

(** [ffi.rs]: the period of the slow clock on each chip *)
Module Ffi.

Definition slowclk_cal_get (c : Chip) : prg Z :=
  match c with
  | Esp32s2 => mret 44462
  | Esp32s3 => S3Phy.slowclk_cal_get
  | Esp32c3 => C3Phy.slowclk_cal_get
  | Esp32 => mret 28639
  end.

End Ffi.

Module C3MacHelpers.

Definition hal_crypto_init : prg unit :=
  mac_write 0x60033800 0x30000 ;;
  mac_write 0x60033804 0x30000 ;;
  mac_write 0x60033808 0 ;;
  mac_write 0x6003380c 0 ;;
  mac_write 0x60033810 0 ;;
  update 0x60033840 ALL 0x19.

Definition hal_attenna_init : prg unit :=
  for_all (range 0 8) (fun slot => update (0x60034314 - slot * 0x4c) (not32 7) 0) ;;
  for_all (range 0 8) (fun slot =>
    let address := 0x60034314 - slot * 0x4c in
    update address (not32 8) 0 ;;
    update address ALL 0x20 ;;
    update address (not32 0x10) 0) ;;
  update 0x600332a8 (not32 7) 0 ;;
  update 0x600332a8 ALL 0x20.

Definition hal_mac_rate_autoack_init : prg unit :=
  mac_write 0x60033418 0 ;;
  mac_write 0x6003340c 0x19191919.

Definition hal_coex_pti_init : prg unit := update 0x60035084 ALL 2.

Definition hal_set_rx_active_pti (priority : Z) : prg unit := update 0x600332ac (not32 0xf) (Z.land priority 0xf).

Definition hal_set_rx_ack_pti (priority : Z) : prg unit :=
  update 0x600332ac (not32 0xf0) (Z.shiftl (Z.land priority 0xf) 4).

Definition hal_set_wifi_default_pti (priority : Z) : prg unit :=
  update 0x60035094 (not32 0xf00) (Z.shiftl (Z.land priority 0xf) 8).

Definition hal_timer_update_by_rtc (enable calibration : Z) : prg unit :=
  if negb (enable =? 0) then
    update 0x60035024 ALL (Z.shiftl 1 25) ;;
    update 0x60035058 (not32 0x3ffff) (Z.land calibration 0x3ffff)
  else update 0x60035024 (not32 (Z.shiftl 1 25)) 0.

End C3MacHelpers.

Module S3MacHelpers.

Definition hal_crypto_init : prg unit :=
  mac_write 0x60033800 0x30000 ;;
  mac_write 0x60033804 0x30000 ;;
  mac_write 0x60033808 0 ;;
  mac_write 0x6003380c 0 ;;
  mac_write 0x60033810 0 ;;
  update 0x60033840 ALL 0x19.

Definition hal_attenna_init : prg unit :=
  for_all (range 0 8) (fun slot => update (0x60034314 - slot * 0x4c) (not32 7) 0) ;;
  for_all (range 0 8) (fun slot =>
    let address := 0x60034314 - slot * 0x4c in
    update address (not32 8) 0 ;;
    update address ALL 0x20 ;;
    update address (not32 0x10) 0) ;;
  update 0x600332a8 (not32 7) 0 ;;
  update 0x600332a8 ALL 0x20.

Definition hal_mac_rate_autoack_init : prg unit :=
  mac_write 0x60033418 0 ;;
  mac_write 0x6003340c 0x19191919.

Definition hal_coex_pti_init : prg unit := update 0x60035084 ALL 2.

Definition hal_set_rx_active_pti (priority : Z) : prg unit := update 0x600332ac (not32 0xf) (Z.land priority 0xf).

Definition hal_set_rx_ack_pti (priority : Z) : prg unit :=
  update 0x600332ac (not32 0xf0) (Z.shiftl (Z.land priority 0xf) 4).

Definition hal_set_wifi_default_pti (priority : Z) : prg unit :=
  update 0x60035094 (not32 0xf00) (Z.shiftl (Z.land priority 0xf) 8).

Definition hal_timer_update_by_rtc (enable calibration : Z) : prg unit :=
  if negb (u8 enable =? 0) then
    update 0x60035024 ALL (Z.shiftl 1 25) ;;
    update 0x60035058 (not32 0x3ffff) (Z.land calibration 0x3ffff)
  else update 0x60035024 (not32 (Z.shiftl 1 25)) 0.

End S3MacHelpers.

Module C3Mac.
Import C3MacHelpers.

Definition init_tx_rx : prg unit :=
  update 0x60033c6c ALL 0x8080a000 ;;
  update 0x60033c6c ALL 0x100 ;;
  for_all (range 0 4) (fun interface =>
    update (0x600330d8 + 4 * interface) ALL 0x40 ;;
    update (0x600330d8 + 4 * interface) 0xffffffdf 0) ;;
  update 0x60033c74 ALL 8 ;;
  for_all (range 0 4) (fun interface =>
    update (0x60033100 + 4 * interface) 0xffff 0) ;;
  update 0x60033100 ALL 0x1000000 ;;
  update 0x60033104 ALL 0x1000000 ;;
  update 0x60033100 ALL 0x4000000 ;;
  update 0x60033104 ALL 0x4000000 ;;
  update 0x60033c6c ALL 0x200 ;;
  update 0x60033114 0xffffff0f 0 ;;
  update 0x60033118 ALL 0x80000000 ;;
  update 0x60033118 0xf00fffff 0x1b00000 ;;
  update 0x60033c78 ALL 3 ;;
  update 0x60033c10 0xfffff000 0xf0 ;;
  update 0x60033c10 ALL 0x80000000 ;;
  update 0x60033c10 ALL 0x40000000 ;;
  update 0x60033c14 0xfffff000 0xf0 ;;
  update 0x60033c18 0xfffff000 0xf0 ;;
  update 0x60033c94 0xffffff0f 0x40 ;;
  update 0x60033c54 ALL 0x7fff0000 ;;
  update 0x60033c54 ALL 0x80000000 ;;
  update 0x60033c88 0xf0ffffff 0 ;;
  update 0x600332b8 ALL 2 ;;
  update 0x60033084 0x7fffffff 0.

(** Configuration, value and mask of each filter *)
Definition filters : list (Z * Z * Z) :=
  [(0x23006, 0x608, 0xffff); (0x23006, 0x808, 0xffff); (0x23006, 0x8e88, 0xffff);
   (0x2301c, 0x44004300, ALL); (0x2301c, 0x43004400, ALL); (0x23011, 1, 0xff)].

Definition write_filter (f : Z * (Z * Z * Z)) : prg unit :=
  let '(index, (config, value, mask)) := f in
  mac_write (0x60033120 + index * 4) config ;;
  mac_write (0x6003313c + index * 4) value ;;
  mac_write (0x60033158 + index * 4) mask.

Definition init_rx_buffers : prg unit :=
  update 0x60033c5c 0xfff00000 0xe0000 ;;
  update 0x60033c60 0xfff00000 0x80000 ;;
  update 0x60033c64 0x000fffff 0x3fc00000 ;;
  update 0x60033080 0xffffff00 0 ;;
  mac_write 0x60033088 0 ;;
  for_all (zip (range 0 6) filters) write_filter ;;
  update 0x6003311c ALL 0x3f00 ;;
  update 0x6003311c ALL 0x7e ;;
  update 0x6003309c ALL 0x8000000.

(** [while read(0x60033d14) & 1 == 0 {}], at most [polls] times; whether the
    bit came up *)
Fixpoint wait_ready (polls : nat) : prg bool :=
  match polls with
  | O => mret false
  | S polls' => v ← mac_read 0x60033d14; if Z.land v 1 =? 0 then wait_ready polls' else mret true
  end.

Definition init_interface (interface : Z) : prg unit :=
  let policy := 0x600330d8 + 4 * interface in
  update policy ALL 5 ;;
  update policy 0xfffff6ff 0 ;;
  if interface <? 3 then
    update policy 0xfffffeef 0 ;;
    update (0x60033024 + 8 * interface) 0xfffeffff 0 ;;
    update (0x60033064 + 8 * interface) 0xfffeffff 0
  else mret tt.

(** What follows the wait, up to the timer *)
Definition init_registers : prg unit :=
  mac_write 0x60033c34 0 ;;
  mac_write 0x60033c40 ALL ;;
  init_tx_rx ;;
  for_all (range 0 4) init_interface ;;
  init_rx_buffers ;;
  hal_mac_rate_autoack_init ;;
  C3Phy.disable_low_rate ;;
  mac_write 0x60033410 0x90a0b ;;
  mac_write 0x60033414 0x50100 ;;
  mac_write 0x60033404 0x90a0b ;;
  mac_write 0x60033408 0x50100 ;;
  hal_crypto_init ;;
  hal_attenna_init ;;
  mac_write 0x60033c34 0x19a879e0 ;;
  update 0x60033c6c ALL 0x10000000 ;;
  update 0x6003309c 0xffffff00 1 ;;
  update 0x6003309c 0xffff00ff 0x200 ;;
  update 0x6003309c ALL 0x100000.

(** [None] when the MAC did not come up within the polls *)
Definition init (polls : nat) : prg (option unit) :=
  update 0x60033d14 ALL 2 ;;
  ready ← wait_ready polls;
  if (ready : bool) then
    init_registers ;;
    calibration ← Ffi.slowclk_cal_get Esp32c3;
    hal_timer_update_by_rtc 1 calibration ;;
    hal_coex_pti_init ;;
    hal_set_rx_active_pti 0 ;;
    hal_set_rx_ack_pti 0 ;;
    hal_set_wifi_default_pti 0 ;;
    mret (Some tt)
  else mret None.

End C3Mac.

Module S3Mac.
Import S3MacHelpers.

Definition init_tx_rx : prg unit :=
  update 0x60033c6c ALL 0x8080a000 ;;
  update 0x60033c6c ALL 0x100 ;;
  for_all (range 0 4) (fun interface =>
    update (0x600330d8 + 4 * interface) ALL 0x40 ;;
    update (0x600330d8 + 4 * interface) 0xffffffdf 0) ;;
  update 0x60033c74 ALL 8 ;;
  for_all (range 0 4) (fun interface =>
    update (0x60033100 + 4 * interface) 0xffff 0) ;;
  update 0x60033100 ALL 0x1000000 ;;
  update 0x60033104 ALL 0x1000000 ;;
  update 0x60033100 ALL 0x4000000 ;;
  update 0x60033104 ALL 0x4000000 ;;
  update 0x60033c6c ALL 0x200 ;;
  update 0x60033114 0xffffff0f 0 ;;
  update 0x60033118 ALL 0x80000000 ;;
  update 0x60033118 0xf00fffff 0x1b00000 ;;
  update 0x60033c78 ALL 3 ;;
  update 0x60033c10 0xfffff000 0xf0 ;;
  update 0x60033c10 ALL 0x80000000 ;;
  update 0x60033c10 ALL 0x40000000 ;;
  update 0x60033c14 0xfffff000 0xf0 ;;
  update 0x60033c18 0xfffff000 0xf0 ;;
  update 0x60033c94 0xffffff0f 0x40 ;;
  update 0x60033c54 ALL 0x7fff0000 ;;
  update 0x60033c54 ALL 0x80000000 ;;
  update 0x60033c88 0xf0ffffff 0 ;;
  update 0x600332b8 ALL 2 ;;
  update 0x60033084 0x7fffffff 0.

(** Configuration, value and mask of each filter *)
Definition filters : list (Z * Z * Z) :=
  [(0x23006, 0x608, 0xffff); (0x23006, 0x808, 0xffff); (0x23006, 0x8e88, 0xffff);
   (0x2301c, 0x44004300, ALL); (0x2301c, 0x43004400, ALL); (0x23011, 1, 0xff)].

Definition write_filter (f : Z * (Z * Z * Z)) : prg unit :=
  let '(index, (config, value, mask)) := f in
  mac_write (0x60033120 + index * 4) config ;;
  mac_write (0x6003313c + index * 4) value ;;
  mac_write (0x60033158 + index * 4) mask.

Definition init_rx_buffers : prg unit :=
  update 0x60033c5c 0xfff00000 0xf8000 ;;
  update 0x60033c60 0xfff00000 0x84000 ;;
  update 0x60033c64 0x000fffff 0x3fc00000 ;;
  update 0x60033080 0xffffff00 0 ;;
  mac_write 0x60033088 0 ;;
  for_all (zip (range 0 6) filters) write_filter ;;
  update 0x6003311c ALL 0x3f00 ;;
  update 0x6003311c ALL 0x7e ;;
  update 0x6003309c ALL 0x8000000.

(** [while read(0x60033d14) & 1 == 0 {}], at most [polls] times; whether the
    bit came up *)
Fixpoint wait_ready (polls : nat) : prg bool :=
  match polls with
  | O => mret false
  | S polls' => v ← mac_read 0x60033d14; if Z.land v 1 =? 0 then wait_ready polls' else mret true
  end.

Definition init_interface (interface : Z) : prg unit :=
  let policy := 0x600330d8 + 4 * interface in
  update policy ALL 5 ;;
  update policy 0xfffff6ff 0 ;;
  if interface <? 3 then
    update policy 0xfffffeef 0 ;;
    update (0x60033024 + 8 * interface) 0xfffeffff 0 ;;
    update (0x60033064 + 8 * interface) 0xfffeffff 0
  else mret tt.

(** What follows the wait, up to the timer *)
Definition init_registers : prg unit :=
  mac_write 0x60033c34 0 ;;
  mac_write 0x60033c40 ALL ;;
  init_tx_rx ;;
  for_all (range 0 4) init_interface ;;
  init_rx_buffers ;;
  hal_mac_rate_autoack_init ;;
  S3Phy.disable_low_rate ;;
  mac_write 0x60033410 0x90a0b ;;
  mac_write 0x60033414 0x50100 ;;
  mac_write 0x60033404 0x90a0b ;;
  mac_write 0x60033408 0x50100 ;;
  hal_crypto_init ;;
  hal_attenna_init ;;
  mac_write 0x60033c34 0x19a879e0 ;;
  update 0x60033c6c ALL 0x10000000 ;;
  update 0x6003309c 0xffffff00 1 ;;
  update 0x6003309c 0xffff00ff 0x200 ;;
  update 0x6003309c ALL 0x100000.

(** [None] when the MAC did not come up within the polls *)
Definition init (polls : nat) : prg (option unit) :=
  update 0x60033d14 ALL 2 ;;
  ready ← wait_ready polls;
  if (ready : bool) then
    init_registers ;;
    calibration ← Ffi.slowclk_cal_get Esp32s3;
    hal_timer_update_by_rtc 1 calibration ;;
    hal_coex_pti_init ;;
    hal_set_rx_active_pti 0 ;;
    hal_set_rx_ack_pti 0 ;;
    hal_set_wifi_default_pti 0 ;;
    mret (Some tt)
  else mret None.

End S3Mac.
