(* ===== verification/ChipCalls.v ===== *)
(** * The C3 and S3 code behind the vendor functions

    On the C3 and the S3 [ffi.rs] re-exports Rust routines under the names of
    vendor functions: the AGC routines of [c3_phy.rs] and [s3_phy.rs] and the
    power control of [phy_wrappers.rs].  They are programs ([ChipMac],
    [PhyTemperature]); here they run on the registers of the driver. *)

From S2P Require Import Prelude External Program PhyAccess ChipMac PhyTemperature PhyHelpers Registers.

(** A word access at a fixed address *)
Definition io_word (e : io Empty_set) : M ll Z :=
  match e with
  | Read a _ => Registers.read (PHY_WORD a)
  | Write a _ v => Registers.write (PHY_WORD a) v ;; mret 0
  | Ext x => match x with end
  end.

Fixpoint on_words {A} (p : prog (io Empty_set) A) : M ll A :=
  match p with
  | Ret a => mret a
  | Do e k => x ← io_word e; on_words (k x)
  | Crash => panic
  end.

(** A program of the tracking dispatcher.  [access] is what its trait does:
    reads of PHY parameters, and calls of PHY routines, which may change
    registers. *)
Definition on_phy {A} (access : Dispatcher.acc -> (Reg -> Z) -> Z * (Reg -> Z)) (p : prog Dispatcher.acc A) : M ll A :=
  fun d => match exec access p (regs d) with
           | Some (a, f) => Some (a, mkLl f (inputs d) (Registers.log d))
           | None => None
           end.

(** [crate::c3_phy] and [crate::s3_phy] *)
Definition chip_disable_wifi_agc (s3 : bool) : M ll unit :=
  on_words (if s3 then S3Phy.disable_wifi_agc else C3Phy.disable_wifi_agc).
Definition chip_enable_wifi_agc (s3 : bool) : M ll unit :=
  on_words (if s3 then S3Phy.enable_wifi_agc else C3Phy.enable_wifi_agc).

(** [crate::phy_wrappers] *)
Definition chip_tx_pwctrl_background (access : Dispatcher.acc -> (Reg -> Z) -> Z * (Reg -> Z)) (s3 : bool) (enabled mode : Z) : M ll unit :=
  on_phy access (Wrappers.tx_pwctrl_background s3 enabled mode).

(** ** What they do *)

(** An update of a word returns, leaves the other registers alone, and the
    word has the bits that were not kept. *)
Lemma update_word a keep set d :
  exists d' v, on_words (update a keep set) d = Some (tt, d') /\ regs d' (PHY_WORD a) = Z.lor (Z.land v keep) set /\
    (forall r, r <> PHY_WORD a -> regs d' r = regs d r).
Proof.
  unfold update, rmw, PhyAccess.read, PhyAccess.write. cbn. unfold Registers.read, Registers.write. rewrite M_bind_unfold.
  destruct (inputs d (PHY_WORD a)) as [|v q]; (do 2 eexists; split; [reflexivity|]); cbn [regs];
    (split; [apply upd_eq|]; intros r Hr; by rewrite !upd_ne).
Qed.

Lemma on_words_bind {A B} (p : prog (io Empty_set) A) (f : A -> prog (io Empty_set) B) d :
  on_words (p ≫= f) d = (on_words p ≫= (fun a => on_words (f a))) d.
Proof.
  revert d. induction p as [a|e k IH|]; intros d; [done| |done]. cbn. rewrite !M_bind_unfold.
  destruct (io_word e d) as [[x d']|]; [|done]. etrans; [exact (IH x d')|]. by rewrite M_bind_unfold.
Qed.

(** The words of the AGC *)
Definition AGC_THRESHOLD : Reg := PHY_WORD 0x6001c01c.
Definition AGC_CONTROL : Reg := PHY_WORD 0x6001c038.
Definition AGC_HOLD : Reg := PHY_WORD 0x6001c080.

Definition agc_words (r : Reg) : Prop := r ∈ [AGC_THRESHOLD; AGC_CONTROL; AGC_HOLD].

Lemma lor_field w keep set mask : Z.land keep mask = 0 -> Z.land (Z.lor (Z.land w keep) set) mask = Z.land set mask.
Proof. intros Hk. by rewrite Z.land_lor_distr_l, <- Z.land_assoc, Hk, Z.land_0_r. Qed.

(** The AGC is held: threshold 0x7f, hold bit set.  It runs: threshold 0x20,
    hold bit clear. *)
Definition agc_held (d : ll) : Prop :=
  Z.land (regs d AGC_THRESHOLD) 0xff0000 = 0x7f0000 /\ Z.testbit (regs d AGC_HOLD) 0 = true.
Definition agc_runs (d : ll) : Prop :=
  Z.land (regs d AGC_THRESHOLD) 0xff0000 = 0x200000 /\ Z.testbit (regs d AGC_HOLD) 0 = false.

Ltac agc_step :=
  rewrite on_words_bind, M_bind_unfold;
  match goal with |- context [on_words (update ?a ?k ?s) ?d] =>
    let d' := fresh "d" in let v := fresh "v" in
    destruct (update_word a k s d) as (d' & v & -> & ?Hw & ?Hf) end.

Lemma disable_agc_run s3 d : exists d', chip_disable_wifi_agc s3 d = Some (tt, d') /\ agc_held d' /\
  (forall r, ~ agc_words r -> regs d' r = regs d r).
Proof.
  assert (forall k, Z.land k 0xff0000 = 0 -> exists d', on_words (update 0x6001c01c k 0x7f0000 ;; update 0x6001c038 ALL 0x80 ;;
    update 0x6001c080 ALL 1) d = Some (tt, d') /\ agc_held d' /\ (forall r, ~ agc_words r -> regs d' r = regs d r)) as Hg.
  { intros k Hk. agc_step. agc_step. destruct (update_word 0x6001c080 ALL 1 d1) as (d2 & v2 & -> & Hw2 & Hf2).
    exists d2. split; [done|]. unfold agc_held, agc_words, AGC_THRESHOLD, AGC_HOLD. split.
    - rewrite Hw2, Hf2, Hf0, Hw by done. rewrite (lor_field _ _ _ _ Hk), Z.lor_spec. split; [done|apply orb_true_r].
    - intros r Hr. rewrite Hf2, Hf0, Hf by (intros ->; apply Hr; set_solver). done. }
  unfold chip_disable_wifi_agc. destruct s3; apply Hg; reflexivity.
Qed.

Lemma enable_agc_run s3 d : exists d', chip_enable_wifi_agc s3 d = Some (tt, d') /\ agc_runs d' /\
  (forall r, ~ agc_words r -> regs d' r = regs d r).
Proof.
  assert (forall k, Z.land k 0xff0000 = 0 -> exists d', on_words (update 0x6001c080 (not32 1) 0 ;; update 0x6001c01c k 0x200000 ;;
    update 0x6001c038 ALL 0x80) d = Some (tt, d') /\ agc_runs d' /\ (forall r, ~ agc_words r -> regs d' r = regs d r)) as Hg.
  { intros k Hk. agc_step. agc_step. destruct (update_word 0x6001c038 ALL 0x80 d1) as (d2 & v2 & -> & Hw2 & Hf2).
    exists d2. split; [done|]. unfold agc_runs, agc_words, AGC_THRESHOLD, AGC_HOLD. split.
    - rewrite !Hf2, Hw0, Hf0, Hw by done. rewrite (lor_field _ _ _ _ Hk), Z.lor_spec, Z.land_spec.
      split; [done|]. change (Z.testbit (not32 1) 0) with false. by rewrite andb_false_r.
    - intros r Hr. rewrite Hf2, Hf0, Hf by (intros ->; apply Hr; set_solver). done. }
  unfold chip_enable_wifi_agc. destruct s3; apply Hg; reflexivity.
Qed.

(** The dispatcher has no loop and no assertion: it returns. *)
Lemma tx_pwctrl_run access s3 enabled mode d : exists f,
  chip_tx_pwctrl_background access s3 enabled mode d = Some (tt, mkLl f (inputs d) (Registers.log d)).
Proof.
  unfold chip_tx_pwctrl_background, on_phy.
  assert (exists f, exec access (Wrappers.tx_pwctrl_background s3 enabled mode) (regs d) = Some (tt, f)) as [f ->]; [|by eexists].
  unfold Wrappers.tx_pwctrl_background, Dispatcher.tx_pwctrl_background, Dispatcher.dispatch.
  destruct s3; cbn; repeat (match goal with
    | |- context [access ?e ?f] => destruct (access e f) as [? ?]
    | |- context [if ?b then _ else _] => destruct b end; cbn); by eexists.
Qed.
