(* ===== verification/LowLevel.v ===== *)
(** * The low level driver ([ll.rs])

    One definition per function of [LowLevelDriver], in the order of the
    source.  Chip specific code takes the chip as an argument.  Calls into
    vendor code and into the chip specific initialisation are parameters. *)

From S2P Require Import Prelude External Queue Rates Ht20 RxFrame Sync PhyTemperature ChipCalls Registers.

(** [fn run_reversible_function_sequence] *)
Definition run_reversible_function_sequence {S T} (functions : list (T -> M S unit))
    (parameter : T) (forward : bool) : M S unit :=
  for_each (if forward then functions else rev functions) (fun function => function parameter).

(** [fn split_address] *)
Definition split_address (address : list Z) : Z * Z :=
  (le_word (take 4 address), le_word (drop 4 address)).

Record KeySlotParameters := mkKeySlot {
  ks_address : list Z;
  ks_key_id : Z;
  ks_interface : Z;
  ks_pairwise : bool;
  ks_group : bool;
  ks_algorithm : Z;
  ks_wep_104 : bool
}.

Inductive RxFilterBank := Bssid | ReceiverAddress.

#[export] Instance RxFilterBank_eq_dec : EqDecision RxFilterBank.
Proof. solve_decision. Defined.

Definition bank_bits (b : RxFilterBank) : nat := match b with Bssid => 0 | ReceiverAddress => 1 end.

(** ** Interrupt causes *)

Module MacInterruptCause.

Definition rx_mask (c : Chip) : Z :=
  Z.lor 0x100020 (match c with Esp32 => 0x4 | Esp32s3 | Esp32c3 => 0x1204000 | Esp32s2 => 0 end).

Definition is_empty (cause : Z) : bool := cause =? 0.
Definition rx (c : Chip) (cause : Z) : bool := negb (Z.land cause (rx_mask c) =? 0).
Definition tx_success (cause : Z) : bool := negb (Z.land cause 0x80 =? 0).
Definition tx_timeout (cause : Z) : bool := negb (Z.land cause 0x80000 =? 0).
Definition tx_collision (cause : Z) : bool := negb (Z.land cause 0x100 =? 0).

End MacInterruptCause.

Module PwrInterruptCause.

Definition tbtt_of_interface (cause : Z) (interface : nat) : bool :=
  (interface <? INTERFACE_COUNT)%nat && negb (Z.land cause (Z.shiftr 0x10 (Z.of_nat interface)) =? 0).

Definition tsf_timer_fired (cause : Z) (timer : nat) : bool :=
  (timer <? TSF_TIMER_COUNT)%nat && negb (Z.land cause (Z.shiftr 0x100 (Z.of_nat timer)) =? 0).

End PwrInterruptCause.

Inductive MacProtocolError :=
| AckTimeout
| CtsTimeout
| RtsChannelAccessError (e : ChannelAccessError)
| InvalidKeyId
| Unknown (error sub_error : Z).

#[export] Instance MacProtocolError_eq_dec : EqDecision MacProtocolError.
Proof. solve_decision. Defined.

Inductive HardwareTxQueueStatus := Disabled | Valid | ReadyForTx.

Definition status_valid (s : HardwareTxQueueStatus) : bool := match s with Disabled => false | _ => true end.
Definition status_enabled (s : HardwareTxQueueStatus) : bool := match s with ReadyForTx => true | _ => false end.

Record ControlFrameFilterConfig := mkControlFilter {
  control_wrapper : bool; block_ack_request : bool; block_ack : bool; ps_poll : bool;
  rts : bool; cts : bool; ack : bool; cf_end : bool; cf_end_cf_ack : bool
}.

Definition control_filter_none : ControlFrameFilterConfig :=
  mkControlFilter false false false false false false false false false.
Definition control_filter_all : ControlFrameFilterConfig :=
  mkControlFilter true true true true true true true true true.

(** ** Vendor code and hardware reactions *)

(** The code outside the model that the low level driver calls, as effects on
    the registers: vendor functions, and for the power control of the C3 and
    the S3 the trait of its dispatcher, [phy_access].  [vendor_*] are the
    functions that only the ESP32 and the S2 take from the vendor. *)
Class Ffi := {
  hal_init : M ll unit;
  chip_mac_init : Chip -> M ll unit;
  install_osi_funcs : M ll unit;
  enable_phy : M ll unit;
  chip_v7_set_chan : Z -> Z -> M ll unit;
  chip_v7_set_chan_nomac : Z -> Z -> M ll unit;
  vendor_disable_wifi_agc : M ll unit;
  vendor_enable_wifi_agc : M ll unit;
  vendor_tx_pwctrl_background : Z -> Z -> (Reg -> Z) -> (Reg -> Z);
  phy_access : Dispatcher.acc -> (Reg -> Z) -> Z * (Reg -> Z)
}.

(** The RX DMA engine: after the reload bit is set, [reload_latency] reads
    still show it set; then the engine has fetched the descriptor list and
    clears the bit. *)
Class RxEngine := {
  reload_latency : (Reg -> Z) -> nat;
  on_reload : (Reg -> Z) -> Reg -> Z;
  on_reload_frame : forall f r, r <> RX_DESCR_NEXT -> r <> RX_DESCR_LAST -> on_reload f r = f r;
  on_reload_next : forall f, Z.land (on_reload f RX_DESCR_NEXT) 0xfffff = Z.land (f RX_DESCR_BASE) 0xfffff
}.

Module LowLevel.
Section LowLevel.
Context `{MacroBits} `{Pac} `{Ffi} `{RxEngine}.

(** ** Initialization *)

Definition set_module_status (enable_module : bool) : M ll unit :=
  run_reversible_function_sequence
    [ (fun power_down => modify_reg LPWR_DIG_PWC (fset_bit WIFI_FORCE_PD power_down));
      (fun isolate => modify_reg LPWR_DIG_ISO (fset_bit WIFI_FORCE_ISO isolate)) ]
    (negb enable_module) enable_module.

Definition set_rx_enable (enable_rx : bool) : M ll unit :=
  modify_reg RX_CTRL (fset_bit RX_ENABLE enable_rx).

Definition reset_mac : M ll unit :=
  modify_reg SYSCON_WIFI_RST_EN (fset_bit MAC_RST true) ;;
  modify_reg SYSCON_WIFI_RST_EN (fset_bit MAC_RST false) ;;
  set_rx_enable false.

Definition mac_init_mask (c : Chip) : Z :=
  match c with Esp32 => 0xffffe800 | _ => 0xff00efff end.
Definition mac_ready_mask (c : Chip) : Z :=
  match c with Esp32 => 0x2000 | _ => 0x6000 end.

Definition set_mac_state (c : Chip) (initialized : bool) : M ll unit :=
  (if negb initialized && bool_decide (c <> Esp32)
   then spin_while CTRL (fun v => negb (Z.land v (mac_ready_mask c) =? 0)) else mret tt) ;;
  modify_reg CTRL (fun r =>
    if initialized then Z.land r (mac_init_mask c)
    else Z.lor r (u32 (Z.lnot (mac_init_mask c)))) ;;
  (if negb initialized
   then spin_while CTRL (fun v => negb (Z.land v (mac_ready_mask c) =? 0)) else mret tt).

(** ** Interrupts *)

Definition get_and_clear_mac_interrupt_cause : M ll Z :=
  cause ← read WIFI_INT_STATUS; write WIFI_INT_CLEAR cause ;; mret cause.

Definition get_and_clear_pwr_interrupt_cause : M ll Z :=
  cause ← read PWR_INT_STATUS; write PWR_INT_CLEAR cause ;; mret cause.

(** ** RX *)

Definition rx_enabled : M ll bool := v ← read RX_CTRL; mret (fbit RX_ENABLE v).

(** The engine finishes the reload: it fetched the list and clears the bit. *)
Definition engine_done (s : ll) : ll :=
  mkLl (upd RX_CTRL (fset_bit RX_DESCR_RELOAD false (regs s RX_CTRL)) (on_reload (regs s)))
       (inputs s) (log s).

(** The polling loop of [reload_hw_rx_descriptors]; [pending] reads still show
    the bit set. *)
Fixpoint poll_reload (fuel pending : nat) : M ll unit :=
  match fuel with
  | O => panic
  | S fuel' =>
      (match pending with O => modify engine_done | S _ => mret tt end) ;;
      v ← gets (fun s => regs s RX_CTRL);
      if fbit RX_DESCR_RELOAD v then poll_reload fuel' (Nat.pred pending) else mret tt
  end.

Definition reload_hw_rx_descriptors : M ll unit :=
  modify_reg RX_CTRL (fset_bit RX_DESCR_RELOAD true) ;;
  n ← gets (fun s => reload_latency (regs s));
  poll_reload (S n) n.

Definition set_base_rx_descriptor (base : Z) : M ll unit :=
  write RX_DESCR_BASE (u32 base) ;; reload_hw_rx_descriptors.

Definition clear_base_rx_descriptor : M ll unit :=
  reset_reg RX_DESCR_BASE ;; reload_hw_rx_descriptors.

Definition start_rx (base : Z) : M ll unit :=
  set_base_rx_descriptor base ;; set_rx_enable true.

Definition stop_rx : M ll unit :=
  set_rx_enable false ;; clear_base_rx_descriptor.

(** Pointers are 32-bit addresses, [None] is null. *)
Definition rx_descriptor_pointer (c : Chip) (raw : Z) : M ll (option Z) :=
  match c with
  | Esp32s3 => mret (descriptor_address raw 0x3fc00000)
  | Esp32c3 => high ← read C3_RX_ADDRESS_HIGH; mret (descriptor_address raw high)
  | _ => mret (if raw =? 0 then None else Some raw)
  end.

Definition base_rx_descriptor (c : Chip) : M ll (option Z) :=
  raw ← read RX_DESCR_BASE; rx_descriptor_pointer c raw.
Definition next_rx_descriptor (c : Chip) : M ll (option Z) :=
  raw ← read RX_DESCR_NEXT; rx_descriptor_pointer c raw.
Definition last_rx_descriptor (c : Chip) : M ll (option Z) :=
  raw ← read RX_DESCR_LAST; rx_descriptor_pointer c raw.

(** ** RX filtering *)

Definition set_filter_enable (interface : nat) (bank : RxFilterBank) (enabled : bool) : M ll unit :=
  check_index interface INTERFACE_COUNT ;;
  modify_reg (FILTER_MASK_HIGH (bank_bits bank) interface) (fset_bit FILTER_ENABLED enabled).

Definition filter_enabled (interface : nat) (bank : RxFilterBank) : M ll bool :=
  check_index interface INTERFACE_COUNT ;;
  v ← read (FILTER_MASK_HIGH (bank_bits bank) interface); mret (fbit FILTER_ENABLED v).

Definition set_filter_address (interface : nat) (bank : RxFilterBank) (address : list Z) : M ll unit :=
  let '(address_low, address_high) := split_address address in
  check_index interface INTERFACE_COUNT ;;
  write (FILTER_ADDR_LOW (bank_bits bank) interface) address_low ;;
  write (FILTER_ADDR_HIGH (bank_bits bank) interface)
    (fset FILTER_ADDR address_high (reset_value (FILTER_ADDR_HIGH (bank_bits bank) interface))).

Definition set_filter_mask (interface : nat) (bank : RxFilterBank) (mask : list Z) : M ll unit :=
  let '(mask_low, mask_high) := split_address mask in
  check_index interface INTERFACE_COUNT ;;
  write (FILTER_MASK_LOW (bank_bits bank) interface) mask_low ;;
  modify_reg (FILTER_MASK_HIGH (bank_bits bank) interface) (fset FILTER_MASK mask_high).

Definition clear_filter (interface : nat) (bank : RxFilterBank) : M ll unit :=
  check_index interface INTERFACE_COUNT ;;
  reset_reg (FILTER_ADDR_LOW (bank_bits bank) interface) ;;
  reset_reg (FILTER_ADDR_HIGH (bank_bits bank) interface) ;;
  reset_reg (FILTER_MASK_LOW (bank_bits bank) interface) ;;
  reset_reg (FILTER_MASK_HIGH (bank_bits bank) interface).

Definition set_filtered_address_types (interface : nat) (unicast multicast : bool) : M ll unit :=
  check_index interface INTERFACE_COUNT ;;
  modify_reg (FILTER_CONTROL interface)
    (fun w => fset_bit BLOCK_MULTICAST multicast (fset_bit BLOCK_UNICAST unicast w)).

Definition set_bssid_check_enable (interface : nat) (enabled : bool) : M ll unit :=
  check_index interface INTERFACE_COUNT ;;
  modify_reg (FILTER_CONTROL interface) (fset_bit BSSID_CHECK enabled).

Definition reset_interface_filters (interface : nat) : M ll unit :=
  clear_filter interface ReceiverAddress ;;
  clear_filter interface Bssid ;;
  set_bssid_check_enable interface true ;;
  set_filtered_address_types interface true true.

Definition set_control_frame_filter (interface : nat) (config : ControlFrameFilterConfig) : M ll unit :=
  check_index interface INTERFACE_COUNT ;;
  modify_reg (RX_CTRL_FILTER interface) (fun w =>
    fset_bit CF_END_CF_ACK (cf_end_cf_ack config)
      (fset_bit CF_END (cf_end config)
      (fset_bit ACK (ack config)
      (fset_bit CTS (cts config)
      (fset_bit RTS (rts config)
      (fset_bit PS_POLL (ps_poll config)
      (fset_bit BLOCK_ACK (block_ack config)
      (fset_bit BLOCK_ACK_REQUEST (block_ack_request config)
      (fset_bit CONTROL_WRAPPER (control_wrapper config) w))))))))).

Definition set_scanning_mode_parameters (interface : nat) (beacons other_frames : bool) : M ll unit :=
  check_index interface INTERFACE_COUNT ;;
  modify_reg (FILTER_CONTROL interface)
    (fun w => fset_bit DATA_AND_MGMT_MODE other_frames (fset_bit SCAN_MODE beacons w)).

Definition setup_filtering : M ll unit :=
  for_each (seq 0 4) (fun interface =>
    set_filtered_address_types interface true true ;;
    set_control_frame_filter interface control_filter_none ;;
    set_bssid_check_enable interface true).

(** ** TX *)

(** [unsafe fn raw_tx_status]: the [as u8] cut. *)
Definition raw_tx_status (tx_result : result unit ChannelAccessError) : M ll Z :=
  match tx_result with
  | Ok _ => v ← read TX_COMPLETE_STATUS; mret (u8 v)
  | Err Timeout => v ← read TX_ERROR_STATUS; mret (u8 (Z.shiftr v 0x10))
  | Err Collision => v ← read TX_ERROR_STATUS; mret (u8 v)
  end.

Definition clear_tx_slot_bit (tx_result : result unit ChannelAccessError) (slot : nat) : M ll unit :=
  match tx_result with
  | Ok _ => modify_reg TX_COMPLETE_CLEAR (fset_bit (SLOT_DONE slot) true)
  | Err Timeout => modify_reg TX_ERROR_CLEAR (fset_bit (SLOT_TIMEOUT slot) true)
  | Err Collision => modify_reg TX_ERROR_CLEAR (fset_bit (SLOT_COLLISION slot) true)
  end.

Definition set_tx_queue_status (queue : HardwareTxQueue) (status : HardwareTxQueueStatus) : M ll unit :=
  modify_reg (TX_SLOT_PLCP0 (hardware_slot queue))
    (fun w => fset_bit SLOT_ENABLED (status_enabled status) (fset_bit SLOT_VALID (status_valid status) w)).

Definition start_tx_queue (queue : HardwareTxQueue) : M ll unit := set_tx_queue_status queue ReadyForTx.

Definition tx_done (queue : HardwareTxQueue) : M ll unit :=
  set_tx_queue_status queue Disabled ;; reset_reg (TX_SLOT_PLCP0 (hardware_slot queue)).

(** The classification of the PMD register. *)
Definition mac_protocol_result (pmd : Z) : result unit MacProtocolError :=
  let error := u8 (Z.land (Z.shiftr pmd 0xc) 0xf) in
  let sub_error := u8 (Z.land pmd 0xff) in
  match error with
  | 0 => Ok tt
  | 1 =>
      if (sub_error =? 1) || (2 <? sub_error) then Err (RtsChannelAccessError Timeout)
      else Err (Unknown error sub_error)
  | 2 => Err CtsTimeout
  | 4 =>
      if sub_error =? 0xc0 then Err InvalidKeyId
      else if sub_error =? 0 then Err CtsTimeout
      else if (sub_error <? 6) && negb (sub_error =? 1) then Err AckTimeout
      else Err (Unknown error sub_error)
  | 5 => Err AckTimeout
  | _ => Err (Unknown error sub_error)
  end.

Definition get_tx_mac_protocol_result (queue : HardwareTxQueue) : M ll (result unit MacProtocolError) :=
  pmd ← read (PMD (hardware_slot queue)); mret (mac_protocol_result pmd).

Definition set_channel_access_parameters (queue : HardwareTxQueue) (timeout backoff_slots aifsn : Z) : M ll unit :=
  modify_reg (TX_SLOT_CONFIG (hardware_slot queue)) (fun w =>
    fset CONFIG_AIFSN aifsn (fset CONFIG_BACKOFF_TIME backoff_slots (fset CONFIG_TIMEOUT timeout w))).

Definition set_plcp0 (queue : HardwareTxQueue) (dma_list_item : Z) (wait_for_ack enable_rts : bool) : M ll unit :=
  modify_reg (TX_SLOT_PLCP0 (hardware_slot queue)) (fun w =>
    fset_bit WAIT_FOR_ACK wait_for_ack (fset DMA_ADDR (u32 dma_list_item) w)) ;;
  if enable_rts
  then modify_reg (TX_SLOT_PLCP0 (hardware_slot queue)) (fun w => Z.lor w 0x08000000)
  else mret tt.

(** The rate code [set_plcp1] programs on C3 and S3. *)
Definition plcp1_hardware_rate (rate : TxPhyRate) : option Z :=
  match rate with
  | Ht ht => ht_rate (mcs_index ht) (short_gi ht)
  | _ => Some (as_hardware_rate rate)
  end.

Definition plcp1_word (rate : TxPhyRate) (hardware_rate frame_length : Z) (key_slot : option Z) : Z :=
  Z.lor (Z.lor (Z.lor
    (Z.land (u32 frame_length) 0xfff)
    (u32 (Z.shiftl (Z.land hardware_rate 0x1f) 12)))
    (u32 (Z.shiftl (default 0 key_slot) 17)))
    (u32 (Z.shiftl (bool_to_Z (match rate with Ht _ => true | _ => false end)) 25)).

Definition response_rate (rate : TxPhyRate) : Z :=
  match rate with
  | HrDsss _ => as_hardware_rate rate
  | Ofdm _ => 0xb
  | Ht ht => if mcs_index ht mod 8 <=? 2 then 0xb else 0x9
  end.

Definition set_plcp1 (c : Chip) (queue : HardwareTxQueue) (rate : TxPhyRate) (frame_length : Z)
    (interface : nat) (key_slot : option Z) : M ll unit :=
  if c3_or_s3 c then
    match plcp1_hardware_rate rate with
    | None => panic
    | Some hardware_rate =>
        write (PLCP1 (hardware_slot queue)) (plcp1_word rate hardware_rate frame_length key_slot) ;;
        r ← read (PLCP2 (hardware_slot queue));
        match tx_misc r (u8 (response_rate rate)) interface with
        | None => panic
        | Some w => write (PLCP2 (hardware_slot queue)) w
        end
    end
  else
    write (PLCP1 (hardware_slot queue))
      (fset_bit PLCP1_BANDWIDTH true
      (fset PLCP1_KEY_SLOT_ID (default 0 key_slot)
      (fset PLCP1_INTERFACE_ID (Z.of_nat interface)
      (fset_bit PLCP1_IS_80211_N (match rate with Ht _ => true | _ => false end)
      (fset PLCP1_RATE (as_hardware_rate rate)
      (fset PLCP1_LEN frame_length (reset_value (PLCP1 (hardware_slot queue))))))))).

Definition set_plcp2 (c : Chip) (queue : HardwareTxQueue) : M ll unit :=
  if c3_or_s3 c then mret tt
  else write (PLCP2 (hardware_slot queue))
         (fset_bit PLCP2_UNKNOWN true (reset_value (PLCP2 (hardware_slot queue)))).

Definition set_duration (queue : HardwareTxQueue) (duration : Z) : M ll unit :=
  write (DURATION (hardware_slot queue)) (Z.lor duration (u32 (Z.shiftl duration 16))).

Definition set_ht_parameters (c : Chip) (queue : HardwareTxQueue) (mcs : Z) (is_short_gi : bool)
    (frame_length : Z) : M ll unit :=
  if c3_or_s3 c then
    match ht_sig mcs is_short_gi frame_length with
    | None => panic
    | Some sig =>
        write (HT_SIG (hardware_slot queue)) sig ;;
        write (HT_UNKNOWN (hardware_slot queue))
          (Z.lor (Z.lor (Z.land (u32 frame_length) 0x7ffff) 0x400000) (u32 (Z.shiftl (Z.land mcs 7) 28))) ;;
        modify_reg (PLCP2 (hardware_slot queue)) (fun r => Z.lor (Z.land r 0xff3fffff) 0x400000)
    end
  else
    write (HT_SIG (hardware_slot queue))
      (Z.lor (Z.lor (Z.lor (Z.land mcs 7) (u32 (Z.shiftl (Z.land (u32 frame_length) 0xffff) 8)))
        (Z.shiftl 7 24)) (u32 (Z.shiftl (bool_to_Z is_short_gi) 31))) ;;
    write (HT_UNKNOWN (hardware_slot queue)) (Z.lor (u32 frame_length) 0x50000).

(** ** Crypto *)

Definition setup_crypto : M ll unit :=
  for_each (seq 0 INTERFACE_COUNT) (fun interface => write (INTERFACE_CRYPTO_CONTROL interface) 0x00030000) ;;
  reset_reg GENERAL_CRYPTO_CONTROL.

Definition set_key_slot_enable (key_slot : nat) (enabled : bool) : M ll unit :=
  check_index key_slot KEY_SLOT_COUNT ;;
  modify_reg CRYPTO_KEY_SLOT_STATE (fset_bit (KEY_SLOT_ENABLE key_slot) enabled).

Definition key_slot_enabled (key_slot : nat) : M ll bool :=
  check_index key_slot KEY_SLOT_COUNT ;;
  v ← read CRYPTO_KEY_SLOT_STATE; mret (fbit (KEY_SLOT_ENABLE key_slot) v).

(** The key as register words: [as_chunks::<4>()], then the remaining bytes
    padded with zeros. *)
Fixpoint key_words (n : nat) (key : list Z) : list Z :=
  match n with
  | O => []
  | S n' => match key with
            | [] => []
            | _ => le_word (take 4 (take 4 key ++ replicate 3 0)) :: key_words n' (drop 4 key)
            end
  end.

Fixpoint write_key_words (key_slot word : nat) (words : list Z) : M ll unit :=
  match words with
  | [] => mret tt
  | w :: words' =>
      check_index word 8 ;;
      write (KEY_VALUE key_slot word) w ;; write_key_words key_slot (S word) words'
  end.

Definition set_key (key_slot : nat) (key : list Z) : M ll unit :=
  if (32 <? length key)%nat then panic else
  check_index key_slot KEY_SLOT_COUNT ;;
  write_key_words key_slot 0 (key_words 9 key).

Definition set_key_slot_parameters (key_slot : nat) (p : KeySlotParameters) : M ll unit :=
  check_index key_slot KEY_SLOT_COUNT ;;
  let '(address_low, address_high) := split_address (ks_address p) in
  write (KEY_ADDR_LOW key_slot) address_low ;;
  modify_reg (KEY_ADDR_HIGH key_slot) (fun w =>
    fset KEY_ADDR address_high
      (fset_bit KEY_UNKNOWN true
      (fset KEY_INTERFACE_ID (ks_interface p)
      (fset ALGORITHM (ks_algorithm p)
      (fset_bit WEP_104 (ks_wep_104 p)
      (fset_bit GROUP_KEY (ks_group p)
      (fset_bit PAIRWISE_KEY (ks_pairwise p)
      (fset KEY_ID (ks_key_id p) w)))))))).

Definition clear_key_slot (key_slot : nat) : M ll unit :=
  check_index key_slot KEY_SLOT_COUNT ;;
  reset_reg (KEY_ADDR_LOW key_slot) ;;
  reset_reg (KEY_ADDR_HIGH key_slot) ;;
  for_each (seq 0 8) (fun word => reset_reg (KEY_VALUE key_slot word)).

Definition set_interface_crypto_parameters (interface : nat)
    (protect_management_frames protect_signaling_and_payload is_cipher_aead : bool) : M ll unit :=
  check_index interface INTERFACE_COUNT ;;
  modify_reg (INTERFACE_CRYPTO_CONTROL interface) (fun r =>
    fset_bit SMS4 false
      (fset_bit AEAD_CIPHER is_cipher_aead
      (fset_bit PMF_DISABLE (negb protect_management_frames)
      (fset_bit SPP_ENABLE protect_signaling_and_payload (Z.lor r 0x10103))))).

Definition set_sms4_status (enabled : bool) : M ll unit :=
  modify_reg GENERAL_CRYPTO_CONTROL (fun r =>
    if enabled then Z.lor r 0x00ffff00 else Z.land r 0xff0000ff).

(** ** Setup, channel and power control *)

Definition setup_mac (c : Chip) : M ll unit :=
  (if has_meta c OSI_FUNCS_IN_ROM then install_osi_funcs else mret tt) ;;
  (if c3_or_s3 c then chip_mac_init c else hal_init) ;;
  setup_filtering ;;
  setup_crypto.

Definition modem_clock_mask (c : Chip) : Z :=
  match c with Esp32 => 0x00000406 | Esp32s2 => 0x000007cf | Esp32s3 | Esp32c3 => 0x00fb9fcf end.

Definition init (c : Chip) : M ll unit :=
  set_module_status true ;;
  modify_reg SYSCON_WIFI_CLK_EN (fun r => Z.lor r (modem_clock_mask c)) ;;
  enable_phy ;;
  reset_mac ;;
  set_mac_state c true ;;
  setup_mac c.

(** [ffi::disable_wifi_agc], [ffi::enable_wifi_agc] and
    [ffi::tx_pwctrl_background]: Rust on the C3 and the S3 *)
Definition disable_wifi_agc (c : Chip) : M ll unit :=
  if c3_or_s3 c then chip_disable_wifi_agc (bool_decide (c = Esp32s3)) else vendor_disable_wifi_agc.
Definition enable_wifi_agc (c : Chip) : M ll unit :=
  if c3_or_s3 c then chip_enable_wifi_agc (bool_decide (c = Esp32s3)) else vendor_enable_wifi_agc.
Definition tx_pwctrl_background (c : Chip) (enabled mode : Z) : M ll unit :=
  if c3_or_s3 c then chip_tx_pwctrl_background phy_access (bool_decide (c = Esp32s3)) enabled mode
  else modify (fun d => mkLl (vendor_tx_pwctrl_background enabled mode (regs d)) (inputs d) (log d)).

(** The channel routine of the build *)
Definition set_chan (c : Chip) (channel_number : Z) : M ll unit :=
  if has_meta c NOMAC_CHANNEL_SET then chip_v7_set_chan_nomac channel_number 0 else chip_v7_set_chan channel_number 0.

Definition set_channel (c : Chip) (channel_number : Z) : M ll unit :=
  set_mac_state c false ;;
  set_chan c channel_number ;;
  disable_wifi_agc c ;;
  set_mac_state c true ;;
  enable_wifi_agc c.

Definition run_power_control (c : Chip) : M ll unit := tx_pwctrl_background c 1 0.

(** ** TSF, TSF timers and TBTT *)

Definition tsf_time (interface : nat) : M ll Z :=
  let bit := u8 (Z.shiftl 1 (Z.of_nat interface)) in
  modify_reg TSF_CTRL (fun r => fset TSF_LATCH (Z.lor (fget TSF_LATCH r) bit) r) ;;
  low ← read TSF_TIME_LOW;
  high ← read TSF_TIME_HIGH;
  modify_reg TSF_CTRL (fun r => fset TSF_LATCH (Z.land (fget TSF_LATCH r) (u8 (Z.lnot bit))) r) ;;
  mret (Z.lor (u64 (Z.shiftl high 32)) low).

Definition set_tsf_time (interface : nat) (time : Z) : M ll unit :=
  write TSF_LOAD_LOW (u32 time) ;;
  write TSF_LOAD_HIGH (u32 (Z.shiftr time 32)) ;;
  modify_reg TSF_CTRL (fun r => fset TSF_LOAD (Z.lor (fget TSF_LOAD r) (Z.shiftl 1 (Z.of_nat interface))) r).

Definition tsf_enabled (interface : nat) : M ll bool :=
  check_index interface INTERFACE_COUNT ;;
  v ← read (TSF_CFG interface); mret (fbit TSF_ENABLE v).

Definition set_tsf_enabled (interface : nat) (enabled : bool) : M ll unit :=
  check_index interface INTERFACE_COUNT ;;
  modify_reg (TSF_CFG interface) (fun w =>
    fset TSF_ENABLE_AUX (if enabled then 3 else 0) (fset_bit TSF_ENABLE enabled w)).

Definition set_tsf_timer_target (timer : nat) (target : Z) : M ll unit :=
  check_index timer TSF_TIMER_COUNT ;; write (TSF_TIMER_TARGET timer) target.

Definition tsf_timer_target (timer : nat) : M ll Z :=
  check_index timer TSF_TIMER_COUNT ;; read (TSF_TIMER_TARGET timer).

Definition set_tsf_timer_enabled (timer : nat) (enabled : bool) : M ll unit :=
  let bit := Z.shiftr 0x100 (Z.of_nat timer) in
  if enabled then
    write PWR_INT_CLEAR bit ;;
    modify_reg PWR_INT_ENABLE (fun r => Z.lor r bit) ;;
    check_index timer TSF_TIMER_COUNT ;;
    modify_reg (TSF_TIMER_CFG timer) (fset_bit TSF_TIMER_ENABLE true)
  else
    check_index timer TSF_TIMER_COUNT ;;
    modify_reg (TSF_TIMER_CFG timer) (fset_bit TSF_TIMER_ENABLE false) ;;
    modify_reg PWR_INT_ENABLE (fun r => Z.land r (u32 (Z.lnot bit))).

Definition set_tbtt (interface : nat) (interval early_time : Z) : M ll unit :=
  check_index interface INTERFACE_COUNT ;;
  write (TBTT_CFG interface)
    (fset TBTT_EARLY_TIME early_time (fset TBTT_INTERVAL interval (reset_value (TBTT_CFG interface)))).

Definition set_tbtt_start_time (interface : nat) (start_time : Z) : M ll unit :=
  write TBTT_START (fset TBTT_START_TIME (Z.land start_time 0x3ffffff) (reset_value TBTT_START)) ;;
  modify_reg TSF_CTRL (fun r =>
    fset TSF_LOAD_TBTT_START (Z.lor (fget TSF_LOAD_TBTT_START r) (Z.shiftl 1 (Z.of_nat interface))) r).

Definition set_tbtt_enabled (interface : nat) (enabled : bool) : M ll unit :=
  let bit := Z.shiftr 0x10 (Z.of_nat interface) in
  if enabled then
    write PWR_INT_CLEAR bit ;;
    modify_reg PWR_INT_ENABLE (fun r => Z.lor r bit) ;;
    check_index interface INTERFACE_COUNT ;;
    modify_reg (TSF_CFG interface) (fset_bit TBTT_ENABLE true)
  else
    check_index interface INTERFACE_COUNT ;;
    modify_reg (TSF_CFG interface) (fset_bit TBTT_ENABLE false) ;;
    modify_reg PWR_INT_ENABLE (fun r => Z.land r (u32 (Z.lnot bit))).

End LowLevel.
End LowLevel.

(** Vendor code without effect on the modelled registers, and an engine that
    reloads after two reads: the instances the model is evaluated with. *)
Definition ffi_ref : Ffi := {|
  hal_init := mret tt; chip_mac_init _ := mret tt; install_osi_funcs := mret tt;
  enable_phy := mret tt; chip_v7_set_chan _ _ := mret tt; chip_v7_set_chan_nomac _ _ := mret tt;
  vendor_disable_wifi_agc := mret tt; vendor_enable_wifi_agc := mret tt; vendor_tx_pwctrl_background _ _ f := f;
  phy_access _ f := (0, f) |}.

Program Definition rx_engine_ref : RxEngine :=
  {| reload_latency _ := 2%nat; on_reload f := upd RX_DESCR_NEXT (f RX_DESCR_BASE) f |}.
Next Obligation. intros. cbn. by rewrite upd_ne. Qed.
Next Obligation. intros. cbn. by rewrite upd_eq. Qed.
