(* ===== verification/DmaList.v ===== *)
(** * The receive DMA list ([dma_list.rs])

    The descriptors live in a shared heap that the driver and the RX DMA
    engine both access.  [env] is the schedule of the engine: before every
    access of the driver to shared memory or to the registers ([tick]) the
    engine performs the next batch of frame completions of the schedule.
    Theorems quantify over the schedule, hence over every interleaving of the
    driver with the engine; a register operation of the low level driver is
    one access. *)

From S2P Require Import Prelude External Queue RxFrame Registers LowLevel.

(** ** Descriptors *)

Inductive Owner := Cpu | Dma.

Record DmaDescriptor := mkDesc { d_flags : Z; d_buffer : Z; d_next : Z }.

Module DmaDescriptor.

Definition suc_eof (d : DmaDescriptor) : bool := negb (Z.land (d_flags d) (Z.shiftl 1 30) =? 0).

Definition set_flags (f : Z) (d : DmaDescriptor) : DmaDescriptor := mkDesc f (d_buffer d) (d_next d).

Definition set_size (size : Z) (d : DmaDescriptor) : DmaDescriptor :=
  set_flags (Z.lor (Z.land (d_flags d) (u32 (Z.lnot 0xfff))) (u32 size)) d.

Definition set_length (len : Z) (d : DmaDescriptor) : DmaDescriptor :=
  set_flags (Z.lor (Z.land (d_flags d) (u32 (Z.lnot 0xfff000))) (u32 (Z.shiftl (u32 len) 12))) d.

Definition len (d : DmaDescriptor) : Z := Z.land (Z.shiftr (d_flags d) 12) 0xfff.

Definition owner_bit (o : Owner) : Z := match o with Dma => 1 | Cpu => 0 end.

Definition set_owner (o : Owner) (d : DmaDescriptor) : DmaDescriptor :=
  set_flags (Z.lor (Z.land (d_flags d) (u32 (Z.lnot (Z.shiftl 1 31)))) (u32 (Z.shiftl (owner_bit o) 31))) d.

Definition clear_suc_eof (d : DmaDescriptor) : DmaDescriptor :=
  set_flags (Z.land (d_flags d) (u32 (Z.lnot (Z.shiftl 1 30)))) d.

Definition reset_for_rx (d : DmaDescriptor) : DmaDescriptor :=
  set_length 0 (clear_suc_eof (set_owner Dma d)).

(** [DmaDescriptorExt::next]: a null pointer is no descriptor. *)
Definition next (d : DmaDescriptor) : option Z := if d_next d =? 0 then None else Some (d_next d).

Definition set_next (n : option Z) (d : DmaDescriptor) : DmaDescriptor :=
  mkDesc (d_flags d) (d_buffer d) (default 0 n).

(** The engine stores a frame of [n] bytes: it marks the descriptor complete,
    writes the length and hands it to the CPU. *)
Definition complete (n : Z) (d : DmaDescriptor) : DmaDescriptor :=
  set_owner Cpu (set_flags (Z.lor (d_flags (set_length (Z.land n 0xfff) d)) (Z.shiftl 1 30)) d).

End DmaDescriptor.

(** ** The slab *)

Abbreviation heap := (gmap Z DmaDescriptor).

(** [DmaBufferSlab]: [BUFFER_COUNT] buffers of [BUFFER_SIZE] bytes at
    [slab_buffers] and as many descriptors at [slab_descriptors]. *)
Record DmaBufferSlab := mkSlab {
  slab_count : nat;
  slab_size : Z;
  slab_buffers : Z;
  slab_descriptors : Z
}.

Module Slab.

(** [_CONST_GUARD] *)
Definition const_guard (b : DmaBufferSlab) : bool :=
  (2 <=? slab_count b)%nat && (1600 <=? slab_size b).

(** A [DmaDescriptor] occupies three words. *)
Definition descriptor_ptr (b : DmaBufferSlab) (i : nat) : Z := slab_descriptors b + 12 * Z.of_nat i.
Definition buffer_ptr (b : DmaBufferSlab) (i : nat) : Z := slab_buffers b + slab_size b * Z.of_nat i.

Definition init_descriptor (b : DmaBufferSlab) (next : Z) (i : nat) : DmaDescriptor :=
  DmaDescriptor.set_owner Dma
    (DmaDescriptor.set_size (slab_size b)
      (DmaDescriptor.reset_for_rx (mkDesc 0 (buffer_ptr b i) next))).

(** The [scan] over the descriptors in reverse; it yields the descriptors'
    pointers and the written memory. *)
Fixpoint init_iter (b : DmaBufferSlab) (next : Z) (h : heap) (indices : list nat) : list Z * heap :=
  match indices with
  | [] => ([], h)
  | i :: rest =>
      let p := descriptor_ptr b i in
      let '(ps, h') := init_iter b p (<[p := init_descriptor b next i]> h) rest in
      (p :: ps, h')
  end.

(** [DmaBufferSlab::init]: the first and the last pointer the reversed
    iterator yields, and the memory it wrote. *)
Definition init (b : DmaBufferSlab) : option ((Z * Z) * heap) :=
  let '(ps, h) := init_iter b 0 ∅ (rev (seq 0 (slab_count b))) in
  match ps with
  | [] => None
  | last_ptr :: rest =>
      match last rest with
      | None => None
      | Some base_ptr => Some ((base_ptr, last_ptr), h)
      end
  end.

End Slab.

(** ** The state shared with the DMA engine *)

(** One completion of the engine: the length of the frame, whether the engine
    uses a null link it had cached before a descriptor was appended, and the
    status bits it shows above the 20 address bits of [RX_DESCR_NEXT]. *)
Record hw_event := mkEvent { ev_len : Z; ev_cached_null : bool; ev_status : Z }.

(** A write of the engine: the descriptor, the length stored in it, and
    whether the write was harmful (no descriptor there, or one that already
    held a frame). *)
Record hw_write := mkWrite { w_ptr : Z; w_len : Z; w_harmful : bool }.

Record dma := mkDma {
  mem : heap;
  rx_chain_ptrs : option (Z * Z);
  driver : ll;
  env : list (list hw_event);
  writes : list hw_write
}.

Definition set_mem (h : heap) (s : dma) : dma := mkDma h (rx_chain_ptrs s) (driver s) (env s) (writes s).
Definition set_chain (c : option (Z * Z)) (s : dma) : dma := mkDma (mem s) c (driver s) (env s) (writes s).
Definition set_driver (d : ll) (s : dma) : dma := mkDma (mem s) (rx_chain_ptrs s) d (env s) (writes s).
Definition set_env (e : list (list hw_event)) (s : dma) : dma :=
  mkDma (mem s) (rx_chain_ptrs s) (driver s) e (writes s).
Definition set_writes (w : list hw_write) (s : dma) : dma :=
  mkDma (mem s) (rx_chain_ptrs s) (driver s) (env s) w.

Inductive DmaListEmptyError := DmaListEmpty.

Module DmaList.
Section DmaList.
Context `{MacroBits} `{Pac} `{Ffi} `{RxEngine}.
Variable chip : Chip.

(** The descriptor a register value names. *)
Definition pointer_of (f : Reg -> Z) (raw : Z) : option Z :=
  match chip with
  | Esp32s3 => descriptor_address raw 0x3fc00000
  | Esp32c3 => descriptor_address raw (f C3_RX_ADDRESS_HIGH)
  | _ => if raw =? 0 then None else Some raw
  end.

Definition hw_next (f : Reg -> Z) : option Z := pointer_of f (f RX_DESCR_NEXT).

(** The engine, if enabled and not exhausted, fills the descriptor
    [RX_DESCR_NEXT] names and advances. *)
Definition hw_step (s : dma) (e : hw_event) : dma :=
  let f := regs (driver s) in
  if negb (fbit RX_ENABLE (f RX_CTRL)) then s else
  match hw_next f with
  | None => s
  | Some p =>
      match mem s !! p with
      | None => set_writes (writes s ++ [mkWrite p (Z.land (ev_len e) 0xfff) true]) s
      | Some d =>
          let link := if ev_cached_null e then 0 else Z.land (d_next d) 0xfffff in
          let next := Z.lor (Z.shiftl (ev_status e) 20) link in
          mkDma (<[p := DmaDescriptor.complete (ev_len e) d]> (mem s)) (rx_chain_ptrs s)
            (mkLl (upd RX_DESCR_NEXT next f) (inputs (driver s)) (Registers.log (driver s)))
            (env s)
            (writes s ++ [mkWrite p (Z.land (ev_len e) 0xfff) (DmaDescriptor.suc_eof d)])
      end
  end.

Definition tick : M dma unit :=
  modify (fun s => match env s with
                   | [] => s
                   | batch :: e => set_env e (foldl hw_step s batch)
                   end).

(** Access to a descriptor through a pointer; a dangling pointer has no
    defined behaviour. *)
Definition deref (p : Z) : M dma DmaDescriptor :=
  fun s => match mem s !! p with Some d => Some (d, s) | None => None end.

Definition assign (p : Z) (f : DmaDescriptor -> DmaDescriptor) : M dma unit :=
  fun s => match mem s !! p with
           | Some d => Some (tt, set_mem (<[p := f d]> (mem s)) s)
           | None => None
           end.

Definition load (p : Z) : M dma DmaDescriptor := tick ;; deref p.
Definition store (p : Z) (f : DmaDescriptor -> DmaDescriptor) : M dma unit := tick ;; assign p f.

Definition ll_call {A} (m : M ll A) : M dma A := tick ;; zoom driver set_driver m.

(** ** Operations *)

Definition new (base_ptr last_ptr : Z) : M dma unit :=
  ll_call (LowLevel.start_rx base_ptr) ;; modify (set_chain (Some (base_ptr, last_ptr))).

Definition set_rx_chain_base (base_descriptor : option Z) : M dma unit :=
  match base_descriptor with
  | Some base =>
      modify (fun s => match rx_chain_ptrs s with
                       | Some (_, last) => set_chain (Some (base, last)) s
                       | None => set_chain (Some (base, base)) s
                       end) ;;
      ll_call (LowLevel.set_base_rx_descriptor base)
  | None =>
      modify (set_chain None) ;;
      ll_call LowLevel.clear_base_rx_descriptor
  end.

(** The [while let] loop of [restart_exhausted_rx]; [fuel] bounds the length
    of the chain. *)
Fixpoint restart_loop (fuel : nat) (current : option Z) : M dma unit :=
  match fuel with
  | O => panic
  | S fuel' =>
      match current with
      | None => mret tt
      | Some ptr =>
          descriptor ← load ptr;
          if negb (DmaDescriptor.suc_eof descriptor)
          then ll_call (LowLevel.set_base_rx_descriptor ptr)
          else restart_loop fuel' (DmaDescriptor.next descriptor)
      end
  end.

Definition fuel_of (s : dma) : nat := S (size (mem s)).

Definition restart_exhausted_rx : M dma unit :=
  next ← ll_call (LowLevel.next_rx_descriptor chip);
  match next with
  | Some _ => mret tt
  | None =>
      current ← gets (fun s => fst <$> rx_chain_ptrs s);
      fuel ← gets fuel_of;
      restart_loop fuel current
  end.

Definition take_first : M dma (option Z) :=
  chain ← gets rx_chain_ptrs;
  match chain with
  | None => mret None
  | Some (first, _) =>
      flags ← load first;
      if DmaDescriptor.suc_eof flags then
        d ← load first;
        (if c3_or_s3 chip then
           match DmaDescriptor.next d with
           | Some next =>
               modify (fun s => set_chain ((fun c => (next, snd c)) <$> rx_chain_ptrs s) s) ;;
               restart_exhausted_rx
           | None => set_rx_chain_base None
           end
         else set_rx_chain_base (DmaDescriptor.next d)) ;;
        store first (DmaDescriptor.set_owner Cpu) ;;
        store first (DmaDescriptor.set_next None) ;;
        mret (Some first)
      else
        (if c3_or_s3 chip then restart_exhausted_rx else mret tt) ;;
        mret None
  end.

(** The loop of [clear]. *)
Fixpoint clear_loop (fuel : nat) (current : Z) : M dma unit :=
  match fuel with
  | O => panic
  | S fuel' =>
      d ← load current;
      if DmaDescriptor.suc_eof d then
        store current DmaDescriptor.reset_for_rx ;;
        d' ← load current;
        match DmaDescriptor.next d' with
        | None => mret tt
        | Some next => clear_loop fuel' next
        end
      else mret tt
  end.

Definition clear : M dma unit :=
  chain ← gets rx_chain_ptrs;
  match chain with
  | None => mret tt
  | Some (head, _) =>
      fuel ← gets fuel_of;
      clear_loop fuel head ;;
      chain' ← gets rx_chain_ptrs;
      set_rx_chain_base (fst <$> chain')
  end.

Definition recycle (p : Z) : M dma unit :=
  store p (DmaDescriptor.set_next None) ;;
  store p DmaDescriptor.reset_for_rx ;;
  chain ← gets rx_chain_ptrs;
  if c3_or_s3 chip then
    match chain with
    | Some (head, last) =>
        store last (DmaDescriptor.set_next (Some p)) ;;
        modify (set_chain (Some (head, p))) ;;
        restart_exhausted_rx
    | None => set_rx_chain_base (Some p)
    end
  else
    match chain with
    | Some (head, last) =>
        store last (DmaDescriptor.set_next (Some p)) ;;
        ll_call LowLevel.reload_hw_rx_descriptors ;;
        next ← ll_call (LowLevel.next_rx_descriptor chip);
        attached ← (if bool_decide (next <> Some 0x3ff00000) then mret true else
                      hardware_last ← ll_call (LowLevel.last_rx_descriptor chip);
                      mret (bool_decide (hardware_last = Some p)));
        if (attached : bool)
        then modify (set_chain (Some (head, p)))
        else set_rx_chain_base (Some p)
    | None => set_rx_chain_base (Some p)
    end.

Definition restart_rx : M dma (result unit DmaListEmptyError) :=
  chain ← gets rx_chain_ptrs;
  match chain with
  | Some (base_ptr, _) => ll_call (LowLevel.start_rx base_ptr) ;; mret (Ok tt)
  | None => mret (Err DmaListEmpty)
  end.

Definition stop_rx : M dma unit := ll_call LowLevel.stop_rx.

(** [snapshot]; [word_at] reads the word of a buffer that holds SIG_LEN. *)
Definition snapshot (word_at : Z -> Z) : M dma (list Z) :=
  chain ← gets rx_chain_ptrs;
  soft ← match chain with
         | None => mret [0; 0; 0; 0; 0; 0; 0]
         | Some (head, tail) =>
             d ← load head;
             let n := DmaDescriptor.len d in
             mret [head; tail; d_buffer d; d_flags d; d_next d; n;
                   if DmaDescriptor.suc_eof d && (48 <=? n) && (n <=? 1600) && negb (d_buffer d =? 0)
                   then Z.land (word_at (d_buffer d + 44)) 0xfff else 0]
         end;
  base ← ll_call (LowLevel.base_rx_descriptor chip);
  next ← ll_call (LowLevel.next_rx_descriptor chip);
  last ← ll_call (LowLevel.last_rx_descriptor chip);
  mret (take 5 soft ++ [default 0 base; default 0 next; default 0 last] ++ drop 5 soft).

End DmaList.
End DmaList.
