(* ===== verification/RxQueue.v ===== *)
(** * Correctness of the receive DMA list

    The C3/S3 receive queue under every interleaving with the DMA engine: an
    invariant of descriptors, chain and registers, the operations as Hoare
    triples over it, and the queue they implement. *)

From S2P Require Import Prelude External Queue RxFrame Registers LowLevel DmaList.

(** ** Descriptor words *)

Lemma suc_eof_testbit d : DmaDescriptor.suc_eof d = Z.testbit (d_flags d) 30.
Proof.
  unfold DmaDescriptor.suc_eof. rewrite Z.shiftl_1_l, land_pow2 by lia.
  by destruct (Z.testbit (d_flags d) 30).
Qed.

Lemma suc_eof_complete n d : DmaDescriptor.suc_eof (DmaDescriptor.complete n d) = true.
Proof. rewrite suc_eof_testbit. cbn -[Z.testbit Z.land Z.lor wrap Z.shiftl]. bit_solve. done. Qed.

Lemma suc_eof_reset d : DmaDescriptor.suc_eof (DmaDescriptor.reset_for_rx d) = false.
Proof. rewrite suc_eof_testbit. cbn -[Z.testbit Z.land Z.lor wrap Z.shiftl]. bit_solve. done. Qed.

Lemma suc_eof_set_owner o d : DmaDescriptor.suc_eof (DmaDescriptor.set_owner o d) = DmaDescriptor.suc_eof d.
Proof.
  rewrite !suc_eof_testbit. cbn -[Z.testbit Z.land Z.lor wrap Z.shiftl].
  destruct o; bit_solve; done.
Qed.

Lemma len_ext d d' :
  (forall i, 12 <= i < 24 -> Z.testbit (d_flags d) i = Z.testbit (d_flags d') i) ->
  DmaDescriptor.len d = DmaDescriptor.len d'.
Proof.
  intros E. unfold DmaDescriptor.len. change 0xfff with (Z.ones 12).
  apply Z.bits_inj'. intros i Hi. rewrite !Z.land_spec, !Z.shiftr_spec by lia.
  rewrite Z.testbit_ones_nonneg by lia. destruct (Z.ltb_spec i 12); [|btauto].
  rewrite E by lia. done.
Qed.

Lemma len_set_owner o d : DmaDescriptor.len (DmaDescriptor.set_owner o d) = DmaDescriptor.len d.
Proof.
  apply len_ext. intros i Hi. cbn -[Z.testbit Z.land Z.lor wrap Z.shiftl].
  bit_range i 12 12; destruct o; bit_solve; done.
Qed.

Lemma len_set_next n d : DmaDescriptor.len (DmaDescriptor.set_next n d) = DmaDescriptor.len d.
Proof. done. Qed.

Lemma len_complete n d : DmaDescriptor.len (DmaDescriptor.complete n d) = Z.land n 0xfff.
Proof.
  unfold DmaDescriptor.complete. rewrite len_set_owner. unfold DmaDescriptor.len.
  cbn -[Z.testbit Z.land Z.lor wrap Z.shiftl].
  apply Z.bits_inj'. intros i Hi. change 0xfff with (Z.ones 12) at 1 3.
  rewrite (Z.land_spec _ (Z.ones 12)), (Z.land_spec n).
  rewrite Z.testbit_ones_nonneg by lia. destruct (Z.ltb_spec i 12); [|btauto].
  rewrite !andb_true_r, Z.shiftr_spec by lia.
  bit_cases i 12; bit_solve; rewrite ?andb_true_r; done.
Qed.

Lemma len_reset d : DmaDescriptor.len (DmaDescriptor.reset_for_rx d) = 0.
Proof.
  unfold DmaDescriptor.len. cbn -[Z.testbit Z.land Z.lor wrap Z.shiftl].
  apply Z.bits_inj'. intros i Hi. change 0xfff with (Z.ones 12).
  rewrite Z.land_spec, Z.testbit_ones_nonneg, Z.bits_0 by lia.
  destruct (Z.ltb_spec i 12); [|btauto]. rewrite Z.shiftr_spec by lia.
  bit_cases i 12; bit_solve; done.
Qed.

(** ** The registers of the engine *)

Module RxQueue.
Section RxQueue.
Context `{MacroBits} `{Pac} `{Ffi} `{RxEngine}.
Variable chip : Chip.
Hypothesis chip_ok : c3_or_s3 chip = true.
Hypothesis rx_ctrl_fields : fields_ok [RX_ENABLE; RX_DESCR_RELOAD].
Hypothesis base_resets_null : Z.land (reset_value RX_DESCR_BASE) 0xfffff = 0.

Abbreviation hw_next := (DmaList.hw_next chip).

(** No reads of the receive registers are scripted: the engine of [DmaList]
    drives them. *)
Definition quiet (d : ll) : Prop :=
  inputs d RX_CTRL = [] /\ inputs d RX_DESCR_NEXT = [] /\ inputs d C3_RX_ADDRESS_HIGH = [].

Definition rx_on (d : ll) : bool := fbit RX_ENABLE (regs d RX_CTRL).

Lemma rx_enable_ok : field_ok RX_ENABLE.
Proof. apply rx_ctrl_fields. Qed.
Lemma rx_reload_ok : field_ok RX_DESCR_RELOAD.
Proof. apply rx_ctrl_fields. Qed.
Lemma rx_fields_disjoint : disjoint_fields RX_ENABLE RX_DESCR_RELOAD.
Proof. destruct rx_ctrl_fields as (_ & H' & _). by apply Forall_inv in H'. Qed.

Lemma pointer_of_ext f g raw : f C3_RX_ADDRESS_HIGH = g C3_RX_ADDRESS_HIGH ->
  DmaList.pointer_of chip f raw = DmaList.pointer_of chip g raw.
Proof. intros E. unfold DmaList.pointer_of. destruct chip; congruence. Qed.

(** Only the low 20 bits of a register value name a descriptor. *)
Lemma pointer_of_low f a b : Z.land a 0xfffff = Z.land b 0xfffff ->
  DmaList.pointer_of chip f a = DmaList.pointer_of chip f b.
Proof.
  intros E. unfold DmaList.pointer_of, descriptor_address. rewrite E.
  destruct chip; try done; discriminate chip_ok.
Qed.

Lemma pointer_of_null f a : Z.land a 0xfffff = 0 -> DmaList.pointer_of chip f a = None.
Proof.
  intros E. unfold DmaList.pointer_of, descriptor_address. rewrite E.
  destruct chip; try done; discriminate chip_ok.
Qed.

Lemma read_quiet r d : inputs d r = [] -> read r d = Some (regs d r, d).
Proof. intros E. unfold read. by rewrite E. Qed.

Lemma modify_reg_quiet r f d : inputs d r = [] ->
  modify_reg r f d = Some (tt, mkLl (upd r (f (regs d r)) (regs d)) (inputs d) (Registers.log d ++ [(r, f (regs d r))])).
Proof. intros E. unfold modify_reg. by rewrite M_bind_unfold, (read_quiet _ _ E). Qed.

Lemma next_rx_quiet d : quiet d -> LowLevel.next_rx_descriptor chip d = Some (hw_next (regs d), d).
Proof.
  intros (_ & Q & Q'). unfold LowLevel.next_rx_descriptor. rewrite M_bind_unfold, (read_quiet _ _ Q).
  unfold LowLevel.rx_descriptor_pointer, DmaList.hw_next, DmaList.pointer_of.
  destruct chip; try discriminate chip_ok; [done|]. by rewrite M_bind_unfold, (read_quiet _ _ Q').
Qed.

(** What a register operation guarantees about the engine. *)
Record engine (d d' : ll) (on : bool) (target : Z) : Prop := {
  eng_inputs : inputs d' = inputs d;
  eng_high : regs d' C3_RX_ADDRESS_HIGH = regs d C3_RX_ADDRESS_HIGH;
  eng_on : rx_on d' = on;
  eng_next : Z.land (regs d' RX_DESCR_NEXT) 0xfffff = Z.land target 0xfffff
}.

Lemma poll_reload_done n d :
  fbit RX_DESCR_RELOAD (regs d RX_CTRL) = true ->
  LowLevel.poll_reload (S n) n d = Some (tt, LowLevel.engine_done d).
Proof.
  intros E. induction n as [|n IH]; cbn [LowLevel.poll_reload]; unmonad.
  - rewrite upd_eq, fbit_fset by apply rx_reload_ok. done.
  - rewrite E. exact IH.
Qed.

Lemma reload_engine d : quiet d ->
  exists d', LowLevel.reload_hw_rx_descriptors d = Some (tt, d') /\
    engine d d' (rx_on d) (regs d RX_DESCR_BASE).
Proof.
  intros (Q & _). unfold LowLevel.reload_hw_rx_descriptors.
  rewrite M_bind_unfold, (modify_reg_quiet _ _ _ Q). unfold gets. rewrite M_bind_unfold.
  rewrite poll_reload_done by (cbn; by rewrite upd_eq, fbit_fset by apply rx_reload_ok).
  eexists. split; [done|]. constructor; cbn.
  - done.
  - by rewrite upd_ne, on_reload_frame, upd_ne by done.
  - unfold rx_on. cbn. rewrite upd_eq, upd_eq. unfold fbit, fset_bit.
    by rewrite !fget_fset_ne by (apply rx_enable_ok || apply rx_reload_ok || apply rx_fields_disjoint).
  - by rewrite upd_ne, on_reload_next, upd_ne by done.
Qed.

Lemma engine_after d1 d2 d3 on on' t t' :
  engine d1 d2 on t -> engine d2 d3 on' t' -> engine d1 d3 on' t'.
Proof. intros [] []. constructor; congruence. Qed.

Lemma quiet_engine d d' on t : quiet d -> engine d d' on t -> quiet d'.
Proof. intros Q [E _ _ _]. unfold quiet. by rewrite E. Qed.

Lemma set_base_engine base d : quiet d ->
  exists d', LowLevel.set_base_rx_descriptor base d = Some (tt, d') /\ engine d d' (rx_on d) base.
Proof.
  intros Q. unfold LowLevel.set_base_rx_descriptor. rewrite M_bind_unfold. unfold write at 1.
  destruct (reload_engine (mkLl (upd RX_DESCR_BASE (u32 base) (regs d)) (inputs d)
    (Registers.log d ++ [(RX_DESCR_BASE, u32 base)])) Q) as (d' & E & [E1 E2 E3 E4]).
  exists d'. split; [exact E|]. constructor; [done| | |].
  - rewrite E2. cbn. by rewrite upd_ne.
  - rewrite E3. unfold rx_on. cbn. by rewrite upd_ne.
  - rewrite E4. cbn -[wrap Z.land]. rewrite upd_eq. change 0xfffff with (Z.ones 20).
    apply Z.bits_inj'. intros i Hi.
    rewrite !Z.land_spec, wrap_testbit, Z.testbit_ones_nonneg by lia.
    destruct (Z.ltb_spec i 32), (Z.ltb_spec i 20); try lia; btauto.
Qed.

Lemma clear_base_engine d : quiet d ->
  exists d', LowLevel.clear_base_rx_descriptor d = Some (tt, d') /\ engine d d' (rx_on d) 0.
Proof.
  intros Q. unfold LowLevel.clear_base_rx_descriptor, reset_reg. rewrite M_bind_unfold. unfold write at 1.
  destruct (reload_engine (mkLl (upd RX_DESCR_BASE (reset_value RX_DESCR_BASE) (regs d)) (inputs d)
    (Registers.log d ++ [(RX_DESCR_BASE, reset_value RX_DESCR_BASE)])) Q) as (d' & E & [E1 E2 E3 E4]).
  exists d'. split; [exact E|]. constructor; [done| | |].
  - rewrite E2. cbn. by rewrite upd_ne.
  - rewrite E3. unfold rx_on. cbn. by rewrite upd_ne.
  - rewrite E4. cbn. rewrite upd_eq. exact base_resets_null.
Qed.

Lemma set_rx_enable_engine b d : quiet d ->
  exists d', LowLevel.set_rx_enable b d = Some (tt, d') /\ engine d d' b (regs d RX_DESCR_NEXT).
Proof.
  intros (Q & _). unfold LowLevel.set_rx_enable. rewrite (modify_reg_quiet _ _ _ Q).
  eexists. split; [done|]. constructor; cbn; rewrite ?upd_ne by done; try done.
  unfold rx_on. cbn. rewrite upd_eq. apply fbit_fset, rx_enable_ok.
Qed.

Lemma start_rx_engine base d : quiet d ->
  exists d', LowLevel.start_rx base d = Some (tt, d') /\ engine d d' true base.
Proof.
  intros Q. destruct (set_base_engine base d Q) as (d1 & E1 & G1).
  destruct (set_rx_enable_engine true d1 (quiet_engine _ _ _ _ Q G1)) as (d2 & E2 & G2).
  exists d2. unfold LowLevel.start_rx. rewrite M_bind_unfold, E1. split; [done|].
  destruct G1, G2. constructor; congruence.
Qed.

Lemma stop_rx_engine d : quiet d ->
  exists d', LowLevel.stop_rx d = Some (tt, d') /\ engine d d' false 0.
Proof.
  intros Q. destruct (set_rx_enable_engine false d Q) as (d1 & E1 & G1).
  destruct (clear_base_engine d1 (quiet_engine _ _ _ _ Q G1)) as (d2 & E2 & G2).
  exists d2. unfold LowLevel.stop_rx. rewrite M_bind_unfold, E1. split; [done|].
  destruct G1, G2. constructor; congruence.
Qed.

(** ** The invariant

    The chain is [pend.*1 ++ free]: descriptors holding a received frame, with
    the length of the frame, then descriptors the engine may fill.  [loan]
    lists the descriptors handed out, with their contents; [taken] the frames
    handed out so far. *)

Definition linked (h : heap) (l : list Z) : Prop :=
  forall i a, l !! i = Some a -> exists d, h !! a = Some d /\ d_next d = default 0 (l !! S i).

Definition holds_frame (h : heap) (f : Z * Z) : Prop :=
  exists d, h !! f.1 = Some d /\ DmaDescriptor.suc_eof d = true /\ DmaDescriptor.len d = f.2.

Definition fillable (h : heap) (a : Z) : Prop :=
  exists d, h !! a = Some d /\ DmaDescriptor.suc_eof d = false.

Definition addr_ok (f : Reg -> Z) (a : Z) : Prop := DmaList.pointer_of chip f a = Some a.

Definition frame_write (f : Z * Z) : hw_write := mkWrite f.1 f.2 false.

Record inv (l : list Z) (taken pend : list (Z * Z)) (free : list Z)
    (loan : list (Z * DmaDescriptor)) (s : dma) : Prop := {
  inv_split : l = pend.*1 ++ free;
  inv_linked : linked (mem s) l;
  inv_nodup : NoDup (l ++ loan.*1);
  inv_dom : dom (mem s) = list_to_set (l ++ loan.*1);
  inv_pend : Forall (holds_frame (mem s)) pend;
  inv_free : Forall (fillable (mem s)) free;
  inv_loan : Forall (fun f => mem s !! f.1 = Some f.2) loan;
  inv_addr : Forall (addr_ok (regs (driver s))) (l ++ loan.*1);
  inv_next : hw_next (regs (driver s)) = None \/ hw_next (regs (driver s)) = head free;
  inv_quiet : quiet (driver s);
  inv_writes : writes s = frame_write <$> (taken ++ pend)
}.

Lemma holds_frame_insert h p d f : f.1 <> p -> holds_frame h f -> holds_frame (<[p := d]> h) f.
Proof. intros Hp (d' & E & Hd). exists d'. by rewrite lookup_insert_ne. Qed.

Lemma fillable_insert h p d a : a <> p -> fillable h a -> fillable (<[p := d]> h) a.
Proof. intros Hp (d' & E & Hd). exists d'. by rewrite lookup_insert_ne. Qed.

Lemma Forall_insert_fresh {A} (key : A -> Z) (P : heap -> A -> Prop) (l : list A) h p d :
  (forall x, key x <> p -> P h x -> P (<[p := d]> h) x) ->
  p ∉ (key <$> l) -> Forall (P h) l -> Forall (P (<[p := d]> h)) l.
Proof.
  intros HP Hp Hl. induction Hl as [|x l Hx Hl IH]; constructor.
  - apply HP; [|done]. intros <-. apply Hp. cbn. left.
  - apply IH. intros Hin. apply Hp. cbn. by right.
Qed.

(** Links survive an update that keeps the link of the descriptor. *)
Lemma linked_insert h l p d d' :
  h !! p = Some d -> d_next d' = d_next d -> linked h l -> linked (<[p := d']> h) l.
Proof.
  intros Hp En Hl i a Hi. destruct (Hl i a Hi) as (da & Ea & Na).
  destruct (decide (a = p)) as [->|Hne].
  - exists d'. rewrite lookup_insert_eq. split; [done|]. congruence.
  - exists da. by rewrite lookup_insert_ne.
Qed.

Lemma linked_insert_fresh h l p d : p ∉ l -> linked h l -> linked (<[p := d]> h) l.
Proof.
  intros Hp Hl i a Hi. destruct (Hl i a Hi) as (da & Ea & Na).
  exists da. rewrite lookup_insert_ne; [done|]. intros <-. by apply Hp, (list_elem_of_lookup_2 _ i).
Qed.

(** A descriptor of the chain holds a frame exactly when it lies in the
    first part. *)
Lemma inv_suc_eof l taken pend free loan s i a d :
  inv l taken pend free loan s -> l !! i = Some a -> mem s !! a = Some d ->
  DmaDescriptor.suc_eof d = bool_decide (i < length pend)%nat.
Proof.
  intros I Hi Hd. rewrite (inv_split _ _ _ _ _ _ I) in Hi. case_bool_decide as Hlt.
  - rewrite lookup_app_l in Hi by (by rewrite length_fmap).
    rewrite list_lookup_fmap in Hi. destruct (pend !! i) as [f|] eqn:Ef; [|done]. cbn in Hi.
    injection Hi as <-. pose proof (inv_pend _ _ _ _ _ _ I) as HF.
    destruct (proj1 (Forall_lookup _ _) HF i f Ef) as (d' & E & ? & _). congruence.
  - rewrite lookup_app_r in Hi by (rewrite length_fmap; lia).
    pose proof (inv_free _ _ _ _ _ _ I) as HF.
    destruct (proj1 (Forall_lookup _ _) HF _ a Hi) as (d' & E & ?). congruence.
Qed.

Lemma hw_next_upd f v :
  hw_next (upd RX_DESCR_NEXT v f) = DmaList.pointer_of chip f v.
Proof.
  unfold DmaList.hw_next. rewrite upd_eq. apply pointer_of_ext. by rewrite upd_ne.
Qed.

Lemma land_status st link : Z.land (Z.lor (Z.shiftl st 20) (Z.land link 0xfffff)) 0xfffff = Z.land link 0xfffff.
Proof.
  change 0xfffff with (Z.ones 20). apply Z.bits_inj'. intros i Hi.
  rewrite !Z.land_spec, Z.lor_spec, shiftl_testbit, Z.land_spec, Z.testbit_ones_nonneg by lia.
  destruct (Z.leb_spec 20 i), (Z.ltb_spec i 20); try lia; btauto.
Qed.

Lemma addr_ok_ext f g a : f C3_RX_ADDRESS_HIGH = g C3_RX_ADDRESS_HIGH -> addr_ok f a -> addr_ok g a.
Proof. intros E. unfold addr_ok. by rewrite (pointer_of_ext f g a E). Qed.

Lemma addr_ok_nonzero f a : addr_ok f a -> a <> 0.
Proof. intros Ha ->. unfold addr_ok in Ha. by rewrite pointer_of_null in Ha. Qed.

(** One completion moves the first free descriptor to the pending frames. *)
Lemma hw_step_inv l taken pend free loan s e :
  inv l taken pend free loan s ->
  exists pend' free', inv l taken (pend ++ pend') free' loan (DmaList.hw_step chip s e) /\
    rx_chain_ptrs (DmaList.hw_step chip s e) = rx_chain_ptrs s.
Proof.
  intros I. unfold DmaList.hw_step.
  destruct (negb _); [exists [], free; by rewrite app_nil_r|].
  destruct (hw_next (regs (driver s))) as [p|] eqn:En; [|exists [], free; by rewrite app_nil_r].
  destruct (inv_next _ _ _ _ _ _ I) as [E|E]; [congruence|]. rewrite En in E.
  destruct free as [|p' free]; [done|]. injection E as <-.
  destruct (Forall_cons_1 _ _ _ (inv_free _ _ _ _ _ _ I)) as [(d & Ed & Hd) Hfree].
  rewrite Ed, Hd. cbv zeta.
  assert (l !! length pend = Some p) as Hlp.
  { by rewrite (inv_split _ _ _ _ _ _ I), lookup_app_r, length_fmap, Nat.sub_diag by (by rewrite length_fmap). }
  destruct (inv_linked _ _ _ _ _ _ I _ _ Hlp) as (d0 & Ed0 & Hnext). rewrite Ed in Ed0. injection Ed0 as <-.
  pose proof (inv_nodup _ _ _ _ _ _ I) as ND. pose proof (inv_addr _ _ _ _ _ _ I) as AD.
  assert ((p ∉ pend.*1) /\ (p ∉ free) /\ (p ∉ loan.*1)) as (Np1 & Np2 & Np3).
  { rewrite (inv_split _ _ _ _ _ _ I) in ND. rewrite !NoDup_app, NoDup_cons in ND.
    destruct ND as ((_ & D1 & (D2 & _)) & D3 & _). split_and!; [|done|].
    - intros Hp. apply (D1 p Hp). by left.
    - apply D3. apply elem_of_app. right. by left. }
  exists [(p, Z.land (ev_len e) 0xfff)], free. split; [|done]. constructor; cbn.
  - by rewrite (inv_split _ _ _ _ _ _ I), fmap_app, <- app_assoc.
  - by apply (linked_insert _ _ _ d); [..|apply I].
  - done.
  - rewrite dom_insert_lookup_L by done. apply I.
  - apply Forall_app. split.
    + apply (Forall_insert_fresh fst); [intros x; apply holds_frame_insert|done|apply I].
    + repeat constructor. exists (DmaDescriptor.complete (ev_len e) d). cbn.
      rewrite lookup_insert_eq, suc_eof_complete, len_complete. done.
  - apply (Forall_insert_fresh id); [intros x; apply fillable_insert|by rewrite list_fmap_id|done].
  - apply (Forall_insert_fresh fst (fun h f => h !! f.1 = Some f.2)); [|done|apply I].
    intros x Hx. by rewrite lookup_insert_ne.
  - eapply Forall_impl; [exact AD|]. intros a. apply addr_ok_ext. by rewrite upd_ne.
  - rewrite hw_next_upd. destruct (ev_cached_null e).
    + left. apply pointer_of_null. change 0xfffff with (Z.land 0xfffff 0xfffff) at 1.
      exact (land_status (ev_status e) 0).
    + rewrite (pointer_of_low _ _ (d_next d)) by apply land_status. rewrite Hnext.
      rewrite (inv_split _ _ _ _ _ _ I), lookup_app_r, length_fmap by (rewrite length_fmap; lia).
      replace (S (length pend) - length pend)%nat with 1%nat by lia. cbn.
      destruct free as [|q free]; cbn; [left; by apply pointer_of_null|right].
      rewrite (inv_split _ _ _ _ _ _ I) in AD. rewrite !Forall_app, !Forall_cons in AD. apply AD.
  - apply I.
  - rewrite (inv_writes _ _ _ _ _ _ I), !fmap_app, <- app_assoc. done.
Qed.

(** ** Assertions stable under the engine

    [At ch l loan taken known s]: the chain pointers are [ch], the chain is
    [l], and at least [known] frames are pending. *)

Definition At (ch : option (Z * Z)) (l : list Z) (loan : list (Z * DmaDescriptor))
    (taken : list (Z * Z)) (known : nat) (s : dma) : Prop :=
  rx_chain_ptrs s = ch /\
  exists pend free, inv l taken pend free loan s /\ (known <= length pend)%nat.

Lemma At_hw_step ch l loan taken known s e :
  At ch l loan taken known s -> At ch l loan taken known (DmaList.hw_step chip s e).
Proof.
  intros (Hc & pend & free & I & Hk). destruct (hw_step_inv _ _ _ _ _ _ e I) as (pend' & free' & I' & Hc').
  split; [congruence|]. exists (pend ++ pend'), free'. split; [done|]. rewrite length_app. lia.
Qed.

Lemma inv_set_env l taken pend free loan s e :
  inv l taken pend free loan s -> inv l taken pend free loan (set_env e s).
Proof. intros []. by constructor. Qed.

Lemma At_set_env ch l loan taken known s e :
  At ch l loan taken known s -> At ch l loan taken known (set_env e s).
Proof.
  intros (Hc & pend & free & I & Hk). split; [done|]. exists pend, free.
  split; [by apply inv_set_env|done].
Qed.

Lemma At_weaken ch l loan taken known s : At ch l loan taken known s -> At ch l loan taken 0 s.
Proof. intros (Hc & pend & free & I & Hk). split; [done|]. exists pend, free. split; [done|lia]. Qed.

Definition stable (P : dma -> Prop) : Prop :=
  (forall s e, P s -> P (DmaList.hw_step chip s e)) /\ (forall s e, P s -> P (set_env e s)).

Lemma At_stable ch l loan taken known : stable (At ch l loan taken known).
Proof. split; intros s e; [apply At_hw_step|apply At_set_env]. Qed.

Lemma hoare_tick P : stable P -> hoare P (DmaList.tick chip) (fun _ => P).
Proof.
  intros [St Se]. apply hoare_modify. intros s Hs. destruct (env s) as [|batch e]; [done|].
  apply Se. revert s Hs. induction batch as [|ev batch IH]; intros s Hs; cbn; auto.
Qed.

(** Every access is an engine turn followed by the access itself. *)
Lemma hoare_access {A} P (m : M dma A) Q : stable P -> hoare P m Q -> hoare P (DmaList.tick chip ;; m) Q.
Proof. intros HP Hm. apply hoare_bind with (fun _ => P); [by apply hoare_tick|done]. Qed.

Lemma hoare_ll_call {A} P (m : M ll A) Q :
  stable P ->
  (forall s, P s -> exists a d, m (driver s) = Some (a, d) /\ Q a (set_driver d s)) ->
  hoare P (DmaList.ll_call chip m) Q.
Proof. intros HP Hm. apply hoare_access; [done|]. by apply hoare_zoom. Qed.

(** An exhausted engine does nothing. *)
Definition Idle (ch : option (Z * Z)) (l : list Z) (loan : list (Z * DmaDescriptor))
    (taken pend : list (Z * Z)) (free : list Z) (s : dma) : Prop :=
  rx_chain_ptrs s = ch /\ inv l taken pend free loan s /\ hw_next (regs (driver s)) = None.

Lemma Idle_stable ch l loan taken pend free : stable (Idle ch l loan taken pend free).
Proof.
  split; intros s e (Hc & I & En).
  - replace (DmaList.hw_step chip s e) with s; [done|]. unfold DmaList.hw_step.
    by rewrite En; destruct (negb _).
  - split_and!; [done|by apply inv_set_env|done].
Qed.

(** A register operation that leaves the engine at the first free descriptor,
    or exhausted, keeps the invariant. *)
Lemma inv_engine l taken pend free loan s d on target :
  inv l taken pend free loan s -> engine (driver s) d on target ->
  Z.land target 0xfffff = 0 \/ head free = Some target ->
  inv l taken pend free loan (set_driver d s).
Proof.
  intros I G Ht. destruct (I) as [? ? ? ? ? ? ? AD ? ? ?]. destruct (G) as [E1 E2 E3 E4]. constructor; try done; cbn.
  - eapply Forall_impl; [exact AD|]. intros a. by apply addr_ok_ext.
  - unfold DmaList.hw_next. rewrite (pointer_of_low _ _ target) by done.
    destruct Ht as [Ht|Ht]; [left; by apply pointer_of_null|right].
    destruct free as [|q free]; [done|]. injection Ht as ->. cbn.
    rewrite (inv_split _ _ _ _ _ _ I), !Forall_app, Forall_cons in AD.
    destruct AD as ((_ & AD & _) & _). unfold addr_ok in AD.
    rewrite <- AD. by apply pointer_of_ext.
  - by apply (quiet_engine (driver s) _ on target).
Qed.

(** ** Restarting an exhausted engine *)

Lemma Idle_At ch l loan taken pend free s : Idle ch l loan taken pend free s -> At ch l loan taken 0 s.
Proof. intros (Hc & I & _). split; [done|]. exists pend, free. split; [done|lia]. Qed.

(** The engine stands at the first free descriptor; it is exhausted only when
    there is none. *)
Definition Live (ch : option (Z * Z)) (l : list Z) (loan : list (Z * DmaDescriptor))
    (taken : list (Z * Z)) (s : dma) : Prop :=
  rx_chain_ptrs s = ch /\
  exists pend free, inv l taken pend free loan s /\ hw_next (regs (driver s)) = head free.

Lemma Live_At ch l loan taken s : Live ch l loan taken s -> At ch l loan taken 0 s.
Proof. intros (Hc & pend & free & I & _). split; [done|]. exists pend, free. split; [done|lia]. Qed.

Lemma hw_next_engine d d' on f a :
  engine d d' on a -> regs d C3_RX_ADDRESS_HIGH = f C3_RX_ADDRESS_HIGH -> addr_ok f a ->
  hw_next (regs d') = Some a.
Proof.
  intros [_ E2 _ E4] Ef Ha. unfold DmaList.hw_next. rewrite (pointer_of_low _ _ a) by done.
  rewrite <- Ha. apply pointer_of_ext. congruence.
Qed.

Lemma inv_length l taken pend free loan s :
  inv l taken pend free loan s -> (length l <= size (mem s))%nat.
Proof.
  intros I. rewrite <- size_dom, (inv_dom _ _ _ _ _ _ I), size_list_to_set by apply I.
  rewrite length_app. lia.
Qed.

Lemma next_of_link d (q : option Z) :
  d_next d = default 0 q -> (forall a, q = Some a -> a <> 0) -> DmaDescriptor.next d = q.
Proof.
  intros E Hq. unfold DmaDescriptor.next. rewrite E. destruct q as [a|]; cbn; [|done].
  destruct (Z.eqb_spec a 0); [by apply Hq in e|done].
Qed.

Lemma inv_chain_nonzero l taken pend free loan s i a :
  inv l taken pend free loan s -> l !! i = Some a -> a <> 0.
Proof.
  intros I Hi. apply (addr_ok_nonzero (regs (driver s))).
  pose proof (inv_addr _ _ _ _ _ _ I) as AD. apply Forall_app in AD as [AD _].
  exact (proj1 (Forall_lookup _ _) AD i a Hi).
Qed.

(** The descriptor read at position [i] of the chain links to position
    [i + 1]. *)
Lemma inv_next_link l taken pend free loan s i a d :
  inv l taken pend free loan s -> l !! i = Some a -> mem s !! a = Some d ->
  DmaDescriptor.next d = l !! S i.
Proof.
  intros I Hi Hd. destruct (inv_linked _ _ _ _ _ _ I _ _ Hi) as (d' & E & N).
  rewrite Hd in E. injection E as <-. apply next_of_link; [done|].
  intros b. apply (inv_chain_nonzero _ _ _ _ _ _ _ _ I).
Qed.

Lemma inv_chain_mem l taken pend free loan s i a :
  inv l taken pend free loan s -> l !! i = Some a -> exists d, mem s !! a = Some d.
Proof. intros I Hi. destruct (inv_linked _ _ _ _ _ _ I _ _ Hi) as (d & E & _). eauto. Qed.

Lemma head_free_at l taken pend free loan s a :
  inv l taken pend free loan s -> l !! length pend = Some a -> head free = Some a.
Proof.
  intros I. rewrite (inv_split _ _ _ _ _ _ I), lookup_app_r, length_fmap, Nat.sub_diag
    by (by rewrite length_fmap).
  by destruct free.
Qed.

Lemma restart_loop_spec ch l loan taken pend free fuel i :
  (length l < fuel + i)%nat -> (i <= length pend)%nat ->
  hoare (Idle ch l loan taken pend free) (DmaList.restart_loop chip fuel (l !! i))
        (fun _ => Live ch l loan taken).
Proof.
  revert i. induction fuel as [|fuel IH]; intros i Hf Hi.
  { intros s (_ & I & _). pose proof (inv_split _ _ _ _ _ _ I) as E. apply (f_equal length) in E.
    rewrite length_app, length_fmap in E. lia. }
  cbn [DmaList.restart_loop]. destruct (l !! i) as [a|] eqn:Ea.
  2: { apply hoare_ret. intros s (Hc & I & En). split; [done|]. exists pend, free. split; [done|].
       rewrite En. apply lookup_ge_None in Ea. rewrite (inv_split _ _ _ _ _ _ I), length_app, length_fmap in Ea.
       destruct free; [done|cbn in Ea; lia]. }
  apply hoare_bind with (fun d s => Idle ch l loan taken pend free s /\ mem s !! a = Some d).
  { unfold DmaList.load. apply hoare_access; [apply Idle_stable|]. intros s Hs.
    destruct (inv_chain_mem _ _ _ _ _ _ _ _ (proj1 (proj2 Hs)) Ea) as (d & Ed).
    exists d, s. unfold DmaList.deref. by rewrite Ed. }
  intros d. destruct (DmaDescriptor.suc_eof d) eqn:Es; cbn [negb].
  - intros s [Hs Ed]. rewrite (inv_next_link _ _ _ _ _ _ _ _ _ (proj1 (proj2 Hs)) Ea Ed).
    refine (IH (S i) _ _ s Hs); [lia|].
    rewrite (inv_suc_eof _ _ _ _ _ _ _ _ _ (proj1 (proj2 Hs)) Ea Ed) in Es.
    apply bool_decide_eq_true in Es. lia.
  - intros s [Hs Ed].
    rewrite (inv_suc_eof _ _ _ _ _ _ _ _ _ (proj1 (proj2 Hs)) Ea Ed) in Es.
    apply bool_decide_eq_false in Es. assert (i = length pend) as -> by lia.
    revert s Hs Ed. enough (hoare (Idle ch l loan taken pend free)
      (DmaList.ll_call chip (LowLevel.set_base_rx_descriptor a)) (fun _ => Live ch l loan taken)) as T
      by (intros s Hs _; exact (T s Hs)).
    apply hoare_ll_call; [apply Idle_stable|]. intros s (Hc & I & En).
    destruct (set_base_engine a (driver s) (inv_quiet _ _ _ _ _ _ I)) as (d' & E & G).
    pose proof (head_free_at _ _ _ _ _ _ _ I Ea) as Hh.
    exists tt, d'. split; [done|]. split; [done|]. exists pend, free. split.
    { apply (inv_engine _ _ _ _ _ _ _ _ _ I G). by right. }
    rewrite Hh. apply (hw_next_engine _ _ _ (regs (driver s)) _ G); [done|].
    pose proof (inv_addr _ _ _ _ _ _ I) as AD. apply Forall_app in AD as [AD _].
    exact (proj1 (Forall_lookup _ _) AD _ _ Ea).
Qed.

(** After [restart_exhausted_rx] the chain is as before and the engine stands
    at the first free descriptor. *)
Lemma restart_exhausted_spec ch l loan taken known :
  (fst <$> ch) = head l ->
  hoare (At ch l loan taken known) (DmaList.restart_exhausted_rx chip) (fun _ => Live ch l loan taken).
Proof.
  intros Hch. unfold DmaList.restart_exhausted_rx.
  apply hoare_bind with (fun next s => match next with
    | Some _ => Live ch l loan taken s
    | None => exists pend free, Idle ch l loan taken pend free s end).
  { apply hoare_ll_call; [apply At_stable|]. intros s (Hc & pend & free & I & _).
    exists (hw_next (regs (driver s))), (driver s). split; [apply next_rx_quiet, I|].
    replace (set_driver (driver s) s) with s by (by destruct s).
    destruct (hw_next (regs (driver s))) eqn:En.
    - split; [done|]. exists pend, free. split; [done|].
      destruct (inv_next _ _ _ _ _ _ I) as [E|E]; congruence.
    - exists pend, free. done. }
  intros [p|]; [by apply hoare_ret|].
  apply hoare_exists. intros pend. apply hoare_exists. intros free.
  apply hoare_bind with (fun cur s => Idle ch l loan taken pend free s /\ cur = l !! 0%nat).
  { apply hoare_gets. intros s Hs. split; [done|]. rewrite (proj1 Hs), Hch. by destruct l. }
  intros cur. apply hoare_bind with (fun fuel s => Idle ch l loan taken pend free s /\ cur = l !! 0%nat /\ (length l < fuel)%nat).
  { apply hoare_gets. intros s [Hs ->]. split_and!; [done..|]. unfold DmaList.fuel_of.
    pose proof (inv_length _ _ _ _ _ _ (proj1 (proj2 Hs))). lia. }
  intros fuel s (Hs & -> & Hf). refine (restart_loop_spec _ _ _ _ _ _ _ _ _ _ s Hs); lia.
Qed.

(** ** Taking and returning descriptors *)

Definition chain_of (l : list Z) : option (Z * Z) :=
  match head l, last l with Some a, Some b => Some (a, b) | _, _ => None end.

Lemma chain_of_head l : (fst <$> chain_of l) = head l.
Proof.
  unfold chain_of. destruct l as [|a l]; [done|]. cbn [head].
  destruct (last (a :: l)) eqn:E; [done|]. by apply last_None in E.
Qed.

Lemma chain_of_snoc l a : chain_of (l ++ [a]) = Some (default a (head l), a).
Proof. unfold chain_of. rewrite last_snoc. by destruct l. Qed.

Lemma inv_set_chain l taken pend free loan s c :
  inv l taken pend free loan s -> inv l taken pend free loan (set_chain c s).
Proof. intros []. by constructor. Qed.

Lemma At_set_chain ch c l loan taken known s :
  At ch l loan taken known s -> At c l loan taken known (set_chain c s).
Proof.
  intros (_ & pend & free & I & Hk). split; [done|]. exists pend, free.
  split; [by apply inv_set_chain|done].
Qed.

(** The head of the chain, once complete, becomes a loan. *)
Lemma inv_pop a l taken f pend free loan s d :
  inv (a :: l) taken (f :: pend) free loan s -> mem s !! a = Some d ->
  f = (a, DmaDescriptor.len d) /\
  inv l (taken ++ [(a, DmaDescriptor.len d)]) pend free ((a, d) :: loan) s.
Proof.
  intros I Hd. pose proof (inv_split _ _ _ _ _ _ I) as E. cbn in E. injection E as Ea El.
  destruct (Forall_cons_1 _ _ _ (inv_pend _ _ _ _ _ _ I)) as [(d' & Ed & _ & Hlen) HP].
  assert (f = (a, DmaDescriptor.len d)) as -> by (destruct f; cbn in *; congruence).
  destruct (I) as [_ HL ND DM _ HF HO AD HN HQ HW]. split; [done|]. constructor; try done.
  - intros i b Hb. exact (HL (S i) b Hb).
  - rewrite fmap_cons. cbn [fst]. by rewrite <- Permutation_middle.
  - rewrite DM. apply list_to_set_perm_L. cbn. by rewrite <- Permutation_middle.
  - by constructor.
  - rewrite fmap_cons. cbn [fst]. by rewrite <- Permutation_middle.
  - rewrite HW, <- app_assoc. done.
Qed.

(** An owner may write the descriptor it holds. *)
Lemma inv_store_loan l taken pend free p d loan s d' :
  inv l taken pend free ((p, d) :: loan) s ->
  inv l taken pend free ((p, d') :: loan) (set_mem (<[p := d']> (mem s)) s).
Proof.
  intros I. destruct (I) as [HS HL ND DM HP HF HO AD HN HQ HW].
  apply Forall_cons_1 in HO as [Hd HO]. cbn in Hd.
  assert ((p ∉ l) /\ (p ∉ loan.*1)) as [Np1 Np2].
  { cbn in ND. rewrite <- Permutation_middle, NoDup_cons, not_elem_of_app in ND. apply ND. }
  rewrite HS, not_elem_of_app in Np1. destruct Np1 as [Np1 Np3].
  constructor; cbn; try done.
  - apply linked_insert_fresh; [|done]. rewrite HS, not_elem_of_app. done.
  - rewrite dom_insert_lookup_L by done. done.
  - apply (Forall_insert_fresh fst); [intros x; apply holds_frame_insert|done..].
  - apply (Forall_insert_fresh id); [intros x; apply fillable_insert|by rewrite list_fmap_id|done].
  - constructor; [by rewrite lookup_insert_eq|].
    apply (Forall_insert_fresh fst (fun h f => h !! f.1 = Some f.2)); [|done..].
    intros x Hx. by rewrite lookup_insert_ne.
Qed.

Lemma store_loan_spec ch l p d loan taken known f :
  hoare (At ch l ((p, d) :: loan) taken known) (DmaList.store chip p f)
        (fun _ => At ch l ((p, f d) :: loan) taken known).
Proof.
  unfold DmaList.store. apply hoare_access; [apply At_stable|].
  intros s (Hc & pend & free & I & Hk).
  pose proof (Forall_inv (inv_loan _ _ _ _ _ _ I)) as Hd. cbn in Hd.
  eexists _, _. unfold DmaList.assign. rewrite Hd. split; [done|].
  split; [done|]. exists pend, free. split; [by apply (inv_store_loan _ _ _ _ _ d)|done].
Qed.

Lemma linked_append h l t p d dt :
  linked h l -> NoDup l -> last l = Some t -> h !! t = Some dt -> h !! p = Some d -> d_next d = 0 -> t <> p ->
  linked (<[t := DmaDescriptor.set_next (Some p) dt]> h) (l ++ [p]).
Proof.
  intros HL ND Ht Hdt Hpd Hn Htp i a Hi. rewrite last_lookup in Ht.
  destruct (decide (i < length l)%nat) as [Hlt|Hge].
  - rewrite lookup_app_l in Hi by done. destruct (HL i a Hi) as (da & Eda & Nda).
    destruct (decide (a = t)) as [->|Hne].
    + exists (DmaDescriptor.set_next (Some p) dt). rewrite lookup_insert_eq. split; [done|]. cbn.
      assert (i = pred (length l)) as -> by (by eapply NoDup_lookup).
      rewrite lookup_app_r by lia. by replace (S (pred (length l)) - length l)%nat with 0%nat by lia.
    + exists da. rewrite lookup_insert_ne by done. split; [done|]. rewrite Nda.
      destruct (decide (S i < length l)%nat); [by rewrite lookup_app_l by done|].
      exfalso. apply Hne. replace (pred (length l)) with i in Ht by lia. congruence.
  - rewrite lookup_app_r in Hi by lia. apply list_lookup_singleton_Some in Hi as [Hi <-].
    exists d. rewrite lookup_insert_ne by done. split; [done|].
    rewrite lookup_ge_None_2 by (rewrite length_app; cbn; lia). done.
Qed.

(** Linking a reset descriptor behind the tail extends the chain. *)
Lemma inv_append l t taken pend free p d dt loan s :
  inv l taken pend free ((p, d) :: loan) s -> last l = Some t -> mem s !! t = Some dt ->
  DmaDescriptor.suc_eof d = false -> d_next d = 0 ->
  inv (l ++ [p]) taken pend (free ++ [p]) loan
      (set_mem (<[t := DmaDescriptor.set_next (Some p) dt]> (mem s)) s).
Proof.
  intros I Ht Hdt Hd Hn. destruct (I) as [HS HL ND DM HP HF HO AD HN HQ HW].
  apply Forall_cons_1 in HO as [Hpd HO]. cbn in Hpd.
  assert (NoDup ((l ++ [p]) ++ loan.*1)) as ND' by (by rewrite <- app_assoc).
  assert (t ∈ l) as Htl by (apply last_Some in Ht as [k ->]; apply elem_of_app; right; by left).
  assert ((p ∉ l) /\ (t ∉ loan.*1)) as [Np Nt].
  { cbn in ND. rewrite <- Permutation_middle, NoDup_cons, not_elem_of_app, NoDup_app in ND.
    destruct ND as ([? _] & _ & D & _). split; [done|]. by apply D. }
  assert (t <> p) as Htp by (intros ->; done).
  assert (DmaDescriptor.suc_eof (DmaDescriptor.set_next (Some p) dt) = DmaDescriptor.suc_eof dt) as Es by done.
  constructor; cbn; try done.
  - rewrite HS. by rewrite <- app_assoc.
  - apply (linked_append _ _ _ _ d dt); try done. by apply NoDup_app in ND as (? & _).
  - rewrite dom_insert_lookup_L, DM by done. f_equal. by rewrite <- app_assoc.
  - eapply Forall_impl; [exact HP|]. intros f (df & E1 & E2 & E3). destruct (decide (f.1 = t)) as [E|E].
    + exists (DmaDescriptor.set_next (Some p) dt). rewrite E, lookup_insert_eq. split; [done|].
      rewrite Es, len_set_next. rewrite E, Hdt in E1. by injection E1 as ->.
    + by apply holds_frame_insert; [|exists df].
  - apply Forall_app. split; [|repeat constructor].
    + eapply Forall_impl; [exact HF|]. intros a (da & E1 & E2). destruct (decide (a = t)) as [->|E].
      * exists (DmaDescriptor.set_next (Some p) dt). rewrite lookup_insert_eq, Es. split; [done|]. congruence.
      * by apply fillable_insert; [|exists da].
    + exists d. by rewrite lookup_insert_ne by done.
  - apply (Forall_insert_fresh fst (fun h f => h !! f.1 = Some f.2)); [|done..].
    intros x Hx. by rewrite lookup_insert_ne.
  - by rewrite <- app_assoc.
  - destruct HN as [HN|HN]; [by left|]. destruct free; [by left|by right].
Qed.

Lemma append_spec ch l t p d loan taken known :
  last l = Some t -> DmaDescriptor.suc_eof d = false -> d_next d = 0 ->
  hoare (At ch l ((p, d) :: loan) taken known)
        (DmaList.store chip t (DmaDescriptor.set_next (Some p)))
        (fun _ => At ch (l ++ [p]) loan taken known).
Proof.
  intros Ht Hd Hn. unfold DmaList.store. apply hoare_access; [apply At_stable|].
  intros s (Hc & pend & free & I & Hk). pose proof Ht as Ht'. rewrite last_lookup in Ht'.
  destruct (inv_chain_mem _ _ _ _ _ _ _ _ I Ht') as (dt & Edt).
  eexists _, _. unfold DmaList.assign. rewrite Edt. split; [done|].
  split; [done|]. exists pend, (free ++ [p]). split; [|done]. by apply (inv_append _ _ _ _ _ _ d).
Qed.

(** A lone reset descriptor becomes the chain. *)
Lemma inv_singleton taken pend free p d loan s drv on :
  inv [] taken pend free ((p, d) :: loan) s -> engine (driver s) drv on p ->
  DmaDescriptor.suc_eof d = false -> d_next d = 0 ->
  pend = [] /\ inv [p] taken [] [p] loan (set_driver drv s).
Proof.
  intros I G Hd Hn. destruct (I) as [HS HL ND DM HP HF HO AD HN HQ HW].
  symmetry in HS. apply app_nil in HS as [HS ->]. apply fmap_nil_inv in HS as ->. split; [done|].
  apply Forall_cons_1 in HO as [Hpd HO]. cbn in *.
  assert (inv [p] taken [] [p] loan s) as I'.
  { constructor; cbn; try done.
    - intros [|i] a Ha; [|done]. injection Ha as <-. exists d. done.
    - constructor; [by exists d|constructor].
    - left. by destruct HN. }
  apply (inv_engine _ _ _ _ _ _ drv on p I' G). by right.
Qed.

Lemma load_head_spec ch a l loan taken known :
  hoare (At ch (a :: l) loan taken known) (DmaList.load chip a)
        (fun d s => (DmaDescriptor.next d = head l /\ (DmaDescriptor.suc_eof d = false -> known = 0%nat)) /\
                    At ch (a :: l) loan taken (max known (if DmaDescriptor.suc_eof d then 1 else 0)) s).
Proof.
  unfold DmaList.load. apply hoare_access; [apply At_stable|].
  intros s (Hc & pend & free & I & Hk).
  destruct (inv_chain_mem _ _ _ _ _ _ 0%nat a I eq_refl) as (d & Ed).
  pose proof (inv_suc_eof _ _ _ _ _ _ 0%nat _ _ I eq_refl Ed) as Es.
  exists d, s. unfold DmaList.deref. rewrite Ed. split; [done|]. split; [split|].
  { rewrite (inv_next_link _ _ _ _ _ _ 0%nat _ _ I eq_refl Ed). by destruct l. }
  { intros En. rewrite En in Es. symmetry in Es. apply bool_decide_eq_false in Es. lia. }
  split; [done|]. exists pend, free. split; [done|].
  destruct (DmaDescriptor.suc_eof d); [|lia]. symmetry in Es. apply bool_decide_eq_true in Es. lia.
Qed.

(** The head [a] of the chain has been handed out. *)
Definition Popped (ch : option (Z * Z)) (a : Z) (l : list Z) (loan : list (Z * DmaDescriptor))
    (taken : list (Z * Z)) (s : dma) : Prop :=
  exists d, DmaDescriptor.suc_eof d = true /\
    At ch l ((a, d) :: loan) (taken ++ [(a, DmaDescriptor.len d)]) 0 s.

Lemma At_pop ch c a l loan taken s :
  At ch (a :: l) loan taken 1 s -> Popped c a l loan taken (set_chain c s).
Proof.
  intros (Hc & pend & free & I & Hk). destruct pend as [|f pend]; [cbn in Hk; lia|].
  destruct (inv_chain_mem _ _ _ _ _ _ 0%nat a I eq_refl) as (d & Ed).
  exists d. split; [by rewrite (inv_suc_eof _ _ _ _ _ _ 0%nat _ _ I eq_refl Ed)|].
  apply (At_set_chain ch). split; [done|]. exists pend, free. split; [|lia].
  by apply (inv_pop _ _ _ _ _ _ _ _ _ I Ed).
Qed.

(** Moving the head, on the C3 and the S3. *)
Lemma advance_spec a t l loan taken :
  chain_of (a :: l) = Some (a, t) ->
  hoare (At (Some (a, t)) (a :: l) loan taken 1)
    (match head l with
     | Some next =>
         modify (fun s => set_chain ((fun c => (next, snd c)) <$> rx_chain_ptrs s) s) ;;
         DmaList.restart_exhausted_rx chip
     | None => DmaList.set_rx_chain_base chip None
     end)
    (fun _ => Popped (chain_of l) a l loan taken).
Proof.
  intros Hch. destruct l as [|b l]; cbn [head].
  - unfold DmaList.set_rx_chain_base.
    apply hoare_bind with (fun _ => Popped None a [] loan taken).
    { apply hoare_modify. intros s. apply At_pop. }
    intros _. apply hoare_exists. intros d. apply hoare_pure. intros Hd.
    apply hoare_ll_call; [apply At_stable|]. intros s (Hc & pend & free & I & Hk).
    destruct (clear_base_engine (driver s) (inv_quiet _ _ _ _ _ _ I)) as (d' & E & G).
    exists tt, d'. split; [done|]. exists d. split; [done|]. split; [done|]. exists pend, free.
    split; [|lia]. apply (inv_engine _ _ _ _ _ _ _ _ _ I G). by left.
  - assert (chain_of (b :: l) = Some (b, t)) as Hb.
    { unfold chain_of in *. cbn [head] in *. change (last (a :: b :: l)) with (last (b :: l)) in Hch.
      destruct (last (b :: l)); congruence. }
    apply hoare_bind with (fun _ => Popped (Some (b, t)) a (b :: l) loan taken).
    { apply hoare_modify. intros s Hs. rewrite (proj1 Hs). by apply (At_pop _ _ _ _ _ _ _ Hs). }
    intros _. rewrite Hb. apply hoare_exists. intros d. apply hoare_pure. intros Hd.
    eapply hoare_post; [by apply restart_exhausted_spec|].
    intros ? s Hs. exists d. split; [done|]. by apply Live_At.
Qed.

(** The contract of [take_first]: it fails only when no frame was pending. *)
Definition Taken (l : list Z) (loan : list (Z * DmaDescriptor)) (taken : list (Z * Z)) (known : nat)
    (r : option Z) (s : dma) : Prop :=
  match r with
  | None => known = 0%nat /\ At (chain_of l) l loan taken 0 s
  | Some p => exists d l', l = p :: l' /\ DmaDescriptor.suc_eof d = true /\ d_next d = 0 /\
                At (chain_of l') l' ((p, d) :: loan) (taken ++ [(p, DmaDescriptor.len d)]) 0 s
  end.

Lemma take_first_spec l loan taken known :
  hoare (At (chain_of l) l loan taken known) (DmaList.take_first chip) (Taken l loan taken known).
Proof.
  unfold DmaList.take_first.
  apply hoare_bind with (fun ch s => ch = chain_of l /\ At (chain_of l) l loan taken known s).
  { apply hoare_gets. intros s Hs. split; [apply Hs|done]. }
  intros ch. apply hoare_pure. intros ->. destruct l as [|a l].
  { apply hoare_ret. intros s Hs. split; [|by apply (At_weaken _ _ _ _ known)].
    destruct Hs as (_ & pend & free & I & Hk). pose proof (inv_split _ _ _ _ _ _ I) as E.
    symmetry in E. apply app_nil in E as [E _]. apply fmap_nil_inv in E as ->. cbn in Hk. lia. }
  destruct (chain_of (a :: l)) as [[a' t]|] eqn:Hch.
  2: { by pose proof (chain_of_head (a :: l)) as E; rewrite Hch in E. }
  assert (a' = a) as -> by (pose proof (chain_of_head (a :: l)) as E; rewrite Hch in E; by injection E).
  eapply hoare_bind; [apply load_head_spec|]. intros flags. apply hoare_pure. intros [_ Hk].
  destruct (DmaDescriptor.suc_eof flags).
  - eapply hoare_bind; [apply load_head_spec|]. intros d. apply hoare_pure. intros [Hn _].
    rewrite chip_ok, Hn. eapply hoare_bind.
    { eapply hoare_pre; [by apply advance_spec|]. intros s (Hc & pend & free & I & Hp).
      split; [done|]. exists pend, free. split; [done|lia]. }
    intros []. apply hoare_exists. intros d0. apply hoare_pure. intros Hd0.
    eapply hoare_bind; [apply store_loan_spec|]. intros [].
    eapply hoare_bind; [apply store_loan_spec|]. intros []. apply hoare_ret. intros s Hs.
    eexists _, l. split; [done|]. split; [|split].
    3: { rewrite len_set_next, len_set_owner. exact Hs. }
    + rewrite suc_eof_testbit. cbn [DmaDescriptor.set_next d_flags]. by rewrite <- suc_eof_testbit, suc_eof_set_owner.
    + done.
  - rewrite chip_ok. eapply hoare_bind; [by apply restart_exhausted_spec; rewrite <- Hch; apply chain_of_head|].
    intros []. apply hoare_ret. intros s Hs. unfold Taken. rewrite Hch.
    split; [by apply Hk|by apply Live_At].
Qed.

(** The contract of [recycle]: the descriptor is last in the chain and the
    engine is running. *)
Lemma recycle_spec l p d loan taken :
  hoare (At (chain_of l) l ((p, d) :: loan) taken 0) (DmaList.recycle chip p)
        (fun _ => Live (chain_of (l ++ [p])) (l ++ [p]) loan taken).
Proof.
  unfold DmaList.recycle. eapply hoare_bind; [apply store_loan_spec|]. intros [].
  eapply hoare_bind; [apply store_loan_spec|]. intros []. cbv beta.
  set (d2 := DmaDescriptor.reset_for_rx _).
  assert (DmaDescriptor.suc_eof d2 = false) as Hd by apply suc_eof_reset.
  assert (d_next d2 = 0) as Hn by done. clearbody d2.
  apply hoare_bind with (fun ch s => ch = chain_of l /\ At (chain_of l) l ((p, d2) :: loan) taken 0 s).
  { apply hoare_gets. intros s Hs. split; [apply Hs|done]. }
  intros ch. apply hoare_pure. intros ->. rewrite chip_ok, chain_of_snoc.
  destruct (chain_of l) as [[a t]|] eqn:Hch.
  - assert (last l = Some t /\ head l = Some a) as [Ht Ha].
    { unfold chain_of in Hch. destruct (head l), (last l); try done. by injection Hch as -> ->. }
    eapply hoare_bind; [by apply append_spec|]. intros [].
    apply hoare_bind with (fun _ => At (Some (a, p)) (l ++ [p]) loan taken 0).
    { apply hoare_modify. intros s. apply At_set_chain. }
    intros _. rewrite Ha. apply restart_exhausted_spec. by destruct l.
  - assert (l = []) as -> by (destruct l as [|b l]; [done|]; by pose proof (chain_of_head (b :: l)) as E; rewrite Hch in E).
    unfold DmaList.set_rx_chain_base.
    apply hoare_bind with (fun _ => At (Some (p, p)) [] ((p, d2) :: loan) taken 0).
    { apply hoare_modify. intros s Hs. rewrite (proj1 Hs). by apply (At_set_chain _ _ _ _ _ _ _ Hs). }
    intros _. apply hoare_ll_call; [apply At_stable|]. intros s (Hc & pend & free & I & Hk).
    destruct (set_base_engine p (driver s) (inv_quiet _ _ _ _ _ _ I)) as (drv & E & G).
    exists tt, drv. split; [done|]. split; [done|]. exists [], [p].
    split; [by apply (inv_singleton _ _ _ _ _ _ _ _ _ I G)|].
    apply (hw_next_engine _ _ _ (regs (driver s)) _ G); [done|].
    pose proof (inv_addr _ _ _ _ _ _ I) as AD. by apply Forall_cons_1 in AD as [AD _].
Qed.

(** ** Stopping, restarting and clearing *)

Lemma stop_rx_spec ch l loan taken :
  hoare (At ch l loan taken 0) (DmaList.stop_rx chip)
        (fun _ s => At ch l loan taken 0 s /\ rx_on (driver s) = false).
Proof.
  apply hoare_ll_call; [apply At_stable|]. intros s (Hc & pend & free & I & Hk).
  destruct (stop_rx_engine (driver s) (inv_quiet _ _ _ _ _ _ I)) as (d & E & G).
  exists tt, d. split; [done|]. split; [|by destruct G]. split; [done|]. exists pend, free.
  split; [|done]. apply (inv_engine _ _ _ _ _ _ _ _ _ I G). by left.
Qed.

(** A stopped engine with no unread frame. *)
Definition Drained (l : list Z) (loan : list (Z * DmaDescriptor)) (taken : list (Z * Z)) (s : dma) : Prop :=
  rx_on (driver s) = false /\ rx_chain_ptrs s = chain_of l /\ inv l taken [] l loan s.

Lemma hw_step_off s e : rx_on (driver s) = false -> DmaList.hw_step chip s e = s.
Proof. intros E. unfold DmaList.hw_step. fold (rx_on (driver s)). by rewrite E. Qed.

Lemma Drained_stable l loan taken : stable (Drained l loan taken).
Proof.
  split; intros s e (Ho & Hc & I); [by rewrite hw_step_off by done|].
  split_and!; [done..|]. by apply inv_set_env.
Qed.

Lemma restart_rx_spec l loan taken :
  hoare (Drained l loan taken) (DmaList.restart_rx chip)
        (fun r s => match r with
                    | Ok _ => l <> [] /\ rx_on (driver s) = true /\ Live (chain_of l) l loan taken s
                    | Err _ => l = [] /\ Drained l loan taken s
                    end).
Proof.
  unfold DmaList.restart_rx.
  apply hoare_bind with (fun ch s => ch = chain_of l /\ Drained l loan taken s).
  { apply hoare_gets. intros s Hs. split; [apply Hs|done]. }
  intros ch. apply hoare_pure. intros ->. pose proof (chain_of_head l) as Hh.
  destruct (chain_of l) as [[a t]|] eqn:Hch.
  2: { apply hoare_ret. intros s Hs. split; [by destruct l|done]. }
  destruct l as [|a' l]; [done|]. injection Hh as <-.
  eapply hoare_bind with (fun _ s => rx_on (driver s) = true /\ Live (Some (a, t)) (a :: l) loan taken s).
  { apply hoare_ll_call; [apply Drained_stable|]. intros s (Ho & Hc & I).
    destruct (start_rx_engine a (driver s) (inv_quiet _ _ _ _ _ _ I)) as (d & E & G).
    exists tt, d. split; [done|]. split; [by destruct G|]. split; [by rewrite <- Hch|].
    exists [], (a :: l). split; [apply (inv_engine _ _ _ _ _ _ _ _ _ I G); by right|].
    apply (hw_next_engine _ _ _ (regs (driver s)) _ G); [done|].
    pose proof (inv_addr _ _ _ _ _ _ I) as AD. by apply Forall_cons_1 in AD as [AD _]. }
  intros []. apply hoare_ret. intros s Hs. by split.
Qed.

(** While the engine does nothing, [clear] resets the pending descriptors. *)
Definition reset_first (l : list Z) (h h' : heap) : Prop :=
  forall a, h' !! a = (if decide (a ∈ l) then DmaDescriptor.reset_for_rx else id) <$> h !! a.

(** The engine completes nothing: its schedule is empty, or it is off. *)
Definition calm (s : dma) : Prop := env s = [] \/ rx_on (driver s) = false.

Definition ticked (s : dma) : dma := set_env (tail (env s)) s.

Lemma tick_calm s : calm s -> DmaList.tick chip s = Some (tt, ticked s).
Proof.
  intros C. unfold DmaList.tick, modify, ticked. destruct (env s) as [|batch e] eqn:E.
  { destruct s; cbn in *. by subst. }
  destruct C as [C|C]; [congruence|]. replace (foldl (DmaList.hw_step chip) s batch) with s; [done|].
  clear E. induction batch as [|ev batch IH]; [done|]. cbn. by rewrite hw_step_off.
Qed.

Lemma load_calm s p d : calm s -> mem s !! p = Some d -> DmaList.load chip p s = Some (d, ticked s).
Proof.
  intros C Ed. unfold DmaList.load. rewrite M_bind_unfold, (tick_calm s C). unfold DmaList.deref.
  by rewrite (Ed : mem (ticked s) !! p = Some d).
Qed.

Lemma store_calm s p d f : calm s -> mem s !! p = Some d ->
  DmaList.store chip p f s = Some (tt, set_mem (<[p := f d]> (mem s)) (ticked s)).
Proof.
  intros C Ed. unfold DmaList.store. rewrite M_bind_unfold, (tick_calm s C). unfold DmaList.assign.
  by rewrite (Ed : mem (ticked s) !! p = Some d).
Qed.

Lemma reset_first_step l h h' a d :
  reset_first l h h' -> a ∉ l -> h !! a = Some d ->
  h' !! a = Some d /\ reset_first (l ++ [a]) h (<[a := DmaDescriptor.reset_for_rx d]> h').
Proof.
  intros R Ha Hd. pose proof (R a) as Ra. rewrite decide_False, Hd in Ra by done. split; [done|].
  intros b. destruct (decide (b = a)) as [->|Hne].
  - rewrite lookup_insert_eq, decide_True, Hd by (apply elem_of_app; right; by left). done.
  - rewrite lookup_insert_ne, (R b) by done. f_equal.
    destruct (decide (b ∈ l)) as [Hb|Hb].
    + by rewrite decide_True by (apply elem_of_app; by left).
    + rewrite decide_False; [done|]. rewrite elem_of_app, list_elem_of_singleton. by intros [|].
Qed.

(** The state after resetting descriptors of [s0] while it is calm. *)
Definition resetting (s0 s : dma) (l : list Z) : Prop :=
  exists h e, s = set_env e (set_mem h s0) /\ reset_first l (mem s0) h /\ calm s.

Lemma resetting_ticked s0 s l : resetting s0 s l -> resetting s0 (ticked s) l.
Proof.
  intros (h & e & -> & R & C). exists h, (tail e). split_and!; [done..|].
  destruct C as [C|C]; [left; cbn in *; by subst|by right].
Qed.

Lemma clear_loop_spec l taken pend free loan s0 fuel i s a :
  inv l taken pend free loan s0 -> (length l < fuel + i)%nat -> (i <= length pend)%nat ->
  l !! i = Some a -> resetting s0 s (take i l) ->
  exists s', DmaList.clear_loop chip fuel a s = Some (tt, s') /\ resetting s0 s' (take (length pend) l).
Proof.
  intros I. revert i s a. induction fuel as [|fuel IH]; intros i s a Hf Hi Ha HR.
  { apply lookup_lt_Some in Ha. lia. }
  cbn [DmaList.clear_loop].
  destruct (inv_chain_mem _ _ _ _ _ _ _ _ I Ha) as (d & Ed).
  assert (a ∉ take i l) as Na.
  { intros Hin. apply list_elem_of_lookup in Hin as (j & Hj). apply lookup_take_Some in Hj as [Hj Hlt].
    pose proof (inv_nodup _ _ _ _ _ _ I) as ND. apply NoDup_app in ND as (ND & _).
    pose proof (NoDup_lookup _ _ _ _ ND Ha Hj). lia. }
  pose proof (resetting_ticked _ _ _ HR) as HR1.
  destruct HR as (h & e & -> & R & C). destruct (reset_first_step _ _ _ _ _ R Na Ed) as [Ed' R'].
  rewrite M_bind_unfold, (load_calm _ _ d) by done.
  rewrite (inv_suc_eof _ _ _ _ _ _ _ _ _ I Ha Ed). case_bool_decide as Hlt.
  2: { eexists. split; [done|]. assert (i = length pend) as -> by lia. exact HR1. }
  pose proof (resetting_ticked _ _ _ HR1) as HR2. destruct HR1 as (_ & _ & _ & _ & C1), HR2 as (_ & _ & _ & _ & C2).
  rewrite M_bind_unfold, (store_calm _ _ d) by done. cbn [set_mem mem].
  rewrite <- (take_S_r _ _ _ Ha) in R'.
  assert (resetting s0 (ticked (set_mem (<[a:=DmaDescriptor.reset_for_rx d]> h)
    (ticked (ticked (set_env e (set_mem h s0)))))) (take (S i) l)) as HR3.
  { apply resetting_ticked. eexists _, _. split; [reflexivity|]. by split. }
  rewrite M_bind_unfold, (load_calm _ _ (DmaDescriptor.reset_for_rx d)) by (try done; cbn; by rewrite lookup_insert_eq).
  assert (DmaDescriptor.next (DmaDescriptor.reset_for_rx d) = l !! S i) as ->
    by exact (inv_next_link _ _ _ _ _ _ _ _ _ I Ha Ed).
  destruct (l !! S i) as [b|] eqn:Eb.
  - apply (IH (S i) _ b); [lia|lia|done|exact HR3].
  - eexists. split; [done|]. replace (length pend) with (S i); [exact HR3|].
    apply lookup_ge_None in Eb. pose proof (inv_split _ _ _ _ _ _ I) as E. apply (f_equal length) in E.
    rewrite length_app, length_fmap in E. lia.
Qed.

Lemma inv_cleared l taken pend free loan s h d on a :
  inv l taken pend free loan s -> reset_first (take (length pend) l) (mem s) h ->
  engine (driver s) d on a -> head l = Some a ->
  inv l (taken ++ pend) [] l loan (set_driver d (set_mem h s)) /\ hw_next (regs d) = head l.
Proof.
  intros I R G Hh. destruct (I) as [HS HL ND DM HP HF HO AD HN HQ HW].
  rewrite HS, take_app_length' in R by (by rewrite length_fmap).
  assert (hw_next (regs d) = head l) as En.
  { rewrite Hh. apply (hw_next_engine _ _ _ (regs (driver s)) _ G); [done|].
    apply Forall_app in AD as [AD _]. destruct l; [done|]. injection Hh as ->.
    by apply Forall_cons_1 in AD as [AD _]. }
  split; [|done]. constructor; cbn; try done.
  - intros i b Hb. destruct (HL i b Hb) as (db & Ed & Nd). rewrite (R b), Ed. eexists. split; [done|].
    by destruct (decide _).
  - rewrite <- DM. apply set_eq. intros b. by rewrite !elem_of_dom, (R b), fmap_is_Some.
  - rewrite HS. apply Forall_forall. intros b Hb. unfold fillable. rewrite (R b).
    apply elem_of_app in Hb as [Hb|Hb].
    + rewrite decide_True by done. apply list_elem_of_fmap in Hb as (f & -> & Hf).
      destruct (proj1 (Forall_forall _ _) HP f Hf) as (d' & -> & _). eexists. split; [done|]. apply suc_eof_reset.
    + destruct (proj1 (Forall_forall _ _) HF b Hb) as (d' & -> & Hd). eexists. split; [done|].
      destruct (decide _); [apply suc_eof_reset|done].
  - apply Forall_forall. intros f Hf. rewrite (R f.1), (proj1 (Forall_forall _ _) HO f Hf).
    rewrite decide_False; [done|]. intros Hin. apply NoDup_app in ND as (_ & D & _).
    refine (D f.1 _ _); [rewrite HS; apply elem_of_app; by left|by apply list_elem_of_fmap_2].
  - eapply Forall_impl; [exact AD|]. intros b. apply addr_ok_ext. by destruct G.
  - by right.
  - by apply (quiet_engine (driver s) _ on a).
  - by rewrite app_nil_r.
Qed.

Lemma clear_spec l loan taken pend free s :
  rx_chain_ptrs s = chain_of l -> inv l taken pend free loan s -> calm s ->
  exists s', DmaList.clear chip s = Some (tt, s') /\
    rx_chain_ptrs s' = chain_of l /\ inv l (taken ++ pend) [] l loan s' /\
    (l <> [] -> hw_next (regs (driver s')) = head l).
Proof.
  intros Hc I Cs. unfold DmaList.clear. rewrite M_bind_unfold. unfold gets at 1. rewrite Hc.
  pose proof (chain_of_head l) as Hh. destruct (chain_of l) as [[a t]|] eqn:Hch.
  2: { destruct l; [|done]. exists s. split; [done|]. split; [done|].
       pose proof (inv_split _ _ _ _ _ _ I) as E. symmetry in E. apply app_nil in E as [E ->].
       apply fmap_nil_inv in E as ->. by rewrite app_nil_r. }
  rewrite M_bind_unfold. unfold gets at 1.
  destruct (clear_loop_spec l taken pend free loan s (DmaList.fuel_of s) 0 s a I) as (s1 & E & h & e & -> & R & C).
  { unfold DmaList.fuel_of. pose proof (inv_length _ _ _ _ _ _ I). lia. }
  { lia. } { by destruct l. }
  { exists (mem s), (env s). split; [by destruct s|]. split; [|done]. intros b. by destruct (mem s !! b). }
  rewrite M_bind_unfold, E, M_bind_unfold. unfold gets. cbn [set_env set_mem rx_chain_ptrs]. rewrite Hc. cbn [fmap option_fmap option_map fst].
  unfold DmaList.set_rx_chain_base. rewrite M_bind_unfold. unfold modify. cbn [set_env set_mem rx_chain_ptrs]. rewrite Hc.
  unfold DmaList.ll_call. rewrite M_bind_unfold, tick_calm by done.
  destruct (set_base_engine a (driver s) (inv_quiet _ _ _ _ _ _ I)) as (d & Eb & G).
  unfold zoom, ticked. cbn [set_chain set_env set_mem driver]. rewrite Eb. eexists. split; [done|].
  destruct (inv_cleared _ _ _ _ _ _ _ _ _ _ I R G (eq_sym Hh)) as [I' En].
  split; [done|]. split; [|intros _; exact En].
  apply (inv_set_chain _ _ _ _ _ _ (Some (a, t))) in I'. by apply (inv_set_env _ _ _ _ _ _ (tail e)) in I'.
Qed.

(** Pausing and resuming leaves the engine where it is. *)
Lemma status_spec ch l loan taken known s on d :
  At ch l loan taken known s -> LowLevel.set_rx_enable on (driver s) = Some (tt, d) ->
  At ch l loan taken known (set_driver d s).
Proof.
  intros (Hc & pend & free & I & Hk) E.
  destruct (set_rx_enable_engine on (driver s) (inv_quiet _ _ _ _ _ _ I)) as (d' & E' & G).
  rewrite E in E'. injection E' as <-. split; [done|]. exists pend, free. split; [|done].
  destruct (I) as [? ? ? ? ? ? ? AD HN ? ?]. destruct (G) as [E1 E2 E3 E4]. constructor; try done; cbn.
  - eapply Forall_impl; [exact AD|]. intros a. by apply addr_ok_ext.
  - unfold DmaList.hw_next in *. by rewrite (pointer_of_low _ _ _ E4), (pointer_of_ext _ (regs (driver s))).
  - by apply (quiet_engine _ _ _ _ (inv_quiet _ _ _ _ _ _ I) G).
Qed.

(** ** The slab *)

Definition addresses (b : DmaBufferSlab) : list Z := Slab.descriptor_ptr b <$> seq 0 (slab_count b).

Lemma descriptor_ptr_inj b i j : Slab.descriptor_ptr b i = Slab.descriptor_ptr b j -> i = j.
Proof. unfold Slab.descriptor_ptr. lia. Qed.

Lemma suc_eof_init b n i : DmaDescriptor.suc_eof (Slab.init_descriptor b n i) = Z.testbit (u32 (slab_size b)) 30.
Proof.
  unfold Slab.init_descriptor. rewrite suc_eof_set_owner, suc_eof_testbit.
  cbn -[Z.testbit Z.land Z.lor wrap Z.shiftl]. bit_solve. done.
Qed.

Lemma init_iter_spec b n next h :
  exists h', Slab.init_iter b next h (rev (seq 0 n)) = (rev (Slab.descriptor_ptr b <$> seq 0 n), h') /\
    (forall i, (i < n)%nat -> h' !! Slab.descriptor_ptr b i =
       Some (Slab.init_descriptor b (if decide (S i = n) then next else Slab.descriptor_ptr b (S i)) i)) /\
    (forall a, (a ∉ Slab.descriptor_ptr b <$> seq 0 n) -> h' !! a = h !! a).
Proof.
  revert next h. induction n as [|n IH]; intros next h.
  { exists h. split; [done|]. split; [lia|done]. }
  rewrite seq_S, rev_app_distr, fmap_app, rev_app_distr. cbn [rev app Slab.init_iter fmap list_fmap Nat.add].
  destruct (IH (Slab.descriptor_ptr b n) (<[Slab.descriptor_ptr b n:=Slab.init_descriptor b next n]> h))
    as (h' & E & Hin & Hout). rewrite E. exists h'. split; [done|]. split.
  - intros i Hi. destruct (decide (i = n)) as [->|Hne].
    + rewrite Hout, lookup_insert_eq; [by rewrite decide_True|].
      intros Hin'. apply list_elem_of_fmap in Hin' as (j & Ej & Hj).
      apply descriptor_ptr_inj in Ej. apply elem_of_seq in Hj. lia.
    + rewrite Hin by lia. rewrite (decide_False (P := S i = S n)) by lia.
      do 2 f_equal. destruct (decide (S i = n)) as [->|]; done.
  - intros a Ha. apply not_elem_of_app in Ha as [Ha1 Ha2].
    rewrite Hout by done. rewrite lookup_insert_ne; [done|]. intros <-. apply Ha2. by left.
Qed.

(** [DmaBufferSlab::init] links the descriptors of the slab in order, all of
    them empty. *)
Lemma slab_init_spec b base last_ptr h :
  Slab.init b = Some ((base, last_ptr), h) -> 0 <= slab_size b < 4096 ->
  let l := addresses b in
  chain_of l = Some (base, last_ptr) /\ linked h l /\ dom h = list_to_set l /\ Forall (fillable h) l.
Proof.
  unfold Slab.init. intros E Hsz.
  destruct (init_iter_spec b (slab_count b) 0 ∅) as (h' & E' & Hin & Hout). rewrite E' in E.
  fold (addresses b) in E, Hout.
  assert (h' = h /\ chain_of (addresses b) = Some (base, last_ptr)) as [-> Hch].
  { destruct (rev (addresses b)) as [|x r] eqn:Er; [done|].
    destruct (last r) as [y|] eqn:El; [|done]. injection E as <- <- <-. split; [done|].
    apply last_Some in El as (r' & ->). apply (f_equal (@rev Z)) in Er. rewrite rev_involutive in Er.
    rewrite Er. cbn [rev]. rewrite rev_app_distr. cbn. unfold chain_of.
    by rewrite app_comm_cons, last_snoc. }
  assert (forall i a, addresses b !! i = Some a -> (i < slab_count b)%nat /\ a = Slab.descriptor_ptr b i) as Hl.
  { intros i a Ha. unfold addresses in Ha. rewrite list_lookup_fmap in Ha.
    destruct (seq 0 (slab_count b) !! i) as [j|] eqn:Ej; [|done]. apply lookup_seq in Ej as [-> ?].
    injection Ha as <-. done. }
  cbv zeta. split; [done|]. split; [|split].
  - intros i a Ha. destruct (Hl i a Ha) as [Hi ->]. rewrite Hin by done. eexists. split; [done|].
    cbn [Slab.init_descriptor DmaDescriptor.set_owner DmaDescriptor.set_flags d_next].
    change (d_next _) with (if decide (S i = slab_count b) then 0 else Slab.descriptor_ptr b (S i)).
    unfold addresses. rewrite list_lookup_fmap. destruct (decide (S i = slab_count b)).
    + rewrite lookup_seq_ge by lia. done.
    + rewrite lookup_seq_lt by lia. done.
  - apply set_eq. intros a. rewrite elem_of_dom, elem_of_list_to_set.
    destruct (decide (a ∈ addresses b)) as [Ha|Ha].
    + split; [done|]. intros _. apply list_elem_of_lookup in Ha as (i & Hi).
      destruct (Hl i a Hi) as [? ->]. rewrite Hin by done. by eexists.
    + rewrite Hout by done. split; [by intros []|done].
  - apply Forall_lookup. intros i a Ha. destruct (Hl i a Ha) as [Hi ->]. eexists. split; [by apply Hin|].
    rewrite suc_eof_init, wrap_testbit by lia. change (30 <? 32) with true. rewrite andb_true_l.
    apply (testbit_high 12); [|lia]. unfold in_width. lia.
Qed.

(** ** The system

    The states the receive queue of a slab reaches under any schedule of the
    engine and a client that keeps two rules.  [consumed] lists the frames
    handed out or discarded, [loan] the descriptors that are out.  The client
    takes, returns, stops, pauses and resumes at any time; it clears only when
    the engine completes no frame during the call, for example because
    reception is paused, and it calls [restart_rx], which the crate itself never
    does, only when the engine is stopped and every frame was read.  The code
    does not enforce the two rules; [Demo.clear_races] and [Demo.restart_rx_overwrites] below show what breaks
    without them, and [RxSafety] what still holds. *)

Definition frames_of (w : list hw_write) : list (Z * Z) := (fun x => (w_ptr x, w_len x)) <$> w.

Inductive reach (b : DmaBufferSlab) : dma -> list (Z * Z) -> list (Z * DmaDescriptor) -> Prop :=
| reach_new base last_ptr h d e s :
    Slab.init b = Some ((base, last_ptr), h) -> quiet d -> rx_on d = false ->
    Forall (addr_ok (regs d)) (addresses b) ->
    DmaList.new chip base last_ptr (mkDma h None d e []) = Some (tt, s) ->
    reach b s [] []
| reach_env s consumed loan e : reach b s consumed loan -> reach b (set_env e s) consumed loan
| reach_take_none s consumed loan s' :
    reach b s consumed loan -> DmaList.take_first chip s = Some (None, s') -> reach b s' consumed loan
| reach_take s consumed loan p d s' :
    reach b s consumed loan -> DmaList.take_first chip s = Some (Some p, s') -> mem s' !! p = Some d ->
    reach b s' (consumed ++ [(p, DmaDescriptor.len d)]) ((p, d) :: loan)
| reach_recycle s consumed loan p d loan' s' :
    reach b s consumed loan -> loan ≡ₚ (p, d) :: loan' -> DmaList.recycle chip p s = Some (tt, s') ->
    reach b s' consumed loan'
| reach_clear s consumed loan s' :
    reach b s consumed loan -> calm s -> DmaList.clear chip s = Some (tt, s') ->
    reach b s' (frames_of (writes s)) loan
| reach_stop s consumed loan s' :
    reach b s consumed loan -> DmaList.stop_rx chip s = Some (tt, s') -> reach b s' consumed loan
| reach_status s consumed loan on d :
    reach b s consumed loan -> LowLevel.set_rx_enable on (driver s) = Some (tt, d) ->
    reach b (set_driver d s) consumed loan
| reach_restart s consumed loan r s' :
    reach b s consumed loan -> rx_on (driver s) = false -> frames_of (writes s) = consumed ->
    DmaList.restart_rx chip s = Some (r, s') -> reach b s' consumed loan.

Lemma frames_of_writes l : frames_of (frame_write <$> l) = l.
Proof. induction l as [|[a n] l IH]; [done|]. cbn. by f_equal. Qed.

Lemma inv_loan_perm l taken pend free loan loan' s :
  loan ≡ₚ loan' -> inv l taken pend free loan s -> inv l taken pend free loan' s.
Proof.
  intros P I. destruct (I) as [HS HL ND DM HP HF HO AD HN HQ HW]. constructor; try done.
  - by rewrite <- P.
  - rewrite DM. apply list_to_set_perm_L. by rewrite P.
  - by rewrite <- P.
  - by rewrite <- P.
Qed.

Lemma addresses_nodup b : NoDup (addresses b).
Proof. apply NoDup_fmap_2; [|apply NoDup_seq]. intros i j. apply descriptor_ptr_inj. Qed.

Lemma new_spec b base last_ptr h d e :
  Slab.init b = Some ((base, last_ptr), h) -> 0 <= slab_size b < 4096 ->
  quiet d -> rx_on d = false -> Forall (addr_ok (regs d)) (addresses b) ->
  exists s, DmaList.new chip base last_ptr (mkDma h None d e []) = Some (tt, s) /\
    Live (chain_of (addresses b)) (addresses b) [] [] s.
Proof.
  intros Hi Hsz Q Off AD. destruct (slab_init_spec _ _ _ _ Hi Hsz) as (Hch & HL & HD & HF).
  set (P := fun s => rx_on (driver s) = false /\ driver s = d /\ mem s = h /\ writes s = []).
  enough (hoare P (DmaList.new chip base last_ptr) (fun _ => Live (chain_of (addresses b)) (addresses b) [] [])) as T.
  { destruct (T (mkDma h None d e [])) as ([] & s & E & L); [done|]. eauto. }
  assert (stable P) as SP.
  { split; intros s ev Hs; [|done]. by rewrite hw_step_off by apply Hs. }
  assert (head (addresses b) = Some base) as Hh by (rewrite <- chain_of_head, Hch; done).
  unfold DmaList.new. apply hoare_bind with (fun _ s => engine d (driver s) true base /\ mem s = h /\ writes s = []).
  { apply hoare_ll_call; [done|]. intros s (_ & -> & ? & ?).
    destruct (start_rx_engine base d Q) as (d' & E & G). by exists tt, d'. }
  intros []. apply hoare_modify. intros s (G & Hm & Hw). split; [done|].
  assert (hw_next (regs (driver s)) = head (addresses b)) as En.
  { rewrite Hh. apply (hw_next_engine _ _ _ (regs d) _ G); [done|].
    destruct (addresses b); [done|]. injection Hh as ->. by apply Forall_cons_1 in AD as [? _]. }
  exists [], (addresses b). split; [|done].
  constructor; cbn; rewrite ?app_nil_r, ?Hm; try done.
  - apply addresses_nodup.
  - eapply Forall_impl; [exact AD|]. intros a. apply addr_ok_ext. by destruct G.
  - by right.
  - by apply (quiet_engine d _ true base).
Qed.

(** Every reachable state satisfies the invariant. *)
Lemma reach_inv b s consumed loan :
  0 <= slab_size b < 4096 -> reach b s consumed loan ->
  exists l, At (chain_of l) l loan consumed 0 s /\ l ++ loan.*1 ≡ₚ addresses b.
Proof.
  intros Hsz R.
  induction R as [base last_ptr h d e s Hi Q Off AD E|s consumed loan e R IH|s consumed loan s' R IH E
    |s consumed loan p d s' R IH E Ed|s consumed loan p d loan' s' R IH HP E|s consumed loan s' R IH Ee E
    |s consumed loan s' R IH E|s consumed loan on d R IH E|s consumed loan r s' R IH Off Hf E].
  - destruct (new_spec b base last_ptr h d e Hi Hsz Q Off AD) as (s' & E' & L). rewrite E in E'. injection E' as <-.
    exists (addresses b). split; [by apply Live_At|by rewrite app_nil_r].
  - destruct IH as (l & A & P). exists l. split; [by apply At_set_env|done].
  - destruct IH as (l & A & P). destruct (take_first_spec l loan consumed 0 s A) as (r & s2 & E2 & T).
    rewrite E in E2. injection E2 as <- <-. exists l. split; [apply T|done].
  - destruct IH as (l & A & P). destruct (take_first_spec l loan consumed 0 s A) as (r & s2 & E2 & T).
    rewrite E in E2. injection E2 as <- <-. destruct T as (d' & l' & -> & _ & _ & A').
    assert (d' = d) as ->.
    { destruct A' as (_ & pend & free & I & _). pose proof (Forall_inv (inv_loan _ _ _ _ _ _ I)) as Hd.
      cbn in Hd. congruence. }
    exists l'. split; [done|]. by rewrite <- P, fmap_cons, <- Permutation_middle.
  - destruct IH as (l & A & P).
    assert (At (chain_of l) l ((p, d) :: loan') consumed 0 s) as A'.
    { destruct A as (Hc & pend & free & I & Hk). split; [done|]. exists pend, free.
      split; [by apply (inv_loan_perm _ _ _ _ loan)|done]. }
    destruct (recycle_spec l p d loan' consumed s A') as ([] & s2 & E2 & T). rewrite E in E2. injection E2 as <-.
    exists (l ++ [p]). split; [by apply Live_At|]. by rewrite <- P, HP, <- app_assoc.
  - destruct IH as (l & (Hc & pend & free & I & Hk) & P).
    destruct (clear_spec l loan consumed pend free s Hc I Ee) as (s2 & E2 & Hc2 & I2 & _).
    rewrite E in E2. injection E2 as <-. exists l. split; [|done]. split; [done|]. exists [], l.
    split; [|done]. by rewrite (inv_writes _ _ _ _ _ _ I), frames_of_writes.
  - destruct IH as (l & A & P). destruct (stop_rx_spec _ l loan consumed s A) as ([] & s2 & E2 & T & _).
    rewrite E in E2. injection E2 as <-. by exists l.
  - destruct IH as (l & A & P). exists l. split; [by eapply status_spec|done].
  - destruct IH as (l & (Hc & pend & free & I & Hk) & P). exists l. split; [|done].
    rewrite (inv_writes _ _ _ _ _ _ I), frames_of_writes in Hf.
    assert (pend = []) as -> by (by apply (app_inv_head consumed); rewrite app_nil_r).
    pose proof (inv_split _ _ _ _ _ _ I) as Hl. cbn in Hl. subst free.
    destruct (restart_rx_spec l loan consumed s) as (r2 & s2 & E2 & T); [done|].
    rewrite E in E2. injection E2 as <- <-. destruct r.
    + apply Live_At, T.
    + destruct T as (-> & _ & ? & I'). split; [done|]. by exists [], [].
Qed.

(** [take_first] and [recycle] return in every reachable state. *)
Lemma reach_take_total b s consumed loan :
  0 <= slab_size b < 4096 -> reach b s consumed loan ->
  exists r s', DmaList.take_first chip s = Some (r, s') /\
    match r with
    | None => reach b s' consumed loan
    | Some p => exists d, mem s' !! p = Some d /\ reach b s' (consumed ++ [(p, DmaDescriptor.len d)]) ((p, d) :: loan)
    end.
Proof.
  intros Hsz R. destruct (reach_inv _ _ _ _ Hsz R) as (l & A & _).
  destruct (take_first_spec l loan consumed 0 s A) as (r & s' & E & T). exists r, s'. split; [done|].
  destruct r as [p|]; [|by eapply reach_take_none].
  destruct T as (d & l' & _ & _ & _ & (_ & pend & free & I & _)). exists d.
  assert (mem s' !! p = Some d) as Hd by exact (Forall_inv (inv_loan _ _ _ _ _ _ I)).
  split; [done|]. by eapply reach_take.
Qed.

Lemma reach_recycle_total b s consumed p d loan :
  0 <= slab_size b < 4096 -> reach b s consumed ((p, d) :: loan) ->
  exists s', DmaList.recycle chip p s = Some (tt, s') /\ reach b s' consumed loan.
Proof.
  intros Hsz R. destruct (reach_inv _ _ _ _ Hsz R) as (l & A & _).
  destruct (recycle_spec l p d loan consumed s A) as ([] & s' & E & _). exists s'. split; [done|].
  by eapply reach_recycle.
Qed.

Lemma reach_consumed b s consumed loan :
  0 <= slab_size b < 4096 -> reach b s consumed loan -> (length consumed <= length (writes s))%nat.
Proof.
  intros Hsz R. destruct (reach_inv _ _ _ _ Hsz R) as (l & (_ & pend & free & I & _) & _).
  rewrite (inv_writes _ _ _ _ _ _ I), length_fmap, length_app. lia.
Qed.

(** ** The work left for the engine

    Writes done and completions still scheduled; no operation increases their
    sum. *)

Definition potential (s : dma) : nat := length (writes s) + length (concat (env s)).

Definition bounded {A} (m : M dma A) : Prop :=
  forall s a s', m s = Some (a, s') -> (potential s' <= potential s)%nat.

Lemma bounded_bind {A B} (m : M dma A) (f : A -> M dma B) :
  bounded m -> (forall a, bounded (f a)) -> bounded (m ≫= f).
Proof.
  intros Hm Hf s b s'. rewrite M_bind_unfold. destruct (m s) as [[a s1]|] eqn:E; [|done].
  intros E'. specialize (Hm _ _ _ E). specialize (Hf _ _ _ _ E'). lia.
Qed.

Lemma bounded_ret {A} (a : A) : bounded (mret a).
Proof. intros s b s' [= <- <-]. lia. Qed.

Lemma bounded_gets {A} (f : dma -> A) : bounded (gets f).
Proof. intros s b s' [= <- <-]. lia. Qed.

Lemma bounded_set_chain f : bounded (modify (fun s => set_chain (f s) s)).
Proof. intros s b s' [= <- <-]. done. Qed.

Lemma bounded_panic {A} : @bounded A panic.
Proof. done. Qed.

Lemma hw_step_writes s e :
  (length (writes (DmaList.hw_step chip s e)) <= S (length (writes s)))%nat /\ env (DmaList.hw_step chip s e) = env s.
Proof.
  unfold DmaList.hw_step. destruct (negb _); [by split; [lia|]|].
  destruct (hw_next _) as [p|]; [|by split; [lia|]].
  destruct (mem s !! p); cbn; rewrite length_app; cbn; split; (lia || done).
Qed.

Lemma bounded_tick : bounded (DmaList.tick chip).
Proof.
  intros s a s'. unfold DmaList.tick, modify. intros [= <- <-]. destruct (env s) as [|batch e] eqn:E; [done|].
  enough (forall s, length (writes (foldl (DmaList.hw_step chip) s batch)) <= length (writes s) + length batch)%nat as Hf.
  { unfold potential. cbn. rewrite E. cbn. rewrite length_app. specialize (Hf s). lia. }
  clear. induction batch as [|ev batch IH]; intros s; cbn; [lia|].
  specialize (IH (DmaList.hw_step chip s ev)). pose proof (hw_step_writes s ev). lia.
Qed.

Lemma bounded_ll_call {A} (m : M ll A) : bounded (DmaList.ll_call chip m).
Proof.
  apply bounded_bind; [apply bounded_tick|]. intros _ s a s'. unfold zoom.
  destruct (m (driver s)) as [[b d]|]; [|done]. intros [= <- <-]. done.
Qed.

Lemma bounded_load p : bounded (DmaList.load chip p).
Proof.
  apply bounded_bind; [apply bounded_tick|]. intros _ s a s'. unfold DmaList.deref.
  destruct (mem s !! p); [|done]. intros [= <- <-]. done.
Qed.

Lemma bounded_store p f : bounded (DmaList.store chip p f).
Proof.
  apply bounded_bind; [apply bounded_tick|]. intros _ s a s'. unfold DmaList.assign.
  destruct (mem s !! p); [|done]. intros [= <- <-]. done.
Qed.

Create HintDb bounded.
#[local] Hint Resolve bounded_bind bounded_ret bounded_gets bounded_panic bounded_tick @bounded_ll_call
  bounded_load bounded_store : bounded.

Ltac bounded_step :=
  repeat match goal with
  | |- bounded (_ ≫= _) => apply bounded_bind; [|intros ?]
  | |- bounded (match ?x with _ => _ end) => destruct x
  | |- bounded (modify _) => let s := fresh in let a := fresh in let s' := fresh in intros s a s' [= <- <-]; try destruct (rx_chain_ptrs s) as [[]|]; done
  | |- bounded _ => solve [auto with bounded nocore]
  end.

Lemma bounded_set_base o : bounded (DmaList.set_rx_chain_base chip o).
Proof. unfold DmaList.set_rx_chain_base. bounded_step. Qed.

Lemma bounded_restart_loop fuel cur : bounded (DmaList.restart_loop chip fuel cur).
Proof. revert cur. induction fuel as [|fuel IH]; intros cur; cbn [DmaList.restart_loop]; bounded_step. Qed.

Lemma bounded_restart : bounded (DmaList.restart_exhausted_rx chip).
Proof. unfold DmaList.restart_exhausted_rx. bounded_step. apply bounded_restart_loop. Qed.

#[local] Hint Resolve bounded_set_base bounded_restart : bounded.

Lemma bounded_take : bounded (DmaList.take_first chip).
Proof. unfold DmaList.take_first. bounded_step. Qed.

Lemma bounded_recycle p : bounded (DmaList.recycle chip p).
Proof. unfold DmaList.recycle. bounded_step. Qed.

(** ** Properties *)

(** C1: On the C3 and the S3, take a client that clears the queue only while the
    engine completes no frame and restarts it only when it is stopped and every
    frame was read; it may take, return, stop, pause and resume at any time
    ([reach]).  The code enforces neither rule.  In every state such a client
    reaches, under every interleaving with the DMA engine, the chain is linked from head to tail and ends in
    null; it consists of the descriptors with unread frames followed by the
    descriptors the engine may fill; together with the descriptors handed out
    it is exactly the slab, without duplicates; the engine has only ever
    written free descriptors, and the frames it wrote are, in order, the
    frames consumed followed by the unread ones; descriptors handed out keep
    their contents; and the engine stands at the first free descriptor or is
    exhausted. *)
Theorem rx_queue_delivers b s consumed loan :
  0 <= slab_size b < 4096 -> reach b s consumed loan ->
  exists pend free,
    rx_chain_ptrs s = chain_of (pend.*1 ++ free) /\
    linked (mem s) (pend.*1 ++ free) /\
    (pend.*1 ++ free) ++ loan.*1 ≡ₚ addresses b /\ NoDup (addresses b) /\
    Forall (holds_frame (mem s)) pend /\ Forall (fillable (mem s)) free /\
    Forall (fun f => mem s !! f.1 = Some f.2) loan /\
    writes s = frame_write <$> (consumed ++ pend) /\
    (hw_next (regs (driver s)) = None \/ hw_next (regs (driver s)) = head free).
Proof.
  intros Hsz R. destruct (reach_inv _ _ _ _ Hsz R) as (l & (Hc & pend & free & I & _) & P).
  pose proof (addresses_nodup b). destruct I as [-> ? ? ? ? ? ? ? ? ? ?]. exists pend, free. done.
Qed.

(** C2: On the C3 and the S3, in every state a client reaches that clears only
    while the engine completes no frame and restarts only a stopped and drained
    queue ([reach]), [take_first] returns, for every schedule of the engine: its loops end, no dangling pointer is followed and nothing
    panics.  If some frame is unread it returns a descriptor, and what it
    returns is always the oldest unread frame, unlinked from the chain. *)
Theorem take_first_oldest b s consumed loan :
  0 <= slab_size b < 4096 -> reach b s consumed loan ->
  exists r s', DmaList.take_first chip s = Some (r, s') /\
    match r with
    | None => frames_of (writes s) = consumed
    | Some p => exists d, mem s' !! p = Some d /\ d_next d = 0 /\ DmaDescriptor.suc_eof d = true /\
                  consumed ++ [(p, DmaDescriptor.len d)] `prefix_of` frames_of (writes s')
    end.
Proof.
  intros Hsz R. destruct (reach_inv _ _ _ _ Hsz R) as (l & (Hc & pend & free & I & _) & _).
  destruct (take_first_spec l loan consumed (length pend) s) as (r & s' & E & T).
  { split; [done|]. exists pend, free. by split. }
  exists r, s'. split; [done|]. destruct r as [p|].
  - destruct T as (d & l' & _ & Hd & Hn & (_ & pend' & free' & I' & _)). exists d.
    split; [exact (Forall_inv (inv_loan _ _ _ _ _ _ I'))|]. split; [done|]. split; [done|].
    rewrite (inv_writes _ _ _ _ _ _ I'), frames_of_writes. by eexists.
  - destruct T as [Hk _]. apply nil_length_inv in Hk as ->.
    by rewrite (inv_writes _ _ _ _ _ _ I), frames_of_writes, app_nil_r.
Qed.

(** C3: On the C3 and the S3, in every state a client reaches that clears only
    while the engine completes no frame and restarts only a stopped and drained
    queue ([reach]), returning a borrowed descriptor succeeds for every schedule
    of the engine, and afterwards the engine stands at the first
    free descriptor: it is exhausted only if every descriptor of the chain
    holds an unread frame, so reception never stalls on a free buffer. *)
Theorem recycle_restarts b s consumed p d loan :
  0 <= slab_size b < 4096 -> reach b s consumed ((p, d) :: loan) ->
  exists s' pend free, DmaList.recycle chip p s = Some (tt, s') /\
    rx_chain_ptrs s' = chain_of (pend.*1 ++ free) /\ last (pend.*1 ++ free) = Some p /\
    Forall (holds_frame (mem s')) pend /\ Forall (fillable (mem s')) free /\
    hw_next (regs (driver s')) = head free.
Proof.
  intros Hsz R. destruct (reach_inv _ _ _ _ Hsz R) as (l & A & _).
  destruct (recycle_spec l p d loan consumed s A) as ([] & s' & E & Hc & pend & free & I & En).
  exists s', pend, free. split; [done|]. pose proof (inv_split _ _ _ _ _ _ I) as Hl. rewrite <- Hl.
  split; [done|]. split; [apply last_snoc|]. split; [apply I|]. split; [apply I|done].
Qed.

End RxQueue.
End RxQueue.

(** ** Concrete runs

    Two descriptors on the S3, with the reference register layout. *)

Module Demo.

#[local] Existing Instance macro_bits_ref.
#[local] Existing Instance pac_ref.
#[local] Existing Instance ffi_ref.
#[local] Existing Instance rx_engine_ref.

Definition slab (n : nat) : DmaBufferSlab := mkSlab n 1600 0x3fc80000 0x3fc90000.
Definition registers : ll := mkLl (fun _ => 0) (fun _ => []) [].
Definition frame (n : Z) : hw_event := mkEvent n false 0.

(** Run an operation from the initial state of a slab, under a schedule. *)
Definition boot (n : nat) (e : list (list hw_event)) : option (unit * dma) :=
  match Slab.init (slab n) with
  | None => None
  | Some ((base, last_ptr), h) => DmaList.new Esp32s3 base last_ptr (mkDma h None registers e [])
  end.

Definition exec {A} (m : M dma A) (o : option (unit * dma)) : option (A * dma) :=
  match o with Some (_, s) => m s | None => None end.

Definition state_of {A} (o : option (A * dma)) (d : dma) : dma := default d (snd <$> o).
Definition dummy : dma := mkDma ∅ None registers [] [].

Definition s1 : dma := state_of (boot 2 [[]; [frame 100]]) dummy.
Definition s2 : dma := state_of (DmaList.take_first Esp32s3 s1) dummy.

Lemma run_state {A} (o : option (A * dma)) r : fst <$> o = Some r -> o = Some (r, state_of o dummy).
Proof. destruct o as [[a s]|]; [|done]. cbn. by intros [= ->]. Qed.

Lemma reach_s1 : RxQueue.reach Esp32s3 (slab 2) s1 [] [].
Proof.
  apply (RxQueue.reach_new Esp32s3 (slab 2) 0x3fc90000 0x3fc9000c
    (snd (default ((0, 0), ∅) (Slab.init (slab 2)))) registers [[]; [frame 100]]).
  - vm_compute. reflexivity.
  - done.
  - vm_compute. reflexivity.
  - by repeat constructor.
  - apply (run_state (DmaList.new _ _ _ _)). vm_compute. reflexivity.
Qed.

Lemma reach_s2 : exists d, RxQueue.reach Esp32s3 (slab 2) s2 [(0x3fc90000, 100)] [(0x3fc90000, d)].
Proof.
  destruct (mem s2 !! 0x3fc90000) as [d|] eqn:E; [|by vm_compute in E].
  exists d. replace [(0x3fc90000, 100)] with ([] ++ [(0x3fc90000, DmaDescriptor.len d)]).
  - apply (RxQueue.reach_take _ _ s1); [apply reach_s1| |done].
    apply run_state. vm_compute. reflexivity.
  - vm_compute in E. injection E as <-. done.
Qed.

Lemma layout_ok : fields_ok [RX_ENABLE; RX_DESCR_RELOAD].
Proof. apply (bool_decide_unpack _). vm_compute. exact I. Qed.

Lemma rx_queue_delivers_witness :
  exists (pend : list (Z * Z)) free,
    rx_chain_ptrs s2 = RxQueue.chain_of (pend.*1 ++ free) /\
    (pend.*1 ++ free) ++ [0x3fc90000] ≡ₚ RxQueue.addresses (slab 2) /\
    writes s2 = RxQueue.frame_write <$> ([(0x3fc90000, 100)] ++ pend).
Proof.
  destruct reach_s2 as (d & R).
  destruct (RxQueue.rx_queue_delivers Esp32s3 eq_refl layout_ok eq_refl (slab 2) s2 _ _
    ltac:(split; vm_compute; congruence) R) as (pend & free & Hc & _ & P & _ & _ & _ & _ & W & _).
  exists pend, free. exact (conj Hc (conj P W)).
Defined.

Lemma take_first_oldest_witness :
  exists r s', DmaList.take_first Esp32s3 s1 = Some (r, s') /\ r = Some 0x3fc90000.
Proof.
  destruct (RxQueue.take_first_oldest Esp32s3 eq_refl layout_ok eq_refl (slab 2) s1 _ _
    ltac:(split; vm_compute; congruence) reach_s1) as (r & s' & E & _).
  exists r, s'. split; [done|].
  assert (fst <$> DmaList.take_first Esp32s3 s1 = Some (Some 0x3fc90000)) as E' by (vm_compute; reflexivity).
  rewrite E in E'. by injection E'.
Defined.

Lemma recycle_restarts_witness :
  exists s' (pend : list (Z * Z)) free, DmaList.recycle Esp32s3 0x3fc90000 s2 = Some (tt, s') /\
    DmaList.hw_next Esp32s3 (regs (driver s')) = head free /\ last (pend.*1 ++ free) = Some 0x3fc90000.
Proof.
  destruct reach_s2 as (d & R).
  destruct (RxQueue.recycle_restarts Esp32s3 eq_refl layout_ok eq_refl (slab 2) s2 _ _ _ _
    ltac:(split; vm_compute; congruence) R) as (s' & pend & free & E & _ & L & _ & _ & En).
  exists s', pend, free. exact (conj E (conj En L)).
Defined.

(** [restart_rx] hands the head back to the engine even when it holds an
    unread frame: after a stop and a restart the engine overwrites it. *)
Lemma restart_rx_overwrites :
  (fun s => w_harmful <$> writes s) <$> (snd <$>
    exec (DmaList.stop_rx Esp32s3 ;; DmaList.restart_rx Esp32s3 ;; DmaList.tick Esp32s3)
         (boot 2 [[]; [frame 100]; []; [frame 200]]))
  = Some [false; true].
Proof. vm_compute. reflexivity. Qed.

(** A completion between the loop and the reload of [clear] leaves a complete
    descriptor behind the engine's new position: it is overwritten. *)
Lemma clear_races :
  (fun s => w_harmful <$> writes s) <$> (snd <$>
    exec (DmaList.clear Esp32s3 ;; DmaList.tick Esp32s3)
         (boot 3 [[]; [frame 100]; []; []; []; [frame 200]; [frame 300; frame 400]]))
  = Some [false; false; false; true].
Proof. vm_compute. reflexivity. Qed.

End Demo.
