(* ===== verification/RxSafety.v ===== *)
(** * What the receive list guarantees every client

    [RxQueue] proves that frames are delivered in order, for clients that keep
    two rules the code does not enforce.  Here the client is arbitrary: it may
    clear the list and restart reception at any time, under any schedule of
    the DMA engine.  Frames can then be lost or overwritten
    ([RxQueue.Demo.clear_races], [RxQueue.Demo.restart_rx_overwrites]); the
    structure of the list and the memory outside the slab cannot. *)

From S2P Require Import Prelude External Queue RxFrame Registers LowLevel DmaList RxQueue.

Module RxSafety.
Section RxSafety.
Import RxQueue.
Context `{MacroBits} `{Pac} `{Ffi} `{RxEngine}.
Variable chip : Chip.
Hypothesis chip_ok : c3_or_s3 chip = true.
Hypothesis rx_ctrl_fields : fields_ok [RX_ENABLE; RX_DESCR_RELOAD].
Hypothesis base_resets_null : Z.land (reset_value RX_DESCR_BASE) 0xfffff = 0.

Abbreviation hw_next := (DmaList.hw_next chip).
Abbreviation addr_ok := (RxQueue.addr_ok chip).

(** ** The invariant

    [l] is the chain, [loan] the descriptors handed out.  Nothing is said of
    which descriptors hold frames, nor where in the slab the engine stands. *)

Record sound (l loan : list Z) (s : dma) : Prop := {
  snd_linked : linked (mem s) l;
  snd_loan : forall a, a ∈ loan -> exists d, mem s !! a = Some d /\ d_next d = 0;
  snd_nodup : NoDup (l ++ loan);
  snd_dom : dom (mem s) = list_to_set (l ++ loan);
  snd_addr : Forall (addr_ok (regs (driver s))) (l ++ loan);
  snd_next : forall p, hw_next (regs (driver s)) = Some p -> p ∈ l ++ loan;
  snd_quiet : quiet (driver s);
  snd_writes : Forall (fun w => w_ptr w ∈ l ++ loan) (writes s)
}.

Definition Sound (ch : option (Z * Z)) (l loan : list Z) (s : dma) : Prop :=
  rx_chain_ptrs s = ch /\ sound l loan s.

Lemma sound_mem l loan s a : sound l loan s -> a ∈ l ++ loan -> exists d, mem s !! a = Some d.
Proof. intros Snd Ha. apply elem_of_dom. rewrite (snd_dom _ _ _ Snd). by apply elem_of_list_to_set. Qed.

Lemma sound_nonzero l loan s i a : sound l loan s -> l !! i = Some a -> a <> 0.
Proof.
  intros Snd Hi. apply (addr_ok_nonzero chip chip_ok (regs (driver s))).
  pose proof (snd_addr _ _ _ Snd) as AD. apply Forall_app in AD as [AD _].
  exact (proj1 (Forall_lookup _ _) AD i a Hi).
Qed.

Lemma sound_next_link l loan s i a d :
  sound l loan s -> l !! i = Some a -> mem s !! a = Some d -> DmaDescriptor.next d = l !! S i.
Proof.
  intros Snd Hi Hd. destruct (snd_linked _ _ _ Snd _ _ Hi) as (d' & E & N). rewrite Hd in E. injection E as <-.
  apply next_of_link; [done|]. intros b. apply (sound_nonzero _ _ _ _ _ Snd).
Qed.

(** Links stay in the slab. *)
Lemma sound_link l loan s a d :
  sound l loan s -> a ∈ l ++ loan -> mem s !! a = Some d -> d_next d = 0 \/ d_next d ∈ l.
Proof.
  intros Snd Ha Hd. apply elem_of_app in Ha as [Ha|Ha].
  - apply list_elem_of_lookup in Ha as (i & Hi). destruct (snd_linked _ _ _ Snd _ _ Hi) as (d' & E & N).
    rewrite Hd in E. injection E as <-. rewrite N. destruct (l !! S i) eqn:El; [right|by left].
    by apply list_elem_of_lookup_2 in El.
  - destruct (snd_loan _ _ _ Snd a Ha) as (d' & E & N). left. congruence.
Qed.

(** A write that keeps the link of a descriptor. *)
Lemma sound_flags l loan s p d d' :
  sound l loan s -> mem s !! p = Some d -> d_next d' = d_next d -> sound l loan (set_mem (<[p := d']> (mem s)) s).
Proof.
  intros Snd Hp En. destruct (Snd) as [HL HO ND DM AD HN HQ HW]. constructor; cbn; try done.
  - by apply (linked_insert _ _ _ d).
  - intros a Ha. destruct (HO a Ha) as (da & Ea & Na). destruct (decide (a = p)) as [->|Hne].
    + exists d'. rewrite lookup_insert_eq. split; [done|]. congruence.
    + exists da. by rewrite lookup_insert_ne.
  - by rewrite dom_insert_lookup_L.
Qed.

(** A register operation that points the engine into the slab, or nowhere. *)
Lemma sound_engine l loan s d on target :
  sound l loan s -> engine (driver s) d on target -> Z.land target 0xfffff = 0 \/ target ∈ l ++ loan ->
  sound l loan (set_driver d s).
Proof.
  intros Snd G Ht. destruct (Snd) as [HL HO ND DM AD HN HQ HW]. destruct (G) as [E1 E2 E3 E4]. constructor; cbn; try done.
  - eapply Forall_impl; [exact AD|]. intros a. by apply (addr_ok_ext chip chip_ok).
  - intros p. unfold DmaList.hw_next. rewrite (pointer_of_low chip chip_ok _ _ target) by done.
    destruct Ht as [Ht|Ht]; [by rewrite (pointer_of_null chip chip_ok)|].
    pose proof (proj1 (Forall_forall _ _) AD _ Ht) as Ha. unfold RxQueue.addr_ok in Ha.
    rewrite (pointer_of_ext chip chip_ok _ (regs (driver s))), Ha by done. by intros [= <-].
  - by apply (quiet_engine (driver s) _ on target).
Qed.

Lemma sound_hw_step l loan s e : sound l loan s -> sound l loan (DmaList.hw_step chip s e).
Proof.
  intros Snd. unfold DmaList.hw_step. destruct (negb _); [done|].
  destruct (hw_next (regs (driver s))) as [p|] eqn:En; [|done]. pose proof (snd_next _ _ _ Snd p En) as Hp.
  destruct (sound_mem _ _ _ _ Snd Hp) as (d & Ed). rewrite Ed. cbv zeta.
  pose proof (sound_link _ _ _ _ _ Snd Hp Ed) as Hl.
  destruct (sound_flags l loan s p d (DmaDescriptor.complete (ev_len e) d) Snd Ed eq_refl) as [HL HO ND DM AD HN HQ HW].
  constructor; cbn [mem driver regs inputs writes]; try done.
  - intros q. rewrite (hw_next_upd chip chip_ok). destruct (ev_cached_null e).
    + rewrite (pointer_of_null chip chip_ok); [done|]. change 0xfffff with (Z.land 0xfffff 0xfffff) at 1.
      exact (land_status (ev_status e) 0).
    + rewrite (pointer_of_low chip chip_ok _ _ (d_next d)) by apply land_status.
      destruct Hl as [->|Hl]; [by rewrite (pointer_of_null chip chip_ok)|].
      assert (d_next d ∈ l ++ loan) as Hin by (apply elem_of_app; by left).
      pose proof (proj1 (Forall_forall _ _) AD _ Hin) as Ha. unfold RxQueue.addr_ok in Ha. cbn in Ha.
      rewrite Ha. by intros [= <-].
  - apply Forall_app. split; [done|]. by repeat constructor.
Qed.

Lemma Sound_stable ch l loan : stable chip (Sound ch l loan).
Proof.
  split; intros s e [Hc Snd].
  - split; [|by apply sound_hw_step]. unfold DmaList.hw_step. repeat case_match; done.
  - split; [done|]. destruct Snd. by constructor.
Qed.

Lemma Sound_set_chain ch c l loan s : Sound ch l loan s -> Sound c l loan (set_chain c s).
Proof. intros [_ []]. split; [done|]. by constructor. Qed.

(** ** Accesses *)

Lemma load_sound ch l loan p :
  p ∈ l ++ loan ->
  hoare (Sound ch l loan) (DmaList.load chip p) (fun d s => Sound ch l loan s /\ mem s !! p = Some d).
Proof.
  intros Hp. unfold DmaList.load. apply hoare_access; [apply Sound_stable|]. intros s Hs.
  destruct (sound_mem _ _ _ _ (proj2 Hs) Hp) as (d & Ed). exists d, s. unfold DmaList.deref. by rewrite Ed.
Qed.

Lemma store_sound ch l loan p f (Q : dma -> Prop) :
  p ∈ l ++ loan ->
  (forall s d, Sound ch l loan s -> mem s !! p = Some d -> Q (set_mem (<[p := f d]> (mem s)) s)) ->
  hoare (Sound ch l loan) (DmaList.store chip p f) (fun _ => Q).
Proof.
  intros Hp HQ. unfold DmaList.store. apply hoare_access; [apply Sound_stable|]. intros s Hs.
  destruct (sound_mem _ _ _ _ (proj2 Hs) Hp) as (d & Ed). eexists _, _. unfold DmaList.assign. rewrite Ed. eauto.
Qed.

Lemma store_flags ch l loan p f :
  p ∈ l ++ loan -> (forall d, d_next (f d) = d_next d) ->
  hoare (Sound ch l loan) (DmaList.store chip p f) (fun _ => Sound ch l loan).
Proof. intros Hp Hf. apply store_sound; [done|]. intros s d [Hc Snd] Ed. split; [done|]. by apply (sound_flags _ _ _ _ d). Qed.

Lemma engine_call ch l loan (m : M ll unit) :
  (forall d, quiet d -> exists d' on target, m d = Some (tt, d') /\ engine d d' on target /\
     (Z.land target 0xfffff = 0 \/ target ∈ l ++ loan)) ->
  hoare (Sound ch l loan) (DmaList.ll_call chip m) (fun _ => Sound ch l loan).
Proof.
  intros Hm. apply hoare_ll_call; [apply Sound_stable|]. intros s [Hc Snd].
  destruct (Hm (driver s) (snd_quiet _ _ _ Snd)) as (d & on & target & E & G & Ht).
  exists tt, d. split; [done|]. split; [done|]. by apply (sound_engine _ _ _ _ on target).
Qed.

Lemma set_base_sound ch l loan a :
  a ∈ l ++ loan ->
  hoare (Sound ch l loan) (DmaList.ll_call chip (LowLevel.set_base_rx_descriptor a)) (fun _ => Sound ch l loan).
Proof.
  intros Ha. apply engine_call. intros d Q.
  destruct (set_base_engine rx_ctrl_fields a d Q) as (d' & E & G). exists d', (rx_on d), a. auto.
Qed.

(** ** Operations *)

Lemma restart_loop_sound ch l loan fuel i :
  (length l < fuel + i)%nat -> (i <= length l)%nat ->
  hoare (Sound ch l loan) (DmaList.restart_loop chip fuel (l !! i)) (fun _ => Sound ch l loan).
Proof.
  revert i. induction fuel as [|fuel IH]; intros i Hf Hi; [lia|]. cbn [DmaList.restart_loop].
  destruct (l !! i) as [a|] eqn:Ea; [|by apply hoare_ret].
  assert (a ∈ l ++ loan) as Hin by (apply elem_of_app; left; by eapply list_elem_of_lookup_2).
  eapply hoare_bind; [by apply load_sound|]. intros d. cbv beta. destruct (DmaDescriptor.suc_eof d); cbn [negb].
  - intros s [Hs Ed]. rewrite (sound_next_link _ _ _ _ _ _ (proj2 Hs) Ea Ed).
    refine (IH (S i) _ _ s Hs); [lia|]. apply lookup_lt_Some in Ea. lia.
  - intros s [Hs _]. by apply set_base_sound.
Qed.

Lemma sound_length l loan s : sound l loan s -> (length l <= size (mem s))%nat.
Proof.
  intros Snd. rewrite <- size_dom, (snd_dom _ _ _ Snd), size_list_to_set by apply Snd. rewrite length_app. lia.
Qed.

Lemma restart_exhausted_sound ch l loan i :
  (fst <$> ch) = l !! i -> (i <= length l)%nat ->
  hoare (Sound ch l loan) (DmaList.restart_exhausted_rx chip) (fun _ => Sound ch l loan).
Proof.
  intros Hch Hi. unfold DmaList.restart_exhausted_rx. apply hoare_bind with (fun _ => Sound ch l loan).
  { apply hoare_ll_call; [apply Sound_stable|]. intros s Hs.
    exists (hw_next (regs (driver s))), (driver s). split; [apply (next_rx_quiet chip chip_ok), (proj2 Hs)|].
    by replace (set_driver (driver s) s) with s by (by destruct s). }
  intros [p|]; [by apply hoare_ret|].
  apply hoare_bind with (fun cur s => Sound ch l loan s /\ cur = l !! i).
  { apply hoare_gets. intros s Hs. split; [done|]. by rewrite (proj1 Hs). }
  intros cur. apply hoare_bind with (fun fuel s => Sound ch l loan s /\ cur = l !! i /\ (length l < fuel)%nat).
  { apply hoare_gets. intros s [Hs ->]. split_and!; [done..|]. unfold DmaList.fuel_of.
    pose proof (sound_length _ _ _ (proj2 Hs)). lia. }
  intros fuel s (Hs & -> & Hf). refine (restart_loop_sound _ _ _ _ _ _ _ s Hs); lia.
Qed.

(** Unlinking the head hands it out. *)
Lemma sound_pop a l loan s d :
  sound (a :: l) loan s -> mem s !! a = Some d ->
  sound l (a :: loan) (set_mem (<[a := DmaDescriptor.set_next None d]> (mem s)) s).
Proof.
  intros Snd Ed. destruct (Snd) as [HL HO ND DM AD HN HQ HW]. cbn in ND, AD.
  assert ((a :: l) ++ loan ≡ₚ l ++ a :: loan) as P by by rewrite <- Permutation_middle.
  apply NoDup_cons in ND as Hnd. destruct Hnd as [Na _]. apply not_elem_of_app in Na as [Na Nl].
  constructor; cbn; try done.
  - apply linked_insert_fresh; [done|]. intros i b Hb. exact (HL (S i) b Hb).
  - intros b [->|Hb]%elem_of_cons; [eexists; by rewrite lookup_insert_eq|].
    rewrite lookup_insert_ne by (intros ->; done). by apply HO.
  - by rewrite <- Permutation_middle.
  - rewrite dom_insert_lookup_L, DM by done. by apply list_to_set_perm_L.
  - rewrite <- P. done.
  - intros p Hp. rewrite <- P. by apply HN.
  - eapply Forall_impl; [exact HW|]. intros w. by rewrite <- P.
Qed.

(** The contract of [take_first]. *)
Definition Took (l loan : list Z) (r : option Z) (s : dma) : Prop :=
  match r with
  | None => Sound (chain_of l) l loan s
  | Some p => exists l', l = p :: l' /\ Sound (chain_of l') l' (p :: loan) s
  end.

Lemma advance_sound a t l loan :
  chain_of (a :: l) = Some (a, t) ->
  hoare (Sound (Some (a, t)) (a :: l) loan)
    (match head l with
     | Some next =>
         modify (fun s => set_chain ((fun c => (next, snd c)) <$> rx_chain_ptrs s) s) ;;
         DmaList.restart_exhausted_rx chip
     | None => DmaList.set_rx_chain_base chip None
     end)
    (fun _ => Sound (chain_of l) (a :: l) loan).
Proof.
  intros Hch. destruct l as [|b l]; cbn [head].
  - unfold DmaList.set_rx_chain_base. apply hoare_bind with (fun _ => Sound None [a] loan).
    { apply hoare_modify. intros s. apply Sound_set_chain. }
    intros _. apply engine_call. intros d Q.
    destruct (clear_base_engine rx_ctrl_fields base_resets_null d Q) as (d' & E & G).
    exists d', (rx_on d), 0. auto.
  - assert (chain_of (b :: l) = Some (b, t)) as Hb.
    { unfold chain_of in *. cbn [head] in *. change (last (a :: b :: l)) with (last (b :: l)) in Hch.
      destruct (last (b :: l)); congruence. }
    apply hoare_bind with (fun _ => Sound (Some (b, t)) (a :: b :: l) loan).
    { apply hoare_modify. intros s Hs. rewrite (proj1 Hs). by apply (Sound_set_chain _ _ _ _ _ Hs). }
    intros _. rewrite Hb. apply (restart_exhausted_sound _ _ _ 1); [done|cbn; lia].
Qed.

Lemma take_first_sound l loan :
  hoare (Sound (chain_of l) l loan) (DmaList.take_first chip) (Took l loan).
Proof.
  unfold DmaList.take_first.
  apply hoare_bind with (fun ch s => ch = chain_of l /\ Sound (chain_of l) l loan s).
  { apply hoare_gets. intros s Hs. split; [apply Hs|done]. }
  intros ch. apply hoare_pure. intros ->. destruct l as [|a l]; [by apply hoare_ret|].
  destruct (chain_of (a :: l)) as [[a' t]|] eqn:Hch.
  2: { by pose proof (chain_of_head (a :: l)) as E; rewrite Hch in E. }
  assert (a' = a) as -> by (pose proof (chain_of_head (a :: l)) as E; rewrite Hch in E; by injection E).
  assert (a ∈ (a :: l) ++ loan) as Hin by (by left).
  eapply hoare_bind; [by apply load_sound|]. intros flags. cbv beta. destruct (DmaDescriptor.suc_eof flags).
  - eapply hoare_bind with (fun d s => DmaDescriptor.next d = head l /\ Sound (Some (a, t)) (a :: l) loan s).
    { eapply hoare_post; [eapply hoare_pre; [by apply load_sound|by intros s [? _]]|].
      intros d s [Hs Ed]. split; [|done]. rewrite (sound_next_link _ _ _ 0%nat _ _ (proj2 Hs) eq_refl Ed). by destruct l. }
    intros d. apply hoare_pure. intros Hn. rewrite chip_ok, Hn.
    eapply hoare_bind; [by apply advance_sound|]. intros [].
    eapply hoare_bind; [by apply store_flags|]. intros [].
    eapply hoare_bind with (fun _ => Sound (chain_of l) l (a :: loan)).
    { apply store_sound; [done|]. intros s d' [Hc Snd] Ed. split; [done|]. by apply sound_pop. }
    intros _. apply hoare_ret. intros s Hs. by exists l.
  - rewrite chip_ok. eapply hoare_bind with (fun _ => Sound (Some (a, t)) (a :: l) loan).
    { eapply hoare_pre; [apply (restart_exhausted_sound _ _ _ 0); [done|cbn; lia]|by intros s [? _]]. }
    intros _. apply hoare_ret. intros s Hs. unfold Took. by rewrite Hch.
Qed.

(** Linking a descriptor behind the tail returns it. *)
Lemma sound_append l t p loan s dt :
  sound l (p :: loan) s -> last l = Some t -> mem s !! t = Some dt ->
  sound (l ++ [p]) loan (set_mem (<[t := DmaDescriptor.set_next (Some p) dt]> (mem s)) s).
Proof.
  intros Snd Ht Edt. destruct (Snd) as [HL HO ND DM AD HN HQ HW].
  destruct (HO p ltac:(by left)) as (d & Ed & Hn).
  assert (t ∈ l) as Htl by (apply last_Some in Ht as [k ->]; apply elem_of_app; right; by left).
  assert ((p ∉ l) /\ (t ∉ loan)) as [Np Nt].
  { rewrite <- Permutation_middle, NoDup_cons, not_elem_of_app, NoDup_app in ND.
    destruct ND as ([? _] & _ & D & _). split; [done|]. by apply D. }
  constructor; cbn; rewrite <- ?app_assoc; try done.
  - apply (linked_append _ _ _ _ d dt); try done; [by apply NoDup_app in ND as (? & _)|by intros ->].
  - intros a Ha. destruct (HO a ltac:(by right)) as (da & Ea & Na). exists da.
    rewrite lookup_insert_ne by (intros ->; done). done.
  - by rewrite dom_insert_lookup_L.
Qed.

Lemma sound_singleton p loan s : sound [] (p :: loan) s -> sound [p] loan s.
Proof.
  intros [HL HO ND DM AD HN HQ HW]. constructor; try done.
  - intros [|i] a Ha; [|done]. injection Ha as <-. by apply HO; left.
  - intros a Ha. apply HO. by right.
Qed.

Lemma recycle_sound l p loan :
  hoare (Sound (chain_of l) l (p :: loan)) (DmaList.recycle chip p) (fun _ => Sound (chain_of (l ++ [p])) (l ++ [p]) loan).
Proof.
  assert (p ∈ l ++ p :: loan) as Hp by (apply elem_of_app; right; by left).
  unfold DmaList.recycle. eapply hoare_bind with (fun _ => Sound (chain_of l) l (p :: loan)).
  { apply store_sound; [done|]. intros s d [Hc Snd] Ed. split; [done|]. apply (sound_flags _ _ _ _ d); [done..|].
    destruct (snd_loan _ _ _ Snd p ltac:(by left)) as (d' & E & N). cbn. congruence. }
  intros _. eapply hoare_bind; [by apply store_flags|]. intros [].
  apply hoare_bind with (fun ch s => ch = chain_of l /\ Sound (chain_of l) l (p :: loan) s).
  { apply hoare_gets. intros s Hs. split; [apply Hs|done]. }
  intros ch. apply hoare_pure. intros ->. rewrite chip_ok, chain_of_snoc.
  destruct (chain_of l) as [[a t]|] eqn:Hch.
  - assert (last l = Some t /\ head l = Some a) as [Ht Ha].
    { unfold chain_of in Hch. destruct (head l), (last l); try done. by injection Hch as -> ->. }
    assert (t ∈ l ++ p :: loan) as Htl.
    { apply last_Some in Ht as [k ->]. rewrite !elem_of_app. left. right. by left. }
    eapply hoare_bind with (fun _ => Sound (Some (a, t)) (l ++ [p]) loan).
    { apply store_sound; [done|]. intros s d [Hc Snd] Ed. split; [done|]. by apply sound_append. }
    intros _. apply hoare_bind with (fun _ => Sound (Some (a, p)) (l ++ [p]) loan).
    { apply hoare_modify. intros s. apply Sound_set_chain. }
    intros _. rewrite Ha. apply (restart_exhausted_sound _ _ _ 0); [by destruct l|lia].
  - assert (l = []) as -> by (destruct l as [|b l]; [done|]; by pose proof (chain_of_head (b :: l)) as E; rewrite Hch in E).
    unfold DmaList.set_rx_chain_base. apply hoare_bind with (fun _ => Sound (Some (p, p)) [p] loan).
    { apply hoare_modify. intros s Hs. rewrite (proj1 Hs). split; [done|]. apply sound_singleton.
      apply (Sound_set_chain _ (Some (p, p)) _ _ _ Hs). }
    intros _. apply set_base_sound. by left.
Qed.

Lemma clear_loop_sound ch l loan fuel i a :
  (length l < fuel + i)%nat -> l !! i = Some a ->
  hoare (Sound ch l loan) (DmaList.clear_loop chip fuel a) (fun _ => Sound ch l loan).
Proof.
  revert i a. induction fuel as [|fuel IH]; intros i a Hf Ha; [apply lookup_lt_Some in Ha; lia|].
  cbn [DmaList.clear_loop].
  assert (a ∈ l ++ loan) as Hin by (apply elem_of_app; left; by eapply list_elem_of_lookup_2).
  eapply hoare_bind; [by apply load_sound|]. intros d. cbv beta. destruct (DmaDescriptor.suc_eof d).
  - eapply hoare_bind; [eapply hoare_pre; [by apply store_flags|by intros s [? _]]|]. intros [].
    eapply hoare_bind; [by apply load_sound|]. intros d'. intros s [Hs Ed].
    rewrite (sound_next_link _ _ _ _ _ _ (proj2 Hs) Ha Ed). destruct (l !! S i) as [b|] eqn:Eb.
    + refine (IH (S i) b _ Eb s Hs). lia.
    + by eexists _, _.
  - apply hoare_ret. by intros s [? _].
Qed.

Lemma clear_sound l loan :
  hoare (Sound (chain_of l) l loan) (DmaList.clear chip) (fun _ => Sound (chain_of l) l loan).
Proof.
  unfold DmaList.clear. apply hoare_bind with (fun ch s => ch = chain_of l /\ Sound (chain_of l) l loan s).
  { apply hoare_gets. intros s Hs. split; [apply Hs|done]. }
  intros ch. apply hoare_pure. intros ->. pose proof (chain_of_head l) as Hh.
  destruct (chain_of l) as [[a t]|] eqn:Hch; [|by apply hoare_ret]. cbn in Hh.
  apply hoare_bind with (fun fuel s => (length l < fuel)%nat /\ Sound (Some (a, t)) l loan s).
  { apply hoare_gets. intros s Hs. split; [|done]. unfold DmaList.fuel_of. pose proof (sound_length _ _ _ (proj2 Hs)). lia. }
  intros fuel. apply hoare_pure. intros Hf. eapply hoare_bind.
  { apply (clear_loop_sound _ _ _ _ 0); [lia|]. by destruct l. }
  intros []. apply hoare_bind with (fun ch s => ch = Some (a, t) /\ Sound (Some (a, t)) l loan s).
  { apply hoare_gets. intros s Hs. split; [apply Hs|done]. }
  intros ch. apply hoare_pure. intros ->. cbn [fmap option_fmap option_map fst]. unfold DmaList.set_rx_chain_base.
  apply hoare_bind with (fun _ => Sound (Some (a, t)) l loan).
  { apply hoare_modify. intros s Hs. rewrite (proj1 Hs). apply (Sound_set_chain _ (Some (a, t)) _ _ _ Hs). }
  intros _. apply set_base_sound. destruct l; [done|]. injection Hh as ->. by left.
Qed.

Lemma stop_sound ch l loan : hoare (Sound ch l loan) (DmaList.stop_rx chip) (fun _ => Sound ch l loan).
Proof.
  apply engine_call. intros d Q. destruct (stop_rx_engine rx_ctrl_fields base_resets_null d Q) as (d' & E & G).
  exists d', false, 0. auto.
Qed.

Lemma restart_sound l loan :
  hoare (Sound (chain_of l) l loan) (DmaList.restart_rx chip) (fun _ => Sound (chain_of l) l loan).
Proof.
  unfold DmaList.restart_rx. apply hoare_bind with (fun ch s => ch = chain_of l /\ Sound (chain_of l) l loan s).
  { apply hoare_gets. intros s Hs. split; [apply Hs|done]. }
  intros ch. apply hoare_pure. intros ->. pose proof (chain_of_head l) as Hh.
  destruct (chain_of l) as [[a t]|]; [|by apply hoare_ret]. cbn in Hh.
  apply hoare_bind with (fun _ => Sound (Some (a, t)) l loan); [|intros _; by apply hoare_ret]. apply engine_call. intros d Q.
  destruct (start_rx_engine rx_ctrl_fields a d Q) as (d' & E & G). exists d', true, a. split_and!; [done..|right].
  destruct l; [done|]. injection Hh as ->. by left.
Qed.

(** ** The system under every client *)

(** The states any sequence of operations reaches, with the descriptors that
    are out; the schedule of the engine may change at any time. *)
Inductive any_reach (b : DmaBufferSlab) : dma -> list Z -> Prop :=
| any_new base last_ptr h d e s :
    Slab.init b = Some ((base, last_ptr), h) -> quiet d -> rx_on d = false ->
    Forall (addr_ok (regs d)) (addresses b) ->
    DmaList.new chip base last_ptr (mkDma h None d e []) = Some (tt, s) -> any_reach b s []
| any_env s loan e : any_reach b s loan -> any_reach b (set_env e s) loan
| any_take s loan r s' :
    any_reach b s loan -> DmaList.take_first chip s = Some (r, s') -> any_reach b s' (option_list r ++ loan)
| any_recycle s loan p loan' s' :
    any_reach b s loan -> loan ≡ₚ p :: loan' -> DmaList.recycle chip p s = Some (tt, s') -> any_reach b s' loan'
| any_clear s loan s' : any_reach b s loan -> DmaList.clear chip s = Some (tt, s') -> any_reach b s' loan
| any_stop s loan s' : any_reach b s loan -> DmaList.stop_rx chip s = Some (tt, s') -> any_reach b s' loan
| any_restart s loan r s' : any_reach b s loan -> DmaList.restart_rx chip s = Some (r, s') -> any_reach b s' loan
| any_status s loan on d :
    any_reach b s loan -> LowLevel.set_rx_enable on (driver s) = Some (tt, d) -> any_reach b (set_driver d s) loan.

(** The invariant of such a state. *)
Definition intact (b : DmaBufferSlab) (l loan : list Z) (s : dma) : Prop :=
  Sound (chain_of l) l loan s /\ l ++ loan ≡ₚ addresses b.

Lemma hoare_run {A} (P : dma -> Prop) (m : M dma A) (Q : A -> dma -> Prop) s a s' :
  hoare P m Q -> P s -> m s = Some (a, s') -> Q a s'.
Proof. intros Hm Hs E. destruct (Hm s Hs) as (a' & s2 & E' & HQ). rewrite E in E'. by injection E' as <- <-. Qed.

Lemma Sound_perm ch l loan loan' s : loan ≡ₚ loan' -> Sound ch l loan s -> Sound ch l loan' s.
Proof.
  intros P [Hc [HL HO ND DM AD HN HQ HW]]. split; [done|]. constructor; try done.
  - intros a. rewrite <- P. apply HO.
  - by rewrite <- P.
  - rewrite DM. apply list_to_set_perm_L. by rewrite P.
  - by rewrite <- P.
  - intros p Hp. rewrite <- P. by apply HN.
  - eapply Forall_impl; [exact HW|]. intros w. by rewrite <- P.
Qed.

Lemma Live_Sound ch l s : Live chip ch l [] [] s -> Sound ch l [] s.
Proof.
  intros (Hc & pend & free & I & En). split; [done|].
  destruct I as [HS HL ND DM HP HF HO AD HN HQ HW]. constructor; try done.
  - intros a Ha. by apply elem_of_nil in Ha.
  - intros p Hp. rewrite En in Hp. rewrite app_nil_r, HS. apply elem_of_app. right.
    destruct free; [done|]. injection Hp as ->. by left.
  - rewrite HW, HS, app_nil_r. apply Forall_forall. intros w Hw. apply list_elem_of_fmap in Hw as (f & -> & Hf).
    apply elem_of_app. left. exact (list_elem_of_fmap_2 fst pend f Hf).
Qed.

Lemma any_reach_intact b s loan :
  0 <= slab_size b < 4096 -> any_reach b s loan -> exists l, intact b l loan s.
Proof.
  intros Hsz R. induction R as [base last_ptr h d e s Hi Q Off AD E|s loan e R IH|s loan r s' R IH E
    |s loan p loan' s' R IH HP E|s loan s' R IH E|s loan s' R IH E|s loan r s' R IH E|s loan on d R IH E].
  - destruct (new_spec chip chip_ok rx_ctrl_fields b base last_ptr h d e Hi Hsz Q Off AD) as (s' & E' & L).
    rewrite E in E'. injection E' as <-. exists (addresses b). split; [by apply Live_Sound|by rewrite app_nil_r].
  - destruct IH as (l & A & P). exists l. split; [by apply Sound_stable|done].
  - destruct IH as (l & A & P). pose proof (hoare_run _ _ _ _ _ _ (take_first_sound l loan) A E) as T.
    destruct r as [p|]; [|by exists l]. destruct T as (l' & -> & Snd). exists l'. split; [done|].
    rewrite <- P. cbn. by rewrite <- Permutation_middle.
  - destruct IH as (l & A & P). apply (Sound_perm _ _ _ _ _ HP) in A.
    pose proof (hoare_run _ _ _ _ _ _ (recycle_sound l p loan') A E) as T. exists (l ++ [p]). split; [done|].
    by rewrite <- P, HP, <- app_assoc.
  - destruct IH as (l & A & P). exists l. split; [|done]. exact (hoare_run _ _ _ _ _ _ (clear_sound l loan) A E).
  - destruct IH as (l & A & P). exists l. split; [|done]. exact (hoare_run _ _ _ _ _ _ (stop_sound _ l loan) A E).
  - destruct IH as (l & A & P). exists l. split; [|done]. exact (hoare_run _ _ _ _ _ _ (restart_sound l loan) A E).
  - destruct IH as (l & [Hc Snd] & P). exists l. split; [|done]. split; [done|].
    destruct (set_rx_enable_engine rx_ctrl_fields on (driver s) (snd_quiet _ _ _ Snd)) as (d' & E' & G).
    rewrite E in E'. injection E' as <-. destruct (Snd) as [HL HO ND DM AD HN HQ HW]. destruct (G) as [E1 E2 E3 E4].
    constructor; cbn; try done.
    + eapply Forall_impl; [exact AD|]. intros a. by apply (addr_ok_ext chip chip_ok).
    + intros p. unfold DmaList.hw_next in *. rewrite (pointer_of_low chip chip_ok _ _ _ E4), (pointer_of_ext chip chip_ok _ (regs (driver s))) by done.
      apply HN.
    + by apply (quiet_engine _ _ _ _ HQ G).
Qed.

(** C23: What no client can break.  On the C3 and the S3, whatever sequence of
    operations is run on the receive list of a slab (take, return of a borrowed
    descriptor, clear, stop, restart, pause and resume, each at any time) and
    whatever the DMA engine completes between and during them: the chain is
    linked from head to tail and ends in null; chain and borrowed descriptors
    together are exactly the descriptors of the slab, without duplicates; the
    engine has written only descriptors of the slab and stands at one of them or
    is exhausted; and each operation returns from there: no loop runs forever,
    no dangling pointer is followed, nothing panics. *)
Theorem rx_list_intact b s loan :
  0 <= slab_size b < 4096 -> any_reach b s loan ->
  (exists l, rx_chain_ptrs s = chain_of l /\ linked (mem s) l /\ l ++ loan ≡ₚ addresses b /\ NoDup (addresses b)) /\
  Forall (fun w => w_ptr w ∈ addresses b) (writes s) /\
  (forall p, hw_next (regs (driver s)) = Some p -> p ∈ addresses b) /\
  (exists r s', DmaList.take_first chip s = Some (r, s')) /\
  (forall p, p ∈ loan -> exists s', DmaList.recycle chip p s = Some (tt, s')) /\
  (exists s', DmaList.clear chip s = Some (tt, s')) /\
  (exists s', DmaList.stop_rx chip s = Some (tt, s')) /\
  (exists r s', DmaList.restart_rx chip s = Some (r, s')).
Proof.
  intros Hsz R. destruct (any_reach_intact _ _ _ Hsz R) as (l & A & P). pose proof (proj2 A) as Snd.
  split_and!.
  - exists l. split_and!; [apply A|apply Snd|done|apply addresses_nodup].
  - eapply Forall_impl; [apply Snd|]. intros w. cbv beta. by rewrite P.
  - intros p Hp. rewrite <- P. by apply Snd.
  - destruct (take_first_sound l loan s A) as (r & s' & E & _). eauto.
  - intros p Hp. apply elem_of_Permutation in Hp as (loan' & HP).
    destruct (recycle_sound l p loan' s (Sound_perm _ _ _ _ _ HP A)) as ([] & s' & E & _). eauto.
  - destruct (clear_sound l loan s A) as ([] & s' & E & _). eauto.
  - destruct (stop_sound _ l loan s A) as ([] & s' & E & _). eauto.
  - destruct (restart_sound l loan s A) as (r & s' & E & _). eauto.
Qed.

End RxSafety.
End RxSafety.

(** A list of three descriptors that is cleared while the engine completes
    frames: one of them is overwritten ([RxQueue.Demo.clear_races]). *)
Module SafetyDemo.
Import Demo.

#[local] Existing Instance macro_bits_ref.
#[local] Existing Instance pac_ref.
#[local] Existing Instance ffi_ref.
#[local] Existing Instance rx_engine_ref.

Definition race : list (list hw_event) := [[]; [frame 100]; []; []; []; [frame 200]; [frame 300; frame 400]].
Definition booted : dma := state_of (boot 3 race) dummy.
Definition cleared : dma := state_of (DmaList.clear Esp32s3 booted) dummy.
Definition taken : dma := state_of (DmaList.take_first Esp32s3 cleared) dummy.

Lemma reach_taken : RxSafety.any_reach Esp32s3 (slab 3) taken [0x3fc90000].
Proof.
  apply (RxSafety.any_take Esp32s3 (slab 3) cleared [] (Some 0x3fc90000) taken).
  2: { apply run_state. vm_compute. reflexivity. }
  apply (RxSafety.any_clear _ _ booted).
  2: { apply run_state. vm_compute. reflexivity. }
  apply (RxSafety.any_new Esp32s3 (slab 3) 0x3fc90000 0x3fc90018
    (snd (default ((0, 0), ∅) (Slab.init (slab 3)))) registers race).
  - vm_compute. reflexivity.
  - done.
  - vm_compute. reflexivity.
  - by repeat constructor.
  - apply (run_state (DmaList.new _ _ _ _)). vm_compute. reflexivity.
Qed.

Lemma rx_list_intact_witness :
  existsb w_harmful (writes taken) = true /\
  (exists l, rx_chain_ptrs taken = RxQueue.chain_of l /\ RxQueue.linked (mem taken) l /\
     l ++ [0x3fc90000] ≡ₚ RxQueue.addresses (slab 3) /\ NoDup (RxQueue.addresses (slab 3))) /\
  Forall (fun w => w_ptr w ∈ RxQueue.addresses (slab 3)) (writes taken) /\
  exists s', DmaList.recycle Esp32s3 0x3fc90000 taken = Some (tt, s').
Proof.
  destruct (RxSafety.rx_list_intact Esp32s3 eq_refl layout_ok eq_refl (slab 3) taken [0x3fc90000]
    ltac:(split; vm_compute; congruence) reach_taken) as (Hl & Hw & _ & _ & Hr & _).
  split; [vm_compute; reflexivity|]. split; [exact Hl|]. split; [exact Hw|]. apply Hr. by left.
Defined.

End SafetyDemo.
