(* ===== verification/Wifi.v ===== *)
(** * The driver state and the interrupt handlers ([async_driver.rs])

    The statics of the driver (signals, sequence number, current channel,
    power control counter), the two interrupt handlers and the bounds checks.
    The MAC handler acknowledges TX slots through
    [LowLevelDriver::process_tx_status]. *)

From S2P Require Import Prelude External Queue Sync Registers LowLevel DmaList.

(** The errors of the driver's entry points. *)
Inductive OutOfBounds := OutOfBoundsError.
Inductive CryptoError := CryptoOutOfBounds | MulticastBitSet.
Inductive InvalidChannelError := InvalidChannel.

Inductive TxError :=
| ChannelAccess (e : ChannelAccessError)
| MacProtocol (e : MacProtocolError)
| BufferTooShort
| DisabledKeySlot
| TxOutOfBounds
| InvalidEdcaParameters.

#[export] Instance TxError_eq_dec : EqDecision TxError.
Proof. solve_decision. Defined.

Inductive ScanningMode := ScanDisabled | BeaconsOnly | ManagementAndData.

#[export] Instance ScanningMode_eq_dec : EqDecision ScanningMode.
Proof. solve_decision. Defined.

Module Validate.

Definition validate_interface (interface : nat) : result unit OutOfBounds :=
  if (interface <? INTERFACE_COUNT)%nat then Ok tt else Err OutOfBoundsError.

Definition validate_tsf_timer (timer : nat) : result unit OutOfBounds :=
  if (timer <? TSF_TIMER_COUNT)%nat then Ok tt else Err OutOfBoundsError.

Definition validate_key_slot (key_slot : nat) : result unit OutOfBounds :=
  if (key_slot <? KEY_SLOT_COUNT)%nat then Ok tt else Err OutOfBoundsError.

End Validate.

(** ** State *)

Section State.
Context `{AtomicWaker}.

Record wifi := mkWifi {
  w_dma : dma;
  WIFI_RX_SIGNAL_QUEUE : SignalQueue.SignalQueue;
  HARDWARE_TX_RESULT_SIGNALS : list TxSignal.HardwareTxResultSignal;
  TSF_TIMER_SIGNALS : list EventSignal.EventSignal;
  TBTT_SIGNALS : list EventSignal.EventSignal;
  FRAMES_SINCE_LAST_TXPWR_CTRL : Z;
  CURRENT_CHANNEL : Z;
  CURRENT_SEQUENCE_NUMBER : Z
}.

Definition w_ll (s : wifi) : ll := driver (w_dma s).

Definition set_dma (d : dma) (s : wifi) : wifi :=
  mkWifi d (WIFI_RX_SIGNAL_QUEUE s) (HARDWARE_TX_RESULT_SIGNALS s) (TSF_TIMER_SIGNALS s) (TBTT_SIGNALS s)
    (FRAMES_SINCE_LAST_TXPWR_CTRL s) (CURRENT_CHANNEL s) (CURRENT_SEQUENCE_NUMBER s).
Definition set_ll (d : ll) (s : wifi) : wifi := set_dma (set_driver d (w_dma s)) s.
Definition set_rx_signal (q : SignalQueue.SignalQueue) (s : wifi) : wifi :=
  mkWifi (w_dma s) q (HARDWARE_TX_RESULT_SIGNALS s) (TSF_TIMER_SIGNALS s) (TBTT_SIGNALS s)
    (FRAMES_SINCE_LAST_TXPWR_CTRL s) (CURRENT_CHANNEL s) (CURRENT_SEQUENCE_NUMBER s).
Definition set_tx_signals (l : list TxSignal.HardwareTxResultSignal) (s : wifi) : wifi :=
  mkWifi (w_dma s) (WIFI_RX_SIGNAL_QUEUE s) l (TSF_TIMER_SIGNALS s) (TBTT_SIGNALS s)
    (FRAMES_SINCE_LAST_TXPWR_CTRL s) (CURRENT_CHANNEL s) (CURRENT_SEQUENCE_NUMBER s).
Definition set_tsf_signals (l : list EventSignal.EventSignal) (s : wifi) : wifi :=
  mkWifi (w_dma s) (WIFI_RX_SIGNAL_QUEUE s) (HARDWARE_TX_RESULT_SIGNALS s) l (TBTT_SIGNALS s)
    (FRAMES_SINCE_LAST_TXPWR_CTRL s) (CURRENT_CHANNEL s) (CURRENT_SEQUENCE_NUMBER s).
Definition set_tbtt_signals (l : list EventSignal.EventSignal) (s : wifi) : wifi :=
  mkWifi (w_dma s) (WIFI_RX_SIGNAL_QUEUE s) (HARDWARE_TX_RESULT_SIGNALS s) (TSF_TIMER_SIGNALS s) l
    (FRAMES_SINCE_LAST_TXPWR_CTRL s) (CURRENT_CHANNEL s) (CURRENT_SEQUENCE_NUMBER s).
Definition set_txpwr (n : Z) (s : wifi) : wifi :=
  mkWifi (w_dma s) (WIFI_RX_SIGNAL_QUEUE s) (HARDWARE_TX_RESULT_SIGNALS s) (TSF_TIMER_SIGNALS s) (TBTT_SIGNALS s)
    n (CURRENT_CHANNEL s) (CURRENT_SEQUENCE_NUMBER s).
Definition set_current_channel (n : Z) (s : wifi) : wifi :=
  mkWifi (w_dma s) (WIFI_RX_SIGNAL_QUEUE s) (HARDWARE_TX_RESULT_SIGNALS s) (TSF_TIMER_SIGNALS s) (TBTT_SIGNALS s)
    (FRAMES_SINCE_LAST_TXPWR_CTRL s) n (CURRENT_SEQUENCE_NUMBER s).
Definition set_seq (n : Z) (s : wifi) : wifi :=
  mkWifi (w_dma s) (WIFI_RX_SIGNAL_QUEUE s) (HARDWARE_TX_RESULT_SIGNALS s) (TSF_TIMER_SIGNALS s) (TBTT_SIGNALS s)
    (FRAMES_SINCE_LAST_TXPWR_CTRL s) (CURRENT_CHANNEL s) n.

(** A call of the low level driver. *)
Definition lift {A} (m : M ll A) : M wifi A := zoom w_ll set_ll m.

(** The values of the statics when the program starts. *)
Definition boot_state (d : dma) : wifi :=
  mkWifi d SignalQueue.new (replicate 5 TxSignal.new) (replicate TSF_TIMER_COUNT EventSignal.new)
    (replicate INTERFACE_COUNT EventSignal.new) 0 1 0.

End State.

(** ** Interrupt handlers *)

Section Handlers.
Context `{AtomicWaker} `{MacroBits} `{Pac}.

(** [HARDWARE_TX_RESULT_SIGNALS[slot].signal(r)]; an index outside the array
    panics. *)
Definition signal_tx (slot : nat) (r : result unit ChannelAccessError) : M wifi unit :=
  l ← gets HARDWARE_TX_RESULT_SIGNALS;
  match l !! slot with
  | None => panic
  | Some sig => modify (set_tx_signals (<[slot := (TxSignal.signal r sig).1]> l))
  end.

Definition reset_tx_signal (slot : nat) : M wifi unit :=
  l ← gets HARDWARE_TX_RESULT_SIGNALS;
  match l !! slot with
  | None => panic
  | Some sig => modify (set_tx_signals (<[slot := TxSignal.reset sig]> l))
  end.

(** [LowLevelDriver::process_tx_status] *)
Definition process_tx_status (tx_result : result unit ChannelAccessError)
    (f : HardwareTxQueue -> M wifi unit) : M wifi unit :=
  raw_status ← lift (LowLevel.raw_tx_status tx_result);
  for_each (filter (fun i => check_bit raw_status (bit (Z.of_nat i)) = true) (seq 0 5)) (fun queue =>
    match from_hardware_slot (4 - queue) with
    | None => panic
    | Some q => f q ;; lift (LowLevel.clear_tx_slot_bit tx_result queue)
    end).

Definition mac_handler (chip : Chip) : M wifi unit :=
  cause ← lift LowLevel.get_and_clear_mac_interrupt_cause;
  if MacInterruptCause.is_empty cause then mret tt else
  (if MacInterruptCause.rx chip cause
   then modify (fun s => set_rx_signal (SignalQueue.put (WIFI_RX_SIGNAL_QUEUE s)).1 s) else mret tt) ;;
  (if MacInterruptCause.tx_success cause
   then process_tx_status (Ok tt) (fun queue => signal_tx (hardware_slot queue) (Ok tt)) else mret tt) ;;
  (if MacInterruptCause.tx_timeout cause
   then process_tx_status (Err Timeout) (fun queue =>
          signal_tx (hardware_slot queue) (Err Timeout) ;;
          lift (LowLevel.set_tx_queue_status queue Disabled)) else mret tt) ;;
  (if MacInterruptCause.tx_collision cause
   then process_tx_status (Err Collision) (fun queue =>
          signal_tx (hardware_slot queue) (Err Collision) ;;
          lift (LowLevel.set_tx_queue_status queue Disabled)) else mret tt).

(** [signals.iter().enumerate()]: signal those whose bit is set. *)
Definition signal_events (fired : nat -> bool) (l : list EventSignal.EventSignal) : list EventSignal.EventSignal :=
  imap (fun i sig => if fired i then (EventSignal.signal sig).1 else sig) l.

Definition pwr_handler (chip : Chip) : M wifi unit :=
  cause ← lift LowLevel.get_and_clear_pwr_interrupt_cause;
  if has_meta chip TSF_TIMER_PRESENT then
    modify (fun s => set_tsf_signals (signal_events (PwrInterruptCause.tsf_timer_fired cause) (TSF_TIMER_SIGNALS s)) s) ;;
    modify (fun s => set_tbtt_signals (signal_events (PwrInterruptCause.tbtt_of_interface cause) (TBTT_SIGNALS s)) s)
  else mret tt.

End Handlers.

(** ** What the MAC handler does *)

Definition tx_code (r : result unit ChannelAccessError) : Z :=
  match r with Ok _ => 1 | Err Timeout => 2 | Err Collision => 3 end.

(** The registers the handler does not write once it has acknowledged the
    interrupt. *)
Definition status_regs : list Reg := [WIFI_INT_STATUS; WIFI_INT_CLEAR; TX_COMPLETE_STATUS; TX_ERROR_STATUS].

Definition same_status (f g : Reg -> Z) : Prop := forall r, r ∈ status_regs -> f r = g r.

Lemma same_status_upd f g r v : r ∉ status_regs -> same_status f g -> same_status f (upd r v g).
Proof. intros Hr Hs r' Hr'. rewrite upd_ne; [by apply Hs|]. by intros ->. Qed.

(** The status byte of an outcome, read from the registers. *)
Definition status_byte (f : Reg -> Z) (r : result unit ChannelAccessError) : Z :=
  match r with
  | Ok _ => u8 (f TX_COMPLETE_STATUS)
  | Err Timeout => u8 (Z.shiftr (f TX_ERROR_STATUS) 0x10)
  | Err Collision => u8 (f TX_ERROR_STATUS)
  end.

(** The slot whose completion bit is bit [i]: the numbering is reversed. *)
Definition mark (f : Reg -> Z) (r : result unit ChannelAccessError) (codes : list Z) : list Z :=
  imap (fun slot code => if Z.testbit (status_byte f r) (4 - Z.of_nat slot) then tx_code r else code) codes.

(** The specification of the handler: success, then timeout, then collision. *)
Definition handler_codes (f : Reg -> Z) (codes : list Z) : list Z :=
  let cause := f WIFI_INT_STATUS in
  let c1 := if Z.testbit cause 7 then mark f (Ok tt) codes else codes in
  let c2 := if Z.testbit cause 19 then mark f (Err Timeout) c1 else c1 in
  if Z.testbit cause 8 then mark f (Err Collision) c2 else c2.

Section HandlerProofs.
Context `{AtomicWaker} `{MacroBits} `{Pac}.

Definition slot_codes (s : wifi) : list Z := TxSignal.state <$> HARDWARE_TX_RESULT_SIGNALS s.

(** The handler runs with the status registers [f]; the slots have [codes] and
    the receive queue is [q]. *)
Definition Isr (f : Reg -> Z) (q : SignalQueue.SignalQueue) (codes : list Z) (s : wifi) : Prop :=
  still (w_ll s) /\ same_status f (regs (w_ll s)) /\ slot_codes s = codes /\ WIFI_RX_SIGNAL_QUEUE s = q.

(** A register update outside the status registers. *)
Lemma lift_modify_isr f q codes r g :
  r ∉ status_regs -> hoare (Isr f q codes) (lift (modify_reg r g)) (fun _ => Isr f q codes).
Proof.
  intros Hr. apply hoare_zoom. intros s (St & Ss & ? & ?). eexists _, _.
  split; [by apply still_modify|]. split; [done|]. split; [by apply same_status_upd|]. done.
Qed.

Lemma signal_tx_spec f q codes slot r :
  (slot < length codes)%nat ->
  hoare (Isr f q codes) (signal_tx slot r) (fun _ => Isr f q (<[slot := tx_code r]> codes)).
Proof.
  intros Hl s (St & Ss & Hc & Hq). unfold signal_tx, gets. rewrite M_bind_unfold.
  assert (is_Some (HARDWARE_TX_RESULT_SIGNALS s !! slot)) as [sig Es].
  { apply lookup_lt_is_Some. rewrite <- Hc in Hl. unfold slot_codes in Hl. by rewrite length_fmap in Hl. }
  rewrite Es. eexists _, _. split; [reflexivity|]. split; [done|]. split; [done|]. split; [|done].
  unfold slot_codes. cbn. rewrite list_fmap_insert. unfold slot_codes in Hc. rewrite Hc. f_equal.
  unfold TxSignal.signal. destruct (waker_wake _). by destruct r as [[]|[]].
Qed.

Lemma raw_tx_status_still d r : still d ->
  LowLevel.raw_tx_status r d = Some (status_byte (regs d) r, d).
Proof.
  intros St. unfold LowLevel.raw_tx_status, status_byte.
  destruct r as [[]|[]]; rewrite M_bind_unfold, (still_read _ _ St); done.
Qed.

Lemma status_byte_same f g r : same_status f g -> status_byte g r = status_byte f r.
Proof. intros E. unfold status_byte, same_status in *. destruct r as [[]|[]]; rewrite E by decide_now; done. Qed.

(** The marks made for the bits processed so far. *)
Definition mark_done (f : Reg -> Z) (r : result unit ChannelAccessError) (done : list nat) (codes : list Z) : list Z :=
  imap (fun slot code => if decide ((4 - slot)%nat ∈ done) then tx_code r else code) codes.

Lemma mark_done_step f r done x codes :
  (x < 5)%nat -> length codes = 5%nat ->
  <[(4 - x)%nat := tx_code r]> (mark_done f r done codes) = mark_done f r (done ++ [x]) codes.
Proof.
  intros Hx Hl. apply list_eq. intros i. unfold mark_done.
  destruct (decide (i < 5)%nat) as [Hi|Hi].
  2: { rewrite !lookup_ge_None_2; rewrite ?length_insert, ?length_imap; [done|lia|lia]. }
  rewrite list_lookup_insert, !list_lookup_imap, length_imap.
  destruct (codes !! i) as [c|] eqn:Ec; [|apply lookup_ge_None in Ec; lia]. cbn.
  destruct (decide ((4 - x)%nat = i /\ ((4 - x) < length codes)%nat)) as [[<- _]|Hne].
  - rewrite decide_True; [done|]. apply elem_of_app. right. apply list_elem_of_singleton. lia.
  - f_equal. destruct (decide ((4 - i)%nat ∈ done)) as [D|D].
    + by rewrite decide_True by (apply elem_of_app; by left).
    + rewrite decide_False; [done|]. rewrite elem_of_app, list_elem_of_singleton.
      intros [|E]; [done|]. apply Hne. lia.
Qed.

Lemma mark_done_all f r codes :
  length codes = 5%nat ->
  mark_done f r (filter (fun i => check_bit (status_byte f r) (bit (Z.of_nat i)) = true) (seq 0 5)) codes
  = mark f r codes.
Proof.
  intros Hl. apply imap_ext. intros i c Hi. apply lookup_lt_Some in Hi.
  destruct (Z.testbit (status_byte f r) (4 - Z.of_nat i)) eqn:E.
  - rewrite decide_True; [done|]. apply list_elem_of_filter. split; [|apply elem_of_seq; lia].
    rewrite check_bit_bit by lia. by replace (Z.of_nat (4 - i)) with (4 - Z.of_nat i) by lia.
  - rewrite decide_False; [done|]. intros [Hb _]%list_elem_of_filter.
    rewrite check_bit_bit in Hb by lia. replace (Z.of_nat (4 - i)) with (4 - Z.of_nat i) in Hb by lia. congruence.
Qed.

(** [process_tx_status] marks the slots of the bits set; [f] is the handler's
    closure. *)
Lemma process_tx_status_spec f q codes r closure :
  length codes = 5%nat ->
  (forall queue codes', length codes' = 5%nat ->
     hoare (Isr f q codes') (closure queue) (fun _ => Isr f q (<[hardware_slot queue := tx_code r]> codes'))) ->
  hoare (Isr f q codes) (process_tx_status r closure) (fun _ => Isr f q (mark f r codes)).
Proof.
  intros Hl Hf. unfold process_tx_status.
  apply hoare_bind with (fun raw s => raw = status_byte f r /\ Isr f q codes s).
  { apply hoare_zoom. intros s (St & Ss & HR). eexists _, _. split; [by apply raw_tx_status_still|].
    split; [by apply status_byte_same|]. split; [done|]. split; [done|]. exact HR. }
  intros raw. apply hoare_pure. intros ->.
  rewrite <- (mark_done_all f r codes Hl).
  eapply hoare_conseq; [apply (hoare_for_each (fun done => Isr f q (mark_done f r done codes)))| |].
  - intros done x rest E.
    assert (x < 5)%nat as Hx.
    { assert (x ∈ filter (fun i => check_bit (status_byte f r) (bit (Z.of_nat i)) = true) (seq 0 5)) as Hin
        by (rewrite E; apply elem_of_app; right; by left).
      apply list_elem_of_filter in Hin as [_ Hin]. apply elem_of_seq in Hin. lia. }
    destruct (from_hardware_slot_Some (4 - x)) as [queue Eq]; [lia|]. rewrite Eq.
    eapply hoare_bind; [apply Hf; unfold mark_done; by rewrite length_imap|]. intros [].
    rewrite (hardware_slot_from _ _ Eq), mark_done_step by done.
    unfold LowLevel.clear_tx_slot_bit. destruct r as [[]|[]]; apply lift_modify_isr; decide_now.
  - intros s Hs. replace (mark_done f r [] codes) with codes; [done|].
    unfold mark_done. symmetry. apply list_eq. intros i. rewrite list_lookup_imap. by destruct (codes !! i).
  - done.
Qed.

Lemma cause_bit cause n : 0 <= n -> negb (Z.land cause (2 ^ n) =? 0) = Z.testbit cause n.
Proof.
  intros Hn. rewrite land_pow2 by done. assert (0 < 2 ^ n) by lia.
  destruct (Z.testbit cause n); [|done]. by destruct (Z.eqb_spec (2 ^ n) 0); [lia|].
Qed.

Lemma mark_length f r codes : length (mark f r codes) = length codes.
Proof. apply length_imap. Qed.

(** The closures of the error outcomes also disable the slot. *)
Lemma error_closure_spec f q codes queue r :
  length codes = 5%nat ->
  hoare (Isr f q codes)
    (signal_tx (hardware_slot queue) r ;; lift (LowLevel.set_tx_queue_status queue Disabled))
    (fun _ => Isr f q (<[hardware_slot queue := tx_code r]> codes)).
Proof.
  intros Hl. eapply hoare_bind.
  - apply signal_tx_spec. rewrite Hl. apply hardware_slot_lt.
  - intros []. apply lift_modify_isr. by destruct queue as [|[]]; decide_now.
Qed.

(** One branch of the handler. *)
Lemma handler_branch f q codes r (b : bool) closure :
  length codes = 5%nat ->
  (forall queue codes', length codes' = 5%nat ->
     hoare (Isr f q codes') (closure queue) (fun _ => Isr f q (<[hardware_slot queue := tx_code r]> codes'))) ->
  hoare (Isr f q codes) (if b then process_tx_status r closure else mret tt)
        (fun _ => Isr f q (if b then mark f r codes else codes)).
Proof. intros Hl Hf. destruct b; [by apply process_tx_status_spec|by apply hoare_ret]. Qed.

Lemma mac_handler_spec chip f q codes :
  length codes = 5%nat ->
  hoare (Isr f q codes) (mac_handler chip)
    (fun _ => Isr (upd WIFI_INT_CLEAR (f WIFI_INT_STATUS) f)
               (if MacInterruptCause.rx chip (f WIFI_INT_STATUS) then (SignalQueue.put q).1 else q)
               (handler_codes f codes)).
Proof.
  intros Hl. unfold mac_handler. set (cause := f WIFI_INT_STATUS). set (f' := upd WIFI_INT_CLEAR cause f).
  apply hoare_bind with (fun c s => c = cause /\ Isr f' q codes s).
  { apply hoare_zoom. intros s (St & Ss & HR). unfold LowLevel.get_and_clear_mac_interrupt_cause.
    rewrite M_bind_unfold, (still_read _ _ St). eexists _, _. split; [reflexivity|].
    assert (regs (w_ll s) WIFI_INT_STATUS = cause) as Ec by (symmetry; apply Ss; decide_now).
    split; [done|]. split; [done|]. split; [|exact HR].
    intros r Hr. cbn. rewrite Ec. unfold f', upd. destruct (decide _); [done|by apply Ss]. }
  intros c. apply hoare_pure. intros ->. unfold MacInterruptCause.is_empty.
  destruct (Z.eqb_spec cause 0) as [E0|_].
  { apply hoare_ret. intros s Hs. unfold handler_codes, MacInterruptCause.rx. fold cause. rewrite E0 in *.
    rewrite Z.land_0_l. cbn. exact Hs. }
  set (q' := if MacInterruptCause.rx chip cause then (SignalQueue.put q).1 else q).
  apply hoare_bind with (fun _ => Isr f' q' codes).
  { unfold q'. destruct (MacInterruptCause.rx chip cause); [|by apply hoare_ret].
    apply hoare_modify. intros s (St & Ss & Hc & ->). done. }
  intros [].
  assert (handler_codes f codes = handler_codes f' codes) as ->.
  { unfold handler_codes, mark, status_byte, f'. by rewrite !upd_ne by done. }
  unfold handler_codes. replace (f' WIFI_INT_STATUS) with cause by (unfold f'; by rewrite upd_ne).
  unfold MacInterruptCause.tx_success, MacInterruptCause.tx_timeout, MacInterruptCause.tx_collision.
  change 0x80 with (2 ^ 7). change 0x80000 with (2 ^ 19). change 0x100 with (2 ^ 8). rewrite !cause_bit by lia.
  eapply hoare_bind; [apply handler_branch; [done|]|].
  { intros queue codes' Hl'. apply signal_tx_spec. rewrite Hl'. apply hardware_slot_lt. }
  intros []. eapply hoare_bind; [apply handler_branch|].
  { by destruct (Z.testbit cause 7); rewrite ?mark_length. }
  { intros queue codes' Hl'. by apply error_closure_spec. }
  intros []. apply handler_branch.
  - destruct (Z.testbit cause 19), (Z.testbit cause 7); by rewrite ?mark_length.
  - intros queue codes' Hl'. by apply error_closure_spec.
Qed.

(** C10: For every content of the status registers the MAC interrupt handler
    returns; it acknowledges exactly the causes it read; it counts a reception
    exactly when one of the chip's RX causes is set; and it reports to each of
    the five TX slots the outcome whose cause bit is set and whose status byte
    has the bit of that slot, with the reversed slot numbering, a collision
    taking precedence over a timeout and a timeout over a success, all other
    slots keeping their state. *)
Theorem mac_handler_reports chip s :
  still (w_ll s) -> length (HARDWARE_TX_RESULT_SIGNALS s) = 5%nat ->
  exists s', mac_handler chip s = Some (tt, s') /\
    regs (w_ll s') WIFI_INT_CLEAR = regs (w_ll s) WIFI_INT_STATUS /\
    slot_codes s' = handler_codes (regs (w_ll s)) (slot_codes s) /\
    WIFI_RX_SIGNAL_QUEUE s' =
      (if MacInterruptCause.rx chip (regs (w_ll s) WIFI_INT_STATUS)
       then (SignalQueue.put (WIFI_RX_SIGNAL_QUEUE s)).1 else WIFI_RX_SIGNAL_QUEUE s).
Proof.
  intros St Hl.
  destruct (mac_handler_spec chip (regs (w_ll s)) (WIFI_RX_SIGNAL_QUEUE s) (slot_codes s)) with s
    as ([] & s' & E & _ & Ss & Hc & Hq).
  - unfold slot_codes. by rewrite length_fmap.
  - done.
  - exists s'. split; [done|]. split; [|done]. rewrite <- (Ss WIFI_INT_CLEAR) by decide_now. by rewrite upd_eq.
Qed.

End HandlerProofs.

(** Slot 4 (bit 0) succeeded and slot 3 (bit 1) timed out. *)
Lemma mac_handler_reports_witness :
  let W := atomic_waker_ref in let B := macro_bits_ref in let P := pac_ref in
  let f := upd WIFI_INT_STATUS 0x80080 (upd TX_COMPLETE_STATUS 1 (upd TX_ERROR_STATUS 0x20000 (fun _ => 0))) in
  let s := boot_state (mkDma ∅ None (mkLl f (fun _ => []) []) [] []) in
  exists s', mac_handler Esp32s3 s = Some (tt, s') /\ slot_codes s' = [0; 0; 0; 2; 1].
Proof.
  intros W B P f s. destruct (mac_handler_reports Esp32s3 s) as (s' & E & _ & Hc & _).
  - intros r. reflexivity.
  - reflexivity.
  - exists s'. split; [exact E|]. rewrite Hc. vm_compute. reflexivity.
Defined.
