(* ===== verification/Control.v ===== *)
(** * The control interfaces ([async_driver.rs])

    Channel, TSF timers and TBTT, key slots, and the RX filters: the methods
    of [ChannelControl], [TsfControl], [CryptoControl],
    [RxInterfaceController] and the filter methods of [WiFi]. *)

From S2P Require Import Prelude External Queue Crypto Sync Registers LowLevel DmaList Wifi.

(** [Result::inspect] and [?] on the bounds checks. *)
Definition guarded {S A E} (check : result unit E) (m : M S A) : M S (result A E) :=
  match check with
  | Ok _ => a ← m; mret (Ok a)
  | Err e => mret (Err e)
  end.

(** [[0xff; 6]] *)
Definition all_ones : list Z := replicate 6 0xff.

Module ChannelControl.
Section ChannelControl.
Context `{AtomicWaker} `{MacroBits} `{Pac} `{Ffi}.

Definition get_channel : M wifi Z := gets CURRENT_CHANNEL.

Definition set_channel (chip : Chip) (channel_number : Z) : M wifi (result unit InvalidChannelError) :=
  if negb ((1 <=? channel_number) && (channel_number <=? 14)) then mret (Err InvalidChannel) else
  lift (LowLevel.set_channel chip channel_number) ;;
  modify (set_current_channel channel_number) ;;
  mret (Ok tt).

End ChannelControl.
End ChannelControl.

Module TsfControl.
Section TsfControl.
Context `{AtomicWaker} `{MacroBits} `{Pac}.

(** [SIGNALS[i].reset()] *)
Definition reset_event (get : wifi -> list EventSignal.EventSignal)
    (set : list EventSignal.EventSignal -> wifi -> wifi) (i : nat) : M wifi unit :=
  l ← gets get;
  match l !! i with
  | None => panic
  | Some sig => modify (set (<[i := EventSignal.reset sig]> l))
  end.

Definition tsf_time (interface : nat) : M wifi (result Z OutOfBounds) :=
  guarded (Validate.validate_interface interface) (lift (LowLevel.tsf_time interface)).

Definition set_tsf_time (interface : nat) (time : Z) : M wifi (result unit OutOfBounds) :=
  guarded (Validate.validate_interface interface) (lift (LowLevel.set_tsf_time interface time)).

Definition set_tsf_enabled (interface : nat) (enabled : bool) : M wifi (result unit OutOfBounds) :=
  guarded (Validate.validate_interface interface) (lift (LowLevel.set_tsf_enabled interface enabled)).

Definition set_tsf_timer (timer : nat) (target : Z) : M wifi (result unit OutOfBounds) :=
  guarded (Validate.validate_tsf_timer timer) (
    lift (LowLevel.set_tsf_timer_enabled timer false) ;;
    reset_event TSF_TIMER_SIGNALS set_tsf_signals timer ;;
    lift (LowLevel.set_tsf_timer_target timer target) ;;
    lift (LowLevel.set_tsf_timer_enabled timer true)).

Definition cancel_tsf_timer (timer : nat) : M wifi (result unit OutOfBounds) :=
  guarded (Validate.validate_tsf_timer timer) (
    lift (LowLevel.set_tsf_timer_enabled timer false) ;;
    reset_event TSF_TIMER_SIGNALS set_tsf_signals timer).

(** One poll of the future [wait_for_tsf_timer] returns. *)
Definition poll_event (get : wifi -> list EventSignal.EventSignal)
    (set : list EventSignal.EventSignal -> wifi -> wifi) (i : nat) : M wifi (Poll unit) :=
  l ← gets get;
  match l !! i with
  | None => panic
  | Some sig => modify (set (<[i := (EventSignal.wait sig).2]> l)) ;; mret (EventSignal.wait sig).1
  end.

Definition wait_for_tsf_timer (timer : nat) : M wifi (result (Poll unit) OutOfBounds) :=
  guarded (Validate.validate_tsf_timer timer) (poll_event TSF_TIMER_SIGNALS set_tsf_signals timer).

Definition set_tbtt (interface : nat) (interval early_time : Z) : M wifi (result unit OutOfBounds) :=
  guarded (Validate.validate_interface interface) (lift (LowLevel.set_tbtt interface interval early_time)).

Definition set_tbtt_enabled (interface : nat) (enabled : bool) : M wifi (result unit OutOfBounds) :=
  guarded (Validate.validate_interface interface) (
    lift (LowLevel.set_tbtt_enabled interface enabled) ;;
    if negb enabled then reset_event TBTT_SIGNALS set_tbtt_signals interface else mret tt).

Definition wait_for_tbtt (interface : nat) : M wifi (result (Poll unit) OutOfBounds) :=
  guarded (Validate.validate_interface interface) (poll_event TBTT_SIGNALS set_tbtt_signals interface).

End TsfControl.
End TsfControl.

Module CryptoControl.
Section CryptoControl.
Context `{MacroBits} `{Pac}.

Definition key_slot_in_use (key_slot : nat) : M ll (result bool OutOfBounds) :=
  guarded (Validate.validate_key_slot key_slot) (LowLevel.key_slot_enabled key_slot).

(** The protection flags [set_key] takes from the AES parameters. *)
Definition protection (p : CipherParameters) : bool * bool :=
  match CipherParameters.aes_cipher_parameters p with
  | Some aes => (mfp_enabled aes, spp_enabled aes)
  | None => (false, false)
  end.

Definition set_key (key_slot interface : nat) (key_id : Z) (address : list Z) (cipher : CipherParameters)
    : M ll (result unit CryptoError) :=
  match CipherParameters.key cipher with
  | None => panic
  | Some key =>
      if negb (is_ok (Validate.validate_key_slot key_slot)) then mret (Err CryptoOutOfBounds) else
      if negb (is_ok (Validate.validate_interface interface)) then mret (Err CryptoOutOfBounds) else
      if 4 <=? key_id then mret (Err CryptoOutOfBounds) else
      if check_bit (nth 0 address 0) (bit 0) then mret (Err MulticastBitSet) else
      LowLevel.set_key_slot_parameters key_slot
        (mkKeySlot address key_id (u8 (Z.of_nat interface)) (CipherParameters.is_pairwise cipher)
           (CipherParameters.is_group cipher) (CipherParameters.algorithm cipher)
           (CipherParameters.is_wep_104 cipher)) ;;
      LowLevel.set_key key_slot key ;;
      LowLevel.set_key_slot_enable key_slot true ;;
      LowLevel.set_interface_crypto_parameters interface (protection cipher).1 (protection cipher).2
        (CipherParameters.is_aead cipher) ;;
      LowLevel.set_sms4_status false ;;
      mret (Ok tt)
  end.

Definition delete_key (key_slot : nat) : M ll (result unit OutOfBounds) :=
  guarded (Validate.validate_key_slot key_slot) (
    LowLevel.set_key_slot_enable key_slot false ;;
    LowLevel.clear_key_slot key_slot).

Record KeySlotDump := mkDump { dump_address : list Z; dump_key : list Z; dump_control : Z }.

(** The eight words of the key, as bytes. *)
Fixpoint read_key (key_slot word : nat) (n : nat) : M ll (list Z) :=
  match n with
  | O => mret []
  | S n' => w ← read (KEY_VALUE key_slot word);
            rest ← read_key key_slot (S word) n';
            mret (le_bytes 4 w ++ rest)
  end.

(** [dump_key_slot]: the values it logs. *)
Definition dump_key_slot (key_slot : nat) : M ll (result KeySlotDump OutOfBounds) :=
  guarded (Validate.validate_key_slot key_slot) (
    key_bytes ← read_key key_slot 0 8;
    low ← read (KEY_ADDR_LOW key_slot);
    high ← read (KEY_ADDR_HIGH key_slot);
    control ← read (KEY_ADDR_HIGH key_slot);
    mret (mkDump (le_bytes 4 low ++ le_bytes 2 (fget KEY_ADDR high)) key_bytes (Z.shiftr control 16))).

Definition enabled_key_slots (state : Z) : list nat :=
  filter (fun i => fbit (KEY_SLOT_ENABLE i) state = true) (seq 0 KEY_SLOT_COUNT).

(** [dump_crypto_config]: the values it logs. *)
Definition dump_crypto_config : M ll (list Z * Z * list nat) :=
  c0 ← read (INTERFACE_CRYPTO_CONTROL 0); c1 ← read (INTERFACE_CRYPTO_CONTROL 1);
  c2 ← read (INTERFACE_CRYPTO_CONTROL 2); c3 ← read (INTERFACE_CRYPTO_CONTROL 3);
  general ← read GENERAL_CRYPTO_CONTROL;
  state ← read CRYPTO_KEY_SLOT_STATE;
  mret ([c0; c1; c2; c3], general, enabled_key_slots state).

End CryptoControl.
End CryptoControl.

(** ** RX filters *)

Module RxInterface.
Section RxInterface.
Context `{Pac}.

Definition set_filter_bssid_check (interface : nat) (enabled : bool) : M ll unit :=
  LowLevel.set_bssid_check_enable interface enabled.

Definition set_filter (interface : nat) (filter_bank : RxFilterBank) (address : list Z) : M ll unit :=
  LowLevel.set_filter_address interface filter_bank address ;;
  LowLevel.set_filter_mask interface filter_bank all_ones ;;
  LowLevel.set_filter_enable interface filter_bank true.

Definition override_filter_mask (interface : nat) (filter_bank : RxFilterBank) (mask : list Z) : M ll unit :=
  LowLevel.set_filter_mask interface filter_bank mask.

Definition clear_filter (interface : nat) (filter_bank : RxFilterBank) : M ll unit :=
  LowLevel.clear_filter interface filter_bank.

Definition set_scanning_mode (interface : nat) (mode : ScanningMode) : M ll unit :=
  LowLevel.set_scanning_mode_parameters interface
    (bool_decide (mode = BeaconsOnly)) (bool_decide (mode = ManagementAndData)).

Definition set_filtered_address_types (interface : nat) (unicast multicast : bool) : M ll unit :=
  LowLevel.set_filtered_address_types interface unicast multicast.

Definition set_control_frame_filter (interface : nat) (config : ControlFrameFilterConfig) : M ll unit :=
  LowLevel.set_control_frame_filter interface config.

End RxInterface.
End RxInterface.

(** The checked variants of [WiFi]. *)
Module WiFiFilters.
Section WiFiFilters.
Context `{Pac}.

Definition set_filter_bssid_check (interface : nat) (enabled : bool) : M ll (result unit OutOfBounds) :=
  guarded (Validate.validate_interface interface) (RxInterface.set_filter_bssid_check interface enabled).
Definition set_filter (interface : nat) (filter_bank : RxFilterBank) (address : list Z)
    : M ll (result unit OutOfBounds) :=
  guarded (Validate.validate_interface interface) (RxInterface.set_filter interface filter_bank address).
Definition override_filter_mask (interface : nat) (filter_bank : RxFilterBank) (mask : list Z)
    : M ll (result unit OutOfBounds) :=
  guarded (Validate.validate_interface interface) (RxInterface.override_filter_mask interface filter_bank mask).
Definition clear_filter (interface : nat) (filter_bank : RxFilterBank) : M ll (result unit OutOfBounds) :=
  guarded (Validate.validate_interface interface) (RxInterface.clear_filter interface filter_bank).
Definition set_scanning_mode (interface : nat) (mode : ScanningMode) : M ll (result unit OutOfBounds) :=
  guarded (Validate.validate_interface interface) (RxInterface.set_scanning_mode interface mode).
Definition set_filtered_address_types (interface : nat) (unicast multicast : bool) : M ll (result unit OutOfBounds) :=
  guarded (Validate.validate_interface interface)
    (RxInterface.set_filtered_address_types interface unicast multicast).
Definition set_control_frame_filter (interface : nat) (config : ControlFrameFilterConfig)
    : M ll (result unit OutOfBounds) :=
  guarded (Validate.validate_interface interface) (RxInterface.set_control_frame_filter interface config).

End WiFiFilters.
End WiFiFilters.
