(* ===== verification/ControlSpec.v ===== *)
(** * Correctness of the control interfaces

    Key slots read back as programmed and do not interfere, filters hold what
    was configured, channel switches happen with the MAC stopped, and arming a
    TSF timer discards its pending event. *)

From S2P Require Import Prelude External Queue Crypto Sync Registers ChipCalls LowLevel DmaList Wifi Control.

(** ** Key material as register words *)

Lemma le_word_pad l n : le_word (l ++ replicate n 0) = le_word l.
Proof.
  induction l as [|b l IH]; cbn [le_word app].
  - induction n as [|n IH]; cbn; [done|]. lia.
  - by rewrite IH.
Qed.

Lemma le_bytes_of n l : length l = n -> Forall is_u8 l -> le_bytes n (le_word l) = l.
Proof. intros <-. apply le_bytes_word. Qed.

Lemma le_bytes_pad l n :
  Forall is_u8 l -> le_bytes (length l + n) (le_word l) = l ++ replicate n 0.
Proof.
  intros Hl. rewrite <- (le_word_pad l n).
  replace (length l + n)%nat with (length (l ++ replicate n 0)) by (by rewrite length_app, length_replicate).
  apply le_bytes_word. apply Forall_app. split; [done|]. apply Forall_replicate. unfold in_width. lia.
Qed.

(** The word stored for at most four bytes. *)
Lemma key_word_bytes (l : list Z) :
  Forall is_u8 l -> (1 <= length l)%nat ->
  le_bytes 4 (le_word (take 4 (take 4 l ++ replicate 3 0))) = take 4 l ++ replicate (4 - length l) 0.
Proof.
  intros Hl H1. assert (Forall is_u8 (take 4 l)) as Ht by (by apply Forall_take).
  rewrite take_app, (take_ge (take 4 l)) by (rewrite length_take; lia).
  rewrite take_replicate, le_word_pad.
  replace 4%nat with (length (take 4 l) + (4 - length l))%nat at 1 by (rewrite length_take; lia).
  apply le_bytes_pad. done.
Qed.

(** The words of a key, read back as bytes, are the key padded with zeros. *)
Lemma key_words_bytes n key :
  Forall is_u8 key -> (length key <= 4 * n)%nat ->
  concat (le_bytes 4 <$> LowLevel.key_words n key) = key ++ replicate (4 * length (LowLevel.key_words n key) - length key) 0
  /\ (length key <= 4 * length (LowLevel.key_words n key))%nat
  /\ (4 * length (LowLevel.key_words n key) < length key + 4)%nat.
Proof.
  revert key. induction n as [|n IH]; intros key Hk Hl.
  { destruct key; [cbn; split_and!; (done || lia)|cbn in Hl; lia]. }
  destruct key as [|b key']; [cbn; split_and!; (done || lia)|]. set (key := b :: key') in *.
  assert (1 <= length key)%nat as H1 by (cbn; lia).
  assert (LowLevel.key_words (S n) key =
    le_word (take 4 (take 4 key ++ replicate 3 0)) :: LowLevel.key_words n (drop 4 key)) as -> by done.
  clearbody key. clear b key'.
  destruct (IH (drop 4 key)) as (E & L1 & L2); [by apply Forall_drop|rewrite length_drop; lia|].
  rewrite length_drop in L1, L2, E.
  cbn [length]. split; [|lia].
  rewrite fmap_cons. cbn [concat]. rewrite E, key_word_bytes by done.
  destruct (decide (length key <= 4)%nat) as [Hs|Hs].
  - rewrite (take_ge key), (drop_ge key) by lia. rewrite app_nil_l, <- app_assoc, <- replicate_add.
    f_equal. f_equal. lia.
  - replace (4 - length key)%nat with 0%nat by lia. cbn [replicate]. rewrite app_nil_r, app_assoc, take_drop.
    f_equal. f_equal. lia.
Qed.

(** ** Writing and reading the key registers *)

Section Keys.
Context `{MacroBits} `{Pac}.

(** The registers of one key slot. *)
Definition slot_regs (key_slot : nat) : list Reg :=
  KEY_ADDR_LOW key_slot :: KEY_ADDR_HIGH key_slot :: (KEY_VALUE key_slot <$> seq 0 8).

(** The writes touch only the words of the slot. *)
Lemma write_key_words_spec key_slot word words d :
  (word + length words <= 8)%nat ->
  exists d', LowLevel.write_key_words key_slot word words d = Some (tt, d') /\
    inputs d' = inputs d /\
    (forall i w, words !! i = Some w -> regs d' (KEY_VALUE key_slot (word + i)) = w) /\
    (forall r, (forall i, (i < length words)%nat -> r <> KEY_VALUE key_slot (word + i)) -> regs d' r = regs d r).
Proof.
  revert word d. induction words as [|w words IH]; intros word d Hl; cbn [LowLevel.write_key_words length] in *.
  { exists d. split; [done|]. done. }
  rewrite M_bind_unfold, check_index_ok by lia. rewrite M_bind_unfold. unfold write at 1.
  destruct (IH (S word) (mkLl (upd (KEY_VALUE key_slot word) w (regs d)) (inputs d)
    (Registers.log d ++ [(KEY_VALUE key_slot word, w)]))) as (d' & E & Ei & Hw & Hf); [lia|].
  exists d'. split; [exact E|]. split; [done|]. split.
  - intros [|i] w' Hi; cbn in Hi.
    + injection Hi as <-. rewrite Nat.add_0_r, Hf; [by cbn; rewrite upd_eq|].
      intros i Hi [=]. lia.
    + rewrite <- (Hw i w' Hi). do 2 f_equal. lia.
  - intros r Hr. rewrite Hf.
    + cbn. rewrite upd_ne; [done|]. rewrite <- (Nat.add_0_r word). apply Hr. lia.
    + intros i Hi. replace (S word + i)%nat with (word + S i)%nat by lia. apply Hr. lia.
Qed.

Lemma read_key_spec key_slot word n d : still d ->
  CryptoControl.read_key key_slot word n d =
    Some (concat ((fun i => le_bytes 4 (regs d (KEY_VALUE key_slot i))) <$> seq word n), d).
Proof.
  intros St. revert word. induction n as [|n IH]; intros word; cbn [CryptoControl.read_key seq]; [done|].
  rewrite M_bind_unfold, (still_read _ _ St), M_bind_unfold, IH. done.
Qed.

(** The bit fields of a key slot fit the values the driver stores. *)
Record KeyLayout : Prop := {
  key_high_fields : fields_ok [KEY_ID; PAIRWISE_KEY; GROUP_KEY; WEP_104; ALGORITHM; KEY_INTERFACE_ID; KEY_UNKNOWN; KEY_ADDR];
  key_addr_width : f_width KEY_ADDR = 16;
  key_id_width : 2 <= f_width KEY_ID;
  key_interface_width : 2 <= f_width KEY_INTERFACE_ID;
  algorithm_width : 2 <= f_width ALGORITHM;
  slot_enable_ok : forall i, (i < KEY_SLOT_COUNT)%nat -> field_ok (KEY_SLOT_ENABLE i);
  slot_enable_disjoint : forall i j, (i < KEY_SLOT_COUNT)%nat -> (j < KEY_SLOT_COUNT)%nat -> i <> j ->
    disjoint_fields (KEY_SLOT_ENABLE i) (KEY_SLOT_ENABLE j)
}.

(** The registers programmed by [set_key] outside the slot itself. *)
Definition shared_regs (interface : nat) : list Reg :=
  [CRYPTO_KEY_SLOT_STATE; INTERFACE_CRYPTO_CONTROL interface; GENERAL_CRYPTO_CONTROL].

(** The control word of a slot. *)
Definition key_high (interface : nat) (key_id : Z) (address : list Z) (cipher : CipherParameters) (w : Z) : Z :=
  fset KEY_ADDR (le_word (drop 4 address))
    (fset_bit KEY_UNKNOWN true
    (fset KEY_INTERFACE_ID (u8 (Z.of_nat interface))
    (fset ALGORITHM (CipherParameters.algorithm cipher)
    (fset_bit WEP_104 (CipherParameters.is_wep_104 cipher)
    (fset_bit GROUP_KEY (CipherParameters.is_group cipher)
    (fset_bit PAIRWISE_KEY (CipherParameters.is_pairwise cipher)
    (fset KEY_ID key_id w))))))).

Lemma slot_value_in key_slot i : (i < 8)%nat -> KEY_VALUE key_slot i ∈ slot_regs key_slot.
Proof. intros Hi. do 2 right. apply list_elem_of_fmap_2, elem_of_seq. lia. Qed.

(** What [set_key] leaves in the registers. *)
Lemma set_key_runs key_slot interface key_id address cipher key d :
  still d -> (key_slot < KEY_SLOT_COUNT)%nat -> (interface < INTERFACE_COUNT)%nat -> key_id < 4 ->
  Z.testbit (nth 0 address 0) 0 = false ->
  CipherParameters.key cipher = Some key -> (length key <= 32)%nat -> Forall is_u8 key ->
  exists d', CryptoControl.set_key key_slot interface key_id address cipher d = Some (Ok tt, d') /\ still d' /\
    regs d' (KEY_ADDR_LOW key_slot) = le_word (take 4 address) /\
    regs d' (KEY_ADDR_HIGH key_slot) = key_high interface key_id address cipher (regs d (KEY_ADDR_HIGH key_slot)) /\
    (forall i w, LowLevel.key_words 9 key !! i = Some w -> regs d' (KEY_VALUE key_slot i) = w) /\
    regs d' CRYPTO_KEY_SLOT_STATE = fset_bit (KEY_SLOT_ENABLE key_slot) true (regs d CRYPTO_KEY_SLOT_STATE) /\
    (forall r, (r ∉ slot_regs key_slot ++ shared_regs interface) -> regs d' r = regs d r).
Proof.
  intros St Hks Hif Hid Hm Hkey Hkl Hkb. unfold CryptoControl.set_key. rewrite Hkey.
  unfold Validate.validate_key_slot, Validate.validate_interface.
  rewrite (proj2 (Nat.ltb_lt _ _) Hks), (proj2 (Nat.ltb_lt _ _) Hif), (proj2 (Z.leb_gt 4 key_id)) by lia. cbn [is_ok negb].
  rewrite check_bit_bit, Hm by lia.
  unfold LowLevel.set_key_slot_parameters, split_address. cbn [ks_address ks_key_id ks_interface ks_algorithm ks_wep_104 ks_group ks_pairwise].
  rewrite M_bind_unfold. ll_run St.
  match goal with |- context [LowLevel.set_key _ _ ?x] => set (d1 := x) end.
  destruct (key_words_bytes 9 key Hkb ltac:(lia)) as (_ & L1 & L2).
  destruct (write_key_words_spec key_slot 0 (LowLevel.key_words 9 key) d1) as (d2 & E2 & Ei2 & Hw2 & Hf2); [lia|].
  unfold LowLevel.set_key. rewrite (proj2 (Nat.ltb_ge 32 (length key)) Hkl).
  rewrite M_bind_unfold, check_index_ok, E2 by done.
  assert (still d2) as St2 by (unfold still; rewrite Ei2; exact St).
  unfold LowLevel.set_key_slot_enable, LowLevel.set_interface_crypto_parameters, LowLevel.set_sms4_status.
  ll_run St2. eexists. split; [reflexivity|]. cbn [regs].
  split; [exact St2|].
  split; [regs_simpl; rewrite Hf2 by done; subst d1; cbn [regs]; regs_simpl; reflexivity|].
  split; [regs_simpl; rewrite Hf2 by done; subst d1; cbn [regs]; regs_simpl; unfold key_high; reflexivity|].
  split; [intros i w Hi; regs_simpl; by apply (Hw2 i)|].
  split; [regs_simpl; rewrite Hf2 by done; subst d1; cbn [regs]; regs_simpl; reflexivity|].
  intros r Hr. rewrite not_elem_of_app in Hr. destruct Hr as [Hr1 Hr2].
  assert (forall r', r' ∈ shared_regs interface -> r <> r') as Hs by (intros r' ? ->; done).
  rewrite !upd_ne by (apply Hs; unfold shared_regs; repeat (left || right)).
  rewrite Hf2.
  - subst d1. cbn [regs]. rewrite !upd_ne; [done|..]; intros ->; apply Hr1; unfold slot_regs; repeat (left || right).
  - intros i Hi ->. by apply Hr1, slot_value_in; lia.
Qed.

Lemma value_fits v w : 0 <= v < 4 -> 2 <= w -> v mod 2 ^ w = v.
Proof. intros Hv Hw. apply Z.mod_small. assert (2 ^ 2 <= 2 ^ w) by (apply Z.pow_le_mono_r; lia). lia. Qed.

(** [skip F i j]: the write of field [j] of layout [F] does not change
    field [i]; [own F i]: the field reads what was written. *)
Ltac skip F i j := rewrite (fget_fset_layout _ i j _ _ _ _ F eq_refl eq_refl) by discriminate.
Ltac own F i := rewrite fget_fset by exact (fields_ok_at _ i _ F eq_refl).
Ltac own_bit F i := exact (fbit_fset _ _ _ (fields_ok_at _ i _ F eq_refl)).

(** The fields of the control word. *)
Lemma key_high_reads interface key_id address cipher w :
  KeyLayout -> (interface < INTERFACE_COUNT)%nat -> 0 <= key_id < 4 ->
  is_u16 (le_word (drop 4 address)) ->
  let h := key_high interface key_id address cipher w in
  fget KEY_ADDR h = le_word (drop 4 address) /\ fget KEY_ID h = key_id /\
  fget KEY_INTERFACE_ID h = Z.of_nat interface /\ fget ALGORITHM h = CipherParameters.algorithm cipher /\
  fbit PAIRWISE_KEY h = CipherParameters.is_pairwise cipher /\
  fbit GROUP_KEY h = CipherParameters.is_group cipher /\
  fbit WEP_104 h = CipherParameters.is_wep_104 cipher.
Proof.
  intros L Hi Hid Ha h. subst h. unfold key_high, INTERFACE_COUNT in *.
  pose proof (key_high_fields L) as F. split_and!; unfold fbit, fset_bit.
  - own F 7%nat. rewrite key_addr_width by done. apply wrap_small, Ha.
  - skip F 0%nat 7%nat. skip F 0%nat 6%nat. skip F 0%nat 5%nat. skip F 0%nat 4%nat. skip F 0%nat 3%nat.
    skip F 0%nat 2%nat. skip F 0%nat 1%nat. own F 0%nat. apply value_fits; [done|apply L].
  - skip F 5%nat 7%nat. skip F 5%nat 6%nat. own F 5%nat.
    rewrite wrap_small by (unfold in_width; lia). apply value_fits; [lia|apply L].
  - skip F 4%nat 7%nat. skip F 4%nat 6%nat. skip F 4%nat 5%nat. own F 4%nat.
    apply value_fits; [destruct cipher; cbn; lia|apply L].
  - skip F 1%nat 7%nat. skip F 1%nat 6%nat. skip F 1%nat 5%nat. skip F 1%nat 4%nat. skip F 1%nat 3%nat.
    skip F 1%nat 2%nat. own_bit F 1%nat.
  - skip F 2%nat 7%nat. skip F 2%nat 6%nat. skip F 2%nat 5%nat. skip F 2%nat 4%nat. skip F 2%nat 3%nat. own_bit F 2%nat.
  - skip F 3%nat 7%nat. skip F 3%nat 6%nat. skip F 3%nat 5%nat. skip F 3%nat 4%nat. own_bit F 3%nat.
Qed.

(** Nothing of another slot changes. *)
Definition slot_unchanged (other : nat) (d d' : ll) : Prop :=
  (forall r, r ∈ slot_regs other -> regs d' r = regs d r) /\
  fbit (KEY_SLOT_ENABLE other) (regs d' CRYPTO_KEY_SLOT_STATE) = fbit (KEY_SLOT_ENABLE other) (regs d CRYPTO_KEY_SLOT_STATE).

Lemma slot_regs_disjoint i j r : i <> j -> r ∈ slot_regs i -> r ∉ slot_regs j.
Proof.
  intros Hne Hi Hj. unfold slot_regs in *. rewrite !elem_of_cons, list_elem_of_fmap in Hi, Hj.
  destruct Hi as [->|[->|(a & -> & _)]], Hj as [E|[E|(b & E & _)]]; congruence.
Qed.

Lemma slot_regs_not_shared i j r : r ∈ slot_regs i -> r ∉ shared_regs j.
Proof.
  intros Hi Hj. unfold slot_regs, shared_regs in *.
  rewrite !elem_of_cons, list_elem_of_fmap in Hi. rewrite !elem_of_cons, elem_of_nil in Hj.
  destruct Hi as [->|[->|(a & -> & _)]], Hj as [E|[E|[E|[]]]]; congruence.
Qed.

Lemma other_slot_enable i j b w : KeyLayout -> (i < KEY_SLOT_COUNT)%nat -> (j < KEY_SLOT_COUNT)%nat -> i <> j ->
  fbit (KEY_SLOT_ENABLE i) (fset_bit (KEY_SLOT_ENABLE j) b w) = fbit (KEY_SLOT_ENABLE i) w.
Proof.
  intros L Hi Hj Hne. unfold fbit, fset_bit.
  rewrite fget_fset_ne; [done|by apply L..|by apply (slot_enable_disjoint L)].
Qed.

Lemma in_use_reads key_slot d : still d -> (key_slot < KEY_SLOT_COUNT)%nat ->
  CryptoControl.key_slot_in_use key_slot d = Some (Ok (fbit (KEY_SLOT_ENABLE key_slot) (regs d CRYPTO_KEY_SLOT_STATE)), d).
Proof.
  intros St Hk. unfold CryptoControl.key_slot_in_use, guarded, Validate.validate_key_slot.
  rewrite (proj2 (Nat.ltb_lt _ _) Hk). unfold LowLevel.key_slot_enabled.
  rewrite !M_bind_unfold, check_index_ok by done. by rewrite M_bind_unfold, (still_read _ _ St).
Qed.

Lemma dump_reads key_slot d : still d -> (key_slot < KEY_SLOT_COUNT)%nat ->
  CryptoControl.dump_key_slot key_slot d =
  Some (Ok (CryptoControl.mkDump
    (le_bytes 4 (regs d (KEY_ADDR_LOW key_slot)) ++ le_bytes 2 (fget KEY_ADDR (regs d (KEY_ADDR_HIGH key_slot))))
    (concat ((fun i => le_bytes 4 (regs d (KEY_VALUE key_slot i))) <$> seq 0 8))
    (Z.shiftr (regs d (KEY_ADDR_HIGH key_slot)) 16)), d).
Proof.
  intros St Hk. unfold CryptoControl.dump_key_slot, guarded, Validate.validate_key_slot.
  rewrite (proj2 (Nat.ltb_lt _ _) Hk). rewrite !M_bind_unfold, (read_key_spec _ _ _ _ St).
  rewrite M_bind_unfold, (still_read _ _ St), M_bind_unfold, (still_read _ _ St), M_bind_unfold, (still_read _ _ St). done.
Qed.

(** The dumped key starts with the programmed one. *)
Lemma dump_key_prefix key_slot key (f : Reg -> Z) :
  Forall is_u8 key -> (length key <= 32)%nat ->
  (forall i w, LowLevel.key_words 9 key !! i = Some w -> f (KEY_VALUE key_slot i) = w) ->
  take (length key) (concat ((fun i => le_bytes 4 (f (KEY_VALUE key_slot i))) <$> seq 0 8)) = key.
Proof.
  intros Hb Hl Hw. destruct (key_words_bytes 9 key Hb ltac:(lia)) as (E & L1 & L2).
  set (n := length (LowLevel.key_words 9 key)) in *.
  assert ((fun i => le_bytes 4 (f (KEY_VALUE key_slot i))) <$> seq 0 n = le_bytes 4 <$> LowLevel.key_words 9 key) as En.
  { apply list_eq. intros i. rewrite !list_lookup_fmap.
    destruct (LowLevel.key_words 9 key !! i) as [w|] eqn:Ew.
    - rewrite lookup_seq_lt by (apply lookup_lt_Some in Ew; done). cbn. by rewrite (Hw i w Ew).
    - rewrite lookup_seq_ge by (apply lookup_ge_None in Ew; done). done. }
  replace 8%nat with (n + (8 - n))%nat by lia.
  rewrite seq_app, fmap_app, concat_app, En, E, <- app_assoc. by rewrite take_app_length.
Qed.

(** C14: Programming a key.  With an index, interface and key ID in range and a
    unicast address, [set_key] succeeds; the slot is then in use, dumping it
    shows the address and the key that were programmed, the control word holds
    the key ID, interface, algorithm and key usage of the cipher, and every
    other key slot keeps its registers and its state. *)
Theorem set_key_reads_back key_slot interface key_id address cipher key d :
  KeyLayout -> still d -> (key_slot < KEY_SLOT_COUNT)%nat -> (interface < INTERFACE_COUNT)%nat -> 0 <= key_id < 4 ->
  length address = 6%nat -> Forall is_u8 address -> Z.testbit (nth 0 address 0) 0 = false ->
  CipherParameters.ok cipher -> CipherParameters.key cipher = Some key ->
  exists d' dump,
    CryptoControl.set_key key_slot interface key_id address cipher d = Some (Ok tt, d') /\
    CryptoControl.key_slot_in_use key_slot d' = Some (Ok true, d') /\
    CryptoControl.dump_key_slot key_slot d' = Some (Ok dump, d') /\
    CryptoControl.dump_address dump = address /\ take (length key) (CryptoControl.dump_key dump) = key /\
    (let h := regs d' (KEY_ADDR_HIGH key_slot) in
     fget KEY_ID h = key_id /\ fget KEY_INTERFACE_ID h = Z.of_nat interface /\
     fget ALGORITHM h = CipherParameters.algorithm cipher /\
     fbit PAIRWISE_KEY h = CipherParameters.is_pairwise cipher /\ fbit GROUP_KEY h = CipherParameters.is_group cipher) /\
    (forall other, (other < KEY_SLOT_COUNT)%nat -> other <> key_slot -> slot_unchanged other d d').
Proof.
  intros L St Hks Hif Hid Hal Hab Hm Hok Hkey.
  destruct (CipherParameters.key_ok cipher Hok) as (k & Hk & Hkb & Hkl & _). rewrite Hkey in Hk. injection Hk as <-.
  destruct (set_key_runs key_slot interface key_id address cipher key d St Hks Hif ltac:(lia) Hm Hkey Hkl Hkb)
    as (d' & E & St' & Hlow & Hhigh & Hw & Hen & Hfr).
  pose proof (le_word_range (drop 4 address) (Forall_drop _ _ _ Hab)) as Hr. rewrite length_drop, Hal in Hr.
  destruct (key_high_reads interface key_id address cipher (regs d (KEY_ADDR_HIGH key_slot)) L Hif Hid Hr)
    as (R1 & R2 & R3 & R4 & R5 & R6 & _).
  eexists d', _. split; [exact E|].
  split; [rewrite (in_use_reads _ _ St' Hks), Hen, fbit_fset; [done|by apply L]|].
  split; [apply (dump_reads _ _ St' Hks)|]. cbn [CryptoControl.dump_address CryptoControl.dump_key].
  split.
  { rewrite Hlow, Hhigh, R1.
    rewrite !le_bytes_of by (try (by apply Forall_take); try (by apply Forall_drop);
      rewrite ?length_take, ?length_drop; lia). apply take_drop. }
  split; [by apply dump_key_prefix|]. split; [by rewrite Hhigh|].
  intros other Ho Hne. split; [|by rewrite Hen, other_slot_enable].
  intros r Hr'. apply Hfr. apply not_elem_of_app. split; [by apply (slot_regs_disjoint other)|by apply (slot_regs_not_shared other)].
Qed.

(** C15: Every argument [set_key] rejects leaves the registers untouched: an
    index, interface or key ID out of range is [OutOfBounds], and otherwise a
    group address is [MulticastBitSet]. *)
Theorem set_key_rejects key_slot interface key_id address cipher d :
  CipherParameters.ok cipher ->
  ((KEY_SLOT_COUNT <= key_slot)%nat \/ (INTERFACE_COUNT <= interface)%nat \/ 4 <= key_id ->
   CryptoControl.set_key key_slot interface key_id address cipher d = Some (Err CryptoOutOfBounds, d)) /\
  ((key_slot < KEY_SLOT_COUNT)%nat -> (interface < INTERFACE_COUNT)%nat -> key_id < 4 ->
   Z.testbit (nth 0 address 0) 0 = true ->
   CryptoControl.set_key key_slot interface key_id address cipher d = Some (Err MulticastBitSet, d)).
Proof.
  intros Hok. destruct (CipherParameters.key_ok cipher Hok) as (k & Hk & _).
  unfold CryptoControl.set_key, Validate.validate_key_slot, Validate.validate_interface. rewrite Hk. split.
  - intros Hbad. destruct (Nat.ltb_spec key_slot KEY_SLOT_COUNT); [|done]. cbn [is_ok negb].
    destruct (Nat.ltb_spec interface INTERFACE_COUNT); [|done]. cbn [is_ok negb].
    destruct (Z.leb_spec 4 key_id); [done|]. lia.
  - intros Hks Hif Hid Hm.
    rewrite (proj2 (Nat.ltb_lt _ _) Hks), (proj2 (Nat.ltb_lt _ _) Hif), (proj2 (Z.leb_gt 4 key_id)) by lia.
    cbn [is_ok negb]. by rewrite check_bit_bit, Hm by lia.
Qed.

(** Deleting a key.  The slot is no longer in use and all its registers,
    the key words included, have their reset values; every other slot is
    unchanged.  An index out of range is rejected without any access. *)
Theorem delete_key_clears key_slot d :
  KeyLayout -> still d ->
  ((KEY_SLOT_COUNT <= key_slot)%nat -> CryptoControl.delete_key key_slot d = Some (Err OutOfBoundsError, d)) /\
  ((key_slot < KEY_SLOT_COUNT)%nat ->
   exists d', CryptoControl.delete_key key_slot d = Some (Ok tt, d') /\
     CryptoControl.key_slot_in_use key_slot d' = Some (Ok false, d') /\
     (forall r, r ∈ slot_regs key_slot -> regs d' r = reset_value r) /\
     (forall other, (other < KEY_SLOT_COUNT)%nat -> other <> key_slot -> slot_unchanged other d d')).
Proof.
  intros L St. unfold CryptoControl.delete_key, guarded, Validate.validate_key_slot. split.
  { intros Hk. by rewrite (proj2 (Nat.ltb_ge _ _) Hk). }
  intros Hk. rewrite (proj2 (Nat.ltb_lt _ _) Hk).
  unfold LowLevel.set_key_slot_enable, LowLevel.clear_key_slot. cbn [seq for_each].
  ll_run St. eexists. split; [reflexivity|]. cbn [regs].
  split.
  { rewrite in_use_reads by done. cbn [regs]. regs_simpl. rewrite fbit_fset by (by apply L). reflexivity. }
  split.
  { intros r Hr. unfold slot_regs in Hr. cbn [seq fmap list_fmap] in Hr. enum_in Hr; regs_simpl; reflexivity. }
  intros other Ho Hne. split.
  - intros r Hr. unfold slot_regs in Hr. cbn [seq fmap list_fmap] in Hr. enum_in Hr; cbn [regs]; regs_simpl; reflexivity.
  - cbn [regs]. regs_simpl. by apply other_slot_enable.
Qed.

End Keys.

Lemma key_layout_ref : KeyLayout (H0 := pac_ref).
Proof.
  constructor; try done; try decide_now.
  - intros i Hi. unfold field_ok. cbn. unfold KEY_SLOT_COUNT in Hi. lia.
  - intros i j Hi Hj Hne. unfold disjoint_fields. cbn. lia.
Qed.

Definition ll_zero : ll := mkLl (fun _ => 0) (fun _ => []) [].

Lemma still_zero : still ll_zero.
Proof. intros r. reflexivity. Qed.

Definition demo_key : list Z := replicate 16 7.
Definition demo_address : list Z := [2; 1; 2; 3; 4; 5].

Lemma demo_cipher_ok : CipherParameters.ok (Tkip demo_key Pairwise).
Proof. split; [reflexivity|]. by repeat constructor. Qed.

Lemma set_key_reads_back_witness :
  let B := macro_bits_ref in let P := pac_ref in
  exists d' dump,
    CryptoControl.set_key 3 1 2 demo_address (Tkip demo_key Pairwise) ll_zero = Some (Ok tt, d') /\
    CryptoControl.dump_key_slot 3 d' = Some (Ok dump, d') /\
    CryptoControl.dump_address dump = demo_address /\ take 16 (CryptoControl.dump_key dump) = demo_key.
Proof.
  intros B P.
  destruct (set_key_reads_back 3 1 2 demo_address (Tkip demo_key Pairwise) demo_key ll_zero key_layout_ref still_zero
    ltac:(vm_compute; lia) ltac:(vm_compute; lia) ltac:(lia) eq_refl ltac:(by repeat constructor) eq_refl
    demo_cipher_ok eq_refl)
    as (d' & dump & E & _ & D & A & K & _).
  exists d', dump. exact (conj E (conj D (conj A K))).
Defined.

Lemma set_key_rejects_witness :
  let B := macro_bits_ref in let P := pac_ref in
  CryptoControl.set_key 25 0 0 demo_address (Tkip demo_key Pairwise) ll_zero = Some (Err CryptoOutOfBounds, ll_zero).
Proof.
  intros B P. apply (set_key_rejects 25 0 0 demo_address (Tkip demo_key Pairwise) ll_zero demo_cipher_ok).
  left. vm_compute. lia.
Defined.

Lemma delete_key_clears_witness :
  let B := macro_bits_ref in let P := pac_ref in
  exists d', CryptoControl.delete_key 3 ll_zero = Some (Ok tt, d') /\
    CryptoControl.key_slot_in_use 3 d' = Some (Ok false, d').
Proof.
  intros B P. destruct (delete_key_clears 3 ll_zero key_layout_ref still_zero) as [_ T].
  destruct T as (d' & E & U & _); [vm_compute; lia|]. exists d'. exact (conj E U).
Defined.

(** ** RX filters *)

(** The operations of an [RxInterfaceController]. *)
Inductive RxOp :=
| SetBssidCheck (enabled : bool)
| SetFilter (bank : RxFilterBank) (address : list Z)
| OverrideMask (bank : RxFilterBank) (mask : list Z)
| ClearFilter (bank : RxFilterBank)
| SetScanningMode (mode : ScanningMode)
| SetFilteredAddressTypes (unicast multicast : bool)
| SetControlFrameFilter (config : ControlFrameFilterConfig).

Section Filters.
Context `{Pac}.

Definition run_rx_op (interface : nat) (op : RxOp) : M ll unit :=
  match op with
  | SetBssidCheck b => RxInterface.set_filter_bssid_check interface b
  | SetFilter bank address => RxInterface.set_filter interface bank address
  | OverrideMask bank mask => RxInterface.override_filter_mask interface bank mask
  | ClearFilter bank => RxInterface.clear_filter interface bank
  | SetScanningMode mode => RxInterface.set_scanning_mode interface mode
  | SetFilteredAddressTypes u m => RxInterface.set_filtered_address_types interface u m
  | SetControlFrameFilter config => RxInterface.set_control_frame_filter interface config
  end.

(** The registers of one RX interface. *)
Definition interface_regs (i : nat) : list Reg :=
  FILTER_CONTROL i :: RX_CTRL_FILTER i ::
  ((fun b => FILTER_ADDR_LOW b i) <$> [0; 1]%nat) ++ ((fun b => FILTER_ADDR_HIGH b i) <$> [0; 1]%nat) ++
  ((fun b => FILTER_MASK_LOW b i) <$> [0; 1]%nat) ++ ((fun b => FILTER_MASK_HIGH b i) <$> [0; 1]%nat).

Ltac own_reg Hr := intros ->; apply Hr; unfold interface_regs; cbn;
  match goal with b : RxFilterBank |- _ => destruct b | _ => idtac end; cbn; repeat (left || right).

(** The promise of the split driver: whatever sequence of filter
    operations an RX interface controller performs, they all return, and only
    the registers of its own interface change. *)
Theorem rx_controller_isolated interface ops d :
  (interface < INTERFACE_COUNT)%nat -> still d ->
  exists d', for_each ops (run_rx_op interface) d = Some (tt, d') /\ still d' /\
    forall r, (r ∉ interface_regs interface) -> regs d' r = regs d r.
Proof.
  intros Hi. revert d. induction ops as [|op ops IH]; intros d St; cbn [for_each]; [by exists d|].
  assert (exists d1, run_rx_op interface op d = Some (tt, d1) /\ still d1 /\
    forall r, (r ∉ interface_regs interface) -> regs d1 r = regs d r) as (d1 & E & St1 & F).
  { destruct op as [b|bank address|bank mask|bank|mode|u m|config]; cbn [run_rx_op];
      unfold RxInterface.set_filter_bssid_check, RxInterface.set_filter, RxInterface.override_filter_mask,
        RxInterface.clear_filter, RxInterface.set_scanning_mode, RxInterface.set_filtered_address_types,
        RxInterface.set_control_frame_filter, LowLevel.set_bssid_check_enable, LowLevel.set_filter_address,
        LowLevel.set_filter_mask, LowLevel.set_filter_enable, LowLevel.clear_filter,
        LowLevel.set_scanning_mode_parameters, LowLevel.set_filtered_address_types,
        LowLevel.set_control_frame_filter, split_address;
      ll_run St; (eexists; split; [reflexivity|]; split; [exact St|]); cbn [regs]; intros r Hr;
      rewrite !upd_ne by own_reg Hr; reflexivity. }
  destruct (IH d1 St1) as (d2 & E2 & St2 & F2). exists d2.
  rewrite M_bind_unfold, E. split; [exact E2|]. split; [done|]. intros r Hr. by rewrite F2, F.
Qed.

(** Configuring a filter.  The address registers hold the address, the
    mask is all ones and the filter is enabled; overriding the mask replaces
    only the mask, and clearing the filter restores the reset values. *)
Theorem filter_reads_back interface bank address mask d :
  fields_ok [FILTER_MASK; FILTER_ENABLED] -> field_ok FILTER_ADDR ->
  f_width FILTER_ADDR = 16 -> f_width FILTER_MASK = 16 ->
  (interface < INTERFACE_COUNT)%nat -> still d ->
  length address = 6%nat -> Forall is_u8 address -> length mask = 6%nat -> Forall is_u8 mask ->
  let b := bank_bits bank in
  let stored d a := le_bytes 4 (regs d (FILTER_ADDR_LOW b interface)) ++
                    le_bytes 2 (fget FILTER_ADDR (regs d (FILTER_ADDR_HIGH b interface))) = a in
  let masked d m := le_bytes 4 (regs d (FILTER_MASK_LOW b interface)) ++
                    le_bytes 2 (fget FILTER_MASK (regs d (FILTER_MASK_HIGH b interface))) = m in
  let enabled d := fbit FILTER_ENABLED (regs d (FILTER_MASK_HIGH b interface)) = true in
  exists d1 d2 d3,
    WiFiFilters.set_filter interface bank address d = Some (Ok tt, d1) /\
    stored d1 address /\ masked d1 all_ones /\ enabled d1 /\
    WiFiFilters.override_filter_mask interface bank mask d1 = Some (Ok tt, d2) /\
    stored d2 address /\ masked d2 mask /\ enabled d2 /\
    WiFiFilters.clear_filter interface bank d2 = Some (Ok tt, d3) /\
    (forall r, r ∈ [FILTER_ADDR_LOW b interface; FILTER_ADDR_HIGH b interface;
                    FILTER_MASK_LOW b interface; FILTER_MASK_HIGH b interface] -> regs d3 r = reset_value r).
Proof.
  intros Fm Fa Wa Wm Hi St Hal Hab Hml Hmb b stored masked enabled. subst stored masked enabled.
  assert (forall l, length l = 6%nat -> Forall is_u8 l ->
    le_bytes 4 (le_word (take 4 l)) ++ le_bytes 2 (le_word (drop 4 l) mod 2 ^ 16) = l) as RT.
  { intros l Hl Hb. pose proof (le_word_range (drop 4 l) (Forall_drop _ _ _ Hb)) as Hr.
    rewrite length_drop, Hl in Hr. rewrite (Z.mod_small (le_word (drop 4 l))) by exact Hr.
    rewrite !le_bytes_of by (try (by apply Forall_take); try (by apply Forall_drop);
      rewrite ?length_take, ?length_drop; lia). apply take_drop. }
  pose proof (RT all_ones eq_refl ltac:(by repeat constructor)) as RT1.
  unfold WiFiFilters.set_filter, WiFiFilters.override_filter_mask, WiFiFilters.clear_filter, guarded,
    Validate.validate_interface, RxInterface.set_filter, RxInterface.override_filter_mask, RxInterface.clear_filter,
    LowLevel.set_filter_address, LowLevel.set_filter_mask, LowLevel.set_filter_enable, LowLevel.clear_filter, split_address.
  rewrite (proj2 (Nat.ltb_lt _ _) Hi). fold b.
  assert (forall v w, fget FILTER_MASK (fset_bit FILTER_ENABLED v w) = fget FILTER_MASK w) as S1
    by (intros; apply (fget_fset_layout _ 0 1 _ _ _ _ Fm eq_refl eq_refl); discriminate).
  assert (forall v w, fbit FILTER_ENABLED (fset FILTER_MASK v w) = fbit FILTER_ENABLED w) as S2
    by (intros; unfold fbit; by rewrite (fget_fset_layout _ 1 0 _ _ _ _ Fm eq_refl eq_refl) by discriminate).
  pose proof (fields_ok_at _ 0 _ Fm eq_refl) as Ok0. pose proof (fields_ok_at _ 1 _ Fm eq_refl) as Ok1.
  ll_run St. eexists _, _, _. split; [reflexivity|]. cbn [regs].
  split; [regs_simpl; rewrite fget_fset, Wa by done; by apply RT|].
  split; [regs_simpl; rewrite S1, fget_fset, Wm by done; exact RT1|].
  split; [regs_simpl; by apply fbit_fset|].
  ll_run St. split; [reflexivity|]. cbn [regs].
  split; [regs_simpl; rewrite fget_fset, Wa by done; by apply RT|].
  split; [regs_simpl; rewrite fget_fset, Wm by done; by apply RT|].
  split; [regs_simpl; rewrite S2; by apply fbit_fset|].
  ll_run St. split; [reflexivity|]. cbn [regs].
  intros r Hr. enum_in Hr; regs_simpl; reflexivity.
Qed.

End Filters.

Lemma rx_controller_isolated_witness :
  let P := pac_ref in
  exists d', for_each [SetFilter Bssid demo_address; ClearFilter Bssid] (run_rx_op 1) ll_zero = Some (tt, d') /\
    regs d' (FILTER_CONTROL 0) = 0.
Proof.
  intros P. destruct (rx_controller_isolated 1 [SetFilter Bssid demo_address; ClearFilter Bssid] ll_zero
    ltac:(vm_compute; lia) still_zero) as (d' & E & _ & F).
  exists d'. split; [exact E|]. rewrite F by decide_now. reflexivity.
Defined.

Lemma filter_reads_back_witness :
  let P := pac_ref in
  exists d1, WiFiFilters.set_filter 2 ReceiverAddress demo_address ll_zero = Some (Ok tt, d1) /\
    fbit FILTER_ENABLED (regs d1 (FILTER_MASK_HIGH 1 2)) = true.
Proof.
  intros P.
  destruct (filter_reads_back 2 ReceiverAddress demo_address demo_address ll_zero ltac:(decide_now) ltac:(decide_now)
    eq_refl eq_refl ltac:(vm_compute; lia) still_zero eq_refl ltac:(by repeat constructor) eq_refl ltac:(by repeat constructor))
    as (d1 & _ & _ & E & _ & _ & En & _).
  exists d1. exact (conj E En).
Defined.

(** ** TSF timers *)

Section Timers.
Context `{AtomicWaker} `{MacroBits} `{Pac}.

Lemma timer_bit timer : (timer < 4)%nat -> Z.shiftr 0x100 (Z.of_nat timer) = 2 ^ (8 - Z.of_nat timer).
Proof. intros Ht. by do 4 (destruct timer as [|timer]; [done|]); lia. Qed.

Lemma lift_run {A} (m : M ll A) (s : wifi) a d : m (w_ll s) = Some (a, d) -> lift m s = Some (a, set_ll d s).
Proof. intros E. unfold lift, zoom. by rewrite E. Qed.

(** Masking a bit off and on again leaves the other bits. *)
Lemma rearm_bit w k i : 0 <= k < 32 -> 0 <= i < 32 ->
  Z.testbit (Z.lor (Z.land w (u32 (Z.lnot (2 ^ k)))) (2 ^ k)) i = (i =? k) || Z.testbit w i.
Proof.
  intros Hk Hi. rewrite Z.lor_spec, Z.land_spec, wrap_testbit, Z.lnot_spec by lia.
  rewrite (proj2 (Z.ltb_lt i 32)) by lia. destruct (Z.eqb_spec i k) as [->|Hne].
  - rewrite Z.pow2_bits_true by lia. btauto.
  - rewrite Z.pow2_bits_false by lia. btauto.
Qed.

(** Arming a TSF timer.  The timer and its interrupt are disabled before
    the target is written and the pending interrupt is acknowledged before
    they are enabled again, so an event of an earlier target is discarded; in
    the end the target is set, the timer runs, its interrupt is enabled with
    the interrupts of all other sources unchanged, and no event is pending for
    the waiting task, the events of the other timers being untouched.  An
    index out of range is rejected without any access. *)
Theorem tsf_timer_armed timer target s :
  field_ok TSF_TIMER_ENABLE -> still (w_ll s) -> length (TSF_TIMER_SIGNALS s) = TSF_TIMER_COUNT ->
  ((TSF_TIMER_COUNT <= timer)%nat -> TsfControl.set_tsf_timer timer target s = Some (Err OutOfBoundsError, s)) /\
  ((timer < TSF_TIMER_COUNT)%nat ->
   exists s' accesses, TsfControl.set_tsf_timer timer target s = Some (Ok tt, s') /\
     Registers.log (w_ll s') = Registers.log (w_ll s) ++ accesses /\
     accesses.*1 = [TSF_TIMER_CFG timer; PWR_INT_ENABLE; TSF_TIMER_TARGET timer; PWR_INT_CLEAR; PWR_INT_ENABLE; TSF_TIMER_CFG timer] /\
     (PWR_INT_CLEAR, 2 ^ (8 - Z.of_nat timer)) ∈ accesses /\
     regs (w_ll s') (TSF_TIMER_TARGET timer) = target /\
     fbit TSF_TIMER_ENABLE (regs (w_ll s') (TSF_TIMER_CFG timer)) = true /\
     (forall i, 0 <= i < 32 -> Z.testbit (regs (w_ll s') PWR_INT_ENABLE) i =
        (i =? 8 - Z.of_nat timer) || Z.testbit (regs (w_ll s) PWR_INT_ENABLE) i) /\
     (forall i, EventSignal.fired <$> TSF_TIMER_SIGNALS s' !! i =
        if decide (i = timer) then Some false else EventSignal.fired <$> TSF_TIMER_SIGNALS s !! i)).
Proof.
  intros F St Hl. unfold TsfControl.set_tsf_timer, guarded, Validate.validate_tsf_timer. split.
  { intros Ht. by rewrite (proj2 (Nat.ltb_ge _ _) Ht). }
  intros Ht. rewrite (proj2 (Nat.ltb_lt _ _) Ht). unfold TSF_TIMER_COUNT in *.
  assert (is_Some (TSF_TIMER_SIGNALS s !! timer)) as [sig Es] by (apply lookup_lt_is_Some; lia).
  unfold LowLevel.set_tsf_timer_enabled, LowLevel.set_tsf_timer_target. rewrite timer_bit by done. unfold TSF_TIMER_COUNT.
  rewrite !M_bind_unfold. erewrite lift_run by (ll_run St; reflexivity).
  unfold TsfControl.reset_event. rewrite !M_bind_unfold. unfold gets. cbn [TSF_TIMER_SIGNALS set_ll set_dma].
  rewrite Es. unfold modify. rewrite M_bind_unfold. erewrite lift_run by (ll_run St; reflexivity).
  erewrite lift_run by (ll_run St; reflexivity). cbn [mret M_ret].
  eexists _, _. split; [reflexivity|]. cbn [w_ll w_dma set_ll set_dma set_driver driver set_tsf_signals Registers.log regs TSF_TIMER_SIGNALS].
  split; [rewrite <- !app_assoc; reflexivity|].
  split; [reflexivity|]. split; [cbn; repeat (left || right)|].
  split; [by regs_simpl|]. split; [regs_simpl; by apply fbit_fset|]. split.
  - intros i Hi. regs_simpl. by apply rearm_bit; lia.
  - intros i. destruct (decide (i = timer)) as [->|Hne].
    + rewrite list_lookup_insert_eq by lia. done.
    + by rewrite list_lookup_insert_ne by done.
Qed.

(** The PWR interrupt handler of a chip with TSF timers returns for every
    cause; it acknowledges exactly the causes it read and sets the event of a
    timer or of a TBTT generator exactly when the bit of that source is set,
    the same bit that arming the source enables. *)
Theorem pwr_handler_signals chip s :
  still (w_ll s) -> has_meta chip TSF_TIMER_PRESENT = true ->
  length (TSF_TIMER_SIGNALS s) = TSF_TIMER_COUNT -> length (TBTT_SIGNALS s) = INTERFACE_COUNT ->
  let cause := regs (w_ll s) PWR_INT_STATUS in
  exists s', pwr_handler chip s = Some (tt, s') /\
    regs (w_ll s') PWR_INT_CLEAR = cause /\
    (forall i, (i < TSF_TIMER_COUNT)%nat -> EventSignal.fired <$> TSF_TIMER_SIGNALS s' !! i =
       (fun sig => Z.testbit cause (8 - Z.of_nat i) || EventSignal.fired sig) <$> TSF_TIMER_SIGNALS s !! i) /\
    (forall i, (i < INTERFACE_COUNT)%nat -> EventSignal.fired <$> TBTT_SIGNALS s' !! i =
       (fun sig => Z.testbit cause (4 - Z.of_nat i) || EventSignal.fired sig) <$> TBTT_SIGNALS s !! i).
Proof.
  intros St Hm Hl1 Hl2 cause. unfold pwr_handler. rewrite M_bind_unfold.
  erewrite lift_run by (unfold LowLevel.get_and_clear_pwr_interrupt_cause; ll_run St; reflexivity).
  rewrite Hm, M_bind_unfold. unfold modify. eexists. split; [reflexivity|].
  cbn [w_ll w_dma set_ll set_dma set_driver driver set_tsf_signals set_tbtt_signals regs TSF_TIMER_SIGNALS TBTT_SIGNALS].
  split; [by regs_simpl|].
  assert (forall l fired i, EventSignal.fired <$> signal_events fired l !! i =
    (fun sig => fired i || EventSignal.fired sig) <$> l !! i) as Sig.
  { intros l fired i. unfold signal_events. rewrite list_lookup_imap. destruct (l !! i) as [sig|]; [|done]. cbn.
    destruct (fired i); [|done]. unfold EventSignal.signal. by destruct (waker_wake _). }
  split; intros i Hi; rewrite Sig.
  - unfold PwrInterruptCause.tsf_timer_fired. rewrite (proj2 (Nat.ltb_lt _ _) Hi), andb_true_l.
    unfold TSF_TIMER_COUNT in Hi. rewrite timer_bit, cause_bit by lia. done.
  - unfold PwrInterruptCause.tbtt_of_interface. rewrite (proj2 (Nat.ltb_lt _ _) Hi), andb_true_l.
    unfold INTERFACE_COUNT in Hi.
    replace (Z.shiftr 0x10 (Z.of_nat i)) with (2 ^ (4 - Z.of_nat i)) by (by do 4 (destruct i as [|i]; [done|]); lia).
    rewrite cause_bit by lia. done.
Qed.

End Timers.

Definition wifi_zero : @wifi atomic_waker_ref :=
  @boot_state atomic_waker_ref (mkDma ∅ None ll_zero [] []).

Lemma tsf_timer_armed_witness :
  let W := atomic_waker_ref in let B := macro_bits_ref in let P := pac_ref in
  exists s', TsfControl.set_tsf_timer 2 1000 wifi_zero = Some (Ok tt, s') /\
    regs (w_ll s') (TSF_TIMER_TARGET 2) = 1000.
Proof.
  intros W B P. destruct (tsf_timer_armed 2 1000 wifi_zero ltac:(decide_now) still_zero eq_refl) as [_ T].
  destruct T as (s' & acc & E & _ & _ & _ & Ht & _); [vm_compute; lia|]. exists s'. exact (conj E Ht).
Defined.

Lemma pwr_handler_signals_witness :
  let W := atomic_waker_ref in let B := macro_bits_ref in let P := pac_ref in
  let s := set_ll (mkLl (upd PWR_INT_STATUS 0x80 (fun _ => 0)) (fun _ => []) []) wifi_zero in
  exists s', pwr_handler Esp32c3 s = Some (tt, s') /\ EventSignal.fired <$> TSF_TIMER_SIGNALS s' !! 1%nat = Some true.
Proof.
  intros W B P s. destruct (pwr_handler_signals Esp32c3 s) as (s' & E & _ & T & _).
  - intros r. reflexivity.
  - decide_now.
  - reflexivity.
  - reflexivity.
  - exists s'. split; [exact E|]. rewrite T by (vm_compute; lia). reflexivity.
Defined.

(** ** Switching channels *)

(** The bits that stop the MAC, and the bits that show it is busy. *)
Definition stop_bits (chip : Chip) : Z := u32 (Z.lnot (LowLevel.mac_init_mask chip)).
Definition mac_stopped (chip : Chip) (d : ll) : Prop := Z.land (regs d CTRL) (stop_bits chip) = stop_bits chip.
Definition mac_running (chip : Chip) (d : ll) : Prop := Z.land (regs d CTRL) (stop_bits chip) = 0.
Definition mac_idle (chip : Chip) (d : ll) : Prop := Z.land (regs d CTRL) (LowLevel.mac_ready_mask chip) = 0.

Lemma spin_still r cond d : still d -> cond (regs d r) = false ->
  exists d', spin_while r cond d = Some (tt, d') /\ still d' /\ forall r', regs d' r' = regs d r'.
Proof.
  intros St Hc. unfold spin_while. rewrite (St r). cbn. rewrite Hc. eexists. split; [reflexivity|]. split.
  - intros r'. cbn. destruct (decide _); [done|apply St].
  - intros r'. cbn. unfold upd. destruct (decide _); congruence.
Qed.

Lemma stop_ready_disjoint chip : Z.land (stop_bits chip) (LowLevel.mac_ready_mask chip) = 0.
Proof. by destruct chip. Qed.

Lemma stop_init_disjoint chip : Z.land (LowLevel.mac_init_mask chip) (stop_bits chip) = 0.
Proof. by destruct chip. Qed.

Lemma stop_mac_spec chip d : still d -> mac_idle chip d ->
  exists d', LowLevel.set_mac_state chip false d = Some (tt, d') /\ mac_stopped chip d' /\ mac_idle chip d' /\
    (forall r, r <> CTRL -> regs d' r = regs d r).
Proof.
  intros St Hi. unfold LowLevel.set_mac_state. cbn [negb andb]. rewrite M_bind_unfold.
  assert (exists d1, (if bool_decide (chip <> Esp32)
      then spin_while CTRL (fun v => negb (Z.land v (LowLevel.mac_ready_mask chip) =? 0)) else mret tt) d = Some (tt, d1) /\
    still d1 /\ forall r', regs d1 r' = regs d r') as (d1 & E1 & S1 & F1).
  { case_bool_decide; [|by exists d]. apply spin_still; [done|]. unfold mac_idle in Hi. by rewrite Hi. }
  rewrite E1, M_bind_unfold, still_modify by done.
  match goal with |- context [mkLl ?a ?b ?c] => set (d2 := mkLl a b c) end.
  assert (regs d2 CTRL = Z.lor (regs d CTRL) (stop_bits chip)) as E2 by (cbn; by rewrite upd_eq, F1).
  assert (mac_idle chip d2) as Hi2.
  { unfold mac_idle in *. rewrite E2, Z.land_lor_distr_l, Hi, stop_ready_disjoint. done. }
  destruct (spin_still CTRL (fun v => negb (Z.land v (LowLevel.mac_ready_mask chip) =? 0)) d2) as (d3 & E3 & S3 & F3);
    [exact S1|unfold mac_idle in Hi2; by rewrite Hi2|].
  exists d3. split; [exact E3|]. unfold mac_stopped, mac_idle. rewrite F3. split; [|split; [exact Hi2|]].
  2: { intros r Hr. rewrite F3. cbn. by rewrite upd_ne, F1. }
  rewrite E2, Z.land_lor_distr_l, Z.land_diag. apply Z.bits_inj'. intros i Hi'.
  rewrite Z.lor_spec, Z.land_spec. btauto.
Qed.

(** On a busy MAC the wait for it does not end. *)
Lemma stop_mac_waits chip d : chip <> Esp32 -> still d -> ~ mac_idle chip d -> LowLevel.set_mac_state chip false d = None.
Proof.
  intros Hc St Hi. unfold LowLevel.set_mac_state. cbn [negb andb]. rewrite M_bind_unfold, bool_decide_true by done.
  unfold spin_while. rewrite (St CTRL). cbn [spin_inputs]. unfold mac_idle in Hi. apply Z.eqb_neq in Hi. by rewrite Hi.
Qed.

Lemma start_mac_spec chip d :
  exists d', LowLevel.set_mac_state chip true d = Some (tt, d') /\ mac_running chip d' /\
    (forall r, r <> CTRL -> regs d' r = regs d r).
Proof.
  unfold LowLevel.set_mac_state. cbn [negb andb]. rewrite M_bind_unfold. cbn [mret M_ret].
  unfold modify_reg, read, write. rewrite !M_bind_unfold.
  destruct (inputs d CTRL); (eexists; split; [reflexivity|]); unfold mac_running; cbn [regs];
    (split; [by rewrite upd_eq, <- Z.land_assoc, stop_init_disjoint, Z.land_0_r|intros r Hr; by rewrite !upd_ne]).
Qed.

(** From the channel routine on: the routine left the state [d2]. *)
Lemma after_set_chan `{Pac} `{Ffi} chip d2 : c3_or_s3 chip = true ->
  exists d', (LowLevel.disable_wifi_agc chip ;; LowLevel.set_mac_state chip true ;; LowLevel.enable_wifi_agc chip) d2 = Some (tt, d') /\
    mac_running chip d' /\ agc_runs d' /\ (forall r, r <> CTRL -> ~ agc_words r -> regs d' r = regs d2 r).
Proof.
  intros Hc. unfold LowLevel.disable_wifi_agc, LowLevel.enable_wifi_agc. rewrite Hc, M_bind_unfold.
  destruct (disable_agc_run (bool_decide (chip = Esp32s3)) d2) as (d3 & -> & _ & F3). rewrite M_bind_unfold.
  destruct (start_mac_spec chip d3) as (d4 & -> & R4 & F4).
  destruct (enable_agc_run (bool_decide (chip = Esp32s3)) d4) as (d5 & -> & A5 & F5).
  exists d5. split; [done|]. split; [|split; [done|]].
  - unfold mac_running in *. rewrite F5; [done|]. unfold agc_words, AGC_THRESHOLD, AGC_CONTROL, AGC_HOLD. set_solver.
  - intros r Hr Ha. by rewrite F5, F4, F3.
Qed.

(** C16: Switching channels on the C3 and the S3.  A channel outside 1 to 14 is
    rejected without any access.  Otherwise the driver waits while the MAC is
    busy, for ever if it stays busy; when the MAC is idle it stops it, and calls
    the channel routine of the PHY once, with the stopped and idle MAC and no
    other register changed.  If the routine returns, whatever it does, the
    switch succeeds and is recorded, the MAC runs, and the AGC runs with its
    operating threshold; apart from the control register and the three words of
    the AGC the registers are as the routine left them.  The registers show
    stable values when they are read. *)
Theorem channel_switch `{AtomicWaker} `{MacroBits} `{Pac} `{Ffi} chip channel s :
  c3_or_s3 chip = true -> still (w_ll s) ->
  (~ 1 <= channel <= 14 -> ChannelControl.set_channel chip channel s = Some (Err InvalidChannel, s)) /\
  (1 <= channel <= 14 -> ~ mac_idle chip (w_ll s) -> ChannelControl.set_channel chip channel s = None) /\
  (1 <= channel <= 14 -> mac_idle chip (w_ll s) ->
   exists d1, mac_stopped chip d1 /\ mac_idle chip d1 /\ (forall r, r <> CTRL -> regs d1 r = regs (w_ll s) r) /\
     match LowLevel.set_chan chip channel d1 with
     | None => ChannelControl.set_channel chip channel s = None
     | Some (_, d2) => exists s', ChannelControl.set_channel chip channel s = Some (Ok tt, s') /\
         CURRENT_CHANNEL s' = channel /\ mac_running chip (w_ll s') /\ agc_runs (w_ll s') /\
         (forall r, r <> CTRL -> ~ agc_words r -> regs (w_ll s') r = regs d2 r)
     end).
Proof.
  intros Hc St. unfold ChannelControl.set_channel. split; [|split].
  { intros Hn. destruct (Z.leb_spec 1 channel), (Z.leb_spec channel 14); try done. lia. }
  all: intros Hn Hi; rewrite (proj2 (Z.leb_le 1 channel)), (proj2 (Z.leb_le channel 14)) by lia; cbn [andb negb];
    rewrite M_bind_unfold; unfold lift, zoom, LowLevel.set_channel; rewrite M_bind_unfold.
  { by rewrite stop_mac_waits by (done || by intros ->). }
  destruct (stop_mac_spec chip (w_ll s) St Hi) as (d1 & E1 & P1 & I1 & F1). exists d1. split_and!; [done..|].
  rewrite E1, M_bind_unfold. destruct (LowLevel.set_chan chip channel d1) as [[[] d2]|]; [|done].
  destruct (after_set_chan chip d2 Hc) as (d3 & -> & R3 & A3 & F3). eexists. split; [reflexivity|]. done.
Qed.

Lemma channel_switch_witness :
  let W := atomic_waker_ref in let B := macro_bits_ref in let P := pac_ref in let F := ffi_ref in
  exists s', ChannelControl.set_channel Esp32s3 6 wifi_zero = Some (Ok tt, s') /\ CURRENT_CHANNEL s' = 6.
Proof.
  intros W B P F. destruct (channel_switch Esp32s3 6 wifi_zero eq_refl still_zero) as (_ & _ & T).
  destruct T as (d1 & _ & _ & _ & s' & E & C & _); [lia|reflexivity|]. exists s'. exact (conj E C).
Defined.
