(* ===== verification/Transmit.v ===== *)
(** * Transmission ([async_driver.rs], module [private])

    A future is its polls: between two polls the environment, that is the
    hardware and the interrupt handlers, changes the driver state.  [irqs] is
    the list of these changes, arbitrary functions on the driver state, so
    theorems hold for every behaviour of the environment.  A future the
    environment never completes does not return. *)

From S2P Require Import Prelude External Queue Edca Rates Sync Registers LowLevel DmaList Wifi Control.

Inductive TxErrorBehaviour :=
| RetryUntil (retries : Z)
| MultiRateRetry (rates : list TxPhyRate)
| Drop.

(** [tx_attempt_rate_iter] *)
Definition tx_attempts (b : TxErrorBehaviour) : nat :=
  match b with
  | RetryUntil retries => Z.to_nat (retries + 1)
  | MultiRateRetry rates => length rates
  | Drop => 1
  end.

Definition tx_attempt_rate_iter (b : TxErrorBehaviour) (initial_rate : TxPhyRate) : list TxPhyRate :=
  (fun i => match b with
            | RetryUntil _ => initial_rate
            | MultiRateRetry rates => if (i =? 0)%nat then initial_rate else nth i rates initial_rate
            | Drop => initial_rate
            end) <$> seq 0 (tx_attempts b).

Record EdcaParameters := mkEdcaParameters {
  contention_window_exponent_range : option RangeInclusive;
  ep_aifsn : option Z
}.

Inductive RtsStrategy := DriverControlled | Forced (rts_enabled : bool).

Record TxMacParameters := mkMac {
  key_slot_index : option Z;
  mp_wait_for_ack : bool;
  rts_strategy : RtsStrategy;
  override_seq_num : bool;
  edca_parameters : EdcaParameters
}.

Record ExtractedParameters := mkExtracted { duration : Z; is_unicast : bool }.
Record EdcaTxParameters := mkEdcaTx { backoff_slots : Z; aifsn : Z }.

(** [prepare_dma_descriptor_for_tx]; the descriptor word has [suc_eof] at bit
    30. *)
Definition set_suc_eof (d : DmaDescriptor) : DmaDescriptor :=
  DmaDescriptor.set_flags (Z.lor (d_flags d) (Z.shiftl 1 30)) d.

Definition prepare_dma_descriptor_for_tx (mpdu_ptr : Z) (mpdu_len : nat) (d : DmaDescriptor) : DmaDescriptor :=
  let frame_length := Z.of_nat mpdu_len + 4 in
  let d := set_suc_eof (DmaDescriptor.set_owner Dma
             (DmaDescriptor.set_length frame_length (DmaDescriptor.set_size frame_length d))) in
  mkDesc (d_flags d) mpdu_ptr (d_next d).

Module Tx.
Section Tx.
Context `{AtomicWaker} `{MacroBits} `{Pac} `{Ffi}.

(** [aired] is what the MAC was given to send, in order: for every start of a
    queue, the queue, the descriptor and the bytes of the buffer it names. *)
Record world := mkWorld {
  w_wifi : wifi;
  irqs : list (wifi -> wifi);
  aired : list (HardwareTxQueue * DmaDescriptor * list Z)
}.

Definition on_wifi {A} (m : M wifi A) : M world A :=
  zoom w_wifi (fun w s => mkWorld w (irqs s) (aired s)) m.
Definition on_ll {A} (m : M ll A) : M world A := on_wifi (lift m).

Variable chip : Chip.

Definition setup_tx (interface : nat) (rate : TxPhyRate) (mac : TxMacParameters) (queue : HardwareTxQueue)
    (dma_ptr : Z) (dma_descriptor : DmaDescriptor) (extracted : ExtractedParameters) (edca : EdcaTxParameters)
    : M ll unit :=
  let rts_enabled := match rts_strategy mac with Forced b => b | DriverControlled => is_unicast extracted end in
  LowLevel.set_channel_access_parameters queue 10 (backoff_slots edca) (aifsn edca) ;;
  LowLevel.set_plcp0 queue dma_ptr (mp_wait_for_ack mac) rts_enabled ;;
  LowLevel.set_plcp1 chip queue rate (DmaDescriptor.len dma_descriptor) interface (key_slot_index mac) ;;
  LowLevel.set_plcp2 chip queue ;;
  LowLevel.set_duration queue (duration extracted) ;;
  match rate with
  | Ht ht => LowLevel.set_ht_parameters chip queue (mcs_index ht) (short_gi ht) (DmaDescriptor.len dma_descriptor)
  | _ => mret tt
  end.

(** The closure of [tx_done_wait_drop_guard]. *)
Definition release_slot (queue : HardwareTxQueue) : M wifi unit :=
  lift (LowLevel.tx_done queue) ;; reset_tx_signal (hardware_slot queue).

(** The part of [transmit_raw] that runs before the future is returned. *)
Definition transmit_start (interface : nat) (rate : TxPhyRate) (mac : TxMacParameters) (queue : HardwareTxQueue)
    (dma_ptr : Z) (dma_descriptor : DmaDescriptor)
    (fallible_params : result (ExtractedParameters * EdcaTxParameters) TxError) : M wifi unit :=
  match fallible_params with
  | Ok (extracted, edca) =>
      lift (setup_tx interface rate mac queue dma_ptr dma_descriptor extracted edca) ;;
      reset_tx_signal (hardware_slot queue) ;;
      lift (LowLevel.start_tx_queue queue)
  | Err _ => mret tt
  end.

(** The [inspect] on success: power control on the fifth frame. *)
Definition count_frame : M wifi unit :=
  n ← gets FRAMES_SINCE_LAST_TXPWR_CTRL;
  modify (set_txpwr (u8 (n + 1))) ;;
  if n =? 4 then lift (LowLevel.run_power_control chip) ;; modify (set_txpwr 0) else mret tt.

(** One poll of the future. *)
Definition transmit_poll (queue : HardwareTxQueue)
    (fallible_params : result (ExtractedParameters * EdcaTxParameters) TxError)
    : M wifi (Poll (result unit TxError)) :=
  match fallible_params with
  | Err e => release_slot queue ;; mret (Ready (Err e))
  | Ok _ =>
      l ← gets HARDWARE_TX_RESULT_SIGNALS;
      match l !! hardware_slot queue with
      | None => panic
      | Some sig =>
          match TxSignal.wait sig with
          | None => panic
          | Some (r, sig') =>
              modify (set_tx_signals (<[hardware_slot queue := sig']> l)) ;;
              match r with
              | Pending => mret Pending
              | Ready (Err e) => release_slot queue ;; mret (Ready (Err (ChannelAccess e)))
              | Ready (Ok _) =>
                  count_frame ;;
                  release_slot queue ;;
                  res ← lift (LowLevel.get_tx_mac_protocol_result queue);
                  mret (Ready (map_err MacProtocol res))
              end
          end
      end
  end.

(** Dropping the future before it completed. *)
Definition transmit_cancel (queue : HardwareTxQueue) : M wifi unit := release_slot queue.

(** Polling until the future completes. *)
Fixpoint await_tx (queue : HardwareTxQueue)
    (fallible_params : result (ExtractedParameters * EdcaTxParameters) TxError)
    (env : list (wifi -> wifi)) (s : wifi) : option (result unit TxError * (wifi * list (wifi -> wifi))) :=
  match transmit_poll queue fallible_params s with
  | None => None
  | Some (Ready r, s') => Some (r, (s', env))
  | Some (Pending, s') =>
      match env with
      | [] => None
      | irq :: env' => await_tx queue fallible_params env' (irq s')
      end
  end.

Definition await (queue : HardwareTxQueue)
    (fallible_params : result (ExtractedParameters * EdcaTxParameters) TxError) : M world (result unit TxError) :=
  fun s => match await_tx queue fallible_params (irqs s) (w_wifi s) with
           | Some (r, (w, env)) => Some (r, mkWorld w env (aired s))
           | None => None
           end.

(** The started MAC fetches the frame from the buffer of the descriptor. *)
Definition fetch (queue : HardwareTxQueue) (dma_descriptor : DmaDescriptor) (mpdu : list Z) : M world unit :=
  modify (fun s => mkWorld (w_wifi s) (irqs s) (aired s ++ [(queue, dma_descriptor, mpdu)])).

(** [mpdu] is the contents of the descriptor's buffer. *)
Definition transmit_raw (interface : nat) (rate : TxPhyRate) (mac : TxMacParameters) (queue : HardwareTxQueue)
    (dma_ptr : Z) (dma_descriptor : DmaDescriptor) (mpdu : list Z)
    (fallible_params : result (ExtractedParameters * EdcaTxParameters) TxError) : M world (result unit TxError) :=
  on_wifi (transmit_start interface rate mac queue dma_ptr dma_descriptor fallible_params) ;;
  (if is_ok fallible_params then fetch queue dma_descriptor mpdu else mret tt) ;;
  await queue fallible_params.

(** [prepare_frame_for_tx] returns the parameters and the buffer it may have
    changed. *)
Definition prepare_frame_for_tx (interface : nat) (mac : TxMacParameters) (mpdu_buf : list Z)
    : M wifi (result ExtractedParameters TxError * list Z) :=
  match slice 2 4 mpdu_buf with
  | None => mret (Err BufferTooShort, mpdu_buf)
  | Some bytes =>
      match mpdu_buf !! 4%nat with
      | None => panic
      | Some b4 =>
          let extracted := mkExtracted (le_word bytes) (Z.land b4 1 =? 0) in
          numbered ← (if override_seq_num mac then
                        seq_num ← gets CURRENT_SEQUENCE_NUMBER;
                        modify (set_seq (u16 (seq_num + 1))) ;;
                        match slice 22 24 mpdu_buf with
                        | Some _ => mret (Ok (splice 22 (le_bytes 2 (u16 (Z.shiftl seq_num 4))) mpdu_buf))
                        | None => mret (Err BufferTooShort)
                        end
                      else mret (Ok mpdu_buf));
          match numbered with
          | Err e => mret (Err e, mpdu_buf)
          | Ok buf =>
              key_check ← match key_slot_index mac with
                          | None => mret (Ok tt)
                          | Some key_slot =>
                              if negb (is_ok (Validate.validate_key_slot (Z.to_nat key_slot)))
                              then mret (Err TxOutOfBounds) else
                              enabled ← lift (LowLevel.key_slot_enabled (Z.to_nat key_slot));
                              mret (if (enabled : bool) then Ok tt else Err DisabledKeySlot)
                          end;
              match key_check with
              | Err e => mret (Err e, buf)
              | Ok _ =>
                  if is_ok (Validate.validate_interface interface)
                  then mret (Ok extracted, buf) else mret (Err TxOutOfBounds, buf)
              end
          end
      end
  end.

Definition effective_aifsn (mac : TxMacParameters) (queue : HardwareTxQueue) : Z :=
  default (default_aifsn queue) (ep_aifsn (edca_parameters mac)).

(** [EdcaContentionState::new] with the overridden or the default range. *)
Definition contention_state (mac : TxMacParameters) (ac : EdcaAccessCategory) : option EdcaContentionState :=
  Edca.new (default (EdcaAC.default_cw_exponent_range ac) (contention_window_exponent_range (edca_parameters mac))).

(** [random] is the word the generator yields. *)
Definition transmit_oneshot (random : Z) (interface : nat) (rate : TxPhyRate) (mac : TxMacParameters)
    (queue : HardwareTxQueue) (dma_ptr mpdu_ptr : Z) (dma_descriptor : DmaDescriptor) (mpdu_buf : list Z)
    : M world (result unit TxError * list Z) :=
  '(duration_and_is_unicast, buf) ← on_wifi (prepare_frame_for_tx interface mac mpdu_buf);
  let dma_descriptor := prepare_dma_descriptor_for_tx mpdu_ptr (length buf) dma_descriptor in
  let backoff := match queue with
                 | Edcaf ac => Edca.random_backoff_slot_count random <$> contention_state mac ac
                 | Beacon => Some 1
                 end in
  let params := match backoff with
                | None => Err InvalidEdcaParameters
                | Some b => result_map (fun e => (e, mkEdcaTx b (effective_aifsn mac queue))) duration_and_is_unicast
                end in
  res ← transmit_raw interface rate mac queue dma_ptr dma_descriptor buf params;
  mret (res, buf).

(** The retry bit of the frame control field. *)
Definition set_retry (buf : list Z) : list Z := alter (fun b => Z.lor b (bit 3)) 1%nat buf.
Definition clear_retry (buf : list Z) : list Z := alter (fun b => Z.land b (u8 (Z.lnot (bit 3)))) 1%nat buf.

Definition is_mac_protocol {A} (r : result A TxError) : bool :=
  match r with Err (MacProtocol _) => true | _ => false end.

(** The update of the contention state after an attempt. *)
Definition contention_after (r : result Z TxError) (edca : option EdcaContentionState) : option EdcaContentionState :=
  match r with
  | Err (MacProtocol AckTimeout) => (fun c => Edca.reset_src (Edca.increment_lrc c)) <$> edca
  | Err (MacProtocol _) => Edca.increment_src <$> edca
  | _ => edca
  end.

Section Retry.
Variable random : nat -> Z.
Variables (interface : nat) (mac : TxMacParameters) (queue : HardwareTxQueue).
Variables (dma_ptr : Z) (dma_descriptor : DmaDescriptor) (extracted : ExtractedParameters).

Definition attempt_parameters (i : nat) (edca : option EdcaContentionState) : EdcaTxParameters :=
  mkEdcaTx (match edca with Some c => Edca.random_backoff_slot_count (random i) c | None => 1 end)
    (effective_aifsn mac queue).

(** The loop over the attempts, [i] being the number of the next one. *)
Fixpoint retry_loop (i : nat) (rates : list TxPhyRate) (edca : option EdcaContentionState) (buf : list Z)
    (last_res : result Z TxError) : M world (result Z TxError * list Z) :=
  match rates with
  | [] => mret (last_res, buf)
  | rate :: rest =>
      res ← transmit_raw interface rate mac queue dma_ptr dma_descriptor buf
              (Ok (extracted, attempt_parameters i edca));
      let last_res := result_map (fun _ => u8 (Z.of_nat i)) res in
      let buf := if is_mac_protocol last_res then set_retry buf else buf in
      match last_res with
      | Ok _ => mret (last_res, buf)
      | Err _ => retry_loop (S i) rest (contention_after last_res edca) buf last_res
      end
  end.

End Retry.

Definition transmit_with_retry (random : nat -> Z) (interface : nat) (rate : TxPhyRate) (mac : TxMacParameters)
    (error_behaviour : TxErrorBehaviour) (queue : HardwareTxQueue) (dma_ptr mpdu_ptr : Z)
    (dma_descriptor : DmaDescriptor) (mpdu_buf : list Z) : M world (result Z TxError * list Z) :=
  '(prepared, buf) ← on_wifi (prepare_frame_for_tx interface mac mpdu_buf);
  match prepared with
  | Err e => mret (Err e, buf)
  | Ok extracted =>
      let dma_descriptor := prepare_dma_descriptor_for_tx mpdu_ptr (length buf) dma_descriptor in
      let edca := match queue with Edcaf ac => contention_state mac ac | Beacon => None end in
      '(last_res, buf) ← retry_loop random interface mac queue dma_ptr dma_descriptor extracted
                           0 (tx_attempt_rate_iter error_behaviour rate) edca buf (Ok 0);
      mret (last_res, clear_retry buf)
  end.

End Tx.
End Tx.
