(* ===== verification/TransmitSpec.v ===== *)
(** * Correctness of transmission

    What a transmission programs, that every way out of it releases the slot,
    the retry policy, and the preparation of the frame. *)

From S2P Require Import Prelude External Queue Edca Rates Ht20 Sync Registers ChipCalls LowLevel DmaList RxQueue Wifi Control Transmit.

(** The rates [HtRate::new] admits for transmission. *)
Definition rate_ok (rate : TxPhyRate) : Prop :=
  match rate with Ht ht => 0 <= mcs_index ht < 8 | _ => True end.

(** The registers of one TX slot. *)
Definition tx_slot_regs (slot : nat) : list Reg :=
  [TX_SLOT_PLCP0 slot; TX_SLOT_CONFIG slot; PLCP1 slot; PLCP2 slot; DURATION slot; HT_SIG slot; HT_UNKNOWN slot].

Module TxSpec.
Section TxSpec.
Context `{AtomicWaker} `{MacroBits} `{Pac} `{Ffi}.
Variable chip : Chip.

(** [setup_tx] returns and touches only its slot. *)
Lemma setup_tx_runs interface rate mac queue ptr desc ext edca d :
  still d -> rate_ok rate -> (interface < INTERFACE_COUNT)%nat ->
  exists d', Tx.setup_tx chip interface rate mac queue ptr desc ext edca d = Some (tt, d') /\ still d' /\
    (forall r, (r ∉ tx_slot_regs (hardware_slot queue)) -> regs d' r = regs d r) /\
    regs d' (DURATION (hardware_slot queue)) = Z.lor (duration ext) (u32 (Z.shiftl (duration ext) 16)) /\
    regs d' (TX_SLOT_CONFIG (hardware_slot queue)) =
      fset CONFIG_AIFSN (aifsn edca) (fset CONFIG_BACKOFF_TIME (backoff_slots edca)
        (fset CONFIG_TIMEOUT 10 (regs d (TX_SLOT_CONFIG (hardware_slot queue))))).
Proof.
  intros St Hr Hi. unfold INTERFACE_COUNT in Hi. set (slot := hardware_slot queue).
  unfold Tx.setup_tx, LowLevel.set_channel_access_parameters, LowLevel.set_plcp0, LowLevel.set_plcp1,
    LowLevel.set_plcp2, LowLevel.set_duration, LowLevel.set_ht_parameters, LowLevel.plcp1_hardware_rate.
  fold slot. generalize (match rts_strategy mac with DriverControlled => is_unicast ext | Forced b => b end) as rts.
  intros rts. unfold rate_ok in Hr.
  assert (forall a b, tx_misc a b interface <> None) as Hmisc
    by (intros a b; unfold tx_misc; by rewrite (proj2 (Nat.ltb_lt _ _) Hi)).
  destruct (c3_or_s3 chip), rate as [h|o|ht], rts; unfold ht_rate, ht_sig;
    rewrite ?(proj2 (Z.ltb_lt (mcs_index ht) 8)) by lia; ll_run St;
    try match goal with |- context [tx_misc ?a ?b interface] =>
      let E := fresh "E" in destruct (tx_misc a b interface) as [w|] eqn:E; [|by destruct (Hmisc a b)] end;
    ll_run St; (eexists; split; [reflexivity|]; split; [exact St|]); cbn [regs];
    (split; [intros r Hr'; rewrite !upd_ne by (intros ->; apply Hr'; unfold tx_slot_regs; repeat (left || right)); reflexivity
            |split; regs_simpl; reflexivity]).
Qed.

(** ** Slots *)

(** The driver is between interrupts: reads are stable and the five result
    signals exist. *)
Definition ready (s : wifi) : Prop := still (w_ll s) /\ length (HARDWARE_TX_RESULT_SIGNALS s) = 5%nat.

(** The slot is free: its control word has the reset value and no result is
    pending. *)
Definition released (queue : HardwareTxQueue) (s : wifi) : Prop :=
  regs (w_ll s) (TX_SLOT_PLCP0 (hardware_slot queue)) = reset_value (TX_SLOT_PLCP0 (hardware_slot queue)) /\
  TxSignal.state <$> HARDWARE_TX_RESULT_SIGNALS s !! hardware_slot queue = Some TxSignal.PENDING_OR_INACTIVE.

Lemma release_slot_releases queue s s' :
  Tx.release_slot queue s = Some (tt, s') -> released queue s'.
Proof.
  unfold Tx.release_slot, lift, LowLevel.tx_done, LowLevel.set_tx_queue_status, modify_reg, reset_reg, read.
  unmonad. destruct (inputs (w_ll s) _); cbn; unfold reset_tx_signal; unmonad;
    (destruct (HARDWARE_TX_RESULT_SIGNALS s !! hardware_slot queue) as [sig|] eqn:E; [|done]);
    intros [= <-]; (split; cbn; [by rewrite upd_eq|]);
    rewrite list_lookup_insert_eq by (by apply lookup_lt_Some in E); done.
Qed.

Lemma release_slot_ready queue s : ready s ->
  exists s', Tx.release_slot queue s = Some (tt, s') /\ ready s' /\ released queue s' /\
    FRAMES_SINCE_LAST_TXPWR_CTRL s' = FRAMES_SINCE_LAST_TXPWR_CTRL s /\
    (forall i, regs (w_ll s') (PMD i) = regs (w_ll s) (PMD i)).
Proof.
  intros [St Hl]. pose proof (hardware_slot_lt queue) as Hq.
  assert (is_Some (HARDWARE_TX_RESULT_SIGNALS s !! hardware_slot queue)) as [sig Es] by (apply lookup_lt_is_Some; lia).
  assert (exists s', Tx.release_slot queue s = Some (tt, s') /\ ready s' /\
    FRAMES_SINCE_LAST_TXPWR_CTRL s' = FRAMES_SINCE_LAST_TXPWR_CTRL s /\
    (forall i, regs (w_ll s') (PMD i) = regs (w_ll s) (PMD i))) as (s' & E & R & HF & HP).
  { unfold Tx.release_slot, lift, zoom, LowLevel.tx_done, LowLevel.set_tx_queue_status. rewrite M_bind_unfold.
    ll_run St. unfold reset_tx_signal, gets. rewrite M_bind_unfold. cbn [HARDWARE_TX_RESULT_SIGNALS set_ll set_dma].
    rewrite Es. eexists. split; [reflexivity|]. split; [|split; [done|]].
    - split; [exact St|]. cbn. by rewrite length_insert.
    - intros i. cbn. by regs_simpl. }
  exists s'. split; [done|]. split; [done|]. split; [by eapply release_slot_releases|done].
Qed.

Lemma poll_releases queue params s r s' :
  Tx.transmit_poll chip queue params s = Some (Ready r, s') -> released queue s'.
Proof.
  unfold Tx.transmit_poll. destruct params as [p|e].
  2: { rewrite M_bind_unfold. destruct (Tx.release_slot queue s) as [[[] s1]|] eqn:E; [|done].
       intros [= _ <-]. by eapply release_slot_releases. }
  unfold gets. rewrite M_bind_unfold. destruct (HARDWARE_TX_RESULT_SIGNALS s !! hardware_slot queue) as [sig|]; [|done].
  destruct (TxSignal.wait sig) as [[[r0|] sig']|]; [|done..]. unfold modify. rewrite M_bind_unfold.
  destruct r0 as [u|e].
  - rewrite M_bind_unfold. destruct (Tx.count_frame _ _) as [[[] s1]|]; [|done].
    rewrite M_bind_unfold. destruct (Tx.release_slot queue s1) as [[[] s2]|] eqn:E; [|done].
    apply release_slot_releases in E as [R1 R2].
    unfold LowLevel.get_tx_mac_protocol_result, lift, zoom, read. unmonad.
    destruct (inputs (w_ll s2) _); intros [= _ <-]; (split; [|done]); cbn; by regs_simpl.
  - rewrite M_bind_unfold. destruct (Tx.release_slot queue _) as [[[] s1]|] eqn:E; [|done].
    intros [= _ <-]. by eapply release_slot_releases.
Qed.

Lemma await_releases queue params env w r w' env' :
  Tx.await_tx chip queue params env w = Some (r, (w', env')) -> released queue w'.
Proof.
  revert w. induction env as [|irq env IH]; intros w; cbn [Tx.await_tx];
    (destruct (Tx.transmit_poll chip queue params w) as [[[r0|] w1]|] eqn:E; [| |done]); try done; try apply IH;
    intros [= <- <- <-]; by apply (poll_releases _ _ _ _ _ E).
Qed.

(** C6: Every way out of a transmission releases its slot.  Whatever the
    environment does, when the future of [transmit_raw] completes, with
    success, a protocol error, a channel access error or an error in its
    parameters, and when it is dropped before completion, the control word of
    the slot has its reset value and no stale result is left for the next
    transmission. *)
Theorem slot_always_released interface rate mac queue ptr desc mpdu params :
  (forall s r s', Tx.transmit_raw chip interface rate mac queue ptr desc mpdu params s = Some (r, s') ->
     released queue (Tx.w_wifi s')) /\
  (forall s s', Tx.transmit_cancel queue s = Some (tt, s') -> released queue s').
Proof.
  split; [|intros s s'; apply release_slot_releases].
  intros s r s'. unfold Tx.transmit_raw. rewrite M_bind_unfold.
  destruct (Tx.on_wifi _ s) as [[[] s1]|]; [|done]. rewrite M_bind_unfold.
  match goal with |- context [(if is_ok params then ?a else ?b) s1] =>
    destruct ((if is_ok params then a else b) s1) as [[[] s2]|]; [|done] end. unfold Tx.await.
  destruct (Tx.await_tx _ _ _ _ _) as [[r0 [w env]]|] eqn:E; [|done]. intros [= <- <-]. by eapply await_releases.
Qed.

(** ** Transmission with a responsive environment *)

(** What the interrupt handler and the MAC leave after one transmission: the
    result signalled to the slot and the PMD register. *)
Definition report (queue : HardwareTxQueue) (o : result unit ChannelAccessError * Z) (s : wifi) : wifi :=
  let slot := hardware_slot queue in
  set_tx_signals (alter (fun sig => (TxSignal.signal o.1 sig).1) slot (HARDWARE_TX_RESULT_SIGNALS s))
    (set_ll (mkLl (upd (PMD slot) o.2 (regs (w_ll s))) (inputs (w_ll s)) (Registers.log (w_ll s))) s).

(** Power control returns; it may change registers. *)
Lemma power_control_run d : exists f, LowLevel.run_power_control chip d = Some (tt, mkLl f (inputs d) (Registers.log d)).
Proof.
  unfold LowLevel.run_power_control, LowLevel.tx_pwctrl_background. destruct (c3_or_s3 chip); [apply tx_pwctrl_run|by eexists].
Qed.

(** Power control does not touch the PMD registers of the MAC. *)
Definition pmd_kept : Prop := forall d d', LowLevel.run_power_control chip d = Some (tt, d') ->
  forall i, regs d' (PMD i) = regs d (PMD i).

(** [r] is the outcome of an attempt with the report [o]: a channel access
    error is passed on; after a completion it is what the PMD register shows,
    which is the reported value unless power control changed it. *)
Definition explains (o : result unit ChannelAccessError * Z) (r : result unit TxError) : Prop :=
  match o.1 with
  | Err e => r = Err (ChannelAccess e)
  | Ok _ => exists pmd, r = map_err MacProtocol (LowLevel.mac_protocol_result pmd) /\ (pmd_kept -> pmd = o.2)
  end.

Lemma count_frame_ready s : ready s ->
  exists s', Tx.count_frame chip s = Some (tt, s') /\ ready s' /\ HARDWARE_TX_RESULT_SIGNALS s' = HARDWARE_TX_RESULT_SIGNALS s /\
    (pmd_kept -> forall i, regs (w_ll s') (PMD i) = regs (w_ll s) (PMD i)).
Proof.
  intros [St Hl]. unfold Tx.count_frame, gets, modify. rewrite !M_bind_unfold.
  destruct (_ =? 4); [|by eexists].
  rewrite !M_bind_unfold. unfold lift, zoom.
  destruct (power_control_run (w_ll s)) as (f & E). change (w_ll (set_txpwr _ s)) with (w_ll s). rewrite E.
  eexists. split; [reflexivity|]. split; [done|]. split; [done|]. intros Hk. exact (Hk _ _ E).
Qed.

Lemma lookup_signal queue (s : wifi) : ready s ->
  exists sig, HARDWARE_TX_RESULT_SIGNALS s !! hardware_slot queue = Some sig.
Proof. intros [_ Hl]. pose proof (hardware_slot_lt queue). apply lookup_lt_is_Some. lia. Qed.

Lemma transmit_start_ready interface rate mac queue ptr desc ext edca s :
  ready s -> rate_ok rate -> (interface < INTERFACE_COUNT)%nat ->
  exists s', Tx.transmit_start chip interface rate mac queue ptr desc (Ok (ext, edca)) s = Some (tt, s') /\ ready s' /\
    TxSignal.state <$> HARDWARE_TX_RESULT_SIGNALS s' !! hardware_slot queue = Some 0.
Proof.
  intros R Hr Hi. destruct (lookup_signal queue s R) as [sig Es]. destruct R as [St Hl].
  destruct (setup_tx_runs interface rate mac queue ptr desc ext edca (w_ll s) St Hr Hi) as (d & E & Sd & _).
  unfold Tx.transmit_start, lift, zoom. rewrite M_bind_unfold, E, M_bind_unfold.
  unfold reset_tx_signal, gets. rewrite M_bind_unfold. cbn [HARDWARE_TX_RESULT_SIGNALS set_ll set_dma]. rewrite Es.
  unfold modify, LowLevel.start_tx_queue, LowLevel.set_tx_queue_status.
  rewrite still_modify by exact Sd. eexists. split; [reflexivity|]. split.
  - split; [exact Sd|]. cbn. by rewrite length_insert.
  - cbn. by rewrite list_lookup_insert_eq by (by apply lookup_lt_Some in Es).
Qed.

Lemma poll_pending_spec queue p s : ready s ->
  TxSignal.state <$> HARDWARE_TX_RESULT_SIGNALS s !! hardware_slot queue = Some 0 ->
  exists s', Tx.transmit_poll chip queue (Ok p) s = Some (Pending, s') /\ ready s'.
Proof.
  intros R Hs. destruct (lookup_signal queue s R) as [sig Es]. destruct R as [St Hl]. rewrite Es in Hs. injection Hs as Hs.
  unfold Tx.transmit_poll, gets. rewrite M_bind_unfold, Es. unfold TxSignal.wait. rewrite Hs. cbn.
  unfold modify. rewrite M_bind_unfold. eexists. split; [reflexivity|]. split; [done|]. cbn. by rewrite length_insert.
Qed.

Lemma report_ready queue o s : ready s -> ready (report queue o s).
Proof. intros [St Hl]. split; [exact St|]. cbn. by rewrite length_alter. Qed.

Lemma poll_report queue p o s : ready s ->
  exists r s', Tx.transmit_poll chip queue (Ok p) (report queue o s) = Some (Ready r, s') /\ explains o r /\ ready s'.
Proof.
  intros R. destruct (lookup_signal queue s R) as [sig Es]. pose proof (report_ready queue o s R) as R'.
  unfold Tx.transmit_poll, gets. rewrite M_bind_unfold.
  assert (HARDWARE_TX_RESULT_SIGNALS (report queue o s) !! hardware_slot queue = Some (TxSignal.signal o.1 sig).1) as Er.
  { cbn. by rewrite list_lookup_alter_eq, Es. }
  rewrite Er. unfold TxSignal.wait.
  assert (exists w, (TxSignal.signal o.1 sig).1 = TxSignal.mk (tx_code o.1) w) as [w Ew].
  { unfold TxSignal.signal. destruct (waker_wake _) as [w ?]. exists w. by destruct (o.1) as [[]|[]]. }
  rewrite Ew. cbn [TxSignal.state].
  set (s1 := report queue o s) in *. set (l := HARDWARE_TX_RESULT_SIGNALS s1) in *.
  assert (forall sg, ready (set_tx_signals (<[hardware_slot queue := sg]> l) s1)) as Rs.
  { intros sg. destruct R' as [St Hl]. split; [exact St|]. cbn. by rewrite length_insert. }
  destruct o as [[[]|e] pmd]; cbn [fst snd tx_code negb Z.eqb mbind option_bind] in *.
  - cbn. unfold modify. rewrite !M_bind_unfold.
    match goal with |- context [Tx.count_frame chip ?x] =>
      destruct (count_frame_ready x) as (s2 & E2 & R2 & _ & P2); [apply Rs|] end. rewrite E2.
    rewrite M_bind_unfold. destruct (release_slot_ready queue s2 R2) as (s3 & E3 & R3 & _ & _ & P3). rewrite E3.
    unfold LowLevel.get_tx_mac_protocol_result. rewrite M_bind_unfold. unfold lift, zoom. rewrite M_bind_unfold.
    rewrite still_read by apply R3. do 2 eexists. split; [reflexivity|]. split; [|exact R3].
    eexists. split; [reflexivity|]. intros Hk. rewrite P3, P2 by done. cbn. by rewrite upd_eq.
  - destruct e; cbn; unfold modify; rewrite !M_bind_unfold;
      (edestruct (release_slot_ready queue) as (s3 & E3 & R3 & _); [apply Rs|]); rewrite E3; by do 2 eexists.
Qed.

(** One attempt consumes one report. *)
Lemma transmit_raw_responds interface rate mac queue ptr desc mpdu ext edca o env s :
  ready (Tx.w_wifi s) -> rate_ok rate -> (interface < INTERFACE_COUNT)%nat ->
  Tx.irqs s = report queue o :: env ->
  exists r s', Tx.transmit_raw chip interface rate mac queue ptr desc mpdu (Ok (ext, edca)) s = Some (r, s') /\ explains o r /\
    ready (Tx.w_wifi s') /\ Tx.irqs s' = env.
Proof.
  intros R Hr Hi Henv. unfold Tx.transmit_raw. rewrite M_bind_unfold. unfold Tx.on_wifi, zoom.
  destruct (transmit_start_ready interface rate mac queue ptr desc ext edca _ R Hr Hi) as (s1 & E1 & R1 & S1).
  rewrite E1, M_bind_unfold. cbn [is_ok]. unfold Tx.fetch, modify, Tx.await. cbn [Tx.irqs Tx.w_wifi]. rewrite Henv. cbn [Tx.await_tx].
  destruct (poll_pending_spec queue (ext, edca) s1 R1 S1) as (s2 & E2 & R2). rewrite E2.
  destruct (poll_report queue (ext, edca) o s2 R2) as (r & s3 & E3 & X3 & R3).
  destruct env as [|irq env]; cbn [Tx.await_tx]; rewrite E3; by do 2 eexists.
Qed.

(** ** The retry loop *)

(** [rs] are the outcomes of the attempts made, with reports [os] at hand: one
    for each report up to the first success. *)
Definition attempts_of (os : list (result unit ChannelAccessError * Z)) (rs : list (result unit TxError)) : Prop :=
  Forall2 explains (take (length rs) os) rs /\
  (forall i r, rs !! i = Some r -> (S i < length rs)%nat -> is_ok r = false) /\
  ((length rs < length os)%nat -> exists u, last rs = Some (Ok u)).

Lemma attempts_none : attempts_of [] [].
Proof. split; [constructor|]. split; [done|cbn; lia]. Qed.

Lemma attempts_ok o os u : explains o (Ok u) -> attempts_of (o :: os) [Ok u].
Proof.
  intros X. split; [cbn; rewrite take_0; by repeat constructor|]. split; [|by exists u].
  intros i r _ Hi. cbn in Hi. lia.
Qed.

Lemma attempts_err o os e rs : explains o (Err e) -> attempts_of os rs -> attempts_of (o :: os) (Err e :: rs).
Proof.
  intros X (A1 & A2 & A3). split; [by constructor|]. split.
  - intros [|i] r; cbn; [by intros [= <-]|]. intros Hr Hi. apply (A2 i r Hr). lia.
  - cbn. intros Hlt. destruct A3 as [u Hu]; [lia|]. exists u. by rewrite last_cons, Hu.
Qed.

(** The result of the attempts with outcomes [rs], numbered from [k]: the
    number of the first success, or the last error. *)
Definition retry_from (k : nat) (rs : list (result unit TxError)) (none : result Z TxError) : result Z TxError :=
  match list_find (fun r => is_ok r = true) rs with
  | Some (i, _) => Ok (u8 (Z.of_nat (k + i)))
  | None => match last rs with Some (Err e) => Err e | _ => none end
  end.

Lemma find_ok_ok u (rs : list (result unit TxError)) :
  list_find (fun r => is_ok r = true) (Ok u :: rs) = Some (0%nat, Ok u).
Proof. done. Qed.

Lemma retry_from_ok k u rs none : retry_from k (Ok u :: rs) none = Ok (u8 (Z.of_nat k)).
Proof. unfold retry_from. by rewrite find_ok_ok, Nat.add_0_r. Qed.

Lemma find_ok_err e (rs : list (result unit TxError)) :
  list_find (fun r => is_ok r = true) (Err e :: rs) = prod_map S id <$> list_find (fun r => is_ok r = true) rs.
Proof. done. Qed.

Lemma retry_from_err k e rs none : retry_from k (Err e :: rs) none = retry_from (S k) rs (Err e).
Proof.
  unfold retry_from. rewrite find_ok_err.
  destruct (list_find _ rs) as [[i r]|] eqn:E; cbn [fmap option_fmap option_map prod_map].
  - do 3 f_equal. cbn. lia.
  - rewrite last_cons. destruct (last rs) as [[u|]|] eqn:El; [|done..]. exfalso.
    apply list_find_None in E. apply last_Some in El as [rs' ->]. apply Forall_app in E as [_ E].
    by apply Forall_inv in E.
Qed.

Definition failed_by_protocol (rs : list (result unit TxError)) : bool := existsb Tx.is_mac_protocol rs.

(** The frame of an attempt after the attempts with outcomes [prior]. *)
Definition frame_after (prior : list (result unit TxError)) (buf : list Z) : list Z :=
  if failed_by_protocol prior then Tx.set_retry buf else buf.

Definition contention_after_all (prior : list (result unit TxError)) (edca : option EdcaContentionState)
    : option EdcaContentionState :=
  foldl (fun c r => Tx.contention_after (result_map (fun _ => 0) r) c) edca prior.

Lemma set_retry_idem buf : Tx.set_retry (Tx.set_retry buf) = Tx.set_retry buf.
Proof.
  unfold Tx.set_retry. destruct buf as [|a [|b l]]; [done..|]. cbn. by rewrite <- Z.lor_assoc, Z.lor_diag.
Qed.

Lemma frame_after_step prior r buf :
  (if Tx.is_mac_protocol r then Tx.set_retry (frame_after prior buf) else frame_after prior buf)
  = frame_after (prior ++ [r]) buf.
Proof.
  unfold frame_after, failed_by_protocol. rewrite existsb_app. cbn. rewrite orb_false_r.
  destruct (existsb _ prior), (Tx.is_mac_protocol r); cbn; by rewrite ?set_retry_idem.
Qed.

Lemma clear_set_retry buf : Tx.clear_retry (Tx.set_retry buf) = Tx.clear_retry buf.
Proof.
  unfold Tx.clear_retry, Tx.set_retry. destruct buf as [|a [|b l]]; [done..|].
  cbn -[Z.lnot wrap bit]. do 2 f_equal. rewrite bit_spec by lia. apply Z.bits_inj'. intros i Hi.
  rewrite !Z.land_spec, Z.lor_spec, wrap_testbit, Z.lnot_spec by lia.
  destruct (Z.testbit (Z.shiftl 1 3) i); btauto.
Qed.

Lemma on_wifi_aired {A} (m : M wifi A) s a s' : Tx.on_wifi m s = Some (a, s') -> Tx.aired s' = Tx.aired s.
Proof. unfold Tx.on_wifi, zoom. destruct (m _) as [[? ?]|]; [|done]. by intros [= _ <-]. Qed.

Lemma raw_aired interface rate mac queue ptr desc mpdu ext edca s r s' :
  Tx.transmit_raw chip interface rate mac queue ptr desc mpdu (Ok (ext, edca)) s = Some (r, s') ->
  Tx.aired s' = Tx.aired s ++ [(queue, desc, mpdu)].
Proof.
  unfold Tx.transmit_raw. rewrite M_bind_unfold. destruct (Tx.on_wifi _ s) as [[[] s1]|] eqn:E; [|done].
  rewrite M_bind_unfold. cbn [is_ok]. unfold Tx.fetch, modify, Tx.await. destruct (Tx.await_tx _ _ _ _ _) as [[? [? ?]]|]; [|done].
  intros [= _ <-]. cbn. by rewrite (on_wifi_aired _ _ _ _ E).
Qed.

Section Loop.
Variable random : nat -> Z.
Variables (interface : nat) (mac : TxMacParameters) (queue : HardwareTxQueue).
Variables (ptr : Z) (desc : DmaDescriptor) (ext : ExtractedParameters).

Abbreviation loop := (Tx.retry_loop chip random interface mac queue ptr desc ext).

(** One attempt: its rate, its channel access parameters, the frame in the
    buffer the hardware reads, and its outcome. *)
Record attempt := mkAttempt {
  a_rate : TxPhyRate; a_params : EdcaTxParameters; a_frame : list Z; a_result : result unit TxError }.

(** A sequence of calls of [transmit_raw]. *)
Inductive run : Tx.world -> list attempt -> Tx.world -> Prop :=
| run_nil s : run s [] s
| run_cons s a s1 l s2 :
    Tx.transmit_raw chip interface (a_rate a) mac queue ptr desc (a_frame a) (Ok (ext, a_params a)) s = Some (a_result a, s1) ->
    run s1 l s2 -> run s (a :: l) s2.

(** Every attempt gives the MAC its frame. *)
Lemma run_aired s l s' : run s l s' -> Tx.aired s' = Tx.aired s ++ ((fun a => (queue, desc, a_frame a)) <$> l).
Proof.
  induction 1 as [s|s a s1 l s2 E _ IH]; [by rewrite app_nil_r|]. rewrite IH, (raw_aired _ _ _ _ _ _ _ _ _ _ _ _ E).
  by rewrite <- app_assoc.
Qed.

(** The policy of the attempts after earlier outcomes [prior]. *)
Definition obeys (prior : list (result unit TxError)) (rates : list TxPhyRate) (edca : option EdcaContentionState)
    (buf : list Z) (l : list attempt) : Prop :=
  (forall k a, l !! k = Some a ->
     let before := prior ++ (a_result <$> take k l) in
     rates !! k = Some (a_rate a) /\
     a_params a = Tx.attempt_parameters random mac queue (length before) (contention_after_all before edca) /\
     a_frame a = frame_after before buf /\
     ((S k < length l)%nat -> is_ok (a_result a) = false)) /\
  ((length l < length rates)%nat -> exists a, last l = Some a /\ is_ok (a_result a) = true).

Lemma contention_map (r : result unit TxError) c f :
  Tx.contention_after (result_map f r) c = Tx.contention_after (result_map (fun _ => 0) r) c.
Proof. by destruct r. Qed.

Lemma is_mac_map (r : result unit TxError) (f : unit -> Z) : Tx.is_mac_protocol (result_map f r) = Tx.is_mac_protocol r.
Proof. by destruct r. Qed.

Lemma loop_obeys rates prior edca buf last_res s res buf' s' :
  loop (length prior) rates (contention_after_all prior edca) (frame_after prior buf) last_res s = Some ((res, buf'), s') ->
  exists l, run s l s' /\ obeys prior rates edca buf l /\
    buf' = frame_after (prior ++ (a_result <$> l)) buf /\
    res = match last l with
          | None => last_res
          | Some a => result_map (fun _ => u8 (Z.of_nat (length prior + length l - 1))) (a_result a)
          end.
Proof.
  revert prior last_res s. induction rates as [|rate rates IH]; intros prior last_res s; cbn [Tx.retry_loop].
  { intros [= <- <- <-]. exists []. split; [constructor|]. cbn. rewrite app_nil_r. split; [|done].
    split; [done|cbn; lia]. }
  rewrite M_bind_unfold. destruct (Tx.transmit_raw _ _ _ _ _ _ _ _ _ s) as [[r s1]|] eqn:E; [|done].
  rewrite is_mac_map, frame_after_step.
  set (a := mkAttempt rate (Tx.attempt_parameters random mac queue (length prior) (contention_after_all prior edca))
              (frame_after prior buf) r).
  assert (forall l, (forall k b, (a :: l) !! k = Some b -> match k with 0%nat => b = a | S k' => l !! k' = Some b end)) as Hcons
    by (intros l [|k] b Hb; [by injection Hb|done]).
  destruct r as [u|e]; cbn [result_map].
  - intros [= <- <- <-]. exists [a]. split; [by eapply run_cons; [exact E|constructor]|].
    split; [|split; [done|cbn; do 3 f_equal; lia]].
    split; [|intros _; by exists a]. intros k b Hb. apply (Hcons []) in Hb. destruct k; [subst b|done].
    cbn. rewrite app_nil_r. split_and!; [done..|lia].
  - intros Hl. specialize (IH (prior ++ [Err e]) (Err e) s1).
    rewrite length_app, Nat.add_1_r in IH. unfold contention_after_all in IH at 1. rewrite foldl_app in IH.
    destruct (IH Hl) as (l & Hrun & [Ho1 Ho2] & Hb & Hres). exists (a :: l).
    split; [by eapply run_cons; [exact E|]|]. split; [|split].
    + split.
      * intros k b Hk. apply Hcons in Hk. destruct k as [|k]; [subst b; cbn; rewrite app_nil_r; done|].
        specialize (Ho1 k b Hk). cbn [take fmap list_fmap]. change (a_result a) with (Err e : result unit TxError).
        rewrite (cons_middle _ prior), app_assoc. cbn [lookup list_lookup length]. destruct Ho1 as (? & ? & ? & Ho).
        split_and!; [done..|]. intros ?. apply Ho. lia.
      * cbn [length]. intros Hlt. destruct (Ho2 ltac:(lia)) as (b & Hlast & Hok). exists b. split; [|done].
        by rewrite last_cons, Hlast.
    + rewrite Hb, fmap_cons, (cons_middle _ prior (a_result <$> l)), app_assoc. reflexivity.
    + rewrite Hres, last_cons. cbn [length]. destruct (last l) as [b|]; [|done].
      by replace (length prior + S (length l) - 1)%nat with (S (length prior) + length l - 1)%nat by lia.
Qed.

(** With a report for every attempt the loop returns. *)
Lemma loop_total rates prior edca buf last_res os env s :
  ready (Tx.w_wifi s) -> Forall rate_ok rates -> (interface < INTERFACE_COUNT)%nat ->
  length os = length rates -> Tx.irqs s = (report queue <$> os) ++ env ->
  exists rs s' b, loop (length prior) rates edca (frame_after prior buf) last_res s =
      Some ((retry_from (length prior) rs last_res, frame_after b buf), s') /\ attempts_of os rs /\
    ready (Tx.w_wifi s') /\ Tx.irqs s' = (report queue <$> drop (length rs) os) ++ env.
Proof.
  intros R Hr Hi. revert prior edca last_res os s R.
  induction Hr as [|rate rates Hrate Hr IH]; intros prior edca last_res os s R Hl Henv; cbn [Tx.retry_loop].
  { destruct os; [|done]. exists [], s, prior. split; [done|]. split; [apply attempts_none|done]. }
  destruct os as [|o os]; [done|]. injection Hl as Hl. cbn [fmap list_fmap app] in Henv.
  destruct (transmit_raw_responds interface rate mac queue ptr desc (frame_after prior buf) ext
    (Tx.attempt_parameters random mac queue (length prior) edca) o _ s R Hrate Hi Henv) as (r & s1 & E & X & R1 & I1).
  rewrite M_bind_unfold, E, is_mac_map, frame_after_step. destruct r as [u|e]; cbn [result_map].
  - exists [Ok u], s1, (prior ++ [Ok u]). rewrite retry_from_ok. split; [done|]. split; [by apply attempts_ok|done].
  - specialize (IH (prior ++ [Err e])). rewrite length_app, Nat.add_1_r in IH.
    edestruct IH as (rs & s2 & b & E2 & A2 & R2 & I2); [exact R1|exact Hl|exact I1|].
    exists (Err e :: rs), s2, b. rewrite E2, retry_from_err. split; [done|]. split; [by apply attempts_err|done].
Qed.

End Loop.

Lemma rates_of_behaviour behaviour rate :
  rate_ok rate -> (forall rates, behaviour = MultiRateRetry rates -> Forall rate_ok rates) ->
  Forall rate_ok (tx_attempt_rate_iter behaviour rate).
Proof.
  intros Hr Hb. unfold tx_attempt_rate_iter. apply Forall_fmap, Forall_forall. intros i _. cbn.
  destruct behaviour as [n|rates|]; [done| |done]. destruct (i =? 0)%nat; [done|].
  destruct (nth_in_or_default i rates rate) as [Hin| ->]; [|done].
  apply (proj1 (Forall_forall _ _) (Hb rates eq_refl)). by apply list_elem_of_In.
Qed.

Lemma clear_frame_after prior buf : Tx.clear_retry (frame_after prior buf) = Tx.clear_retry buf.
Proof. unfold frame_after. destruct (failed_by_protocol prior); [apply clear_set_retry|done]. Qed.

(** C4: The retry policy, for every behaviour of the environment.  When
    [transmit_with_retry] returns, it has made a sequence of attempts, at most
    one per rate of the error behaviour and in that order; each attempt but the
    last failed, and rates are left over only after a success; the frames the MAC
    was given, one for each attempt and all with the prepared descriptor, are the
    prepared frame, with the retry bit set exactly from the first attempt after
    one that failed with a MAC protocol error (a channel access failure alone
    does not set it); the backoff of each attempt was drawn from the contention
    window grown by the earlier failures; the result is the number of the
    successful attempt, as a byte, or the error of the last one; and the buffer
    is returned as prepared, with the retry bit cleared. *)
Theorem retry_policy random interface rate mac behaviour queue ptr mpdu_ptr desc mpdu_buf s ext buf s0 res buf' s' :
  Tx.on_wifi (Tx.prepare_frame_for_tx interface mac mpdu_buf) s = Some ((Ok ext, buf), s0) ->
  Tx.transmit_with_retry chip random interface rate mac behaviour queue ptr mpdu_ptr desc mpdu_buf s
    = Some ((res, buf'), s') ->
  let rates := tx_attempt_rate_iter behaviour rate in
  let desc' := prepare_dma_descriptor_for_tx mpdu_ptr (length buf) desc in
  let edca := match queue with Edcaf ac => Tx.contention_state mac ac | Beacon => None end in
  exists l, run interface mac queue ptr desc' ext s0 l s' /\ obeys random mac queue [] rates edca buf l /\
    Tx.aired s' = Tx.aired s ++ ((fun a => (queue, desc', a_frame a)) <$> l) /\
    buf' = Tx.clear_retry buf /\
    res = match last l with
          | None => Ok 0
          | Some a => result_map (fun _ => u8 (Z.of_nat (length l - 1))) (a_result a)
          end.
Proof.
  intros Hp. unfold Tx.transmit_with_retry. rewrite M_bind_unfold, Hp. cbn beta iota. cbv zeta. rewrite M_bind_unfold.
  destruct (Tx.retry_loop _ _ _ _ _ _ _ _ _ _ _ _ _ s0) as [[[last_res b] s1]|] eqn:E; [|done].
  intros [= <- <- <-]. destruct (loop_obeys _ _ _ _ _ _ _ _ [] _ _ _ _ _ _ _ E) as (l & Hrun & Ho & Hb & Hres).
  exists l. split; [done|]. split; [done|]. split; [|split; [rewrite Hb; apply clear_frame_after|done]].
  rewrite (run_aired _ _ _ _ _ _ _ _ _ Hrun). f_equal. by eapply on_wifi_aired.
Qed.

(** C5: With an environment that completes every attempt, by a report of
    success or of a channel access error, [transmit_with_retry] returns,
    whatever power control does to the registers: one attempt is made for each
    report up to the first success; the result is the number of the first
    successful attempt, as a byte, or the last error if none succeeds; the
    buffer has its retry bit cleared and is otherwise as prepared; the other
    reports are left, and the driver is ready for the next transmission.  The
    outcome of an attempt is the reported channel access error, or what the PMD
    register shows; that is the reported value if power control leaves the PMD
    registers alone. *)
Theorem transmit_with_retry_returns random interface rate mac behaviour queue ptr mpdu_ptr desc mpdu_buf
    s ext buf s0 os env :
  Tx.on_wifi (Tx.prepare_frame_for_tx interface mac mpdu_buf) s = Some ((Ok ext, buf), s0) ->
  ready (Tx.w_wifi s0) -> (interface < INTERFACE_COUNT)%nat ->
  rate_ok rate -> (forall rates, behaviour = MultiRateRetry rates -> Forall rate_ok rates) ->
  length os = length (tx_attempt_rate_iter behaviour rate) ->
  Tx.irqs s0 = (report queue <$> os) ++ env ->
  exists rs s', Tx.transmit_with_retry chip random interface rate mac behaviour queue ptr mpdu_ptr desc mpdu_buf s
      = Some ((retry_from 0 rs (Ok 0), Tx.clear_retry buf), s') /\ attempts_of os rs /\
    ready (Tx.w_wifi s') /\ Tx.irqs s' = (report queue <$> drop (length rs) os) ++ env.
Proof.
  intros Hp R Hi Hr Hb Hl Henv. unfold Tx.transmit_with_retry. rewrite M_bind_unfold, Hp. cbn beta iota. cbv zeta.
  rewrite M_bind_unfold.
  edestruct (loop_total random interface mac queue ptr (prepare_dma_descriptor_for_tx mpdu_ptr (length buf) desc) ext
    (tx_attempt_rate_iter behaviour rate) []) as (rs & s' & b & E & A' & R' & I'); [exact R| |exact Hi|exact Hl|exact Henv|].
  { by apply rates_of_behaviour. }
  cbn [length] in E. unfold frame_after at 1 in E. cbn [failed_by_protocol existsb] in E. rewrite E.
  exists rs, s'. split; [|done]. by rewrite clear_frame_after.
Qed.

(** ** Preparing a frame *)

Lemma slice_byte (buf : list Z) i j : (i <= j)%nat -> (j <= length buf)%nat -> slice i j buf = Some (take (j - i) (drop i buf)).
Proof. intros. apply slice_Some. lia. Qed.

Lemma seq_field n : 0 <= n -> u16 (Z.shiftl n 4) = 16 * (n mod 4096).
Proof.
  intros Hn. unfold wrap. rewrite Z.shiftl_mul_pow2 by lia. change (2 ^ 16) with (4096 * 16). change (2 ^ 4) with 16.
  rewrite Z.mul_mod_distr_r by lia. lia.
Qed.

Lemma is_even_bit b : (Z.land b 1 =? 0) = Z.even b.
Proof.
  change (Z.land b 1) with (Z.land b (Z.ones 1)). rewrite land_ones_mod by lia. change (2 ^ 1) with 2. rewrite Zmod_even. by destruct (Z.even b).
Qed.

(** The key slot check of [prepare_frame_for_tx] passes. *)
Definition key_usable (mac : TxMacParameters) (s : wifi) : Prop :=
  match key_slot_index mac with
  | None => True
  | Some k => (Z.to_nat k < KEY_SLOT_COUNT)%nat /\
              fbit (KEY_SLOT_ENABLE (Z.to_nat k)) (regs (w_ll s) CRYPTO_KEY_SLOT_STATE) = true
  end.

Lemma key_enabled_run k s : still (w_ll s) -> (k < KEY_SLOT_COUNT)%nat ->
  lift (LowLevel.key_slot_enabled k) s =
    Some (fbit (KEY_SLOT_ENABLE k) (regs (w_ll s) CRYPTO_KEY_SLOT_STATE), set_ll (w_ll s) s).
Proof.
  intros St Hk. unfold lift, zoom, LowLevel.key_slot_enabled.
  rewrite M_bind_unfold, check_index_ok by done. by rewrite M_bind_unfold, (still_read _ _ St).
Qed.

Lemma set_ll_same s : set_ll (w_ll s) s = s.
Proof. by destruct s as [[] ? ? ? ? ? ? ?]. Qed.

(** The frame and the driver state once the sequence number is assigned *)
Definition numbered_frame (mac : TxMacParameters) (buf : list Z) (s : wifi) : list Z :=
  if override_seq_num mac then splice 22 (le_bytes 2 (u16 (Z.shiftl (CURRENT_SEQUENCE_NUMBER s) 4))) buf else buf.
Definition numbered_state (mac : TxMacParameters) (s : wifi) : wifi :=
  if override_seq_num mac then set_seq (u16 (CURRENT_SEQUENCE_NUMBER s + 1)) s else s.

(** The least length of a frame that can be prepared *)
Definition least_length (mac : TxMacParameters) : nat := if override_seq_num mac then 24 else 5.

(** The checks after the sequence number *)
Definition checks (interface : nat) (mac : TxMacParameters) (ext : ExtractedParameters) (s : wifi) : result ExtractedParameters TxError :=
  let last := if (interface <? INTERFACE_COUNT)%nat then Ok ext else Err TxOutOfBounds in
  match key_slot_index mac with
  | None => last
  | Some k =>
      if (Z.to_nat k <? KEY_SLOT_COUNT)%nat then
        if fbit (KEY_SLOT_ENABLE (Z.to_nat k)) (regs (w_ll s) CRYPTO_KEY_SLOT_STATE) then last else Err DisabledKeySlot
      else Err TxOutOfBounds
  end.

Lemma prepare_checks interface mac buf s :
  still (w_ll s) -> (least_length mac <= length buf)%nat ->
  Tx.prepare_frame_for_tx interface mac buf s =
    Some ((checks interface mac (mkExtracted (le_word (take 2 (drop 2 buf))) (Z.land (nth 4 buf 0) 1 =? 0)) s, numbered_frame mac buf s),
          numbered_state mac s).
Proof.
  intros St Hl. assert (5 <= length buf)%nat as H5 by (unfold least_length in Hl; destruct (override_seq_num mac); lia).
  unfold Tx.prepare_frame_for_tx. rewrite slice_byte by lia.
  destruct (nth_lookup_or_length buf 4 0) as [-> |]; [|lia]. cbn [Nat.sub]. set (ext := mkExtracted _ _). rewrite M_bind_unfold.
  match goal with |- context [(if override_seq_num mac then ?a else ?b) s] =>
    assert ((if override_seq_num mac then a else b) s = Some (Ok (numbered_frame mac buf s), numbered_state mac s)) as -> end.
  { unfold numbered_frame, numbered_state, least_length in *. destruct (override_seq_num mac); [|done].
    unfold gets, modify. rewrite !M_bind_unfold. by rewrite slice_byte by lia. }
  assert (w_ll (numbered_state mac s) = w_ll s) as El by (unfold numbered_state; by destruct (override_seq_num mac)).
  rewrite M_bind_unfold. unfold checks, Validate.validate_key_slot, Validate.validate_interface.
  destruct (key_slot_index mac) as [k|].
  - destruct (Nat.ltb_spec (Z.to_nat k) KEY_SLOT_COUNT) as [Hk|Hk]; cbn [is_ok negb]; [|done].
    rewrite M_bind_unfold, key_enabled_run, set_ll_same, El by (done || by rewrite El). cbn [mret M_ret].
    destruct (fbit _ _); [|done]. by destruct (interface <? INTERFACE_COUNT)%nat.
  - cbn [mret M_ret]. by destruct (interface <? INTERFACE_COUNT)%nat.
Qed.

(** C18: Preparing a frame of at least 24 bytes.  The duration field is
    extracted and the frame is unicast exactly when the first address byte is
    even; with a sequence number override the sequence control field holds the
    driver's number modulo 4096 with fragment number zero, the driver's number
    advances by one, and every other byte of the frame is unchanged; without it
    nothing changes. *)
Theorem prepared_frame interface mac buf s :
  still (w_ll s) -> (24 <= length buf)%nat -> Forall is_u8 buf -> 0 <= CURRENT_SEQUENCE_NUMBER s < 65536 ->
  (interface < INTERFACE_COUNT)%nat -> key_usable mac s ->
  exists ext buf' s', Tx.prepare_frame_for_tx interface mac buf s = Some ((Ok ext, buf'), s') /\
    duration ext = nth 2 buf 0 + 256 * nth 3 buf 0 /\ is_unicast ext = Z.even (nth 4 buf 0) /\
    length buf' = length buf /\ w_ll s' = w_ll s /\
    (if override_seq_num mac
     then le_word (take 2 (drop 22 buf')) = 16 * (CURRENT_SEQUENCE_NUMBER s mod 4096) /\
          CURRENT_SEQUENCE_NUMBER s' = (CURRENT_SEQUENCE_NUMBER s + 1) mod 65536 /\
          (forall i, (i < 22 \/ 24 <= i)%nat -> buf' !! i = buf !! i)
     else buf' = buf /\ s' = s).
Proof.
  intros St Hl Hb Hs Hi Hk. rewrite prepare_checks by (done || (unfold least_length; destruct (override_seq_num mac); lia)).
  set (ext := mkExtracted _ _).
  assert (checks interface mac ext s = Ok ext) as ->.
  { unfold checks, key_usable in *. rewrite (proj2 (Nat.ltb_lt _ _) Hi). destruct (key_slot_index mac) as [k|]; [|done].
    destruct Hk as [Hk1 ->]. by rewrite (proj2 (Nat.ltb_lt _ _) Hk1). }
  do 3 eexists. split; [reflexivity|].
  assert (le_word (take 2 (drop 2 buf)) = nth 2 buf 0 + 256 * nth 3 buf 0) as Ed.
  { do 4 (destruct buf as [|? buf]; [cbn in Hl; lia|]). cbn [take drop le_word nth]. rewrite take_0. cbn [le_word]. lia. }
  cbn [ext duration is_unicast]. rewrite Ed, is_even_bit. split; [done|]. split; [done|].
  assert (22 + length (le_bytes 2 (u16 (Z.shiftl (CURRENT_SEQUENCE_NUMBER s) 4))) <= length buf)%nat as Hsp
    by (rewrite le_bytes_length; lia).
  unfold numbered_frame, numbered_state. destruct (override_seq_num mac); [|done].
  split; [by apply splice_length|]. split; [done|]. split; [|split; [done|]].
  - unfold splice. rewrite drop_app_length' by (rewrite length_take; lia).
    rewrite take_app_length' by (by rewrite le_bytes_length).
    rewrite le_word_bytes, seq_field by lia. apply Z.mod_small. change (256 ^ Z.of_nat 2) with 65536.
    pose proof (Z.mod_pos_bound (CURRENT_SEQUENCE_NUMBER s) 4096). lia.
  - intros i Hi'. apply splice_lookup_out; [done|]. rewrite le_bytes_length. lia.
Qed.

(** C19: The errors of preparing a frame, in the order of the checks.  A buffer
    of less than four bytes, which has no duration field, is too short, and
    nothing changes; a buffer of exactly four bytes panics.  With a sequence
    number override, a longer buffer without a sequence control field is too
    short, and the driver's number is consumed all the same.  Otherwise, with
    or without an override, a key slot out of range is reported as out of
    bounds, a disabled one as disabled, and when the key slot is usable an
    interface out of range as out of bounds; in these cases too the number is
    assigned to the frame and consumed if there is an override. *)
Theorem prepare_errors interface mac buf s :
  still (w_ll s) ->
  ((length buf < 4)%nat -> Tx.prepare_frame_for_tx interface mac buf s = Some ((Err BufferTooShort, buf), s)) /\
  (length buf = 4%nat -> Tx.prepare_frame_for_tx interface mac buf s = None) /\
  ((5 <= length buf < 24)%nat -> override_seq_num mac = true ->
   Tx.prepare_frame_for_tx interface mac buf s = Some ((Err BufferTooShort, buf), numbered_state mac s)) /\
  ((least_length mac <= length buf)%nat ->
   (forall k, key_slot_index mac = Some k -> (KEY_SLOT_COUNT <= Z.to_nat k)%nat ->
      Tx.prepare_frame_for_tx interface mac buf s = Some ((Err TxOutOfBounds, numbered_frame mac buf s), numbered_state mac s)) /\
   (forall k, key_slot_index mac = Some k -> (Z.to_nat k < KEY_SLOT_COUNT)%nat ->
      fbit (KEY_SLOT_ENABLE (Z.to_nat k)) (regs (w_ll s) CRYPTO_KEY_SLOT_STATE) = false ->
      Tx.prepare_frame_for_tx interface mac buf s = Some ((Err DisabledKeySlot, numbered_frame mac buf s), numbered_state mac s)) /\
   (key_usable mac s -> (INTERFACE_COUNT <= interface)%nat ->
      Tx.prepare_frame_for_tx interface mac buf s = Some ((Err TxOutOfBounds, numbered_frame mac buf s), numbered_state mac s))).
Proof.
  intros St. split_and!.
  - intros Hl. unfold Tx.prepare_frame_for_tx. by rewrite slice_None by lia.
  - intros Hl. unfold Tx.prepare_frame_for_tx. rewrite slice_byte by lia. by rewrite lookup_ge_None_2 by lia.
  - intros Hl Ho. unfold Tx.prepare_frame_for_tx. rewrite slice_byte by lia.
    destruct (lookup_lt_is_Some_2 buf 4) as [b ->]; [lia|]. unfold numbered_state. rewrite Ho. unfold gets, modify.
    by rewrite !M_bind_unfold, (slice_None 22 24) by lia.
  - intros Hl. rewrite prepare_checks by done. unfold checks, key_usable. split_and!.
    + intros k -> Hk. by rewrite (proj2 (Nat.ltb_ge _ _) Hk).
    + intros k -> Hk ->. by rewrite (proj2 (Nat.ltb_lt _ _) Hk).
    + intros Hk Hi. rewrite (proj2 (Nat.ltb_ge _ _) Hi). destruct (key_slot_index mac) as [k|]; [|done].
      destruct Hk as [Hk ->]. by rewrite (proj2 (Nat.ltb_lt _ _) Hk).
Qed.

End TxSpec.
End TxSpec.

(** ** Concrete transmissions *)

Module TxDemo.

#[local] Existing Instance atomic_waker_ref.
#[local] Existing Instance macro_bits_ref.
#[local] Existing Instance pac_ref.
#[local] Existing Instance ffi_ref.

Definition frame : list Z := replicate 30 0.
Definition mac : TxMacParameters := mkMac None true DriverControlled false (mkEdcaParameters None None).
Definition queue : HardwareTxQueue := Edcaf BestEffort.
Definition desc : DmaDescriptor := mkDesc 0 0 0.
Definition wifi0 : wifi := boot_state (mkDma ∅ None (mkLl (fun _ => 0) (fun _ => []) []) [] []).

(** The first attempt is not acknowledged, the second succeeds. *)
Definition outcomes : list (result unit ChannelAccessError * Z) := [(Ok tt, 0x5000); (Ok tt, 0)].
Definition world0 : Tx.world := Tx.mkWorld wifi0 (TxSpec.report queue <$> outcomes) [].

Definition send (mac : TxMacParameters) (b : TxErrorBehaviour) (buf : list Z) : M Tx.world (result Z TxError * list Z) :=
  Tx.transmit_with_retry Esp32s3 (fun _ => 7) 0 (Ofdm Mbits6) mac b queue 0x3fc90000 0x3fc80000 desc buf.

Lemma prepared : Tx.on_wifi (Tx.prepare_frame_for_tx 0 mac frame) world0 =
  Some ((Ok (mkExtracted 0 true), frame), world0).
Proof. reflexivity. Qed.

Lemma transmit_with_retry_returns_witness :
  exists rs s', Tx.transmit_with_retry Esp32s3 (fun _ => 7) 0 (Ofdm Mbits6) mac (RetryUntil 1) queue 0x3fc90000 0x3fc80000 desc frame world0
      = Some ((TxSpec.retry_from 0 rs (Ok 0), Tx.clear_retry frame), s') /\ TxSpec.attempts_of Esp32s3 outcomes rs.
Proof.
  destruct (TxSpec.transmit_with_retry_returns Esp32s3 (fun _ => 7) 0 (Ofdm Mbits6) mac (RetryUntil 1)
    queue 0x3fc90000 0x3fc80000 desc frame world0 (mkExtracted 0 true) frame world0 outcomes [] prepared)
    as (rs & s' & E & A & _).
  - split; [intros r|]; reflexivity.
  - vm_compute. lia.
  - exact I.
  - done.
  - reflexivity.
  - reflexivity.
  - exists rs, s'. exact (conj E A).
Defined.

(** The first attempt is sent without the retry bit, the second with it. *)
Lemma sent_frames : exists res buf' s',
  Tx.transmit_with_retry Esp32s3 (fun _ => 7) 0 (Ofdm Mbits6) mac (RetryUntil 1) queue 0x3fc90000 0x3fc80000 desc frame world0 = Some ((res, buf'), s') /\
  snd <$> Tx.aired s' = [frame; Tx.set_retry frame].
Proof.
  assert ((fun x => snd <$> Tx.aired x.2) <$>
    Tx.transmit_with_retry Esp32s3 (fun _ => 7) 0 (Ofdm Mbits6) mac (RetryUntil 1) queue 0x3fc90000 0x3fc80000 desc frame world0 = Some [frame; Tx.set_retry frame]) as Hs
    by (vm_compute; reflexivity).
  destruct (Tx.transmit_with_retry _ _ _ _ _ _ _ _ _ _ _ _) as [[[res buf'] s']|]; [|discriminate Hs]. injection Hs as Hs. by exists res, buf', s'.
Qed.

Lemma retry_policy_witness :
  exists s' l, TxSpec.obeys (fun _ => 7) mac queue [] (tx_attempt_rate_iter (RetryUntil 1) (Ofdm Mbits6)) (Tx.contention_state mac BestEffort) frame l /\
    snd <$> Tx.aired s' = [frame; Tx.set_retry frame] /\
    Tx.aired s' = Tx.aired world0 ++
      ((fun a => (queue, prepare_dma_descriptor_for_tx 0x3fc80000 (length frame) desc, TxSpec.a_frame a)) <$> l).
Proof.
  destruct sent_frames as (res & buf' & s' & E & Hs).
  destruct (TxSpec.retry_policy Esp32s3 (fun _ => 7) 0 (Ofdm Mbits6) mac (RetryUntil 1) queue 0x3fc90000 0x3fc80000
    desc frame world0 (mkExtracted 0 true) frame world0 res buf' s' prepared E) as (l & _ & Ho & Ha & _).
  exists s', l. exact (conj Ho (conj Hs Ha)).
Defined.

Lemma prepared_frame_witness :
  exists ext buf' s', Tx.prepare_frame_for_tx 0 (mkMac None true DriverControlled true (mkEdcaParameters None None)) frame
      (set_seq 4097 wifi0) = Some ((Ok ext, buf'), s') /\ le_word (take 2 (drop 22 buf')) = 16.
Proof.
  destruct (TxSpec.prepared_frame 0 (mkMac None true DriverControlled true (mkEdcaParameters None None)) frame
    (set_seq 4097 wifi0)) as (ext & buf' & s' & E & _ & _ & _ & _ & Hseq & _).
  - intros r. reflexivity.
  - vm_compute. lia.
  - by repeat constructor.
  - vm_compute. intuition congruence.
  - vm_compute. lia.
  - exact I.
  - exists ext, buf', s'. split; [exact E|]. rewrite Hseq. reflexivity.
Defined.

Lemma prepare_errors_witness :
  Tx.prepare_frame_for_tx 0 mac [0; 0; 0] wifi0 = Some ((Err BufferTooShort, [0; 0; 0]), wifi0).
Proof.
  destruct (TxSpec.prepare_errors 0 mac [0; 0; 0] wifi0) as (H & _); [intros r; reflexivity|]. apply H. vm_compute. lia.
Defined.

(** A buffer of exactly four bytes panics: the receiver address is indexed
    before its presence is checked. *)
Lemma four_bytes_panic : Tx.prepare_frame_for_tx 0 mac [0; 0; 0; 0] wifi0 = None.
Proof. reflexivity. Qed.

(** With an empty rate list nothing is transmitted and the result is a
    success. *)
Lemma empty_multi_rate : fst <$> send mac (MultiRateRetry []) frame (Tx.mkWorld wifi0 [] []) = Some (Ok 0, frame).
Proof. vm_compute. reflexivity. Qed.

(** An empty contention window range is not rejected: the frame is sent with
    one backoff slot. *)
Lemma empty_range_accepted :
  let m := mkMac None true DriverControlled false (mkEdcaParameters (Some (mkRange 5 4)) None) in
  fst <$> send m Drop frame (Tx.mkWorld wifi0 [TxSpec.report queue (Ok tt, 0)] []) = Some (Ok 0, frame).
Proof. vm_compute. reflexivity. Qed.

(** A failed preparation consumes a sequence number. *)
Lemma failed_prepare_consumes :
  let m := mkMac None true DriverControlled true (mkEdcaParameters None None) in
  (fun x => (fst (fst x), CURRENT_SEQUENCE_NUMBER (snd x))) <$> Tx.prepare_frame_for_tx 0 m (replicate 10 0) wifi0
  = Some (Err BufferTooShort, 1).
Proof. vm_compute. reflexivity. Qed.

(** Power control runs on every fifth success: the counter has period five. *)
Lemma power_control_period :
  FRAMES_SINCE_LAST_TXPWR_CTRL <$> (snd <$> for_each (replicate 5 tt) (fun _ => Tx.count_frame Esp32s3) wifi0) = Some 0 /\
  FRAMES_SINCE_LAST_TXPWR_CTRL <$> (snd <$> for_each (replicate 4 tt) (fun _ => Tx.count_frame Esp32s3) wifi0) = Some 4.
Proof. split; vm_compute; reflexivity. Qed.

End TxDemo.
