(* ===== verification/Receive.v ===== *)
(** * Reception ([async_driver.rs], [AsyncReceive])

    The receive future, discarding frames with invalid headers, over the
    receive queue of [DmaList] and the RX signal.  The bytes of the buffers
    are a parameter: what the hardware stored in them, which changes with
    every completion of the engine. *)

From S2P Require Import Prelude External Queue RxFrame Sync Registers LowLevel DmaList RxQueue Wifi.

Module Receive.
Section Receive.
Context `{AtomicWaker} `{MacroBits} `{Pac} `{Ffi} `{RxEngine} `{RxCtrl}.
Variable chip : Chip.
(** The memory at a buffer's address, by the state of the DMA, which holds the
    history of the completions. *)
Variable content : dma -> Z -> list Z.

Definition on_dma {A} (m : M dma A) : M wifi A := zoom w_dma set_dma m.

(** [is_rx_frame_valid] on a descriptor. *)
Definition frame_valid (s : dma) (d : DmaDescriptor) : option bool :=
  is_rx_frame_valid chip (Z.to_nat (DmaDescriptor.len d))
    (if d_buffer d =? 0 then None else Some (content s (d_buffer d))).

(** [WIFI_RX_SIGNAL_QUEUE.next()], one poll. *)
Definition poll_signal : M wifi (Poll unit) :=
  q ← gets WIFI_RX_SIGNAL_QUEUE;
  modify (set_rx_signal (SignalQueue.next q).2) ;;
  mret (SignalQueue.next q).1.

(** One poll of the future of [receive]: the descriptor it breaks with. *)
Fixpoint poll_receive (fuel : nat) : M wifi (Poll Z) :=
  match fuel with
  | O => panic
  | S fuel' =>
      taken ← on_dma (DmaList.take_first chip);
      match taken with
      | Some current =>
          d ← on_dma (DmaList.deref current);
          memory ← gets w_dma;
          match frame_valid memory d with
          | None => panic
          | Some true => mret (Ready current)
          | Some false => on_dma (DmaList.recycle chip current) ;; poll_receive fuel'
          end
      | None =>
          r ← poll_signal;
          match r with
          | Ready _ => poll_receive fuel'
          | Pending => mret Pending
          end
      end
  end.

(** The iterations one poll can make: unread frames, completions the engine
    will still make, and queued signals. *)
Definition receive_fuel (s : wifi) : nat :=
  S (RxQueue.potential (w_dma s) + Z.to_nat (SignalQueue.queued_signals (WIFI_RX_SIGNAL_QUEUE s))).

Definition receive : M wifi (Poll Z) := fuel ← gets receive_fuel; poll_receive fuel.

(** [impl Drop for BorrowedBuffer] *)
Definition drop_buffer (p : Z) : M wifi unit := on_dma (DmaList.recycle chip p).

Definition clear_rx_queue : M wifi unit :=
  on_dma (DmaList.clear chip) ;;
  modify (fun s => set_rx_signal (SignalQueue.reset (WIFI_RX_SIGNAL_QUEUE s)) s).

Definition set_rx_status (enabled : bool) : M wifi unit := lift (LowLevel.set_rx_enable enabled).

Definition rx_queue_snapshot (word_at : Z -> Z) : M wifi (list Z) := on_dma (DmaList.snapshot chip word_at).

(** ** Initialisation

    [WiFiResources::init] and [WiFi::new], after the interrupts have been
    configured. *)

Definition resources_init (b : DmaBufferSlab) : M wifi unit :=
  match Slab.init b with
  | None => panic
  | Some ((base, last_ptr), h) =>
      modify (fun s => set_dma (set_mem h (w_dma s)) s) ;;
      on_dma (DmaList.new chip base last_ptr)
  end.

(** ** Properties *)

Section Spec.
Variable b : DmaBufferSlab.
Hypothesis chip_ok : c3_or_s3 chip = true.
Hypothesis rx_ctrl_fields : fields_ok [RX_ENABLE; RX_DESCR_RELOAD].
Hypothesis base_resets_null : Z.land (reset_value RX_DESCR_BASE) 0xfffff = 0.
Hypothesis size_ok : 0 <= slab_size b < 4096.

Abbreviation reach := (RxQueue.reach chip b).

Lemma frame_valid_total m d : exists v, frame_valid m d = Some v.
Proof.
  unfold frame_valid, is_rx_frame_valid. rewrite chip_ok. destruct (d_buffer d =? 0); [by eexists|].
  destruct (_ || _); by eexists.
Qed.

(** The queue operations of a poll before its last one: it finds no frame, or
    it takes a frame whose header is invalid at that moment and returns its
    descriptor.  The list holds the frames discarded, in order. *)
Inductive drains : dma -> list (Z * Z) -> dma -> Prop :=
| drains_refl s : drains s [] s
| drains_empty s s1 l s2 : DmaList.take_first chip s = Some (None, s1) -> drains s1 l s2 -> drains s l s2
| drains_invalid s p d s1 s2 l s3 :
    DmaList.take_first chip s = Some (Some p, s1) -> mem s1 !! p = Some d -> frame_valid s1 d = Some false ->
    DmaList.recycle chip p s1 = Some (tt, s2) -> drains s2 l s3 -> drains s ((p, DmaDescriptor.len d) :: l) s3.

(** How a poll ends, from the state its last [take_first] started in. *)
Definition poll_ends (s1 : dma) (consumed : list (Z * Z)) (loan : list (Z * DmaDescriptor)) (r : Poll Z) (s' : dma) : Prop :=
  match r with
  | Pending => DmaList.take_first chip s1 = Some (None, s') /\ reach s' consumed loan
  | Ready p => DmaList.take_first chip s1 = Some (Some p, s') /\
      exists d, mem s' !! p = Some d /\ frame_valid s' d = Some true /\
        reach s' (consumed ++ [(p, DmaDescriptor.len d)]) ((p, d) :: loan)
  end.

Lemma on_dma_run {A} (m : M dma A) s a d : m (w_dma s) = Some (a, d) -> on_dma m s = Some (a, set_dma d s).
Proof. intros E. unfold on_dma, zoom. by rewrite E. Qed.

Lemma poll_receive_spec fuel s consumed loan :
  reach (w_dma s) consumed loan -> 0 <= SignalQueue.queued_signals (WIFI_RX_SIGNAL_QUEUE s) ->
  (RxQueue.potential (w_dma s) - length consumed + Z.to_nat (SignalQueue.queued_signals (WIFI_RX_SIGNAL_QUEUE s)) < fuel)%nat ->
  exists r s' discarded s1, poll_receive fuel s = Some (r, s') /\
    drains (w_dma s) discarded s1 /\ poll_ends s1 (consumed ++ discarded) loan r (w_dma s').
Proof.
  revert s consumed. induction fuel as [|fuel IH]; intros s consumed R Hq Hf; [lia|]. cbn [poll_receive].
  destruct (RxQueue.reach_take_total chip chip_ok rx_ctrl_fields base_resets_null b _ _ _ size_ok R)
    as (t & d1 & E1 & T). pose proof (RxQueue.bounded_take chip chip_ok _ _ _ E1) as B1.
  rewrite M_bind_unfold, (on_dma_run _ _ _ _ E1). destruct t as [p|].
  - destruct T as (d & Hd & R1). rewrite M_bind_unfold. erewrite on_dma_run by (unfold DmaList.deref; cbn; by rewrite Hd).
    rewrite M_bind_unfold. unfold gets at 1. cbn [set_dma w_dma].
    destruct (frame_valid_total d1 d) as [[] Hv]; rewrite Hv.
    + eexists _, _, [], (w_dma s). split; [reflexivity|]. split; [constructor|]. rewrite app_nil_r.
      split; [done|]. by exists d.
    + destruct (RxQueue.reach_recycle_total chip chip_ok rx_ctrl_fields base_resets_null b _ _ _ _ _ size_ok R1)
        as (d2 & E2 & R2). pose proof (RxQueue.bounded_recycle chip chip_ok _ _ _ _ E2) as B2.
      rewrite M_bind_unfold. erewrite on_dma_run by (cbn; exact E2).
      match goal with |- context [poll_receive fuel ?x] =>
        destruct (IH x _ R2 Hq) as (r & s' & discarded & s1 & E & HD & HR) end.
      { cbn. pose proof (RxQueue.reach_consumed chip chip_ok rx_ctrl_fields base_resets_null b _ _ _ size_ok R2) as Hc.
        rewrite length_app in *. cbn in *. unfold RxQueue.potential in *. cbn in *. lia. }
      exists r, s', ((p, DmaDescriptor.len d) :: discarded), s1. split; [exact E|].
      split; [by eapply drains_invalid|]. by rewrite <- app_assoc in HR.
  - rewrite M_bind_unfold. unfold poll_signal, gets, modify. rewrite !M_bind_unfold. cbn [mret M_ret].
    unfold SignalQueue.next. cbn [WIFI_RX_SIGNAL_QUEUE set_dma].
    destruct (Z.eqb_spec (SignalQueue.queued_signals (WIFI_RX_SIGNAL_QUEUE s)) 0) as [E0|E0]; cbn [fst snd].
    + eexists _, _, [], (w_dma s). split; [reflexivity|]. split; [constructor|]. rewrite app_nil_r. by split.
    + match goal with |- context [poll_receive fuel ?x] =>
        destruct (IH x _ T) as (r & s' & discarded & s1 & E & HD & HR); [cbn; lia|cbn; cbn in B1; lia|] end.
      exists r, s', discarded, s1. split; [done|]. split; [by eapply drains_empty|done].
Qed.

(** C7: One poll of [receive] on the C3 and the S3, from a state a client reaches that
    clears only while the engine completes no frame and restarts only a
    stopped and drained queue (see [RxQueue.reach]), for every schedule of the
    DMA engine, every number of queued signals and whatever the engine stores
    in the buffers at each completion.  The poll returns.  It takes frames in
    the order of reception; each one whose header is invalid when it is taken
    goes back to the queue, so no buffer leaks; the first one whose header is
    valid is what the poll returns, so no valid frame is skipped; and when
    there is no such frame the poll waits, its last look at the queue having
    found no frame. *)
Theorem receive_delivers_valid s consumed loan :
  reach (w_dma s) consumed loan -> 0 <= SignalQueue.queued_signals (WIFI_RX_SIGNAL_QUEUE s) ->
  exists r s' discarded s1, receive s = Some (r, s') /\
    drains (w_dma s) discarded s1 /\ poll_ends s1 (consumed ++ discarded) loan r (w_dma s').
Proof.
  intros R Hq. unfold receive, gets. rewrite M_bind_unfold. apply poll_receive_spec; [done..|].
  unfold receive_fuel. lia.
Qed.

End Spec.
End Receive.
End Receive.

Module ReceiveDemo.

#[local] Existing Instance atomic_waker_ref.
#[local] Existing Instance macro_bits_ref.
#[local] Existing Instance pac_ref.
#[local] Existing Instance ffi_ref.
#[local] Existing Instance rx_engine_ref.
#[local] Existing Instance rx_ctrl_ref.

(** A buffer whose header announces 200 bytes, once the engine has written a
    frame. *)
Definition content (s : dma) (_ : Z) : list Z :=
  replicate 44 0 ++ le_bytes 4 (if bool_decide (writes s = []) then 0 else 200) ++ replicate 1552 0.

Lemma receive_delivers_valid_witness :
  exists r s' discarded s1, Receive.receive Esp32s3 content (boot_state Demo.s1) = Some (r, s') /\ r = Ready 0x3fc90000 /\
    Receive.drains Esp32s3 content Demo.s1 discarded s1 /\
    Receive.poll_ends Esp32s3 content (Demo.slab 2) s1 ([] ++ discarded) [] r (w_dma s').
Proof.
  destruct (Receive.receive_delivers_valid Esp32s3 content (Demo.slab 2) eq_refl Demo.layout_ok eq_refl
    ltac:(split; vm_compute; congruence) (boot_state Demo.s1) [] [] Demo.reach_s1 ltac:(vm_compute; congruence))
    as (r & s' & discarded & s1 & E & HD & HR).
  exists r, s', discarded, s1. split; [exact E|]. split; [|by split].
  assert (fst <$> Receive.receive Esp32s3 content (boot_state Demo.s1) = Some (Ready 0x3fc90000)) as E'
    by (vm_compute; reflexivity).
  rewrite E in E'. by injection E'.
Defined.

End ReceiveDemo.
