(* ===== verification/Driver.v ===== *)
(** * The driver object ([WiFi], [SplitDriverComponents])

    Construction of the driver, the endpoints it is split into, and the
    transmit entry points that pick a queue's descriptor. *)

From S2P Require Import Prelude External Queue Rates Sync Registers LowLevel DmaList RxQueue Wifi Control Transmit Receive.

Module WiFi.
Section WiFi.
Context `{AtomicWaker} `{MacroBits} `{Pac} `{Ffi} `{RxEngine}.
Variable chip : Chip.

(** [WiFi::new], with the MAC and PWR handlers bound; [unwrap] on the channel
    panics on an error. *)
Definition new (b : DmaBufferSlab) : M wifi unit :=
  lift (LowLevel.init chip) ;;
  Receive.resources_init chip b ;;
  r ← ChannelControl.set_channel chip 1;
  match r with Ok _ => mret tt | Err _ => panic end.

(** [WiFi::split]: the interface of each RX controller and the queue and the
    descriptor index of each TX endpoint. *)
Record SplitDriverComponents := mkSplit {
  rx_interface_controllers : list nat;
  tx_queue_endpoints : list (HardwareTxQueue * nat)
}.

(** The loop over the descriptors; [None] is a failed [unwrap]. *)
Fixpoint split_endpoints (descriptors : list nat) (i : nat) : option (list (HardwareTxQueue * nat)) :=
  match descriptors with
  | [] => Some []
  | d :: rest =>
      match from_hardware_slot i, split_endpoints rest (S i) with
      | Some queue, Some l => Some ((queue, d) :: l)
      | _, _ => None
      end
  end.

Definition split (tx_dma_descriptors : list nat) : option SplitDriverComponents :=
  endpoints ← split_endpoints tx_dma_descriptors 0;
  Some (mkSplit (seq 0 INTERFACE_COUNT) endpoints).

(** [WiFi::transmit]: the descriptor of the queue's slot. *)
Definition transmit (random : nat -> Z) (interface : nat) (rate : TxPhyRate) (mac : TxMacParameters)
    (error_behaviour : TxErrorBehaviour) (queue : HardwareTxQueue) (tx_dma_descriptors : list (Z * DmaDescriptor))
    (mpdu_ptr : Z) (mpdu_buf : list Z) : M Tx.world (result Z TxError * list Z) :=
  match tx_dma_descriptors !! hardware_slot queue with
  | None => panic
  | Some (ptr, d) =>
      Tx.transmit_with_retry chip random interface rate mac error_behaviour queue ptr mpdu_ptr d mpdu_buf
  end.

Definition transmit_oneshot (random : Z) (interface : nat) (rate : TxPhyRate) (mac : TxMacParameters)
    (queue : HardwareTxQueue) (tx_dma_descriptors : list (Z * DmaDescriptor)) (mpdu_ptr : Z) (mpdu_buf : list Z)
    : M Tx.world (result unit TxError * list Z) :=
  match tx_dma_descriptors !! hardware_slot queue with
  | None => panic
  | Some (ptr, d) => Tx.transmit_oneshot chip random interface rate mac queue ptr mpdu_ptr d mpdu_buf
  end.

(** [TxQueueEndpoint]: the queue and its descriptor *)
Definition endpoint_transmit (random : nat -> Z) (e : HardwareTxQueue * (Z * DmaDescriptor)) (interface : nat) (rate : TxPhyRate)
    (mac : TxMacParameters) (error_behaviour : TxErrorBehaviour) (mpdu_ptr : Z) (mpdu_buf : list Z)
    : M Tx.world (result Z TxError * list Z) :=
  Tx.transmit_with_retry chip random interface rate mac error_behaviour e.1 e.2.1 mpdu_ptr e.2.2 mpdu_buf.

Definition endpoint_transmit_oneshot (random : Z) (e : HardwareTxQueue * (Z * DmaDescriptor)) (interface : nat) (rate : TxPhyRate)
    (mac : TxMacParameters) (mpdu_ptr : Z) (mpdu_buf : list Z) : M Tx.world (result unit TxError * list Z) :=
  Tx.transmit_oneshot chip random interface rate mac e.1 e.2.1 mpdu_ptr e.2.2 mpdu_buf.

(** Splitting does not change what a transmission does: every endpoint of the
    split driver transmits as the whole driver does on the endpoint's queue. *)
Theorem split_transmits c ds queue i d :
  split (seq 0 5) = Some c -> (queue, i) ∈ tx_queue_endpoints c -> ds !! i = Some d ->
  (forall random interface rate mac error_behaviour mpdu_ptr mpdu_buf,
     endpoint_transmit random (queue, d) interface rate mac error_behaviour mpdu_ptr mpdu_buf =
     transmit random interface rate mac error_behaviour queue ds mpdu_ptr mpdu_buf) /\
  (forall random interface rate mac mpdu_ptr mpdu_buf,
     endpoint_transmit_oneshot random (queue, d) interface rate mac mpdu_ptr mpdu_buf =
     transmit_oneshot random interface rate mac queue ds mpdu_ptr mpdu_buf).
Proof.
  intros [= <-] Hin Hd. assert (i = hardware_slot queue) as ->.
  { do 5 (apply elem_of_cons in Hin as [[= -> ->]|Hin]; [done|]). by apply elem_of_nil in Hin. }
  unfold transmit, transmit_oneshot. rewrite Hd. by destruct d.
Qed.

End WiFi.

(** Splitting the driver partitions the hardware: there is exactly one
    endpoint for each transmit queue, in slot order and with the descriptor of
    its slot, and exactly one controller for each RX interface. *)
Theorem split_partitions :
  exists c, split (seq 0 5) = Some c /\
    (forall queue, exists! i, tx_queue_endpoints c !! i = Some (queue, hardware_slot queue)) /\
    length (tx_queue_endpoints c) = 5%nat /\
    (forall interface, (interface < INTERFACE_COUNT)%nat <-> interface ∈ rx_interface_controllers c) /\
    NoDup (rx_interface_controllers c).
Proof.
  eexists. split; [reflexivity|]. split; [|split; [done|split]].
  - intros queue. exists (hardware_slot queue). split; [by destruct queue as [|[]]|].
    intros i. do 5 (destruct i as [|i]; [intros [= <-]; done|]). done.
  - intros interface. cbn [rx_interface_controllers]. rewrite elem_of_seq. unfold INTERFACE_COUNT. lia.
  - apply NoDup_seq.
Qed.

End WiFi.
