(* ===== verification/Timing.v ===== *)
(** * Latency counters ([timing.rs]) *)

From S2P Require Import Prelude.

Record Metric := mkMetric { count : Z; total : Z; maximum : Z; buckets : list Z }.

Module Metric.

Definition new : Metric := mkMetric 0 0 0 (replicate 5 0).

Definition bucket (us : Z) : nat :=
  if us <? 100 then 0 else if us <? 1000 then 1 else if us <? 10000 then 2 else if us <? 100000 then 3 else 4.

(** [fetch_add] wraps at 32 bits. *)
Definition record (us : Z) (m : Metric) : Metric :=
  mkMetric (u32 (count m + 1)) (u32 (total m + us)) (Z.max (maximum m) us)
    (alter (fun n => u32 (n + 1)) (bucket us) (buckets m)).

Definition snapshot (m : Metric) : list Z := [count m; total m; maximum m] ++ buckets m.

End Metric.

(** The interrupt stamps of the five slots and the histogram they feed. *)
Record Stamps := mkStamps { TX_IRQ : list Z; TX_RESUME : Metric }.

Definition tx_irq (now : Z) (slot : nat) (s : Stamps) : option Stamps :=
  if decide (slot < length (TX_IRQ s))%nat
  then Some (mkStamps (<[slot := now]> (TX_IRQ s)) (TX_RESUME s)) else None.

Definition tx_resume (now : Z) (slot : nat) (s : Stamps) : option Stamps :=
  t ← TX_IRQ s !! slot;
  Some (mkStamps (TX_IRQ s) (Metric.record (u32 (now - t)) (TX_RESUME s))).

(** The number of samples of a list in a bucket. *)
Definition in_bucket (i : nat) (l : list Z) : nat := length (filter (fun us => Metric.bucket us = i) l).

(** The counters after recording the samples [l]. *)
Definition counts (l : list Z) : Metric :=
  mkMetric (u32 (Z.of_nat (length l))) (u32 (foldr Z.add 0 l)) (foldr Z.max 0 l)
    ((fun i => u32 (Z.of_nat (in_bucket i l))) <$> seq 0 5).


Lemma bucket_lt us : (Metric.bucket us < 5)%nat.
Proof. unfold Metric.bucket. repeat destruct (_ <? _); lia. Qed.

Lemma in_bucket_cons i us l :
  in_bucket i (us :: l) = ((if (Metric.bucket us =? i)%nat then 1 else 0) + in_bucket i l)%nat.
Proof.
  unfold in_bucket. destruct (Nat.eqb_spec (Metric.bucket us) i).
  - by rewrite filter_cons_True by done.
  - by rewrite filter_cons_False by done.
Qed.

Lemma record_counts us l : Metric.record us (counts l) = counts (us :: l).
Proof.
  unfold Metric.record, counts. cbn [count total maximum buckets length foldr].
  rewrite !wrap_add_l, Nat2Z.inj_succ. f_equal; [f_equal; lia|lia|].
  apply list_eq. intros i. pose proof (bucket_lt us) as Hb.
  destruct (decide (i < 5)%nat) as [Hi|Hi].
  2: { rewrite !lookup_ge_None_2; rewrite ?length_alter, ?length_fmap, ?length_seq; [done|lia..]. }
  destruct (decide (i = Metric.bucket us)) as [->|Hne].
  - rewrite list_lookup_alter_eq, !list_lookup_fmap, lookup_seq_lt by done. cbn [fmap option_fmap option_map]. f_equal.
    rewrite wrap_add_l. unfold in_bucket. rewrite filter_cons_True by done. cbn [length]. f_equal. lia.
  - rewrite list_lookup_alter_ne, !list_lookup_fmap, lookup_seq_lt by done. cbn [fmap option_fmap option_map].
    unfold in_bucket. by rewrite filter_cons_False by done.
Qed.

Lemma record_all l m : foldr Metric.record (counts m) l = counts (l ++ m).
Proof. induction l as [|us l IH]; cbn [foldr app]; [done|]. by rewrite IH, record_counts. Qed.

(** The histogram is exact modulo 2^32: after any sequence of samples a
    snapshot shows their number, their sum, their maximum, and for each of the
    five ranges the number of samples that lie in it; every sample falls in
    exactly one range. *)
Theorem histogram_exact l :
  Metric.snapshot (foldr Metric.record Metric.new l) =
    [u32 (Z.of_nat (length l)); u32 (foldr Z.add 0 l); foldr Z.max 0 l] ++
    ((fun i => u32 (Z.of_nat (in_bucket i l))) <$> seq 0 5) /\
  foldr Nat.add 0%nat ((fun i => in_bucket i l) <$> seq 0 5) = length l.
Proof.
  split.
  - change Metric.new with (counts []). by rewrite record_all, app_nil_r.
  - induction l as [|us l IH]; [done|]. cbn [length]. rewrite <- IH. clear IH.
    cbn [seq fmap list_fmap foldr]. rewrite !in_bucket_cons. pose proof (bucket_lt us) as Hb.
    destruct (Metric.bucket us) as [|[|[|[|[|n]]]]]; cbn; lia.
Qed.
