(* ===== verification/PhyRfpll.v ===== *)
(** * RF PLL programming ([phy_rfpll.rs])

    The C3/S3 synthesizer: fractional divider, capacitor calibration, channel
    switch.  [acc] is the trait [Access]; [s3] is the constant [S3].
    [internal] is the dispatch of [native::internal] to the functions of the
    module, and [linked] is a program in which those calls are resolved. *)

From S2P Require Import Prelude Program.

Inductive acc :=
| Param
| Read (address width : Z)
| Write (address width value : Z)
| Table
| Slot (table offset : Z)
| ReadCall (target : Z) (args : list Z)
| WriteCall (target : Z) (args : list Z)
| External (kind : Z) (args : list Z)
| Internal (kind : Z) (args : list Z)
| Print (kind : Z) (args : list Z)
| Scratch (kind : Z)
| InitScratch (address : Z) (bytes : list Z).

Module Rfpll.
Section Rfpll.
Variable s3 : bool.

Definition READ : Z := if s3 then 0x188 else 0x1ac.
Definition WRITE : Z := READ + 8.
Definition MASK_READ : Z := READ + 12.
Definition MASK_WRITE : Z := READ + 16.
Definition SPECIAL : Z := if s3 then 0x2a8 else 0x325.
Definition SAVED : Z := if s3 then 0x2aa else 0x326.
Definition ENTER : Z := if s3 then 0x160 else 0x184.
Definition EXIT : Z := ENTER + 4.

Definition byte_argument (v : Z) : Z := if s3 then u8 v else v.
Definition short (v : Z) : Z := u32 (i16 v).
(** Sign-extended 8-bit arguments, [v as i8 as i32 as u32]. *)
Definition char (v : Z) : Z := u32 (i8 v).

Definition target (slot : Z) : prog acc Z := t ← call Table; call (Slot t slot).

Definition read (offset width : Z) : prog acc Z := p ← call Param; call (Read (p + offset) width).
Definition write (offset width value : Z) : prog acc unit :=
  p ← call Param; call (Write (p + offset) width value) ;; mret tt.

Definition read_call (slot : Z) (args : list Z) : prog acc Z := t ← target slot; call (ReadCall t args).
Definition write_call (slot : Z) (args : list Z) : prog acc unit :=
  t ← target slot; call (WriteCall t args) ;; mret tt.
Definition external (kind : Z) (args : list Z) : prog acc unit := call (External kind args) ;; mret tt.

Definition delay (us : Z) : prog acc unit := external 0 [us].

Definition cap_write (value : Z) : prog acc unit :=
  if s3 then write_call 0x20c [value] else call (Internal 5 [value]) ;; mret tt.

Definition status : prog acc Z :=
  v ← read_call READ [98; 1; 12]; mret (Z.land (Z.shiftr v 2) 3).

Definition restart : prog acc unit :=
  for_all [(6, 1); (5, 0); (5, 1); (6, 0)] (fun '(bit, value) =>
    write_call MASK_WRITE [98; 1; 0; bit; bit; value]).

Definition sdm (buffer : Z) : prog acc unit :=
  write_call WRITE [99; 1; 0; 7] ;;
  for_all [0; 1; 2] (fun i =>
    table ← call Table;
    value ← call (Read (buffer + i) 1);
    t ← call (Slot table WRITE);
    call (WriteCall t [99; 1; 3 + i; value]) ;; mret tt) ;;
  write_call WRITE [99; 1; 0; 23].

Definition wait : prog acc unit :=
  locked ← for_loop (seq 0 100) false (fun _ _ =>
    delay 20 ;;
    v ← read_call MASK_READ [98; 1; 7; 1; 1];
    mret (if v =? 0 then Next false else Break true));
  if (locked : bool) then mret tt else call (Print 0 [0; 0; 0; 0; 0; 0]) ;; mret tt.

Definition clock (selector : Z) : Z :=
  match u8 selector with
  | 1 => 26
  | 2 => 32
  | 3 => if s3 then 40 else 48
  | _ => 40
  end.

(** The quotient and the numerator of the next digit. *)
Definition digit (denominator numerator : Z) : Z * Z :=
  let quotient := u8 (Z.quot (i32 numerator) (i32 denominator)) in
  (quotient, u32 (Z.shiftl (u32 (numerator - quotient * denominator)) 8)).

Definition frequency (frequency selector offset buffer : Z) : prog acc unit :=
  let denominator := clock selector * 3000 in
  let offset := if s3 then short offset else offset in
  let numerator := u32 (u32 (u32 (u32 (frequency * 1000) + offset) * 4) - denominator * 32) in
  for_loop [0; 1; 2] numerator (fun i numerator =>
    let '(quotient, numerator) := digit denominator numerator in
    call (Write (buffer + i) 1 quotient) ;;
    mret (Next numerator)) ;;
  mret tt.

Definition correct_offset (value mode stored : Z) : prog acc unit :=
  let value := if s3 then short value else value in
  let mode := byte_argument mode in
  let scaled := i16 (if mode =? 0 then Z.shiftr (i32 (u32 (value * 9))) 2
                     else Z.shiftr (i32 (u32 (value * 27))) 3) in
  old ← call (Read stored 2);
  if i16 old =? scaled then mret tt else
  let delta := u32 (scaled - i16 old) in
  for_all (Z.of_nat <$> seq 0 85) (fun index =>
    v ← call (Read 0x6000e0c4 4);
    call (Write 0x6000e0c4 4 (Z.lor (Z.land v 0xffffff00) (index * 3 + 1))) ;;
    v ← call (Read 0x6000e0c0 4);
    call (Write 0x6000e148 4 (Z.lor (u32 (Z.land v 0xffffff + delta)) (Z.land v 0xff000000))) ;;
    v ← call (Read 0x6000e0c4 4);
    call (Write 0x6000e0c4 4 (Z.lor v 0x200)) ;;
    v ← call (Read 0x6000e0c4 4);
    call (Write 0x6000e0c4 4 (Z.land v 0xfffffdff)) ;;
    mret tt) ;;
  call (Write stored 2 (u16 scaled)) ;; mret tt.

Definition write_cap (value : Z) : prog acc unit :=
  let value := if s3 then u16 value else value in
  write_call WRITE [98; 1; 1; Z.land value 255] ;;
  write_call MASK_WRITE [98; 1; 2; 4; 4; Z.shiftr value 8].

Definition read_cap : prog acc Z :=
  low ← read_call READ [98; 1; 5];
  high ← read_call MASK_READ [98; 1; 7; 2; 2];
  mret (u16 (low + u32 (Z.shiftl high 8))).

(** The state in which the search of [correct_cap] ends. *)
Record cap_search := mkCapSearch { cs_candidate : Z; cs_step : Z; cs_success : bool; cs_last : Z; cs_attempt : Z }.

Definition correct_cap_attempt (mode initial first : Z) (attempt : Z) (s : cap_search) : prog acc (flow cap_search) :=
  let step := if first =? 2 then -2 else 2 in
  raw ← read_call 0x28 [short (u32 (initial + u32 (attempt * u32 step))); 511; 0];
  special ← read SPECIAL 1;
  if negb (special =? 0) && negb (mode =? 0)
  then mret (Break (mkCapSearch (short initial) step false (cs_last s) attempt)) else
  cap_write (u16 raw) ;;
  delay 20 ;;
  last ← status;
  if ((first =? 1) && (last =? 0)) || ((first =? 0) && (last =? 2)) || ((first =? 2) && (last =? 0))
  then mret (Break (mkCapSearch (short raw) (if first =? 1 then 2 else if first =? 0 then -6 else -4) true last attempt)) else
  if attempt =? 10
  then cap_write initial ;; mret (Break (mkCapSearch (short initial) step false last attempt))
  else mret (Next (mkCapSearch (short raw) step false last attempt)).

Definition correct_cap (debug mode : Z) : prog acc Z :=
  let debug := byte_argument debug in
  let mode := byte_argument mode in
  initial ← call (Internal 6 []);
  first ← status;
  s ← for_loop (Z.of_nat <$> seq 1 10) (mkCapSearch 0 0 false 0 1) (correct_cap_attempt mode initial first);
  special ← read SPECIAL 1;
  '(result, candidate) ←
    (if negb (special =? 0) && negb (mode =? 0) then
       saved ← read SAVED 2;
       cap_write saved ;; mret (0, cs_candidate s)
     else if cs_success s then
       raw ← read_call 0x28 [short (u32 (cs_candidate s + u32 (cs_step s))); 511; 0];
       cap_write (u16 raw) ;;
       delay 20 ;;
       st ← status;
       if st =? 0 then
         let result := short (u32 (raw - initial)) in
         (if negb (result =? 0) then external 1 [result] else mret tt) ;;
         mret (result, short raw)
       else mret (0, short raw)
     else mret (0, cs_candidate s));
  (if negb (debug =? 0)
   then call (Print 1 [result; short initial; candidate; cs_attempt s; first; cs_last s]) ;; mret tt
   else mret tt) ;;
  mret result.

(** One setting of the capacitor in [init_cap]; the state is [count, sum]. *)
Definition init_cap_try (cap : Z) (s : Z * Z) : prog acc (flow (Z * Z)) :=
  let '(count, sum) := s in
  cap_write cap ;;
  delay 20 ;;
  st ← status;
  mret (if st =? 0 then Next (count + 1, u16 (sum + cap))
        else if negb (count =? 0) then Break (count, sum) else Next (count, sum)).

(** The settings of a pass. *)
Definition init_cap_pass (initial pass : Z) : list Z :=
  (fun i => u16 (if pass =? 0 then u32 (initial - Z.of_nat i) else u32 (initial + (1 + Z.of_nat i)))) <$> seq 0 10.

Definition init_cap : prog acc Z :=
  initial ← call (Internal 6 []);
  write_call MASK_WRITE [98; 1; 11; 6; 6; 1] ;;
  s ← for_loop [0; 1] (0, 0) (fun pass s =>
    s' ← for_loop (init_cap_pass initial pass) s init_cap_try; mret (Next s'));
  let '(count, sum) := s in
  let cap := if count =? 0 then initial else sum / count in
  cap_write cap ;;
  delay 5 ;;
  mret (Z.lor (u32 (Z.shiftl initial 16)) cap).

Definition set (selector frequency offset buffer : Z) : prog acc Z :=
  write_call MASK_WRITE [98; 1; 11; 6; 6; 0] ;;
  let '(selector, frequency, offset) :=
    if s3 then (u8 selector, u16 frequency, short offset) else (selector, frequency, offset) in
  call (Internal 3 [frequency; selector; offset; buffer]) ;;
  call (Internal 1 [buffer]) ;;
  call (Internal 0 []) ;;
  call (Internal 2 []) ;;
  delay 5 ;;
  call (Internal 8 []).

Definition set_offset (selector frequency offset : Z) : prog acc Z :=
  p ← call (Scratch 0);
  call (Internal 9 [byte_argument selector; if s3 then u16 frequency else frequency;
                    if s3 then short offset else offset; p]).

Definition set_channel (channel selector offset : Z) : prog acc Z :=
  let channel := if s3 then char channel else channel in
  let selector := byte_argument selector in
  let offset := if s3 then short offset else offset in
  frequency ← read_call (if s3 then 0x1d4 else 0x1f8) [channel];
  mode ← read 0x120 4;
  (if Z.land mode 32 =? 0
   then call (Internal 10 [selector; frequency; offset]) ;; mret tt
   else external 2 [u8 (u32 (frequency - 2400)); offset; selector]) ;;
  mret frequency.

Definition misc (channel : Z) : prog acc unit :=
  p ← call (Scratch 1);
  (if s3 then
     v ← read 0xf1 1;
     call (InitScratch p [u8 v]) ;; mret tt
   else call (InitScratch p [0xa0; 0x84; 0x8e; 0xe8; 0xee; 0xd2; 0xf2; 0xf8; 0xfe]) ;; mret tt) ;;
  n ← read 0x1f6 1;
  let count := u8 (n + 1) in
  base ← call Param;
  external 3 [0; 1; p; base + (if s3 then 0x26c else 0x2e8); base + (if s3 then 0x290 else 0x30c);
              base + (if s3 then 0x210 else 0x21c); count; 0] ;;
  if s3 then
    write_call 0x24c [1] ;; write_call 0x264 [u8 channel; 0]
  else
    external 4 [1] ;; external 5 [u8 channel; 0].

(** The stores and the callback at the start of [channel]; returns the offset. *)
Definition channel_begin (channel mode : Z) : prog acc Z :=
  if s3 then
    previous ← read 0x1f2 1;
    o ← read 0xe0 2;
    (if negb (char previous =? channel) then
       v ← call (Read 0x6001c130 4);
       call (Write 0x6001c130 4 (Z.lor v 0x1000)) ;; mret tt
     else mret tt) ;;
    write 0x1f4 1 (u8 mode) ;;
    write 0x1f2 1 (u8 channel) ;;
    write 0x1f3 1 (bool_to_Z (negb (mode =? 0))) ;;
    write SPECIAL 1 1 ;;
    write_call 8 [] ;;
    mret (short o)
  else
    write 0x1f3 1 (bool_to_Z (negb (mode =? 0))) ;;
    write SPECIAL 1 1 ;;
    table ← call Table;
    write 0x1f2 1 (u8 channel) ;;
    write 0x1f4 1 (u8 mode) ;;
    o ← read 0xe0 2;
    t ← call (Slot table 8);
    call (WriteCall t []) ;;
    mret (short o).

(** The C3 call of slot [0x60]. *)
Definition channel_c3 (channel mode : Z) : prog acc unit :=
  table ← call Table;
  a ← read 0x11a 1;
  b ← read 0x11c 2;
  t ← call (Slot table 0x60);
  c ← read 0xf3 1;
  d ← read 0x118 2;
  call (WriteCall t [channel; mode; 0; c; b; d; a]) ;; mret tt.

Definition channel (channel mode : Z) : prog acc unit :=
  let '(channel, mode) := if s3 then (char channel, char mode) else (channel, mode) in
  token ← read_call ENTER [];
  offset ← channel_begin channel mode;
  external 6 [1] ;;
  selector ← read 0xf3 1;
  call (Internal 11 [channel; selector; offset]) ;;
  write_call (if s3 then 0x6c else 0x78) [mode] ;;
  (if s3 then mret tt else channel_c3 channel mode) ;;
  call (Internal 12 [channel]) ;;
  (if s3 then mret tt else external 7 []) ;;
  mic ← read 0xe6 1;
  (if negb (mic =? 0) then external 8 [bool_to_Z (channel =? 14)] else mret tt) ;;
  enabled ← read 0xef 1;
  (if negb (enabled =? 0) then
     value ← read 0xf0 1; external 9 [enabled; value]
   else mret tt) ;;
  external 6 [0] ;;
  write_call 12 [] ;;
  write_call EXIT [token].

Definition channel_offset (offset : Z) : prog acc unit :=
  let offset := if s3 then short offset else offset in
  token ← read_call ENTER [];
  let rounded := short (Z.land (u32 (offset + 2)) 0xfffffffc) in
  adjust ← (if s3 then
              adjust ← read 0x11e 1; write 0xe0 2 (u16 rounded) ;; mret adjust
            else write 0xe0 2 (u16 rounded) ;; read 0x11e 1);
  (if negb (adjust =? 0) then
     v ← read 0x11f 1;
     write 0xe0 2 (u16 (u32 (rounded + u32 (i8 v * 8))))
   else mret tt) ;;
  o ← read 0xe0 2;
  external 10 [1; short o] ;;
  write_call 8 [] ;;
  '(channel, offset, selector) ←
    (if s3 then
       c ← read 0x1f2 1; o ← read 0xe0 2; sel ← read 0xf3 1; mret (char c, short o, sel)
     else
       o ← read 0xe0 2; sel ← read 0xf3 1; c ← read 0x1f2 1; mret (char c, short o, sel));
  call (Internal 11 [channel; selector; offset]) ;;
  write_call 12 [] ;;
  write_call EXIT [token].

Definition channel_analog (channel : Z) : prog acc unit :=
  let channel := if s3 then char channel else channel in
  selector ← read 0xf3 1;
  call (Internal 11 [channel; selector; 0]) ;;
  write 0x1f2 1 (u8 channel).

(** Only built for the S3. *)
Definition phy_frequency (frequency offset : Z) : prog acc Z :=
  p ← call (Scratch 0);
  selector ← read 0xf3 1;
  call (Internal 9 [selector; u16 frequency; short offset; p]).

(** ** [native::internal] *)

Definition discard {A} (p : prog acc A) : prog acc Z := p ;; mret 0.

Definition internal (kind : Z) (a : list Z) : prog acc Z :=
  match kind, a with
  | 0, [] => discard restart
  | 1, [a0] => discard (sdm a0)
  | 2, [] => discard wait
  | 3, [a0; a1; a2; a3] => discard (frequency a0 a1 a2 a3)
  | 4, [a0; a1; a2] => discard (correct_offset a0 a1 a2)
  | 5, [a0] => discard (write_cap a0)
  | 6, [] => read_cap
  | 7, [a0; a1] => correct_cap a0 a1
  | 8, [] => init_cap
  | 9, [a0; a1; a2; a3] => discard (set a0 a1 a2 a3)
  | 10, [a0; a1; a2] => discard (set_offset a0 a1 a2)
  | 11, [a0; a1; a2] => set_channel a0 a1 a2
  | 12, [a0] => discard (misc a0)
  | 13, [a0; a1] => discard (channel a0 a1)
  | 14, [a0] => discard (channel_offset a0)
  | 15, [a0] => discard (channel_analog a0)
  | 16, [a0; a1] => if s3 then discard (phy_frequency a0 a1) else Crash
  | 17, [] => if s3 then mret 0 else Crash
  | _, _ => Crash
  end.

(** Resolve internal calls, [n] levels deep. *)
Fixpoint linked (n : nat) (p : prog acc Z) : prog acc Z :=
  link_with (fun e => match e with
                      | Internal kind a => Some match n with O => Crash | S n' => linked n' (internal kind a) end
                      | _ => None
                      end) p.

End Rfpll.
End Rfpll.
