(* ===== verification/PhyRfpllSpec.v ===== *)
(** * Correctness of the RF PLL programming

    The fractional divider approximates the requested frequency to one step
    of its last digit and is what the synthesizer is programmed with; the
    capacitor is centred in the locking range; waiting is bounded; a channel
    switch holds the PHY lock and keeps the transceiver off. *)

From S2P Require Import Prelude Program PhyRfpll.

(** ** The divider digits *)

Definition divider_clock (s3 : bool) (selector : Z) : Z := Rfpll.clock s3 selector * 3000.

Lemma clock_cases s3 selector : Rfpll.clock s3 selector ∈ [26; 32; 40; 48].
Proof.
  unfold Rfpll.clock. destruct (u8 selector) as [|[[?|?|]|[?|?|]|]|]; destruct s3; set_solver.
Qed.

Lemma divider_clock_range s3 selector : 78000 <= divider_clock s3 selector <= 144000.
Proof.
  unfold divider_clock. pose proof (clock_cases s3 selector) as Hc.
  rewrite !elem_of_cons, elem_of_nil in Hc. lia.
Qed.

Lemma digit_step D n :
  0 < D <= 144000 -> 0 <= n < 256 * D -> Rfpll.digit D n = (n / D, 256 * (n mod D)).
Proof.
  intros HD Hn. unfold Rfpll.digit.
  rewrite !(sext_small 32) by (unfold in_swidth; lia).
  rewrite Z.quot_div_nonneg by lia.
  assert (0 <= n / D < 256) by (split; [apply Z.div_pos; lia|apply Z.div_lt_upper_bound; lia]).
  rewrite (wrap_small 8) by (unfold in_width; lia).
  replace (n - n / D * D) with (n mod D) by (rewrite Z.mod_eq; lia).
  pose proof (Z.mod_pos_bound n D). rewrite (wrap_small 32 (n mod D)) by (unfold in_width; lia).
  rewrite Z.shiftl_mul_pow2 by lia. rewrite (wrap_small 32) by (unfold in_width; lia). f_equal. lia.
Qed.

(** The three digits of [n / D] in base 256, and their error. *)
Definition digits (D n : Z) : Z * Z * Z :=
  let n1 := 256 * (n mod D) in
  let n2 := 256 * (n1 mod D) in
  (n / D, n1 / D, n2 / D).

Lemma digits_spec D n q0 q1 q2 :
  0 < D -> 0 <= n < 256 * D -> digits D n = (q0, q1, q2) ->
  is_u8 q0 /\ is_u8 q1 /\ is_u8 q2 /\ 0 <= 65536 * n - (65536 * q0 + 256 * q1 + q2) * D < D.
Proof.
  intros HD Hn Hq. unfold digits in Hq. simplify_eq. set (n1 := 256 * (n mod D)). set (n2 := 256 * (n1 mod D)).
  pose proof (Z.mod_pos_bound n D HD). pose proof (Z.mod_pos_bound n1 D HD). pose proof (Z.mod_pos_bound n2 D HD).
  assert (Hu : forall m, 0 <= m < 256 * D -> is_u8 (m / D)).
  { intros m Hm. split; [apply Z.div_pos; lia|apply Z.div_lt_upper_bound; lia]. }
  split_and!; try (apply Hu; lia);
    pose proof (Z.div_mod n D); pose proof (Z.div_mod n1 D); pose proof (Z.div_mod n2 D); lia.
Qed.

(** The offset in kilohertz that the code decodes from its argument: the S3
    keeps the low 16 bits, the C3 all 32. *)
Definition signed_offset (s3 : bool) (offset : Z) : Z := if s3 then i16 offset else i32 offset.

(** The dividend: a quarter of a kilohertz per unit, less the fixed part. *)
Definition dividend (s3 : bool) (f selector offset : Z) : Z :=
  4 * (1000 * f + signed_offset s3 offset) - 32 * divider_clock s3 selector.

Definition tunable (s3 : bool) (f offset : Z) : Prop := 2400 <= f <= 2500 /\ -40000 <= signed_offset s3 offset <= 40000.

Lemma dividend_range s3 f selector offset :
  tunable s3 f offset -> 0 <= dividend s3 f selector offset < 256 * divider_clock s3 selector.
Proof. intros [??]. unfold dividend. pose proof (divider_clock_range s3 selector). lia. Qed.

Lemma numerator_dividend s3 f selector offset :
  tunable s3 f offset ->
  u32 (u32 (u32 (u32 (f * 1000) + (if s3 then Rfpll.short offset else offset)) * 4) - divider_clock s3 selector * 32)
  = dividend s3 f selector offset.
Proof.
  intros Ht. pose proof (dividend_range s3 f selector offset Ht). pose proof (divider_clock_range s3 selector).
  rewrite wrap_add_l, wrap_mul_l, wrap_sub_l.
  rewrite <- (wrap_small 32 (dividend _ _ _ _)) by (unfold in_width; lia).
  unfold dividend, signed_offset. destruct s3.
  - unfold Rfpll.short. rewrite <- wrap_sub_l, <- wrap_mul_l, wrap_add_r, wrap_mul_l, wrap_sub_l. f_equal. lia.
  - rewrite <- wrap_sub_l, <- wrap_mul_l. rewrite <- (wrap_add_r 32 _ offset), <- (wrap_sext 32 offset), wrap_add_r by lia.
    rewrite wrap_mul_l, wrap_sub_l. f_equal. lia.
Qed.

(** ** Programming the synthesizer

    The environment of [set_offset] with its internal calls resolved: memory
    behaves as memory, a scratch buffer is at [buf] and is private to the
    function that owns it, so calls into ROM leave it alone; [sdm_log] records
    the values written to the registers of the sigma-delta modulator, block
    99. *)
Record tuner := mkTuner { bytes : mem; sdm_log : list (Z * Z) }.

Definition sdm_write (e : acc) : list (Z * Z) :=
  match e with
  | WriteCall _ [99; 1; register; value] => [(register, value)]
  | _ => []
  end.

Definition tuner_guard (e : acc) (s : tuner) : Prop := match e with Internal _ _ => False | _ => True end.

Definition tuner_reply (buf : Z) (e : acc) (s : tuner) (x : Z) (s' : tuner) : Prop :=
  sdm_log s' = sdm_log s ++ sdm_write e /\
  match e with
  | Read a w => x = mem_read (bytes s) a w /\ bytes s' = bytes s
  | Write a w v => bytes s' = mem_write (bytes s) a w v
  | Scratch _ => x = buf /\ bytes s' = bytes s
  | _ => forall b, buf <= b < buf + 16 -> bytes s' b = bytes s b
  end.

(** The buffer holds the bytes [l]. *)
Definition holds (buf : Z) (l : list Z) (s : tuner) : Prop :=
  forall i v, l !! i = Some v -> mem_read (bytes s) (buf + Z.of_nat i) 1 = v.

Section Tuner.
Variable s3 : bool.
Variable buf : Z.

Abbreviation wp' := (wp tuner_guard (tuner_reply buf)).

(** Calls that neither write memory nor the modulator. *)
Definition quiet_call (e : acc) : Prop :=
  match e with
  | Internal _ _ | Write _ _ _ => False
  | _ => sdm_write e = []
  end.

Definition settled (l : list Z) (sl : list (Z * Z)) (s : tuner) : Prop := holds buf l s /\ sdm_log s = sl.

Lemma quiet_settled l sl e s x s' :
  (length l <= 16)%nat -> quiet_call e -> settled l sl s -> tuner_reply buf e s x s' -> settled l sl s'.
Proof.
  intros Hl Hq [Hh Hs] [Hlog Hr].
  assert (sdm_write e = []) as Hn by (destruct e; simpl in *; done). split; [|by rewrite Hlog, Hn, app_nil_r].
  intros i v Hi. rewrite <- (Hh i v Hi). apply lookup_lt_Some in Hi. apply mem_read_ext. intros b Hb.
  destruct e; simpl in Hq; try done; first [apply Hr; lia | destruct Hr as [_ Hr]; by rewrite Hr].
Qed.

Lemma wp_quiet {A} (p : prog acc A) l sl s :
  (length l <= 16)%nat -> calls_only quiet_call p -> settled l sl s -> wp' p (fun _ s' => settled l sl s') s.
Proof.
  intros Hl Hp. eapply wp_frame; [done| |].
  - by intros [] ? ? ?.
  - intros e s0 x s' ? ? ?. by eapply quiet_settled.
Qed.

Section Quiet.
Context (P : acc -> Prop) (HP : forall e, quiet_call e -> P e).

Lemma quiet_write_call slot args :
  quiet_call (WriteCall 0 args) -> calls_only P (Rfpll.write_call slot args).
Proof. intros Hq. unfold Rfpll.write_call, Rfpll.target. repeat calls_step; by apply HP. Qed.

Lemma quiet_read_call slot args : calls_only P (Rfpll.read_call slot args).
Proof. unfold Rfpll.read_call, Rfpll.target. repeat calls_step; by apply HP. Qed.

Lemma quiet_external kind args : calls_only P (Rfpll.external kind args).
Proof. unfold Rfpll.external. repeat calls_step; by apply HP. Qed.

End Quiet.

(** What a program may call so that it is quiet once linked. *)
Definition quiet_linked (n : nat) (e : acc) : Prop :=
  match e with
  | Internal kind a => calls_only quiet_call (Rfpll.linked s3 n (Rfpll.internal s3 kind a))
  | _ => quiet_call e
  end.

Lemma quiet_linked_quiet n e : quiet_call e -> quiet_linked n e.
Proof. by destruct e. Qed.

Lemma calls_only_linked n p : calls_only (quiet_linked n) p -> calls_only quiet_call (Rfpll.linked s3 (S n) p).
Proof. intros Hp. apply calls_only_link. eapply calls_only_mono, Hp. by intros [] ?. Qed.

Ltac quiet :=
  repeat first
    [ calls_step
    | apply quiet_write_call; [apply quiet_linked_quiet|first [reflexivity | simpl; repeat case_match; done]]
    | apply quiet_read_call, quiet_linked_quiet
    | apply quiet_external, quiet_linked_quiet
    | reflexivity
    | match goal with |- calls_only _ (match ?x with _ => _ end) => destruct x end ].

Lemma quiet_wait n : calls_only quiet_call (Rfpll.linked s3 (S n) (Rfpll.internal s3 2 [])).
Proof. apply calls_only_linked. cbn [Rfpll.internal]. unfold Rfpll.discard, Rfpll.wait, Rfpll.delay. quiet. Qed.

Lemma quiet_restart n : calls_only quiet_call (Rfpll.linked s3 (S n) (Rfpll.internal s3 0 [])).
Proof. apply calls_only_linked. cbn [Rfpll.internal]. unfold Rfpll.discard, Rfpll.restart. quiet. Qed.

Lemma quiet_read_cap n : quiet_linked (S n) (Internal 6 []).
Proof. apply calls_only_linked. cbn [Rfpll.internal]. unfold Rfpll.read_cap. quiet. Qed.

Lemma quiet_write_cap n v : quiet_linked (S n) (Internal 5 [v]).
Proof. apply calls_only_linked. cbn [Rfpll.internal]. unfold Rfpll.discard, Rfpll.write_cap. quiet. Qed.

Lemma quiet_cap_write n v : calls_only (quiet_linked (S n)) (Rfpll.cap_write s3 v).
Proof. unfold Rfpll.cap_write. destruct s3 eqn:?; quiet. apply quiet_write_cap. Qed.

Lemma quiet_init_cap n : calls_only quiet_call (Rfpll.linked s3 (S (S n)) (Rfpll.internal s3 8 [])).
Proof.
  apply calls_only_linked. cbn [Rfpll.internal]. unfold Rfpll.init_cap, Rfpll.init_cap_try, Rfpll.delay, Rfpll.status.
  quiet; first [apply quiet_cap_write | apply quiet_read_cap].
Qed.

Lemma wp_sdm_call slot l sl r v s :
  (length l <= 16)%nat -> settled l sl s ->
  wp' (Rfpll.write_call slot [99; 1; r; v]) (fun _ s' => settled l (sl ++ [(r, v)]) s') s.
Proof.
  intros Hl Hs. unfold Rfpll.write_call. wp_step. eapply wp_mono; [|apply wp_quiet; [exact Hl| |exact Hs]].
  2: { unfold Rfpll.target. repeat calls_step; done. }
  intros t s1 [Hh1 Hs1]. cbv beta. wp_step. wp_step; [done|]. intros x s2 [Hlog Hr]. wp_step.
  split; [|by rewrite Hlog, Hs1].
  intros i b Hi. rewrite <- (Hh1 i b Hi). apply lookup_lt_Some in Hi. apply mem_read_ext. intros a Ha. apply Hr. lia.
Qed.

(** A byte of the buffer as [Access::write] and [Access::read] see it. *)
Lemma wp_buffer_write l sl i v s :
  is_u8 v -> i = Z.of_nat (length l) -> settled l sl s ->
  wp' (call (Write (buf + i) 1 v)) (fun _ s' => settled (l ++ [v]) sl s') s.
Proof.
  intros Hv -> [Hh Hs]. wp_step; [done|]. intros x s' [Hlog Hr]. split; [|by rewrite Hlog, app_nil_r].
  intros j b Hj. rewrite Hr. apply lookup_app_Some in Hj as [Hj|[Hge Hj]].
  - pose proof (lookup_lt_Some _ _ _ Hj). rewrite mem_read_write_other by lia. by apply Hh.
  - apply list_lookup_singleton_Some in Hj as [Hj ->]. replace j with (length l) by lia.
    rewrite mem_read_write_same by lia. apply (wrap_small 8). done.
Qed.

Lemma wp_buffer_read l sl i v s :
  (length l <= 16)%nat -> l !! i = Some v -> settled l sl s ->
  wp' (call (Read (buf + Z.of_nat i) 1)) (fun x s' => x = v /\ settled l sl s') s.
Proof.
  intros Hl Hi Hs. wp_step; [done|]. intros x s' Hr. split; [|eapply quiet_settled; [exact Hl| |exact Hs|exact Hr]; done].
  destruct Hr as (_ & -> & _). by apply Hs.
Qed.

Lemma frequency_spec f selector offset sl s :
  tunable s3 f offset -> settled [] sl s ->
  wp' (Rfpll.frequency s3 f selector offset buf) (fun _ s' => exists q0 q1 q2,
    digits (divider_clock s3 selector) (dividend s3 f selector offset) = (q0, q1, q2) /\ settled [q0; q1; q2] sl s') s.
Proof.
  intros Ht Hs. unfold Rfpll.frequency. fold (divider_clock s3 selector).
  pose proof (divider_clock_range s3 selector) as HD. pose proof (dividend_range s3 f selector offset Ht) as Hn.
  rewrite numerator_dividend by done.
  set (D := divider_clock s3 selector) in *. set (n := dividend s3 f selector offset) in *.
  set (n1 := 256 * (n mod D)). set (n2 := 256 * (n1 mod D)).
  pose proof (Z.mod_pos_bound n D). pose proof (Z.mod_pos_bound n1 D).
  destruct (digits_spec D n (n / D) (n1 / D) (n2 / D)) as (Hq0 & Hq1 & Hq2 & _); [lia..|done|].
  cbn [for_loop]. rewrite (digit_step D n) by lia. fold n1.
  do 3 wp_step. eapply wp_mono; [|apply (wp_buffer_write [] sl); done]. intros ? s1 Hs1. cbv beta. wp_step. cbv iota beta.
  rewrite (digit_step D n1) by lia. fold n2.
  do 2 wp_step. eapply wp_mono; [|apply (wp_buffer_write [n / D] sl); done]. intros ? s2 Hs2. cbv beta. wp_step. cbv iota beta.
  rewrite (digit_step D n2) by lia.
  do 2 wp_step. eapply wp_mono; [|apply (wp_buffer_write [n / D; n1 / D] sl); done]. intros ? s3' Hs3. cbv beta.
  wp_step. cbv iota beta. do 2 wp_step. eauto.
Qed.

Lemma sdm_spec q0 q1 q2 sl s :
  settled [q0; q1; q2] sl s ->
  wp' (Rfpll.sdm s3 buf) (fun _ s' =>
    settled [q0; q1; q2] (sl ++ [(0, 7); (3, q0); (4, q1); (5, q2); (0, 23)]) s') s.
Proof.
  intros Hs. unfold Rfpll.sdm. wp_step.
  eapply wp_mono; [|apply wp_sdm_call; [|exact Hs]; simpl; lia]. intros ? s1 Hs1. cbv beta. wp_step.
  assert (Hbyte : forall i v sl' s', [q0; q1; q2] !! i = Some v -> settled [q0; q1; q2] sl' s' ->
    wp' (table ← call Table; value ← call (Read (buf + Z.of_nat i) 1); t ← call (Slot table (Rfpll.WRITE s3));
         call (WriteCall t [99; 1; 3 + Z.of_nat i; value]) ;; mret tt)
      (fun _ s'' => settled [q0; q1; q2] (sl' ++ [(3 + Z.of_nat i, v)]) s'') s').
  { intros i v sl' s' Hi Hs'.
    wp_step. eapply wp_mono; [|apply (wp_quiet (call Table)); [|repeat calls_step; done|exact Hs']; simpl; lia].
    intros table s2 Hs2. cbv beta. wp_step. eapply wp_mono; [|eapply wp_buffer_read; [|exact Hi|exact Hs2]; simpl; lia].
    intros x s3' [-> Hs3]. cbv beta. wp_step.
    eapply wp_mono; [|apply (wp_quiet (call (Slot _ _))); [|repeat calls_step; done|exact Hs3]; simpl; lia].
    intros t s4 [Hh4 Hs4]. cbv beta. wp_step. wp_step; [done|]. intros y s5 [Hlog Hr]. wp_step.
    split; [|by rewrite Hlog, Hs4]. intros j b Hj. rewrite <- (Hh4 j b Hj). apply lookup_lt_Some in Hj.
    apply mem_read_ext. intros c Hc. apply Hr. simpl in Hj. lia. }
  cbn [for_all].
  wp_step. eapply wp_mono; [|apply (Hbyte 0%nat q0 _ _ eq_refl Hs1)]. intros ? s2 Hs2. cbv beta.
  wp_step. eapply wp_mono; [|apply (Hbyte 1%nat q1 _ _ eq_refl Hs2)]. intros ? s3' Hs3. cbv beta.
  wp_step. eapply wp_mono; [|apply (Hbyte 2%nat q2 _ _ eq_refl Hs3)]. intros ? s4 Hs4. cbv beta. wp_step.
  eapply wp_mono; [|apply wp_sdm_call; [|exact Hs4]; simpl; lia]. intros ? s5 Hs5. by rewrite <- !app_assoc in Hs5.
Qed.

End Tuner.

Lemma short_signed offset : i16 (Rfpll.short offset) = i16 offset.
Proof.
  unfold Rfpll.short, sext at 1. replace (u16 (u32 (i16 offset))) with (u16 offset); [done|].
  unfold wrap at 2. unfold wrap at 2. rewrite Z.mod_mod_divide by (by exists (2 ^ 16)).
  symmetry. by apply (wrap_sext 16).
Qed.

(** An offset the chip's argument holds is the one it decodes. *)
Lemma signed_offset_of s3 khz :
  -40000 <= khz <= 40000 -> (s3 = true -> is_i16 khz) -> signed_offset s3 (u32 khz) = khz.
Proof.
  intros Hk Hs. destruct s3; simpl; [|apply sext_u32; unfold in_swidth; lia].
  rewrite sext_wrap_wide by lia. apply sext_small; auto with lia.
Qed.

(** The digits approximate the ratio of a carrier [khz] kilohertz above [f]
    megahertz from below, by less than a unit of the last digit. *)
Definition divider_error (s3 : bool) (f selector khz q0 q1 q2 : Z) : Prop :=
  let D := divider_clock s3 selector in
  0 <= 65536 * (4 * (1000 * f + khz)) - (65536 * (32 + q0) + 256 * q1 + q2) * D < D.

Section Tune.
Variable s3 : bool.
Variable buf : Z.

Abbreviation wp' := (wp tuner_guard (tuner_reply buf)).

(** The modulator is programmed with digits that approximate the frequency. *)
Definition tuned_to (f selector khz : Z) (s s' : tuner) : Prop :=
  exists q0 q1 q2, sdm_log s' = sdm_log s ++ [(0, 7); (3, q0); (4, q1); (5, q2); (0, 23)] /\
    is_u8 q0 /\ is_u8 q1 /\ is_u8 q2 /\ divider_error s3 f selector khz q0 q1 q2.

Definition link_body (n : nat) (e : acc) : option (prog acc Z) :=
  match e with
  | Internal kind a => Some match n with O => Crash | S n' => Rfpll.linked s3 n' (Rfpll.internal s3 kind a) end
  | _ => None
  end.

Lemma linked_eq n p : Rfpll.linked s3 n p = link_with (link_body n) p.
Proof. by destruct n. Qed.

Lemma wpl_quiet_step {A} n (p : prog acc A) l sl s :
  (length l <= 16)%nat -> calls_only quiet_call p -> settled buf l sl s ->
  wpl tuner_guard (tuner_reply buf) (link_body n) p (fun _ s' => settled buf l sl s') s.
Proof.
  intros Hl Hp Hs. apply wpl_unlinked; [|by apply wp_quiet]. eapply calls_only_mono, Hp. by intros [] ?.
Qed.

Definition external_call (e : acc) : Prop := match e with Internal _ _ => False | _ => True end.

Lemma wp_unlinked n (p : prog acc Z) Q s : calls_only external_call p -> wp' p Q s -> wp' (Rfpll.linked s3 n p) Q s.
Proof.
  intros Hp Hw. rewrite linked_eq. apply wpl_sound, wpl_unlinked; [|done]. eapply calls_only_mono, Hp. by intros [].
Qed.

(** An internal call whose body leaves buffer and modulator alone. *)
Lemma wpl_quiet_call n kind a l sl s :
  (length l <= 16)%nat -> calls_only quiet_call (Rfpll.linked s3 n (Rfpll.internal s3 kind a)) -> settled buf l sl s ->
  wpl tuner_guard (tuner_reply buf) (link_body (S n)) (call (Internal kind a)) (fun _ s' => settled buf l sl s') s.
Proof. intros Hl Hq Hs. eapply wpl_call; [done|]. by apply wp_quiet. Qed.

Lemma wpl_discard_call {A} n kind a (p : prog acc A) (Q : tuner -> Prop) s :
  Rfpll.internal s3 kind a = Rfpll.discard p -> calls_only external_call p -> wp' p (fun _ => Q) s ->
  wpl tuner_guard (tuner_reply buf) (link_body (S n)) (call (Internal kind a)) (fun _ => Q) s.
Proof.
  intros Hi Hp Hw. eapply wpl_call; [done|]. rewrite Hi. apply wp_unlinked.
  - by apply calls_only_bind.
  - unfold Rfpll.discard. apply wp_bind. eapply wp_mono, Hw. done.
Qed.

Lemma frequency_external f selector offset b : calls_only external_call (Rfpll.frequency s3 f selector offset b).
Proof. unfold Rfpll.frequency. repeat calls_step; done. Qed.

Lemma sdm_external b : calls_only external_call (Rfpll.sdm s3 b).
Proof. unfold Rfpll.sdm, Rfpll.write_call, Rfpll.target. repeat calls_step; done. Qed.

Lemma set_spec n selector f offset s sl :
  (if s3 then is_u16 f else True) -> tunable s3 f offset -> settled buf [] sl s ->
  wpl tuner_guard (tuner_reply buf) (link_body (3 + n)) (Rfpll.set s3 selector f offset buf) (fun _ s' => exists q0 q1 q2,
    digits (divider_clock s3 selector) (dividend s3 f selector offset) = (q0, q1, q2) /\
    sdm_log s' = sl ++ [(0, 7); (3, q0); (4, q1); (5, q2); (0, 23)]) s.
Proof.
  intros Hf Ht Hs. unfold Rfpll.set. apply wpl_bind.
  eapply wpl_mono; [|apply wpl_quiet_step; [|apply quiet_write_call; done|exact Hs]; simpl; lia]. intros ? s1 Hs1. cbv beta.
  set (args := if s3 then _ else _). destruct args as [[selector' f'] offset'] eqn:Hargs.
  assert (tunable s3 f' offset' /\ divider_clock s3 selector' = divider_clock s3 selector /\
          dividend s3 f' selector' offset' = dividend s3 f selector offset) as (Ht' & HD & Hn).
  { subst args. destruct s3; simplify_eq; [|done].
    unfold tunable, dividend, divider_clock, Rfpll.clock, signed_offset in *.
    rewrite wrap_idem, short_signed, (wrap_small 16) by done. done. }
  apply wpl_bind. eapply wpl_mono; [|eapply wpl_discard_call; [done|apply frequency_external|apply (frequency_spec _ _ _ _ _ sl); [exact Ht'|exact Hs1]]].
  intros ? s2 (q0 & q1 & q2 & Hq & Hs2). cbv beta. rewrite HD, Hn in Hq. apply wpl_bind.
  eapply wpl_mono; [|eapply wpl_discard_call; [done|apply sdm_external|apply sdm_spec; exact Hs2]]. intros ? s3' Hs3. cbv beta.
  apply wpl_bind. eapply wpl_mono; [|apply wpl_quiet_call; [|apply quiet_restart|exact Hs3]; simpl; lia]. intros ? s4 Hs4.
  apply wpl_bind. eapply wpl_mono; [|apply wpl_quiet_call; [|apply quiet_wait|exact Hs4]; simpl; lia]. intros ? s5 Hs5.
  apply wpl_bind. eapply wpl_mono; [|apply wpl_quiet_step; [|apply quiet_external; done|exact Hs5]; simpl; lia]. intros ? s6 Hs6.
  eapply wpl_mono; [|apply wpl_quiet_call; [|apply quiet_init_cap|exact Hs6]; simpl; lia]. intros ? s7 [_ Hs7]. eauto.
Qed.

Lemma set_offset_spec selector f offset s :
  (if s3 then is_u16 f else True) -> tunable s3 f offset ->
  wp' (Rfpll.linked s3 4 (Rfpll.set_offset s3 selector f offset)) (fun _ s' => tuned_to f selector (signed_offset s3 offset) s s') s.
Proof.
  intros Hf Ht. rewrite linked_eq. apply wpl_sound. unfold Rfpll.set_offset. apply wpl_bind.
  apply wpl_unlinked; [by repeat calls_step|]. apply wp_call; [done|]. intros p s1 (Hlog & -> & Hm).
  set (sel' := Rfpll.byte_argument s3 selector). set (f' := if s3 then _ else _). set (o' := if s3 then _ else _).
  assert (f' = f /\ tunable s3 f o' /\ divider_clock s3 sel' = divider_clock s3 selector /\
          dividend s3 f sel' o' = dividend s3 f selector offset) as (-> & Ht' & HD & Hn).
  { subst f' o' sel'. destruct s3; [|done].
    unfold tunable, dividend, divider_clock, Rfpll.clock, Rfpll.byte_argument, signed_offset in *.
    rewrite wrap_idem, short_signed, (wrap_small 16) by done. done. }
  eapply wpl_call; [done|]. cbn [Rfpll.internal]. rewrite linked_eq. apply wpl_sound.
  unfold Rfpll.discard. apply wpl_bind.
  eapply wpl_mono; [|apply (set_spec 0 _ _ _ _ (sdm_log s)); [done|exact Ht'|]].
  - intros ? s2 (q0 & q1 & q2 & Hq & Hl). exists q0, q1, q2. rewrite HD, Hn in Hq.
    pose proof (divider_clock_range s3 selector). pose proof (dividend_range s3 f selector offset Ht).
    apply digits_spec in Hq as (? & ? & ? & He); [|lia..]. split_and!; try done.
    all: unfold dividend in He; unfold divider_error; lia.
  - split; [by intros ? ? ?|]. rewrite Hlog. apply app_nil_r.
Qed.

End Tune.


(** A ROM that answers 4 to everything: the PLL never locks. *)
Definition tuner_ref (buf : Z) (e : acc) (s : tuner) : Z * tuner :=
  let s' m := mkTuner m (sdm_log s ++ sdm_write e) in
  match e with
  | Read a w => (mem_read (bytes s) a w, s' (bytes s))
  | Write a w v => (0, s' (mem_write (bytes s) a w v))
  | Scratch _ => (buf, s' (bytes s))
  | _ => (4, s' (bytes s))
  end.


(** On the S3 an offset beyond 16 bits is taken modulo 65536: asking for 40 MHz
    above the carrier runs the call that asks for 25.536 MHz below it. *)
Lemma s3_offset_wraps selector f :
  Rfpll.set_offset true selector f 40000 = Rfpll.set_offset true selector f (u32 (-25536)).
Proof. reflexivity. Qed.

(** ** Capacitor calibration

    [cap_now] is the capacitor setting, [tried] the settings whose lock status
    was read and whether the loop was in the locking range.  [initial] is the
    setting the hardware reports first. *)
Record capper := mkCapper { cap_now : Z; tried : list (Z * bool) }.

Definition centred (status_word : Z) : bool := Z.land (Z.shiftr status_word 2) 3 =? 0.

Definition cap_reply (initial : Z) (e : acc) (s : capper) (x : Z) (s' : capper) : Prop :=
  match e with
  | Internal 6 [] => x = initial /\ s' = s
  | Internal 5 [v] | WriteCall _ [v] => s' = mkCapper v (tried s)
  | ReadCall _ [98; 1; 12] => s' = mkCapper (cap_now s) (tried s ++ [(cap_now s, centred x)])
  | _ => s' = s
  end.

(** The settings in the locking range. *)
Definition good (l : list (Z * bool)) : list Z := (filter (fun t => t.2 = true) l).*1.

Definition total (l : list Z) : Z := foldr Z.add 0 l.

Lemma good_app l l' : good (l ++ l') = good l ++ good l'.
Proof. unfold good. by rewrite filter_app, fmap_app. Qed.

Lemma total_app l l' : total (l ++ l') = total l + total l'.
Proof. unfold total. induction l as [|x l IH]; simpl; lia. Qed.

Lemma total_bounds lo hi l :
  Forall (fun c => lo <= c <= hi) l -> lo * Z.of_nat (length l) <= total l <= hi * Z.of_nat (length l).
Proof. unfold total. induction 1; simpl; lia. Qed.

Lemma good_Forall (P : Z -> Prop) l : Forall P l.*1 -> Forall P (good l).
Proof.
  unfold good. rewrite !Forall_fmap. rewrite !Forall_forall. intros Hl t Ht.
  apply list_elem_of_filter in Ht as [_ Ht]. by apply Hl.
Qed.

Lemma length_good l : (length (good l) <= length l)%nat.
Proof. unfold good. rewrite length_fmap. apply length_filter. Qed.

Section Caps.
Variable s3 : bool.
Variable initial : Z.

Abbreviation wpc := (wp no_guard (cap_reply initial)).

(** The counter and the sum agree with the settings tried. *)
Definition tally (cs : Z * Z) (l : list (Z * bool)) : Prop :=
  cs = (Z.of_nat (length (good l)), total (good l)).

Ltac run_calls := repeat first [wp_step; [done|]; intros ? ? Hr; simpl in Hr; destruct_and?; subst; cbv beta | wp_step].

Lemma wp_cap_write v (Q : unit -> capper -> Prop) s :
  Q tt (mkCapper v (tried s)) -> wpc (Rfpll.cap_write s3 v) Q s.
Proof.
  intros HQ. unfold Rfpll.cap_write, Rfpll.write_call, Rfpll.target. destruct s3; run_calls; done.
Qed.

Lemma wp_cap_status (Q : Z -> capper -> Prop) s :
  (forall st, Q st (mkCapper (cap_now s) (tried s ++ [(cap_now s, st =? 0)]))) -> wpc (Rfpll.status s3) Q s.
Proof. intros HQ. unfold Rfpll.status, Rfpll.read_call, Rfpll.target. run_calls. apply HQ. Qed.

Lemma wp_cap_delay us (Q : unit -> capper -> Prop) s : Q tt s -> wpc (Rfpll.delay us) Q s.
Proof. intros HQ. unfold Rfpll.delay, Rfpll.external. run_calls. done. Qed.

Lemma tally_app cs l c (b : bool) :
  tally cs l -> 0 <= total (good l) -> 0 <= c -> total (good l) + c < 65536 ->
  tally (if b then (cs.1 + 1, u16 (cs.2 + c)) else cs) (l ++ [(c, b)]).
Proof.
  unfold tally. intros -> ? ? ?. rewrite good_app, length_app, total_app. cbn [fst snd].
  destruct b; [change (good [(c, true)]) with [c]|change (good [(c, false)]) with (@nil Z)]; simpl.
  - rewrite (wrap_small 16) by (unfold in_width; lia). f_equal; lia.
  - f_equal; lia.
Qed.

(** The settings tried so far are in range and few. *)
Definition few (k : nat) (l : list (Z * bool)) : Prop :=
  Forall (fun c : Z => 0 <= c <= 521) l.*1 /\ (length l <= k)%nat.

Lemma few_total k l : (k <= 20)%nat -> few k l -> 0 <= total (good l) <= 10420.
Proof.
  intros Hk [Hf Hl]. pose proof (total_bounds 0 521 (good l) (good_Forall _ _ Hf)). pose proof (length_good l). lia.
Qed.

Lemma init_cap_try_spec k c cs l t0 s :
  (k < 20)%nat -> few k l -> 0 <= c <= 521 -> tally cs l -> tried s = t0 ++ l ->
  wpc (Rfpll.init_cap_try s3 c cs) (fun r s' => exists b,
    tried s' = t0 ++ l ++ [(c, b)] /\ few (S k) (l ++ [(c, b)]) /\
    match r with Next cs' | Break cs' => tally cs' (l ++ [(c, b)]) end) s.
Proof.
  intros Hk Hf Hc Ht Hs. pose proof (few_total k l ltac:(lia) Hf).
  assert (Hfew : forall b, few (S k) (l ++ [(c, b)])).
  { intros b. destruct Hf as [Hf Hl]. split; [|rewrite length_app; simpl; lia].
    rewrite fmap_app. apply Forall_app; split; [done|]. by apply Forall_singleton. }
  unfold Rfpll.init_cap_try. destruct cs as [count sum]. wp_step. apply wp_cap_write. wp_step. apply wp_cap_delay.
  wp_step. apply wp_cap_status. intros st. wp_step. cbn [tried cap_now]. exists (st =? 0).
  rewrite Hs, <- app_assoc. split_and!; [done|apply Hfew|].
  pose proof (tally_app (count, sum) l c (st =? 0) Ht) as Hta. cbn [fst snd] in Hta.
  destruct (st =? 0); [apply Hta; lia|]. destruct (negb (count =? 0)); apply Hta; lia.
Qed.

Lemma init_cap_pass_spec k pass cs l t0 s :
  9 <= initial <= 511 -> (k + 10 <= 20)%nat -> few k l -> tally cs l -> tried s = t0 ++ l -> pass ∈ [0; 1] ->
  wpc (for_loop (Rfpll.init_cap_pass initial pass) cs (Rfpll.init_cap_try s3)) (fun cs' s' => exists new,
    tried s' = t0 ++ l ++ new /\ new.*1 `prefix_of` Rfpll.init_cap_pass initial pass /\
    few (k + 10) (l ++ new) /\ tally cs' (l ++ new)) s.
Proof.
  intros Hi Hk Hf Ht Hs Hp. set (caps := Rfpll.init_cap_pass initial pass).
  assert (Hcaps : Forall (fun c => 0 <= c <= 521) caps /\ length caps = 10%nat).
  { unfold caps, Rfpll.init_cap_pass. split; [|by rewrite length_fmap]. apply Forall_fmap, Forall_seq. intros i ?.
    rewrite !elem_of_cons, elem_of_nil in Hp. unfold compose. destruct Hp as [-> | [-> |[]]]; simpl;
      rewrite (wrap_small 32) by (unfold in_width; lia); rewrite (wrap_small 16) by (unfold in_width; lia); lia. }
  apply (wp_for_loop _ _ (fun rest cs' s' => exists new,
    caps = new.*1 ++ rest /\ tried s' = t0 ++ l ++ new /\ few (k + length new) (l ++ new) /\ tally cs' (l ++ new))).
  - exists []. rewrite app_nil_r, Nat.add_0_r. done.
  - intros c rest cs' s' (new & Hc & Hs' & Hf' & Ht').
    assert (length new < 10)%nat by (destruct Hcaps as [_ Hl]; rewrite Hc, length_app, length_fmap in Hl; simpl in Hl; lia).
    eapply wp_mono; [|apply (init_cap_try_spec (k + length new)); [lia|exact Hf'| |exact Ht'|exact Hs']].
    2: { destruct Hcaps as [Hcaps _]. rewrite Hc in Hcaps. apply Forall_app in Hcaps as [_ Hcaps].
         by apply Forall_cons in Hcaps as [? _]. }
    intros r s2 (b & Hs2 & Hf2 & Ht2). rewrite <- !app_assoc in *.
    assert (few (k + length (new ++ [(c, b)])) (l ++ new ++ [(c, b)])) as Hf3.
    { rewrite length_app. simpl. by replace (k + (length new + 1))%nat with (S (k + length new))%nat by lia. }
    destruct r as [cs2|cs2]; exists (new ++ [(c, b)]); rewrite fmap_app; cbn [fmap list_fmap fst].
    + split_and!; try done. by rewrite <- app_assoc.
    + split_and!; try done.
      * exists rest. by rewrite <- app_assoc.
      * destruct Hf3 as [Hf3 Hl3]. split; [done|]. rewrite !length_app in *. simpl in *. lia.
  - intros cs' s' (new & Hc & Hs' & Hf' & Ht'). exists new. rewrite app_nil_r in Hc. split_and!; try done.
    + by rewrite Hc.
    + destruct Hcaps as [_ Hl]. rewrite Hc, length_fmap in Hl. by rewrite Hl in Hf'.
Qed.

Lemma init_cap_pass_values pass :
  9 <= initial <= 511 -> pass ∈ [0; 1] -> Rfpll.init_cap_pass initial pass =
    (fun i => if pass =? 0 then initial - Z.of_nat i else initial + 1 + Z.of_nat i) <$> seq 0 10.
Proof.
  intros Hi Hp. apply list_fmap_ext. intros j i [-> ?]%lookup_seq. rewrite !elem_of_cons, elem_of_nil in Hp.
  destruct Hp as [-> | [-> |[]]]; simpl;
    rewrite (wrap_small 32) by (unfold in_width; lia); rewrite (wrap_small 16) by (unfold in_width; lia); lia.
Qed.

(** What [init_cap] leaves behind. *)
Definition centred_at (s s' : capper) (x : Z) (down up : list (Z * bool)) : Prop :=
  tried s' = tried s ++ down ++ up /\
  down.*1 `prefix_of` (fun i => initial - Z.of_nat i) <$> seq 0 10 /\
  up.*1 `prefix_of` (fun i => initial + 1 + Z.of_nat i) <$> seq 0 10 /\
  let l := good (down ++ up) in
  cap_now s' = (if bool_decide (l = []) then initial else total l / Z.of_nat (length l)) /\
  initial - 9 <= cap_now s' <= initial + 10 /\
  x = initial * 65536 + cap_now s'.

Lemma prefix_range (f : nat -> Z) lo hi (l : list Z) :
  (forall i, (i < 10)%nat -> lo <= f i <= hi) -> l `prefix_of` f <$> seq 0 10 -> Forall (fun c => lo <= c <= hi) l.
Proof.
  intros Hf [k Hk]. assert (Forall (fun c => lo <= c <= hi) (f <$> seq 0 10)) as Hall.
  { apply Forall_fmap, Forall_seq. intros i Hi. apply Hf. lia. }
  rewrite Hk in Hall. by apply Forall_app in Hall as [? _].
Qed.

Lemma mean_range lo hi l :
  l <> [] -> Forall (fun c => lo <= c <= hi) l -> lo <= total l / Z.of_nat (length l) <= hi.
Proof.
  intros Hl Hf. pose proof (total_bounds lo hi l Hf). assert (0 < length l)%nat by (destruct l; simpl; [done|lia]).
  split; [apply Z.div_le_lower_bound; lia|].
  apply Z.lt_succ_r, Z.div_lt_upper_bound; lia.
Qed.

Lemma init_cap_spec s :
  9 <= initial <= 511 ->
  wpc (Rfpll.init_cap s3) (fun x s' => exists down up, centred_at s s' x down up) s.
Proof.
  intros Hi. unfold Rfpll.init_cap, Rfpll.write_call, Rfpll.target. run_calls.
  cbn [for_loop]. wp_step. wp_step.
  eapply wp_mono; [|apply (init_cap_pass_spec 0 0 (0, 0) [] (tried s)); first [lia | done | by split | by rewrite app_nil_r | set_solver]].
  intros cs1 s1 (down & Hs1 & Hd & Hf1 & Ht1). cbv beta. wp_step. cbv iota beta. do 2 wp_step.
  eapply wp_mono; [|apply (init_cap_pass_spec 10 1 cs1 down (tried s)); first [lia | done | set_solver]].
  intros cs2 s2 (up & Hs2 & Hu & Hf2 & Ht2). cbv beta. wp_step. cbv iota beta. wp_step. unfold tally in Ht2. subst cs2.
  rewrite !init_cap_pass_values in Hd, Hu by (done || set_solver). cbv beta iota delta [Z.eqb Pos.eqb] in Hd, Hu.
  set (l := good (down ++ up)) in *.
  assert (Forall (fun c => initial - 9 <= c <= initial + 10) l) as Hl.
  { apply good_Forall. rewrite fmap_app. apply Forall_app; split;
      (eapply prefix_range; [|eassumption]; intros i ?; simpl; lia). }
  set (cap := if Z.of_nat (length l) =? 0 then initial else total l / Z.of_nat (length l)).
  assert (cap = (if bool_decide (l = []) then initial else total l / Z.of_nat (length l)) /\ initial - 9 <= cap <= initial + 10)
    as [Hcap Hrange].
  { unfold cap. destruct l as [|c l']; [simpl; split; [done|lia]|]. rewrite bool_decide_false by done.
    rewrite (proj2 (Z.eqb_neq _ _)) by (simpl; lia). split; [done|]. by apply mean_range. }
  wp_step. apply wp_cap_write. wp_step. apply wp_cap_delay. wp_step.
  exists down, up. split_and!; simpl; try done.
  rewrite Z.shiftl_mul_pow2 by lia. rewrite (wrap_small 32) by (unfold in_width; lia).
  by rewrite lor_disjoint_add by lia.
Qed.

End Caps.

(** Centring the capacitor.  Whatever lock states the hardware reports,
    [init_cap] returns.  It tries a prefix of the ten settings from the initial
    one downwards and a prefix of the ten settings above it, at most twenty in
    all; it leaves the capacitor at the mean, rounded down, of the settings in
    the locking range, or at the initial setting if there is none, in any case
    within the range it searched; and it returns the initial and the chosen
    setting.  The 16-bit sum does not overflow. *)
Theorem init_cap_centres s3 initial h s :
  9 <= initial <= 511 -> obeys_contract no_guard (cap_reply initial) h ->
  exists x s' down up, exec h (Rfpll.init_cap s3) s = Some (x, s') /\
    tried s' = tried s ++ down ++ up /\
    down.*1 `prefix_of` (fun i => initial - Z.of_nat i) <$> seq 0 10 /\
    up.*1 `prefix_of` (fun i => initial + 1 + Z.of_nat i) <$> seq 0 10 /\
    let l := good (down ++ up) in
    cap_now s' = (if bool_decide (l = []) then initial else total l / Z.of_nat (length l)) /\
    initial - 9 <= cap_now s' <= initial + 10 /\
    x = initial * 65536 + cap_now s'.
Proof.
  intros Hi Hh. destruct (exec_wp _ _ h _ _ s Hh (init_cap_spec s3 initial s Hi)) as (x & s' & He & down & up & Hc).
  exists x, s', down, up. by split.
Qed.

(** The loop locks from 98 to 104. *)
Definition cap_ref (initial : Z) (e : acc) (s : capper) : Z * capper :=
  match e with
  | Internal 6 [] => (initial, s)
  | Internal 5 [v] | WriteCall _ [v] => (0, mkCapper v (tried s))
  | ReadCall _ [98; 1; 12] =>
      let x := if (98 <=? cap_now s) && (cap_now s <=? 104) then 0 else 4 in
      (x, mkCapper (cap_now s) (tried s ++ [(cap_now s, centred x)]))
  | _ => (0, s)
  end.

Lemma init_cap_centres_witness : 9 <= 100 <= 511 /\ exists x s' down up,
  exec (cap_ref 100) (Rfpll.init_cap true) (mkCapper 0 []) = Some (x, s') /\ cap_now s' = 101 /\
  tried s' = down ++ up.
Proof.
  split; [lia|]. destruct (init_cap_centres true 100 (cap_ref 100) (mkCapper 0 [])) as (x & s' & down & up & He & Ht & _).
  - lia.
  - intros e s _. unfold cap_reply, cap_ref. destruct e; repeat case_match; done.
  - exists x, s', down, up. split_and!; [exact He| |exact Ht].
    apply (f_equal (fun o => match o with Some (_, c) => cap_now c | None => 0 end)) in He.
    rewrite <- He. vm_compute. reflexivity.
Defined.

(** ** The channel switch protocol

    [lock_step] watches the calls of a channel switch: the PHY lock is taken
    once and released once with the token it returned; the parameter block is
    written, the synthesizer retuned and the gain tables changed only under
    the lock; the receive gain tables, the channel 14 filter and the 802.11p
    mode are changed only while transmitter and receiver are forced off; and
    they are on again when the lock is released.  [slot_now] is the table slot
    that was resolved last. *)
Record lock_state := mkLock { slot_now : Z; lock : option Z; forced_off : bool }.

Definition when (b : bool) (s : lock_state) : option lock_state := if b then Some s else None.

Definition locked (s : lock_state) : bool := bool_decide (is_Some (lock s)).

Definition lock_step (s3 : bool) (e : acc) (x : Z) (s : lock_state) : option lock_state :=
  match e with
  | Slot _ o => Some (mkLock o (lock s) (forced_off s))
  | ReadCall _ _ =>
      if slot_now s =? Rfpll.ENTER s3
      then when (negb (locked s)) (mkLock (slot_now s) (Some x) (forced_off s)) else Some s
  | WriteCall _ args =>
      if slot_now s =? Rfpll.EXIT s3
      then when (bool_decide (args = from_option (fun t => [t]) [] (lock s)) && locked s && negb (forced_off s))
             (mkLock (slot_now s) None false)
      else when (locked s) s
  | Write _ _ _ => when (locked s) s
  | Internal 11 _ => when (locked s) s
  | Internal _ _ => when (locked s && forced_off s) s
  | External 6 [1] => when (locked s && negb (forced_off s)) (mkLock (slot_now s) (lock s) true)
  | External 6 [0] => when (locked s && forced_off s) (mkLock (slot_now s) (lock s) false)
  | External 10 _ => when (locked s) s
  | External _ _ => when (locked s && forced_off s) s
  | _ => Some s
  end.

Definition any_answer (e : acc) (x : Z) : Prop := True.

Definition unlocked (s : lock_state) : Prop := lock s = None /\ forced_off s = false.

Lemma exit_step s3 t token x :
  lock_step s3 (WriteCall t [token]) x (mkLock (Rfpll.EXIT s3) (Some token) false) = Some (mkLock (Rfpll.EXIT s3) None false).
Proof. unfold lock_step. cbn [slot_now lock forced_off]. rewrite Z.eqb_refl, bool_decide_true by done. done. Qed.

Ltac lock_run :=
  repeat
    (cbv beta iota;
     lazymatch goal with
     | |- wp _ _ (call (WriteCall _ [?t])) _ (mkLock (Rfpll.EXIT _) _ _) =>
         apply wp_step_call; intros ? _; eexists; split; [apply exit_step|]
     | |- wp _ _ (call _) _ _ =>
         apply wp_step_call; intros ? _; eexists; split; [reflexivity|cbn [slot_now lock forced_off]]
     | |- wp _ _ (if ?b then _ else _) _ _ => destruct b
     | |- wp _ _ _ _ _ => wp_step
     end).

(** Switching channels in hardware.  Whatever the environment answers,
    [channel] and [channel_offset] return and follow the protocol: the lock is
    taken first and released last, with its own token; every store to the PHY
    parameters and every retuning happens under the lock, and the tables are
    changed only while transmitter and receiver are off, which are on again at
    the end. *)
Theorem channel_protocol s3 s :
  unlocked s ->
  (forall channel mode, respects (lock_step s3) any_answer (Rfpll.channel s3 channel mode) s (fun _ => unlocked)) /\
  (forall offset, respects (lock_step s3) any_answer (Rfpll.channel_offset s3 offset) s (fun _ => unlocked)).
Proof.
  intros [Hl Ho]. destruct s as [slot l o]. simpl in Hl, Ho. subst l o. split.
  - intros channel mode. apply wp_respects. unfold Rfpll.channel, Rfpll.channel_begin, Rfpll.channel_c3,
      Rfpll.read_call, Rfpll.write_call, Rfpll.target, Rfpll.external, Rfpll.read, Rfpll.write.
    destruct s3; lock_run; split; reflexivity.
  - intros offset. apply wp_respects. unfold Rfpll.channel_offset,
      Rfpll.read_call, Rfpll.write_call, Rfpll.target, Rfpll.external, Rfpll.read, Rfpll.write.
    destruct s3; lock_run; split; reflexivity.
Qed.

Lemma channel_protocol_witness :
  unlocked (mkLock 0 None false) /\
  respects (lock_step false) any_answer (Rfpll.channel false 6 0) (mkLock 0 None false) (fun _ => unlocked).
Proof.
  exact (conj (conj eq_refl eq_refl)
           (proj1 (channel_protocol false (mkLock 0 None false) (conj eq_refl eq_refl)) 6 0)).
Defined.
