(* ===== verification/PhyTxGain.v ===== *)
(** * Transmit gain tables and programming ([phy_tx_gain.rs])

    [acc] is the trait [Access] of the module, [s3] its constant [S3].  An
    argument slice [&[usize]] is a list, matched to the arguments the original
    routine takes; a list of another length cannot be built and panics.
    Addresses do not wrap. *)

From S2P Require Import Prelude Program.

Module TxGain.

Inductive acc :=
| Param
| Global (kind : Z)
| Read (address width : Z)
| Write (address width value : Z)
| Table
| Slot (table offset : Z)
| Call (target : Z) (args : list Z) (returns : bool)
| External (kind : Z) (args : list Z)
| Log (kind : Z) (args : list Z)
| Local (tag size : Z)
| Copy (destination offset size : Z)
| Child (kind : Z) (args : list Z).

Section TxGain.
Variable s3 : bool.

Definition byte (v : Z) : Z := if s3 then u8 v else v.
Definition sb (v : Z) : Z := i8 v.
Definition sh (v : Z) : Z := i16 v.

Definition target (offset : Z) : prog acc Z := t ← call Table; call (Slot t offset).

Definition read := fun a w => call (Read a w).
Definition write (a w v : Z) : prog acc unit := call (Write a w v) ;; mret tt.

Definition digital (input : Z) : prog acc unit :=
  p ← call Param;
  b ← call (Local 0 16);
  for_all (range 0 14) (fun i =>
    x ← read (input + i) 1;
    y ← read (p + i) 1;
    write (b + i) 1 (u32 (x + y))) ;;
  for_all (range 0 2) (fun i =>
    x ← read (b + i) 1;
    write (b + i) 1 (x + (if s3 then 3 else 4))) ;;
  for_all (range 10 14) (fun i =>
    x ← read (b + i) 1;
    write (b + i) 1 (x + (if s3 then 3 else 2))) ;;
  if s3 then call (Child 12 [b]) ;; mret tt
  else
    for_all (range 0 3) (fun i =>
      word ← read (b + i * 4) 4;
      write (0x60006024 + i * 4) 4 word) ;;
    h ← read (b + 13) 1;
    let high := u32 (sb h) in
    low ← read (b + 12) 1;
    write 0x60006030 4
      (Z.lor (Z.lor (Z.lor low (u32 (Z.shiftl high 24))) (Z.land (u32 (Z.shiftl high 16)) 0x00ff0000))
         (Z.land (u32 (Z.shiftl high 8)) 65535)).

(** The value between two calibration points, 25 channels apart. *)
Definition interpolation (left_ right_ channel origin bias : Z) : Z :=
  let product := i32 (i32 (sb right_ - sb left_) * i32 (u32 (channel - origin))) in
  i32 (Z.quot (i32 (product + bias)) 25 + sb left_).

Definition interpolate (input channel : Z) : prog acc Z :=
  let channel := byte channel in
  '(left_, right_, origin, bias) ←
    (if s3 then
       if channel <=? 37 then
         left_ ← read input 1;
         right_ ← read (input + 1) 1;
         mret (left_, right_, 12, if channel <=? 12 then -12 else 12)
       else
         left_ ← read (input + 1) 1;
         right_ ← read (input + 2) 1;
         mret (left_, right_, 37, 12)
     else
       middle ← read (input + 1) 1;
       if channel <=? 37 then
         left_ ← read input 1;
         mret (left_, middle, 12, if channel <=? 12 then -12 else 12)
       else
         right_ ← read (input + 2) 1;
         mret (middle, right_, 37, 12));
  let result := interpolation left_ right_ channel origin bias in
  mret (if s3 then u8 result else u32 (i8 result)).

Definition fcc (a : list Z) : prog acc unit :=
  match a with
  | [a0; a1; a2; a3] =>
      let channel := byte a0 in
      let p := u32 (a2 + channel) in
      first ← read (u32 (p - 1)) 1;
      second ← read (p + 13) 1;
      third ← read (p + 27) 1;
      let index := if Z.land (u32 (channel - 3)) 255 <=? 8 then u32 (channel - 3)
                   else if channel <? 3 then 0 else 8 in
      fourth ← read (u32 (a3 + index)) 1;
      for_all (zip (range 0 4) [first; second; third; fourth]) (fun '(i, value) =>
        write (a1 + i) 1 (Z.min value (if s3 then 100 else 82)))
  | _ => Crash
  end.

(** The group of the four limits a rate index belongs to. *)
Definition limit_group (i : Z) : nat := if i <? 2 then 0 else if i <? 6 then 1 else if i <? 10 then 2 else 3.

(** Read [n] bytes of a buffer, upwards. *)
Fixpoint read_bytes (b : Z) (l : list Z) : prog acc (list Z) :=
  match l with
  | [] => mret []
  | i :: l' => v ← read (b + i) 1; vs ← read_bytes b l'; mret (v :: vs)
  end.

(** One entry of the output of [limits]. *)
Definition limit_entry (p cap out inp : Z) (values : list Z) (i : Z) : prog acc unit :=
  input ← read (inp + i) 1;
  write (out + i) 1 input ;;
  let value := nth (limit_group i) values 0 in
  value ← (if s3 then mret value else v ← read (p + 0x217) 1; mret (sb (u32 (value - v))));
  (if value <? sb input then write (out + i) 1 (u32 value) else mret tt) ;;
  o ← read (out + i) 1;
  let output := sb o in
  if s3 || (cap <? output) then write (out + i) 1 (u32 (Z.min cap output)) else mret tt.

Definition limits (a : list Z) : prog acc unit :=
  match a with
  | [a0; a1; a2; a3; a4; a5; a6] =>
      b ← call (Local 1 4);
      call (Copy b 0 4) ;;
      (if byte a4 =? 1 then
         let args := [byte a0; b; a5; a6] in
         if s3 then call (Child 2 args) ;; mret tt
         else t ← target 0x128; call (Call t args false) ;; mret tt
       else mret tt) ;;
      values ← (if s3 then read_bytes b [0; 1; 2; 3]
                else vs ← read_bytes b [3; 2; 1; 0]; mret (reverse vs));
      let cap := if s3 then sb a1 else i32 a1 in
      p ← call Param;
      for_all (range 0 14) (limit_entry p cap a2 a3 values)
  | _ => Crash
  end.

(** The C3 scan of [lookup].  A count above 255 can make it run forever; the
    counts passed are 14 and 18. *)
Fixpoint lookup_scan (fuel : nat) (requested thresholds count scan : Z) : prog acc Z :=
  match fuel with
  | O => Crash
  | S fuel' =>
      let i := Z.land scan 255 in
      if count <=? i then mret (Z.land (u32 (count - 1)) 255) else
      let scan := u32 (scan + 1) in
      t ← read (u32 (thresholds + u32 (u32 (scan - 1) * 2))) 2;
      if sh t <=? i32 requested then mret i
      else lookup_scan fuel' requested thresholds count scan
  end.

(** The S3 walk of [lookup] from the previous index. *)
Fixpoint lookup_walk (fuel : nat) (requested thresholds count index iterations : Z) : prog acc Z :=
  match fuel with
  | O => Crash
  | S fuel' =>
      if iterations =? count then mret index else
      t ← read (thresholds + index * 2) 2;
      if sh t <=? requested then
        if index =? 0 then mret index else
        previous ← read (thresholds + index * 2 - 2) 2;
        if requested <? sh previous then mret index
        else lookup_walk fuel' requested thresholds count (Z.land (u32 (index - 1)) 255) (Z.land (iterations + 1) 255)
      else
        if index =? u32 (count - 1) then mret index else
        next ← read (thresholds + index * 2 + 2) 2;
        let index := Z.land (index + 1) 255 in
        if sh next <=? requested then mret index
        else lookup_walk fuel' requested thresholds count index (Z.land (iterations + 1) 255)
  end.

Definition lookup (a : list Z) : prog acc Z :=
  if negb s3 then
    match a with
    | [a0; a1; a2; a3; a4; a5; a6; a7] =>
        index ← lookup_scan 257 a0 a6 a7 0;
        code ← read (a4 + index) 1;
        write a1 1 code ;;
        value ← read (a5 + index * 2) 2;
        write a2 2 value ;;
        threshold ← read (a6 + index * 2) 2;
        write a3 2 (u32 (a0 - threshold)) ;;
        mret 0
    | _ => Crash
    end
  else
    match a with
    | [a0; a1; a2; a3; a4; a5; a6; a7; a8; a9; a10] =>
        let requested := sh a2 in
        let adjustment := sh a1 in
        index ← lookup_walk 256 requested a8 (u8 a9) (u8 a0) 0;
        threshold ← read (a8 + index * 2) 2;
        let difference := sh (u32 (u32 requested - threshold)) in
        write a5 2 (u32 difference) ;;
        let index := if (sb a10 <? difference + adjustment) && negb (index =? 0)
                     then Z.land (u32 (index - 1)) 255 else index in
        threshold ← read (a8 + index * 2) 2;
        write a5 2 (u32 (u32 requested - threshold)) ;;
        code ← read (a6 + index) 1;
        write a3 1 code ;;
        value ← read (a7 + index * 2) 2;
        write a4 2 value ;;
        mret index
    | _ => Crash
    end.

(** The loop of [dig_check]; it leaves at the latest when the index has grown
    by four. *)
Fixpoint dig_loop (fuel : nat) (end_ index current : Z) : prog acc (Z * Z) :=
  match fuel with
  | O => Crash
  | S fuel' =>
      if (index <? 4) && (Z.land (Z.lor current (u32 (current - 1))) 128 =? 0) then
        let index := Z.land (u32 (index + 1)) 255 in
        let current := Z.land (u32 (current - 8)) 255 in
        if index =? end_ then mret (index, current) else dig_loop fuel' end_ index current
      else mret (index, current)
  end.

(** Only built for the S3. *)
Definition dig_check (value gain : Z) : prog acc unit :=
  input ← read value 2;
  table ← call Table;
  current ← read gain 1;
  s ← call (Slot table 0xdc);
  index ← call (Call s [input] true);
  '(index, current) ← dig_loop 5 (Z.land (u32 (index + 4)) 255) index current;
  t ← target 0xe0;
  output ← call (Call t [index] true);
  write value 2 output ;;
  write gain 2 (u32 (sb current)).

(** One step of [bt_get]; the state is [level, index]. *)
Definition bt_get_step (a0 codes values thresholds out_gain out_code : Z) (logging b delta step : Z)
    (i : Z) (s : Z * Z) : prog acc (Z * Z) :=
  let '(level, index) := s in
  t ← target 0x28;
  power ← call (Call t [u32 (sh level); 80; u32 (-96)] true);
  v ← read (a0 + 1) 1;
  let input := u16 (sb v) in
  let requested := sh (u32 (u32 delta + power)) in
  index ← (if s3
           then call (Child 4 [index; u32 (sh (u32 (0 - input))); u32 requested; b; b + 4; b + 8;
                               codes; values; thresholds; 14; u32 (-8)])
           else call (Child 4 [u32 requested; b; b + 4; b + 8; codes; values; thresholds; 14]) ;; mret index);
  '(difference, code) ← (if s3 then d ← read (b + 8) 2; c ← read b 1; mret (d, c)
                         else c ← read b 1; d ← read (b + 8) 2; mret (d, c));
  let gain := sh (u32 (difference - input)) in
  let gain := if s3 then gain else Z.min gain 24 in
  let gain := Z.max gain (-64) in
  write (out_code + i) 1 code ;;
  write (out_gain + i) 1 (u32 gain) ;;
  (if negb (u8 logging =? 0) then
     code ← read (out_code + i) 1;
     call (Log 0 [i; code; u32 (sb (u32 gain)); u32 (sh difference); u32 (sh power); u32 requested]) ;; mret tt
   else mret tt) ;;
  mret (Z.land (u32 (level + step)) 65535, index).

Definition bt_get (a : list Z) : prog acc unit :=
  match a with
  | [a0; a1; a2; a3; a4; a5; a6; a7; a8; a9; a10] =>
      b ← call (Local 2 16);
      let delta := if s3 then sb a2 - sb a1 else i32 (i32 a2 - i32 a1) in
      let level := u16 (i8 a8) in
      let step := u16 (sb a9 * 4) in
      for_each_with (range 0 16) (level, 0) (bt_get_step a0 a3 a4 a5 a6 a7 a10 b delta step) ;; mret tt
  | _ => Crash
  end.

(** One rate of [wifi_get]; the state is [power, index]. *)
Definition wifi_get_step (a : list Z) (b : Z) (i : Z) (s : Z * Z) : prog acc (Z * Z) :=
  match a with
  | [a0; a1; a2; a3; a4; a5; a6; a7; a8; a9; a10; a11; a12] =>
      let '(power, index) := s in
      power ← (if s3 then mret power else t ← target 0x110; call (Call t [a1; a0] true));
      v ← read (a2 + i) 1;
      let input := sb v in
      let delta := if s3 then input - sb a3 + sb a4 else i32 (i32 (input - i32 a3) + i32 a4) in
      let requested := if s3 then delta else sh (u32 delta) in
      if s3 then
        index ← call (Child 4 [index; u32 (sh (u32 (0 - power))); u32 requested; b; b + 4; b + 8; a5; a6; a7; 18; 0]);
        difference ← read (b + 8) 2;
        let gain := sh (u32 (difference - power)) in
        write (b + 12) 2 (u32 gain) ;;
        (if 0 <? gain then call (Child 11 [b + 4; b + 12]) ;; mret tt else mret tt) ;;
        gain ← read (b + 12) 2;
        write (a8 + i) 1 gain ;;
        value ← read (b + 4) 2;
        code ← read b 1;
        write (a9 + i * 2) 2 value ;;
        write (a10 + i) 1 code ;;
        (if negb (u8 a12 =? 0) then
           gain ← read (a8 + i) 1;
           value ← read (a9 + i * 2) 2;
           input ← read (a2 + i) 1;
           difference ← read (b + 8) 2;
           call (Log 1 [i; code; value; u32 (sb gain); u32 (sh difference); u32 (sb input); u32 requested]) ;; mret tt
         else mret tt) ;;
        mret (power, index)
      else
        call (Child 4 [u32 requested; b; b + 4; b + 8; a5; a6; a7; 18]) ;;
        d ← read (b + 8) 2;
        let difference := sh d in
        value ← read (b + 4) 2;
        write (a9 + i * 2) 2 value ;;
        code ← read b 1;
        write (a10 + i) 1 code ;;
        let gain := Z.max (-80) (Z.min 24 (sh (u32 (u32 difference - power)))) in
        write (a8 + i) 1 (u32 gain) ;;
        (if negb (u8 a12 =? 0) then
           input ← read (a2 + i) 1;
           value ← read (a9 + i * 2) 2;
           code ← read (a10 + i) 1;
           call (Log 1 [i; code; value; u32 gain; u32 difference; u32 (sb input); u32 requested]) ;; mret tt
         else mret tt) ;;
        mret (power, index)
  | _ => Crash
  end.

Definition wifi_get (a : list Z) : prog acc unit :=
  match a with
  | [a0; a1; a2; a3; a4; a5; a6; a7; a8; a9; a10; a11; a12] =>
      b ← call (Local 3 16);
      power ← (if s3 then t ← target 0xfc; v ← call (Call t [a1; u8 a0] true); mret (u16 (sb v)) else mret 0);
      for_each_with (range 0 14) (power, 0) (wifi_get_step a b) ;; mret tt
  | _ => Crash
  end.

(** The last part of [wifi_set], from the argument array on. *)
Definition wifi_set_program (p b channel logging delta : Z) : prog acc unit :=
  let args (base gain : Z) :=
    [byte channel; base; b + 32; gain; u32 delta; p + 14; p + 32; p + 68; p + 0x1ba; p + 0x1c8; p + 0x1e4; p; byte logging] in
  if s3 then
    alternate ← read (p + 0x2c8) 1;
    '(table, args) ← (if alternate =? 1 then
                        table ← call Table;
                        g ← read (p + 0x2c9) 1;
                        mret (table, args (p + 0x2ca) (u32 (sb g)))
                      else
                        g ← read (p + 0x175) 1;
                        table ← call Table;
                        mret (table, args (p + 0x16f) (u32 (sb g))));
    s ← call (Slot table 0x228);
    call (Call s args false) ;;
    t ← target 0x210;
    call (Call t [0; 14; p + 0x1e4; p + 0x1c8; p + 0x124; p + 0x14c] false) ;;
    t ← target 0x224;
    call (Call t [p + 0x1ba] false) ;; mret tt
  else
    g ← read (p + 0x175) 1;
    call (Child 6 (args (p + 0x16f) (u32 (sb g)))) ;;
    call (External 0 [0; 14; p + 0x1e4; p + 0x1c8; p + 0x124; p + 0x14c]) ;;
    call (Child 0 [p + 0x1ba]) ;; mret tt.

Definition wifi_set (channel logging : Z) : prog acc unit :=
  p ← call Param;
  b ← call (Local 4 48);
  if s3 then
    disabled ← read (p + 0x99) 1;
    if negb (disabled =? 0) then mret tt else
    first ← read (p + 0x1fb) 1;
    second ← read (p + 0x9a) 1;
    c ← read (p + 0x98) 1;
    let cap := sb c in
    let delta := sb (u32 (first - second)) in
    mode ← read (p + 0x104) 1;
    g ← call (Global 0);
    call (Child 3 [u8 channel; u32 cap; b + 32; p + 0xf4; mode; g; p + 0x105]) ;;
    wifi_set_program p b channel logging delta
  else
    f ← read (p + 0x1fb) 1;
    s ← read (p + 0x9a) 1;
    let delta := sb (u32 (i32 (sb f - sb s))) in
    for_all (range 0 14) (fun i =>
      v ← read (p + 0xf4 + i) 1;
      write (b + i) 1 v) ;;
    disabled ← read (p + 0x99) 1;
    if negb (disabled =? 0) then mret tt else
    mode ← read (p + 0x104) 1;
    c ← read (p + 0x98) 1;
    let cap := sb c in
    g ← call (Global 0);
    call (Child 3 [channel; u32 cap; b + 32; b; mode; g; p + 0x105]) ;;
    wifi_set_program p b channel logging delta.

Definition bt_set (logging : Z) : prog acc unit :=
  p ← call Param;
  '(table, first, second) ←
    (if s3 then
       table ← call Table; first ← read (p + 0x1fc) 1; second ← read (p + 0x9a) 1; mret (table, first, second)
     else second ← read (p + 0x9a) 1; first ← read (p + 0x1fc) 1; mret (0, first, second));
  g ← read (p + 0x17c) 1;
  let args := [p + 0x179; u32 (sb g); u32 (sb (u32 (first - second))); p + 0x68; p + 32; p + 0x76; p + 0x1aa;
               p + 0x19a; u32 (-96); 3; byte logging] in
  (if s3 then s ← call (Slot table 0x218); call (Call s args false) ;; mret tt
   else call (Child 5 args) ;; mret tt) ;;
  let args := [1; 16; p + 0x19a; p + 0x17e; p + 0x182; p + 0x180] in
  if s3 then
    t ← target 0x210;
    call (Call t args false) ;;
    t ← target 0x214;
    call (Call t [p + 0x1aa] false) ;; mret tt
  else
    call (External 0 args) ;;
    call (External 1 [p + 0x1aa]) ;; mret tt.

Definition bt_initialize : prog acc unit :=
  call (External 2 []) ;;
  call (External 3 []) ;;
  call (External 4 []) ;;
  (if s3 then t ← target 0x270; call (Call t [0] false) ;; mret tt
   else call (Child 8 [0]) ;; mret tt) ;;
  p ← call Param;
  call (External 5 [p + 0x179]) ;; mret tt.

(** The private copy of the calibration constants. *)
Definition calibration_scratch (b : Z) : prog acc unit :=
  call (Copy b 4 18) ;;
  if s3 then
    call (Copy (b + 24) 22 36) ;;
    call (Copy (b + 64) 58 36) ;;
    call (Copy (b + 104) 94 36) ;;
    for_all (range 0 18) (fun i => write (b + 144 + i * 2) 2 0) ;;
    write (b + 144) 2 32 ;;
    write (b + 146) 2 256 ;;
    write (b + 148) 2 128 ;;
    call (Copy (b + 184) 130 36) ;; mret tt
  else
    for_all (range 0 8) (fun i => write (b + 28 + i * 4) 4 0) ;;
    write (b + 24) 4 0x00800100 ;;
    call (Copy (b + 64) 24 36) ;;
    call (Copy (b + 104) 60 14) ;;
    call (Copy (b + 120) 76 28) ;; mret tt.

Definition calibration_tables : prog acc unit :=
  b ← call (Local 5 224);
  calibration_scratch b ;;
  p ← call Param;
  alternate ← (if s3 then read (p + 0x20d) 1 else mret 0);
  let alt := alternate =? 1 in
  for_all (range 0 18) (fun i =>
    code ← read (if alt then b + 104 + i * 2 else b + i) 1;
    write (p + 14 + i) 1 code ;;
    value ← read (if alt then b + 144 + i * 2 else b + 24 + i * 2) 2;
    write (p + 32 + i * 2) 2 value ;;
    threshold ← read (if alt then b + 184 + i * 2 else b + 64 + i * 2) 2;
    write (p + 68 + i * 2) 2 threshold ;;
    if s3 then mret tt else
    reference ← read (p + 0x4e) 2;
    write (p + 68 + i * 2) 2 (u32 (threshold - reference))) ;;
  if s3 then
    let index := if alt then 6 else 8 in
    write (p + 0x20c) 1 index ;;
    r ← read (p + 68 + index * 2) 2;
    let reference := sh r in
    for_all (range 0 18) (fun i =>
      threshold ← read (p + 68 + i * 2) 2;
      write (p + 68 + i * 2) 2 (u32 (threshold - u32 reference)))
  else
    write (p + 0xa3) 1 5 ;;
    for_all (range 0 14) (fun i =>
      code ← read (b + 104 + i) 1;
      write (p + 0x68 + i) 1 code ;;
      threshold ← read (b + 120 + i * 2) 2;
      write (p + 0x76 + i * 2) 2 threshold ;;
      reference ← read (p + 0x80) 2;
      write (p + 0x76 + i * 2) 2 (u32 (threshold - reference))) ;;
    write (p + 0xa4) 1 5.

End TxGain.

(** The constants [Access::copy] copies from. *)
Definition CONSTANTS_C3 : list Z :=
  [82; 82; 82; 82; 127; 127; 127; 111; 95; 79; 119; 87; 115; 83; 53; 35; 19; 18; 48; 32; 16; 0; 0;
   0; 32; 0; 24; 0; 16; 0; 12; 0; 6; 0; 0; 0; 249; 255; 240; 255; 226; 255; 215; 255; 203; 255;
   193; 255; 178; 255; 169; 255; 157; 255; 146; 255; 132; 255; 108; 255; 127; 111; 95; 79; 63; 47;
   31; 15; 11; 7; 3; 2; 1; 0; 0; 0; 32; 0; 29; 0; 23; 0; 17; 0; 9; 0; 0; 0; 242; 255; 219; 255;
   209; 255; 194; 255; 170; 255; 161; 255; 148; 255; 124; 255].

Definition CONSTANTS_S3 : list Z :=
  [100; 100; 100; 100; 127; 127; 127; 127; 127; 111; 95; 107; 119; 87; 115; 82; 81; 49; 48; 32;
   16; 0; 160; 0; 32; 0; 0; 1; 128; 0; 0; 0; 0; 0; 0; 0; 0; 0; 0; 0; 0; 0; 0; 0; 0; 0; 0; 0; 0; 0;
   0; 0; 0; 0; 0; 0; 0; 0; 48; 0; 40; 0; 32; 0; 24; 0; 16; 0; 12; 0; 6; 0; 0; 0; 249; 255; 240;
   255; 226; 255; 203; 255; 193; 255; 178; 255; 157; 255; 146; 255; 132; 255; 108; 255; 127; 0;
   127; 0; 127; 0; 127; 0; 111; 0; 95; 0; 79; 0; 75; 0; 71; 0; 55; 0; 54; 0; 67; 0; 51; 0; 50; 0;
   19; 0; 6; 0; 3; 0; 2; 0; 40; 0; 32; 0; 24; 0; 16; 0; 12; 0; 6; 0; 0; 0; 246; 255; 232; 255;
   225; 255; 216; 255; 209; 255; 201; 255; 192; 255; 177; 255; 168; 255; 153; 255; 144; 255].

Definition CONSTANTS (s3 : bool) : list Z := if s3 then CONSTANTS_S3 else CONSTANTS_C3.

End TxGain.
