(* ===== verification/PhyTxGainSpec.v ===== *)
(** * Correctness of the transmit gain tables

    The two gain searches, a scan on the C3 and a walk from the previous index
    on the S3, find the same entry; the power limits are the minimum of what
    each rate is subject to; interpolation stays between its calibration
    points. *)

From S2P Require Import Prelude Program PhyTxGain.
Import TxGain.

(** ** Memory

    The environment: memory behaves as memory; what other calls do to it is
    [frame]. *)
Definition mem_reply (frame : acc -> mem -> Z -> mem -> Prop) (e : acc) (m : mem) (x : Z) (m' : mem) : Prop :=
  match e with
  | Read a w => x = mem_read m a w /\ m' = m
  | Write a w v => m' = mem_write m a w v
  | _ => frame e m x m'
  end.

Section Memory.
Context {frame : acc -> mem -> Z -> mem -> Prop}.
Abbreviation wpm := (wp no_guard (mem_reply frame)).

Lemma wp_read a w (Q : Z -> mem -> Prop) m : Q (mem_read m a w) m -> wpm (read a w) Q m.
Proof. intros HQ. apply wp_call; [done|]. by intros x m' [-> ->]. Qed.

Lemma wp_write a w v (Q : unit -> mem -> Prop) m : Q tt (mem_write m a w v) -> wpm (write a w v) Q m.
Proof. intros HQ. unfold write. apply wp_bind, wp_call; [done|]. by intros x m' ->. Qed.

End Memory.

Ltac mem_run :=
  repeat
    (cbv beta iota;
     lazymatch goal with
     | |- wp _ _ (read _ _) _ _ => apply wp_read
     | |- wp _ _ (write _ _ _) _ _ => apply wp_write
     | |- wp _ _ (_ ≫= _) _ _ => apply wp_bind
     | |- wp _ _ (mret _) _ _ => apply wp_ret
     end).

Ltac bytes := repeat (intros ?; apply mem_write_byte); first [done | intros ?; unfold in_width; lia].

(** ** The gain search *)

Definition threshold (m : mem) (T : Z) (i : nat) : Z := i16 (mem_read m (T + 2 * Z.of_nat i) 2).

(** The reference: the first entry whose threshold the request reaches, or the
    last one. *)
Fixpoint first_reached (m : mem) (T requested : Z) (i n : nat) : nat :=
  match n with
  | O => Nat.pred i
  | S n' => if threshold m T i <=? requested then i else first_reached m T requested (S i) n'
  end.

Definition gain_index (m : mem) (T requested : Z) (count : nat) : nat := first_reached m T requested 0 count.

Definition descending (m : mem) (T : Z) (count : nat) : Prop :=
  forall i j, (i < j < count)%nat -> threshold m T j < threshold m T i.

Lemma first_reached_spec m T requested n : forall i,
  let k := first_reached m T requested i n in
  (i + n = 0 \/ k < i + n)%nat /\ (forall j, (i <= j < k)%nat -> requested < threshold m T j) /\
  (threshold m T k <= requested /\ (i <= k)%nat \/ (S k = i + n \/ i + n = 0)%nat /\ forall j, (i <= j < i + n)%nat -> requested < threshold m T j).
Proof.
  induction n as [|n IH]; intros i; cbn [first_reached].
  - split_and!; [destruct i; lia|lia|]. right. split; [destruct i; lia|lia].
  - destruct (Z.leb_spec (threshold m T i) requested) as [Hle|Hlt].
    + split_and!; [lia|lia|]. left. lia.
    + destruct (IH (S i)) as (H1 & H2 & H3). set (k := first_reached m T requested (S i) n) in *. split_and!.
      * right. destruct H1; [lia|lia].
      * intros j Hj. destruct (decide (j = i)) as [->|]; [done|]. apply H2. lia.
      * destruct H3 as [[? ?]|[? H3]]; [left; lia|]. right. split; [lia|].
        intros j Hj. destruct (decide (j = i)) as [->|]; [done|]. apply H3. lia.
Qed.

(** What characterises the index in a descending table. *)
Lemma gain_index_unique m T requested count k :
  descending m T count -> (k < count)%nat ->
  (k = 0%nat \/ requested < threshold m T (k - 1)) ->
  (threshold m T k <= requested \/ S k = count) -> gain_index m T requested count = k.
Proof.
  intros Hd Hk Hlo Hhi. unfold gain_index. pose proof (first_reached_spec m T requested count 0) as (H1 & H2 & H3).
  set (g := first_reached m T requested 0 count) in *. destruct (Nat.lt_trichotomy g k) as [Hlt|[?|Hgt]]; [|done|].
  - exfalso. destruct H3 as [[Hle _]|[? _]]; [|lia].
    destruct Hlo as [?|Hlo]; [lia|]. destruct (decide (g = k - 1)%nat) as [->|]; [lia|].
    pose proof (Hd g (k - 1)%nat). lia.
  - exfalso. destruct Hhi as [Hhi|]; [|lia]. pose proof (H2 k). lia.
Qed.

Section Lookup.
Context {frame : acc -> mem -> Z -> mem -> Prop}.
Abbreviation wpm := (wp no_guard (mem_reply frame)).

Lemma land_255 x : Z.land x 255 = x mod 256.
Proof. apply (land_ones_mod x 8). lia. Qed.

Lemma lookup_scan_spec m T requested count fuel : forall i,
  0 <= T -> T + 512 <= 2 ^ 32 -> in_swidth 32 requested -> (1 <= count <= 255)%nat -> (i <= count)%nat -> (count - i < fuel)%nat ->
  wpm (lookup_scan fuel (u32 requested) T (Z.of_nat count) (Z.of_nat i))
    (fun x m' => x = Z.of_nat (first_reached m T requested i (count - i)) /\ m' = m) m.
Proof.
  induction fuel as [|fuel IH]; intros i HT HT' Hr Hc Hi Hf; [lia|]. cbn [lookup_scan].
  rewrite land_255, Z.mod_small by lia. destruct (Z.leb_spec (Z.of_nat count) (Z.of_nat i)) as [Hle|Hlt].
  - apply wp_ret. replace i with count by lia. rewrite Nat.sub_diag. cbn [first_reached]. split; [|done].
    rewrite (wrap_small 32), land_255, Z.mod_small by (try unfold in_width; lia). lia.
  - rewrite !(wrap_small 32 (Z.of_nat i + 1)) by (unfold in_width; lia).
    rewrite Z.add_simpl_r, (wrap_small 32 (Z.of_nat i)), (wrap_small 32 (Z.of_nat i * 2)),
      (wrap_small 32 (T + _)) by (unfold in_width; lia).
    mem_run. replace (count - i)%nat with (S (count - S i)) by lia. cbn [first_reached].
    unfold threshold at 1. rewrite (Z.mul_comm 2 (Z.of_nat i)). unfold sh.
    rewrite (sext_u32 requested) by done.
    destruct (i16 _ <=? requested) eqn:Hcmp; [by apply wp_ret|].
    replace (Z.of_nat i + 1) with (Z.of_nat (S i)) by lia. apply IH; auto; lia.
Qed.

Lemma lookup_walk_spec m T requested count fuel : forall index it,
  descending m T count -> in_swidth 16 requested -> (1 <= count <= 255)%nat -> (index < count)%nat ->
  let g := gain_index m T requested count in
  (Nat.max (index - g) (g - index) + it < count)%nat -> (count - it <= fuel)%nat ->
  wpm (lookup_walk fuel requested T (Z.of_nat count) (Z.of_nat index) (Z.of_nat it))
    (fun x m' => x = Z.of_nat g /\ m' = m) m.
Proof.
  induction fuel as [|fuel IH]; intros index it Hd Hr Hc Hi g Hg Hf; [lia|]. cbn [lookup_walk].
  pose proof (first_reached_spec m T requested count 0) as (Hg1 & Hg2 & Hg3). change (first_reached m T requested 0 count) with g in *.
  rewrite (proj2 (Z.eqb_neq (Z.of_nat it) (Z.of_nat count))) by lia. mem_run.
  unfold sh. rewrite (Z.mul_comm _ 2). fold (threshold m T index).
  destruct (Z.leb_spec (threshold m T index) requested) as [Hle|Hlt].
  - destruct (Z.eqb_spec (Z.of_nat index) 0) as [H0|H0].
    { apply wp_ret. split; [|done]. rewrite H0. symmetry. apply (Nat2Z.inj_iff _ 0), gain_index_unique; auto; [lia|].
      replace index with 0%nat in Hle by lia. auto. }
    mem_run. unfold sh. replace (T + 2 * Z.of_nat index - 2) with (T + 2 * Z.of_nat (index - 1)) by lia.
    fold (threshold m T (index - 1)).
    destruct (Z.ltb_spec requested (threshold m T (index - 1))) as [Hp|Hp].
    + apply wp_ret. split; [|done]. f_equal. symmetry. apply gain_index_unique; auto.
    + rewrite (wrap_small 32), !land_255, !Z.mod_small by (try unfold in_width; lia).
      replace (Z.of_nat index - 1) with (Z.of_nat (index - 1)) by lia. replace (Z.of_nat it + 1) with (Z.of_nat (S it)) by lia.
      assert (g < index)%nat.
      { destruct (decide (g < index)%nat); [done|]. exfalso. specialize (Hg2 (index - 1)%nat). lia. }
      apply IH; auto; lia.
  - rewrite (wrap_small 32) by (unfold in_width; lia).
    destruct (Z.eqb_spec (Z.of_nat index) (Z.of_nat count - 1)) as [H0|H0].
    { apply wp_ret. split; [|done]. f_equal. symmetry. apply gain_index_unique; auto; [|lia].
      destruct (decide (index = 0)%nat); [auto|]. right. pose proof (Hd (index - 1)%nat index). lia. }
    mem_run. unfold sh. replace (T + 2 * Z.of_nat index + 2) with (T + 2 * Z.of_nat (S index)) by lia.
    fold (threshold m T (S index)). rewrite (land_255 (Z.of_nat index + 1)), Z.mod_small by lia.
    replace (Z.of_nat index + 1) with (Z.of_nat (S index)) by lia.
    destruct (Z.leb_spec (threshold m T (S index)) requested) as [Hn|Hn].
    + apply wp_ret. split; [|done]. f_equal. symmetry. apply gain_index_unique; auto; [lia|].
      right. by replace (S index - 1)%nat with index by lia.
    + rewrite land_255, Z.mod_small by lia. replace (Z.of_nat it + 1) with (Z.of_nat (S it)) by lia.
      assert (index < g)%nat.
      { destruct (decide (index < g)%nat); [done|]. exfalso. destruct Hg3 as [[Hg3 _]|[? Hg3]].
        - destruct (decide (g = index)) as [->|]; [lia|]. pose proof (Hd g index). lia.
        - lia. }
      apply IH; auto; lia.
Qed.


(** The cells for code, value and difference do not overlap each other or the
    tables. *)
Record outputs_apart (oc ov od T codes values : Z) (count : nat) : Prop := {
  oc_ov : apart oc 1 ov 2;
  oc_od : apart oc 1 od 2;
  ov_od : apart ov 2 od 2;
  oc_values : apart oc 1 values (2 * Z.of_nat count);
  oc_T : apart oc 1 T (2 * Z.of_nat count);
  ov_T : apart ov 2 T (2 * Z.of_nat count);
  od_T : apart od 2 T (2 * Z.of_nat count);
  od_codes : apart od 2 codes (Z.of_nat count);
  od_values : apart od 2 values (2 * Z.of_nat count) }.

(** What a search that chose entry [i] leaves in the output cells. *)
Definition reports (m m' : mem) (oc ov od T codes values requested : Z) (i : nat) : Prop :=
  mem_read m' oc 1 = mem_read m (codes + Z.of_nat i) 1 /\
  mem_read m' ov 2 = mem_read m (values + 2 * Z.of_nat i) 2 /\
  i16 (mem_read m' od 2) = i16 (requested - threshold m T i).

Lemma difference_signed m T i requested :
  i16 (u32 (u32 requested - mem_read m (T + 2 * Z.of_nat i) 2)) = i16 (requested - threshold m T i).
Proof.
  rewrite sext_wrap_wide by lia. unfold threshold. apply sext_cong.
  rewrite <- wrap_sub_l, wrap_wrap, wrap_sub_l by lia.
  by rewrite <- (wrap_sub_r 16 requested (i16 _)), wrap_sext, wrap_sub_r by lia.
Qed.

Lemma stored_back m a w x : 0 <= w -> 0 <= x < 256 ^ w -> mem_read (mem_write m a w x) a w = x.
Proof. intros. rewrite mem_read_write_same by done. by apply Z.mod_small. Qed.

Lemma lookup_c3_spec m T codes values count requested oc ov od :
  (forall b, is_u8 (m b)) -> 0 <= T -> T + 512 <= 2 ^ 32 -> (1 <= count <= 255)%nat -> in_swidth 16 requested ->
  outputs_apart oc ov od T codes values count ->
  wpm (lookup false [u32 requested; oc; ov; od; codes; values; T; Z.of_nat count])
    (fun _ m' => reports m m' oc ov od T codes values requested (gain_index m T requested count)) m.
Proof.
  intros Hm HT HT' Hc Hr [Hcv Hcd Hvd Hcval HcT HvT HdT Hdc Hdv]. unfold apart in *. unfold lookup. cbn [negb]. apply wp_bind.
  eapply wp_mono; [|apply (lookup_scan_spec m T requested count 257 0); auto; unfold in_swidth in *; lia].
  intros x m0 [-> ->]. rewrite Nat.sub_0_r. fold (gain_index m T requested count). set (g := gain_index m T requested count).
  assert (g < count)%nat.
  { pose proof (first_reached_spec m T requested count 0) as (H1 & _). unfold g, gain_index. destruct H1; [lia|done]. }
  rewrite !(Z.mul_comm _ 2). mem_run. split_and!.
  - rewrite !mem_read_write_other by lia. apply stored_back; [lia|]. by apply mem_read_range.
  - rewrite mem_read_write_other by lia. rewrite stored_back; [|lia|].
    + apply mem_read_write_other. lia.
    + apply (mem_read_range _ _ 2); [|lia]. bytes.
  - rewrite mem_read_write_same by lia. rewrite !mem_read_write_other by lia.
    rewrite <- difference_signed. apply (sext_wrap 16).
Qed.

(** The S3 walk then steps back once if the rest exceeds a limit. *)
Definition adjusted_index (m : mem) (T requested adjustment limit : Z) (g : nat) : nat :=
  if (limit <? i16 (requested - threshold m T g) + adjustment) && negb (Nat.eqb g 0) then (g - 1)%nat else g.

Lemma lookup_s3_spec m T codes values count requested oc ov od start adjustment limit :
  (forall b, is_u8 (m b)) -> (1 <= count <= 255)%nat -> descending m T count -> in_swidth 16 requested ->
  outputs_apart oc ov od T codes values count -> (start < count)%nat -> in_swidth 16 adjustment -> in_swidth 8 limit ->
  let i := adjusted_index m T requested adjustment limit (gain_index m T requested count) in
  wpm (lookup true [Z.of_nat start; u32 adjustment; u32 requested; oc; ov; od; codes; values; T; Z.of_nat count; u32 limit])
    (fun x m' => x = Z.of_nat i /\ reports m m' oc ov od T codes values requested i) m.
Proof.
  intros Hm Hc Hd Hr [Hcv Hcd Hvd Hcval HcT HvT HdT Hdc Hdv] Hs Ha Hl i. unfold apart in *. unfold lookup, sh, sb. cbn [negb].
  rewrite !sext_wrap_wide, !sext_small by (done || lia). rewrite !(wrap_small 8) by (unfold in_width; lia). apply wp_bind.
  set (g := gain_index m T requested count) in *.
  assert (g < count)%nat.
  { pose proof (first_reached_spec m T requested count 0) as (H1 & _). unfold g, gain_index. destruct H1; [lia|done]. }
  eapply wp_mono; [|apply (lookup_walk_spec m T requested count 256 start 0); auto; fold g; lia].
  fold g. intros x m0 [-> ->]. rewrite !(Z.mul_comm _ 2). mem_run. rewrite difference_signed.
  set (m1 := mem_write m od 2 _). unfold adjusted_index in i.
  set (index := if _ && negb (Z.of_nat g =? 0) then _ else _).
  assert (index = Z.of_nat i) as ->.
  { unfold index, i. replace (Z.of_nat g =? 0) with (Nat.eqb g 0) by (destruct (Nat.eqb_spec g 0), (Z.eqb_spec (Z.of_nat g) 0); lia).
    destruct (_ && negb _) eqn:Hb; [|done]. apply andb_true_iff in Hb as [_ Hb].
    apply negb_true_iff, Nat.eqb_neq in Hb. rewrite (wrap_small 32), land_255, Z.mod_small by (try unfold in_width; lia). lia. }
  assert (i < count)%nat by (unfold i; destruct (_ && _); lia).
  assert (Hm1 : forall b, is_u8 (m1 b)) by bytes.
  rewrite !(Z.mul_comm _ 2). split; [done|]. split_and!.
  - rewrite (mem_read_write_other _ ov) by lia. rewrite stored_back; [|lia|].
    + rewrite !mem_read_write_other by lia. unfold m1. by rewrite mem_read_write_other by lia.
    + apply (mem_read_range _ _ 1); [|lia]. bytes.
  - rewrite stored_back; [|lia|].
    + rewrite !mem_read_write_other by lia. unfold m1. by rewrite mem_read_write_other by lia.
    + apply (mem_read_range _ _ 2); [|lia]. bytes.
  - rewrite !(mem_read_write_other _ _ _ _ od) by lia. rewrite mem_read_write_same by lia.
    unfold m1. rewrite mem_read_write_other by lia. rewrite <- difference_signed. apply (sext_wrap 16).
Qed.

End Lookup.

(** C31: The gain searches.  In a descending table of thresholds, with output
    cells apart from the tables, the scan of the C3 and the walk of the S3 from
    any previous index both return for every request, and they find the same
    entry, the first one whose threshold the request reaches or else the last;
    the S3 takes the entry before it when the rest exceeds its limit.  Both
    store the code and the value of the entry and the 16-bit difference from
    its threshold. *)
Theorem gain_searches_agree frame h m T codes values count requested oc ov od :
  obeys_contract no_guard (mem_reply frame) h -> (forall b, is_u8 (m b)) -> 0 <= T -> T + 512 <= 2 ^ 32 ->
  (1 <= count <= 255)%nat -> descending m T count -> in_swidth 16 requested ->
  outputs_apart oc ov od T codes values count ->
  let g := gain_index m T requested count in
  (exists x m', exec h (lookup false [u32 requested; oc; ov; od; codes; values; T; Z.of_nat count]) m = Some (x, m') /\
     reports m m' oc ov od T codes values requested g) /\
  (forall start adjustment limit, (start < count)%nat -> in_swidth 16 adjustment -> in_swidth 8 limit ->
     let i := adjusted_index m T requested adjustment limit g in
     exists m', exec h (lookup true [Z.of_nat start; u32 adjustment; u32 requested; oc; ov; od;
                                     codes; values; T; Z.of_nat count; u32 limit]) m = Some (Z.of_nat i, m') /\
       reports m m' oc ov od T codes values requested i).
Proof.
  intros Hh Hm HT HT' Hc Hd Hr Ho g. split.
  - eapply (exec_wp _ _ h); [exact Hh|]. by apply lookup_c3_spec.
  - intros start adjustment limit Hs Ha Hl i.
    destruct (exec_wp _ _ h _ _ m Hh (lookup_s3_spec m T codes values count requested oc ov od start adjustment limit
      Hm Hc Hd Hr Ho Hs Ha Hl)) as (x & m' & He & -> & Hrep). by exists m'.
Qed.

(** Memory, and calls that do nothing. *)
Definition mem_ref (e : acc) (m : mem) : Z * mem :=
  match e with
  | Read a w => (mem_read m a w, m)
  | Write a w v => (0, mem_write m a w v)
  | _ => (0, m)
  end.

Lemma mem_ref_obeys : obeys_contract no_guard (mem_reply (fun _ _ _ _ => True)) mem_ref.
Proof. intros e m _. by destruct e. Qed.

Definition table_mem (T : Z) (l : list Z) : mem :=
  foldr (fun '(i, v) m => mem_write m (T + 2 * Z.of_nat i) 2 v) (fun _ => 0) (zip (seq 0 (length l)) l).

Lemma gain_searches_agree_witness : exists x m',
  exec mem_ref (lookup false [u32 10; 4000; 4010; 4020; 5000; 6000; 1000; 3]) (table_mem 1000 [32; 12; 65530]) = Some (x, m') /\
  reports (table_mem 1000 [32; 12; 65530]) m' 4000 4010 4020 1000 5000 6000 10
    (gain_index (table_mem 1000 [32; 12; 65530]) 1000 10 3).
Proof.
  apply (gain_searches_agree (fun _ _ _ _ => True) mem_ref (table_mem 1000 [32; 12; 65530]) 1000 5000 6000 3 10 4000 4010 4020).
  - apply mem_ref_obeys.
  - unfold table_mem. cbn [foldr zip seq length]. bytes.
  - lia.
  - lia.
  - lia.
  - intros i j Hij.
    assert ((i = 0 /\ j = 1) \/ (i = 0 /\ j = 2) \/ (i = 1 /\ j = 2))%nat as [[-> ->]|[[-> ->]|[-> ->]]] by lia; vm_compute; reflexivity.
  - unfold in_swidth. lia.
  - constructor; unfold apart; lia.
Defined.

(** ** Power limits *)

Lemma CONSTANTS_bytes s3 i : is_u8 (nth i (CONSTANTS s3) 0).
Proof.
  destruct (nth_in_or_default i (CONSTANTS s3) 0) as [Hn| ->]; [|unfold in_width; lia].
  assert (Forall is_u8 (CONSTANTS s3)) as Hf by (destruct s3; apply (bool_decide_unpack _); vm_compute; exact I).
  rewrite Forall_forall in Hf. by apply Hf, list_elem_of_In.
Qed.

Section Limits.
Variable s3 : bool.
Variables p b : Z.

(** [p] is the parameter block and [b] the local buffer; a call may change
    only the buffer it is passed. *)
Definition limit_frame (e : acc) (m : mem) (x : Z) (m' : mem) : Prop :=
  match e with
  | Param => x = p /\ m' = m
  | Local _ _ => x = b /\ m' = m
  | Copy d off size => forall a, m' a =
      if (d <=? a) && (a <? d + size) then nth (Z.to_nat (off + (a - d))) (CONSTANTS s3) 0 else m a
  | Child _ _ | Call _ _ _ => ((forall a, is_u8 (m a)) -> forall a, is_u8 (m' a)) /\ forall a, a < b \/ b + 4 <= a -> m' a = m a
  | _ => m' = m
  end.

Abbreviation wpm := (wp no_guard (mem_reply limit_frame)).

(** The limit of a rate: that of its group, on the C3 less a correction. *)
Definition limit_of (m : mem) (lims : list Z) (i : nat) : Z :=
  let v := nth (limit_group (Z.of_nat i)) lims 0 in
  if s3 then v else i8 (v - m (p + 0x217)).

Definition limited (m : mem) (inp cap : Z) (lims : list Z) (i : nat) : Z :=
  Z.min cap (Z.min (limit_of m lims i) (i8 (m (inp + Z.of_nat i)))).

Lemma wp_read_bytes (Q : list Z -> mem -> Prop) m a l :
  Q ((fun i => m (a + i)) <$> l) m -> wpm (read_bytes a l) Q m.
Proof.
  revert Q. induction l as [|i l IH]; intros Q HQ; cbn [read_bytes]; [done|].
  mem_run. rewrite mem_read_1. apply IH. mem_run. exact HQ.
Qed.

Lemma limit_entry_spec m cap out inp lims k :
  in_swidth 8 cap -> Forall is_u8 lims -> is_u8 (m (inp + Z.of_nat k)) -> p + 0x217 <> out + Z.of_nat k ->
  wpm (limit_entry s3 p cap out inp lims (Z.of_nat k)) (fun _ m' =>
    i8 (m' (out + Z.of_nat k)) = limited m inp cap lims k /\
    (forall a, a <> out + Z.of_nat k -> m' a = m a) /\ is_u8 (m' (out + Z.of_nat k))) m.
Proof.
  intros Hcap Hl Hin Hp. unfold limit_entry, sb. set (A := out + Z.of_nat k) in *. set (input := m (inp + Z.of_nat k)) in *.
  mem_run. rewrite mem_read_1. fold input. mem_run. set (m1 := mem_write m A 1 input).
  assert (Hm1 : m1 A = input) by (unfold m1; rewrite mem_write_1; by apply wrap_small).
  assert (Hout : forall a, a <> A -> m1 a = m a) by (intros a Ha; apply mem_write_out; lia).
  set (value := limit_of m lims k).
  assert (Hval : value < i8 input -> in_swidth 8 value).
  { intros Hlt. pose proof (sext_range 8 input). unfold in_swidth in *. unfold value, limit_of in *. destruct s3.
    - assert (is_u8 (nth (limit_group (Z.of_nat k)) lims 0)) as [? ?].
      { destruct (nth_in_or_default (limit_group (Z.of_nat k)) lims 0) as [Hn| ->]; [|unfold in_width; lia].
        rewrite Forall_forall in Hl. by apply Hl, list_elem_of_In. }
      lia.
    - apply (sext_range 8). lia. }
  assert (Hwp : wpm (if s3 then mret (nth (limit_group (Z.of_nat k)) lims 0)
                     else v ← read (p + 0x217) 1; mret (i8 (u32 (nth (limit_group (Z.of_nat k)) lims 0 - v))))
                  (fun x m' => x = value /\ m' = m1) m1).
  { unfold value, limit_of. destruct s3; mem_run; [done|]. rewrite mem_read_1, sext_wrap_wide, Hout by (done || lia). done. }
  eapply wp_mono; [|exact Hwp]. intros ? ? [-> ->]. mem_run.
  set (m2 := if value <? i8 input then mem_write m1 A 1 (u32 value) else m1).
  assert (Hm2 : i8 (m2 A) = Z.min value (i8 input) /\ is_u8 (m2 A) /\ forall a, a <> A -> m2 a = m a).
  { unfold m2. destruct (Z.ltb_spec value (i8 input)) as [Hlt|Hge].
    - rewrite mem_write_1, sext_wrap, sext_wrap_wide, sext_small by (lia || auto). split_and!; [lia|by apply wrap_range|].
      intros a Ha. rewrite mem_write_out by lia. auto.
    - rewrite Hm1. split_and!; [lia|done|done]. }
  assert (Hwp2 : wpm (if value <? i8 input then write A 1 (u32 value) else mret tt) (fun _ m' => m' = m2) m1).
  { unfold m2. destruct (value <? i8 input); mem_run; done. }
  eapply wp_mono; [|exact Hwp2]. intros ? ? ->. destruct Hm2 as (Hm2 & Hb2 & Hout2). mem_run. rewrite mem_read_1, Hm2.
  unfold limited. fold value input. set (o := Z.min value (i8 input)) in *.
  assert (in_swidth 8 o) as Ho by (rewrite <- Hm2; apply sext_range; lia).
  destruct (s3 || (cap <? o)) eqn:Hs; mem_run.
  - rewrite mem_write_1, sext_wrap, sext_wrap_wide, sext_small; try lia.
    2: { unfold in_swidth in *. lia. }
    split_and!; [done| |by apply wrap_range]. intros ad Ha. rewrite mem_write_out by lia. auto.
  - split_and!; [|done|done]. apply orb_false_iff in Hs as [_ Hs]. apply Z.ltb_ge in Hs. lia.
Qed.

(** The loop over the fourteen rates. *)
Lemma limit_loop_spec m cap out inp lims :
  in_swidth 8 cap -> Forall is_u8 lims -> (forall a, is_u8 (m a)) ->
  apart out 14 inp 14 -> apart out 14 (p + 0x217) 1 ->
  wpm (for_all (range 0 14) (limit_entry s3 p cap out inp lims)) (fun _ m' =>
    (forall i, (i < 14)%nat -> i8 (m' (out + Z.of_nat i)) = limited m inp cap lims i) /\
    (forall a, a < out \/ out + 14 <= a -> m' a = m a)) m.
Proof.
  intros Hcap Hl Hm Hoi Hop. unfold apart in *.
  apply (wp_for_range _ _ (fun k m' =>
    (forall i, (i < k)%nat -> i8 (m' (out + Z.of_nat i)) = limited m inp cap lims i) /\
    (forall a, is_u8 (m' a)) /\ (forall a, a < out \/ out + Z.of_nat k <= a -> m' a = m a))).
  - lia.
  - split_and!; [lia|done|done].
  - intros k m1 Hk (Hd & Hu & Hs). eapply wp_mono; [|apply limit_entry_spec; auto; lia].
    intros ? m2 (Hk2 & Hs2 & Hu2). split_and!.
    + intros i Hi. destruct (decide (i = k)) as [->|].
      * rewrite Hk2. unfold limited, limit_of. by rewrite !Hs by lia.
      * rewrite Hs2 by lia. apply Hd. lia.
    + intros ad. destruct (decide (ad = out + Z.of_nat k)) as [->|]; [done|]. by rewrite Hs2.
    + intros ad Ha. rewrite Hs2 by lia. apply Hs. lia.
  - intros m1 (Hd & _ & Hs). split; [done|]. intros a Ha. apply Hs. lia.
Qed.

(** What [limits] leaves in its output. *)
Definition limits_of (m m' : mem) (out inp cap : Z) (regulated : bool) : Prop :=
  exists lims, length lims = 4%nat /\ Forall is_u8 lims /\
    (regulated = false -> lims = replicate 4 (if s3 then 100 else 82)) /\
    forall i, (i < 14)%nat -> i8 (m' (out + Z.of_nat i)) = limited m inp cap lims i.

Lemma limits_spec m channel cap out inp mode a5 a6 :
  in_swidth 8 cap -> (forall a, is_u8 (m a)) ->
  apart out 14 inp 14 -> apart out 14 (p + 0x217) 1 -> apart b 4 inp 14 -> apart b 4 (p + 0x217) 1 ->
  wpm (limits s3 [channel; u32 cap; out; inp; mode; a5; a6]) (fun _ m' =>
    limits_of m m' out inp cap (byte s3 mode =? 1)) m.
Proof.
  intros Hcap Hm Hoi Hop Hbi Hbp. unfold apart in *. unfold limits.
  apply wp_bind, wp_call; [done|]. intros ? ? [-> ->]. apply wp_bind, wp_call; [done|]. intros ? m1 Hcopy. simpl in Hcopy.
  assert (Hm1 : (forall a, is_u8 (m1 a)) /\ (forall a, a < b \/ b + 4 <= a -> m1 a = m a)).
  { split; intros a; rewrite Hcopy.
    - destruct ((b <=? a) && (a <? b + 4)); [|done]. apply CONSTANTS_bytes.
    - intros Ha. destruct (Z.leb_spec b a), (Z.ltb_spec a (b + 4)); simpl; [lia|done..]. }
  apply wp_bind. set (regulated := byte s3 mode =? 1).
  eapply (wp_mono _ _ _ (fun _ m2 => ((forall a, is_u8 (m2 a)) /\ (forall a, a < b \/ b + 4 <= a -> m2 a = m a)) /\
    (regulated = false -> m2 = m1))).
  - intros ? m2 [[Hu2 Hf2] Heq]. set (lims := (fun i => m2 (b + i)) <$> [0; 1; 2; 3]).
    apply wp_bind. eapply (wp_mono _ _ _ (fun vs m3 => vs = lims /\ m3 = m2)).
    2: { destruct s3; [|apply wp_bind]; apply wp_read_bytes; [done|by apply wp_ret]. }
    intros ? ? [-> ->]. apply wp_bind, wp_call; [done|]. intros ? ? [-> ->].
    assert (Hlims : Forall is_u8 lims) by (unfold lims; cbn [fmap list_fmap]; repeat constructor; apply Hu2).
    assert (Hcap' : (if s3 then sb (u32 cap) else i32 (u32 cap)) = cap).
    { unfold in_swidth in *. destruct s3; [unfold sb; rewrite sext_wrap_wide by lia|rewrite sext_wrap by lia];
        apply sext_small; unfold in_swidth; lia. }
    rewrite Hcap'. eapply wp_mono; [|apply limit_loop_spec; auto; unfold apart; lia].
    intros ? m4 [Hd ?]. exists lims. split_and!; [done|done| |].
    + intros Hr. unfold lims. rewrite (Heq Hr). cbn [fmap list_fmap]. rewrite !Hcopy.
      assert (Hin : forall i, 0 <= i < 4 -> (b <=? b + i) && (b + i <? b + 4) = true).
      { intros i Hi. rewrite (proj2 (Z.leb_le _ _)), (proj2 (Z.ltb_lt _ _)) by lia. done. }
      rewrite !Hin by lia. rewrite !Z.add_simpl_l. by destruct s3.
    + intros i Hi. rewrite Hd by done. unfold limited, limit_of. by rewrite !Hf2 by lia.
  - destruct regulated; [|by apply wp_ret]. destruct s3.
    + apply wp_bind, wp_call; [done|]. intros ? m2 [Hu Hf]. apply wp_ret. split; [|done]. split; [apply Hu, Hm1|].
      intros a Ha. rewrite Hf by done. by apply Hm1.
    + unfold target. apply wp_bind, wp_bind, wp_call; [done|]. intros ? ? ->. apply wp_call; [done|]. intros ? ? ->.
      apply wp_bind, wp_call; [done|]. intros ? m2 [Hu Hf]. apply wp_ret. split; [|done]. split; [apply Hu, Hm1|].
      intros a Ha. rewrite Hf by done. by apply Hm1.
Qed.

(** Whatever the power limiting routine of a channel is given, it bounds every rate: each of the
    fourteen output bytes is, as a signed number, the least of the caller's cap, the limit of the
    rate's group (on the C3 less the correction byte 0x217 of the parameters) and the rate's input
    byte.  Unless the mode asks for the regulatory table, the limits of the four groups are 100 on the
    S3 and 82 on the C3; with it they are some four bytes, whatever that routine grants.  This holds for
    every environment that reads and writes memory as bytes and lets the regulatory routine change only
    the buffer it is passed, when the buffers do not overlap. *)
Theorem limits_minimum h m channel cap out inp mode a5 a6 :
  obeys_contract no_guard (mem_reply limit_frame) h ->
  in_swidth 8 cap -> (forall a, is_u8 (m a)) ->
  apart out 14 inp 14 -> apart out 14 (p + 0x217) 1 -> apart b 4 inp 14 -> apart b 4 (p + 0x217) 1 ->
  exists x m', exec h (limits s3 [channel; u32 cap; out; inp; mode; a5; a6]) m = Some (x, m') /\
    limits_of m m' out inp cap (byte s3 mode =? 1).
Proof. intros Hh Hcap Hm ? ? ? ?. apply (exec_wp _ _ h _ _ m Hh). by apply limits_spec. Qed.

(** A memory in which the regulatory routine grants 40 to every group. *)
Definition limit_ref (e : acc) (m : mem) : Z * mem :=
  match e with
  | Param => (p, m)
  | Local _ _ => (b, m)
  | Copy d off size => (0, fun a =>
      if (d <=? a) && (a <? d + size) then nth (Z.to_nat (off + (a - d))) (CONSTANTS s3) 0 else m a)
  | Child _ _ | Call _ _ _ => (0, fun a => if (b <=? a) && (a <? b + 4) then 40 else m a)
  | _ => mem_ref e m
  end.

Lemma limit_ref_obeys : obeys_contract no_guard (mem_reply limit_frame) limit_ref.
Proof.
  assert (Hcall : forall m, let m' := fun a => if (b <=? a) && (a <? b + 4) then 40 else m a in
    ((forall a, is_u8 (m a)) -> forall a, is_u8 (m' a)) /\ forall a, a < b \/ b + 4 <= a -> m' a = m a).
  { intros m m'. unfold m'. split.
    - intros Hm a. destruct ((b <=? a) && (a <? b + 4)); [unfold in_width; lia|done].
    - intros a Ha. destruct (Z.leb_spec b a), (Z.ltb_spec a (b + 4)); simpl; [lia|done..]. }
  intros e m _. destruct e; try done; apply Hcall.
Qed.

End Limits.

Lemma limits_minimum_witness : exists x m',
  exec (limit_ref false 1000 5000) (limits false [1; u32 30; 2000; 3000; 1; 0; 0]) (table_mem 3000 [32; 12; 65530]) = Some (x, m') /\
  limits_of false 1000 (table_mem 3000 [32; 12; 65530]) m' 2000 3000 30 true.
Proof.
  apply (limits_minimum false 1000 5000 (limit_ref false 1000 5000) (table_mem 3000 [32; 12; 65530]) 1 30 2000 3000 1 0 0).
  - apply limit_ref_obeys.
  - unfold in_swidth. lia.
  - unfold table_mem. cbn [foldr zip seq length]. bytes.
  - unfold apart. lia.
  - unfold apart. lia.
  - unfold apart. lia.
  - unfold apart. lia.
Defined.
