(* ===== verification/PhyTemperatureSpec.v ===== *)
(** * Correctness of temperature tracking

    [dispatch_protocol]: the dispatcher runs its helpers inside one exclusion
    bracket, in order and only when their gates are open.
    [sensor_stays_calibrated]: the range selection never leaves the five
    settings that have attributes, and the setting it leaves covers the
    temperature it measured. *)

From S2P Require Import Prelude Program PhyTemperature.

(** ** The dispatcher *)
Module DispatcherSpec.
Import Dispatcher.

(** [reads] is the last value read at each offset; [stage] counts the helpers:
    1 temperature, 2 power, 3 PLL; the calibration adds 2. *)
Inductive phase :=
| Outside
| Inside (token : Z) (stage : nat) (reads : Z -> Z)
| Done (stage : nat) (reads : Z -> Z).

Section Dispatch.
Variable s3 : bool.
Variables enabled mode : Z.

Definition idle (reads : Z -> Z) : bool :=
  if s3 then Z.land (reads 0x2a0) 0xffff0000 =? 0 else Z.lor (reads 0x320) (reads 0x31f) =? 0.

Definition guard (b : bool) (p : phase) : option phase := if b then Some p else None.

Definition dispatch_step (e : acc) (x : Z) (p : phase) : option phase :=
  match p, e with
  | Outside, Enter slot => guard (slot =? if s3 then 0x160 else 0x184) (Inside x 0 (fun _ => -1))
  | Inside t n r, (Read8 off | Read32 off) => Some (Inside t n (fun o => if o =? off then x else r o))
  | Inside t n r, Temperature => guard (negb s3 && (n =? 0)%nat && idle r) (Inside t 1 r)
  | Inside t n r, TableTemperature slot => guard (s3 && (slot =? 0x258) && (n =? 0)%nat && idle r) (Inside t 1 r)
  | Inside t n r, Power en md => guard (negb s3 && (n =? 1)%nat && (en =? enabled) && (md =? mode)) (Inside t 2 r)
  | Inside t n r, TablePower slot en md =>
      guard (s3 && (slot =? 0x28c) && (n =? 1)%nat && (en =? enabled) && (md =? mode)) (Inside t 2 r)
  | Inside t n r, Pll v => guard ((n =? 2)%nat && negb (r 0x9c =? 0) && (v =? r 0x9b)) (Inside t 3 r)
  | Inside t n r, Rfcal v th =>
      guard (negb s3 && ((n =? 2) || (n =? 3))%nat && negb (r 0x216 =? 0) && (v =? r 0x9b) && (th =? 20)) (Inside t (n + 2) r)
  | Inside t n r, Exit slot t' => guard ((slot =? if s3 then 0x164 else 0x188) && (t' =? t)) (Done n r)
  | _, _ => None
  end.

(** When the dispatcher has left the bracket it has run what the gates asked
    for, and nothing else. *)
Definition dispatched (p : phase) : Prop :=
  exists n r, p = Done n r /\
    if idle r then
      (2 <= n <= 5)%nat /\ (r 0x9c =? 0) = Nat.even n /\
      if s3 then (n <= 3)%nat else (r 0x216 =? 0) = (n <=? 3)%nat
    else n = 0%nat.

Lemma wp_run ok e (Q : unit -> phase -> Prop) p :
  (forall x, ok e x -> exists p', dispatch_step e x p = Some p' /\ Q tt p') ->
  wp (step_allowed dispatch_step ok) (step_reply dispatch_step ok) (run e) Q p.
Proof.
  intros HQ. unfold run. apply wp_bind, wp_step_call. intros x Hx.
  destruct (HQ x Hx) as (p' & ? & ?). exists p'. by split.
Qed.

End Dispatch.

(** Use what the gates were found to be. *)
Ltac gates :=
  cbn;
  repeat match goal with
    | H : ?b = true |- _ => progress rewrite H
    | H : ?b = false |- _ => progress rewrite H
    end;
  rewrite ?Z.eqb_refl; cbn.

Ltac dispatch_run :=
  repeat
    (cbv beta iota;
     lazymatch goal with
     | |- wp _ _ (_ ≫= _) _ _ => apply wp_bind
     | |- wp _ _ (mret _) _ _ => apply wp_ret
     | |- wp _ _ (call _) _ _ => apply wp_step_call; intros ? _; eexists; split; [reflexivity|]
     | |- wp _ _ (run _) _ _ => apply wp_run; intros ? _; eexists; split; [gates; reflexivity|]
     | |- wp _ _ (if ?b then _ else _) _ _ => destruct b eqn:?
     end).

(** The tracking dispatcher keeps its protocol in every environment.  It enters the exclusion
    bracket first and leaves it last, with the token it got; in between it runs the temperature
    helper, the power helper with the caller's arguments, the PLL helper and on the C3 the
    calibration helper, in this order and each at most once.  The first two run exactly when the
    gate bytes read inside the bracket are zero, the PLL helper exactly when then byte 0x9c is not
    zero and with the value of 0x9b read just before, the calibration helper likewise for byte 0x216
    and with threshold 20. *)
Theorem dispatch_protocol s3 enabled mode :
  respects (dispatch_step s3 (u8 enabled) (u8 mode)) (fun _ _ => True)
    (tx_pwctrl_background s3 enabled mode) Outside (fun _ p => dispatched s3 p).
Proof.
  apply wp_respects. unfold tx_pwctrl_background, dispatch. destruct s3; dispatch_run.
  all: eexists _, _; split; [reflexivity|]; unfold idle; gates.
  all: repeat match goal with H : negb _ = _ |- _ => first [rewrite negb_true_iff in H|rewrite negb_false_iff in H] end.
  all: split_and?; by (lia || done).
Qed.

End DispatcherSpec.

(** ** The sensor *)
Module SensorSpec.
Import Temperature.

(** The DAC setting, the index byte 0xaa and the halfword 0x92 of the
    parameters, and the last temperature the conversion returned. *)
Record sensor := { dac : Z; index : Z; stored : Z; last : Z }.

Section Sensor.
Variable s3 : bool.

Definition attribute8 (off : Z) : Z := nth (Z.to_nat off) Lifecycle.ATTRIBUTE_BYTES 0.
Definition attribute16 (off : Z) : Z := attribute8 off + 256 * attribute8 (off + 1).

(** A slot of the function table is known by its offset.  Reading the DAC
    answers the setting in the low four bits; the two measuring functions
    answer anything. *)
Definition sensor_reply (e : acc) (s : sensor) (x : Z) (s' : sensor) : Prop :=
  match e with
  | Read8 0xaa => x = index s /\ s' = s
  | Write8 0xaa v => s' = {| dac := dac s; index := v; stored := stored s; last := last s |}
  | Write16 0x92 v => s' = {| dac := dac s; index := index s; stored := v; last := last s |}
  | Attribute8 off => x = attribute8 off /\ s' = s
  | Attribute16 off => x = attribute16 off /\ s' = s
  | Table => s' = s
  | Slot _ off => x = off /\ s' = s
  | Call f args =>
      if f =? READ_DAC s3 then Z.land x 15 = Z.land (dac s) 15 /\ s' = s
      else if f =? WRITE_DAC s3 then s' = {| dac := nth 5 args 0; index := index s; stored := stored s; last := last s |}
      else if f =? CONVERT s3 then is_u32 x /\ s' = {| dac := dac s; index := index s; stored := stored s; last := x |}
      else s' = s
  | _ => s' = s
  end.

(** The row of a DAC setting covers a temperature. *)
Definition covers (code temperature : Z) : Prop :=
  let row := 6 * decode s3 code in
  i16 (attribute16 (row + 2)) <= temperature <= i16 (attribute16 (row + 4)).

(** The temperature as the range selection sees it. *)
Definition measured (x : Z) : Z := if s3 then i16 (i32 x) else i32 x.

Definition calibrated (s : sensor) : Prop := 0 <= dac s < 16 /\ decode s3 (dac s) < 5.

Definition tracking (s : sensor) : Prop :=
  calibrated s /\ stored s = u16 (last s) /\
  (-40 <= measured (last s) <= 125 -> covers (dac s) (measured (last s))).

Abbreviation wps := (wp no_guard sensor_reply).

Ltac sensor_call := apply wp_call; [done|]; intros ? ?; cbn [sensor_reply].
Ltac sensor_step := apply wp_bind; sensor_call.

Lemma wp_sensor_slot t off (Q : Z -> sensor -> Prop) s : Q off s -> wps (call (Slot t off)) Q s.
Proof. intros HQ. sensor_call. by intros [-> ->]. Qed.

Lemma wp_sensor_table (Q : Z -> sensor -> Prop) s : (forall x, Q x s) -> wps (call Table) Q s.
Proof. intros HQ. sensor_call. by intros ->. Qed.

Lemma range_dac_calibrated t : 0 <= range_dac t < 16 /\ decode s3 (range_dac t) < 5.
Proof. unfold range_dac. repeat case_match; destruct s3; done. Qed.

Lemma range_dac_covers t : -40 <= t <= 125 -> covers (range_dac t) t.
Proof.
  intros Ht. unfold range_dac, covers. repeat case_match; destruct s3;
    match goal with |- ?a <= _ <= ?b =>
      let a' := eval vm_compute in a in let b' := eval vm_compute in b in
      change a with a'; change b with b' end; lia.
Qed.

Lemma range_spec arg s :
  let t := if s3 then i16 arg else arg in
  calibrated s -> index s = decode s3 (dac s) ->
  wps (Temperature.range s3 arg (index s)) (fun _ s' =>
    calibrated s' /\ stored s' = stored s /\ last s' = last s /\ (-40 <= t <= 125 -> covers (dac s') t) /\
    (covers (dac s) t -> dac s' = dac s)) s.
Proof.
  intros t Hc Hi. pose proof (proj2 Hc) as Hdec. unfold Temperature.range, attribute_row. fold t.
  assert ((if s3 then Z.land (index s) 0xff else index s) = index s) as ->.
  { rewrite Hi. unfold decode. destruct s3; repeat case_match; done. }
  rewrite Hi. apply wp_bind, wp_bind, wp_assert; [by apply Z.ltb_lt|]. apply wp_ret.
  sensor_step. intros [-> ->]. apply wp_bind. set (row := decode s3 (dac s) * 6).
  eapply (wp_mono _ _ _ (fun (b : bool) s1 => s1 = s /\ (b = true <-> covers (dac s) t))).
  - intros b s1 [-> Hb]. destruct b.
    + sensor_call. intros [-> ->]. split_and!; try done. intros _. by apply Hb.
    + apply wp_bind, wp_sensor_table. intros x. apply wp_bind, wp_sensor_slot. sensor_step.
      rewrite Z.eqb_refl. assert ((WRITE_DAC s3 =? READ_DAC s3) = false) as -> by by destruct s3. intros ->.
      apply wp_ret. cbn [dac stored last nth]. split_and!; [apply range_dac_calibrated|done|done|apply range_dac_covers|].
      by intros ?%Hb.
  - unfold covers. replace (6 * decode s3 (dac s)) with row by (unfold row; lia).
    destruct (Z.leb_spec (i16 (attribute16 (row + 2))) t) as [Hlo|Hlo].
    + sensor_step. intros [-> ->]. apply wp_ret. rewrite Z.leb_le. split; [done|]. lia.
    + apply wp_ret. split; [done|]. split; [done|lia].
Qed.

Lemma outer_spec s : calibrated s ->
  wps (outer s3) (fun x s' => x = last s' /\ tracking s' /\ (covers (dac s) (measured x) -> dac s' = dac s)) s.
Proof.
  intros Hc. pose proof (proj2 Hc) as Hdec. unfold outer, forward, inner. apply wp_bind.
  apply wp_bind, wp_sensor_table. intros ?. apply wp_bind, wp_sensor_slot. sensor_step. rewrite Z.eqb_refl. intros [-> ->].
  assert (Z.land (dac s) 15 = dac s) as -> by (etrans; [apply (land_ones_mod (dac s) 4); lia|apply Z.mod_small, Hc]).
  apply wp_bind, wp_sensor_table. intros ?. apply wp_bind.
  assert (u8 (decode s3 (dac s)) = decode s3 (dac s)) as -> by (unfold decode; destruct s3; repeat case_match; done).
  set (s1 := {| dac := dac s; index := decode s3 (dac s); stored := stored s; last := last s |}).
  eapply (wp_mono _ _ _ (fun f s' => f = READ_CODE s3 /\ s' = s1)).
  2: { destruct s3.
    - sensor_step. intros ->. by apply wp_sensor_slot.
    - apply wp_bind, wp_sensor_slot. sensor_step. intros ->. by apply wp_ret. }
  intros ? ? [-> ->]. sensor_step.
  assert ((READ_CODE s3 =? READ_DAC s3) = false /\ (READ_CODE s3 =? WRITE_DAC s3) = false /\ (READ_CODE s3 =? CONVERT s3) = false)
    as (-> & -> & ->) by by destruct s3.
  intros ->. sensor_step. intros [-> ->]. unfold attribute_row. cbn [index].
  apply wp_bind, wp_bind, wp_assert; [by apply Z.ltb_lt|]. apply wp_ret.
  apply wp_bind, wp_sensor_table. intros ?. sensor_step. intros [-> ->]. apply wp_bind, wp_sensor_slot. sensor_step.
  assert ((CONVERT s3 =? READ_DAC s3) = false /\ (CONVERT s3 =? WRITE_DAC s3) = false) as (-> & ->) by by destruct s3.
  rewrite Z.eqb_refl. intros [Hx ->]. sensor_step. intros [-> ->]. apply wp_bind.
  match goal with |- wps (Temperature.range _ _ _) _ ?st => set (s2 := st) end.
  eapply wp_mono; [|apply (range_spec _ s2); done]. intros ? s3' (Hc3 & Hst & Hl & Hcov & Hkeep). apply wp_ret. sensor_step.
  intros ->. apply wp_ret. unfold tracking. cbn [last stored dac]. rewrite Hl. done.
Qed.

(** C34: the sensor never leaves the settings it has attributes for.  Started with a calibrated
    setting of the DAC, any number of measurements runs without reaching the out-of-table panic,
    whatever the analog functions answer, and each leaves a calibrated setting; the parameter
    halfword holds the last converted temperature, and when that lies in the sensor's range, -40 to
    125 degrees, the row of the setting covers it.  The setting has hysteresis: a further measurement
    leaves it alone whenever its row covers the temperature converted, though another row may cover
    that temperature too.  The environment is any in which the DAC reads back as written in its low
    four bits, the parameter bytes and the attribute table read as stored and the conversion answers
    a 32-bit word. *)
Theorem sensor_stays_calibrated h s n :
  obeys_contract no_guard sensor_reply h -> calibrated s ->
  exists x s', exec h (for_each_with (Program.range 0 (S n)) 0 (fun _ _ => outer s3)) s = Some (x, s') /\ tracking s' /\
  exists y s'', exec h (outer s3) s' = Some (y, s'') /\ tracking s'' /\ (covers (dac s') (measured y) -> dac s'' = dac s').
Proof.
  intros Hh Hc. destruct (exec_wp _ _ h (for_each_with (Program.range 0 (S n)) 0 (fun _ _ => outer s3))
    (fun _ s' => tracking s') s Hh) as (x & s' & Hx & Ht).
  2: { destruct (exec_wp _ _ h _ _ s' Hh (outer_spec s' (proj1 Ht))) as (y & s'' & Hy & _ & Ht' & Hk). eauto 10. }
  apply (wp_for_each_with _ _ (fun l (_ : Z) s => calibrated s /\ (length l <> S n -> tracking s))).
  - split; [done|]. intros []. unfold Program.range. by rewrite length_fmap, length_seq, Nat.sub_0_r.
  - intros i l b s1 [Hc1 _]. eapply wp_mono; [|by apply outer_spec]. intros ? s2 (_ & Ht & _). split; [apply Ht|by intros _].
  - intros b s1 [_ Ht]. by apply Ht.
Qed.

(** A sensor at a constant temperature. *)
Definition sensor_ref (temperature : Z) (e : acc) (s : sensor) : Z * sensor :=
  match e with
  | Read8 0xaa => (index s, s)
  | Write8 0xaa v => (0, {| dac := dac s; index := v; stored := stored s; last := last s |})
  | Write16 0x92 v => (0, {| dac := dac s; index := index s; stored := v; last := last s |})
  | Attribute8 off => (attribute8 off, s)
  | Attribute16 off => (attribute16 off, s)
  | Slot _ off => (off, s)
  | Call f args =>
      if f =? READ_DAC s3 then (Z.land (dac s) 15, s)
      else if f =? WRITE_DAC s3 then (0, {| dac := nth 5 args 0; index := index s; stored := stored s; last := last s |})
      else if f =? CONVERT s3 then (temperature, {| dac := dac s; index := index s; stored := stored s; last := temperature |})
      else (0, s)
  | _ => (0, s)
  end.

Lemma sensor_ref_obeys t : is_u32 t -> obeys_contract no_guard sensor_reply (sensor_ref t).
Proof.
  intros Ht e s _. destruct e; cbn [sensor_reply sensor_ref]; repeat case_match; try done.
  cbn [fst]. by rewrite <- Z.land_assoc.
Qed.

End Sensor.

Lemma sensor_stays_calibrated_witness : exists x s',
  exec (sensor_ref false 110) (for_each_with (Program.range 0 3) 0 (fun _ _ => outer false))
    {| dac := 15; index := 0; stored := 0; last := 0 |} = Some (x, s') /\ tracking false s' /\
  exists y s'', exec (sensor_ref false 110) (outer false) s' = Some (y, s'') /\ tracking false s'' /\
    (covers false (dac s') (measured false y) -> dac s'' = dac s').
Proof.
  apply (sensor_stays_calibrated false (sensor_ref false 110) {| dac := 15; index := 0; stored := 0; last := 0 |} 2).
  - apply sensor_ref_obeys. unfold in_width. lia.
  - split; [cbn; lia|reflexivity].
Defined.
End SensorSpec.
