(* ===== verification/PhyDc.v ===== *)
(** * Receive DC calibration

    Models [phy_rx_controls.rs] (Module [RxControls]: saturation check and IQ
    estimator), [phy_rx_dc.rs] (Module [RxDc]: choice of an estimate, filling of
    the channel table) and [phy_dc_search.rs] (Module [DcSearch]: the two DC
    searches).  [s3] selects the chip. *)

From S2P Require Import Prelude Program PhyAccess.

Module RxControls.

Inductive method :=
| Parameter_
| TableGlobal
| Delay (microseconds : Z)
| Callback (target : Z) (argument : option Z)
| Local
| Trigger.

Section RxControls.
Variable s3 : bool.
Abbreviation prg := (prog (io method)).

Definition COUNT : Z := if s3 then 736 else 842.
Definition SATURATED : Z := if s3 then 730 else 844.

(** Read a register, change it and write it back. *)
Definition update (address : Z) (f : Z -> Z) : prg unit :=
  v ← read address 4;
  write address 4 (f v).

Definition reset (enabled : Z) : prg unit :=
  let enabled := if s3 then u8 enabled else enabled in
  write 0x6001c068 4 0x404 ;;
  update 0x6001c05c (fun v => if negb (enabled =? 0) then Z.lor v 0xd1080000 else Z.land v 0x2ef7ffff) ;;
  update 0x6001c05c (fun v => Z.lor (Z.land v 0xfff80000) (if negb (enabled =? 0) then 0x800 else 0x400)).

Definition trigger : prg unit :=
  update 0x6001c02c (fun v => Z.lor (Z.land v 0x00ffffff) 0x46000000) ;;
  update 0x6001c02c (fun v => Z.lor v 0x00800000) ;;
  run (Delay 1) ;;
  update 0x6001c02c (fun v => Z.land v 0xff7fffff).

(** The gain field of the receiver is at most 69. *)
Definition low_gain (v : Z) : bool := Z.land (Z.shiftr v 12) 127 <=? 69.

(** The wait for the estimator, [fuel] polls long; [None] when the hardware has
    not completed by then. *)
Fixpoint estimate_wait (fuel : nat) (count : Z) (changed : bool) : prg (option (Z * bool)) :=
  match fuel with
  | O => mret None
  | S fuel' =>
      done ← read 0x60006174 4;
      if negb (Z.land done 0x10000 =? 0) then mret (Some (count, changed)) else
      gain ← read 0x6001c08c 4;
      if low_gain gain then estimate_wait fuel' (u16 (count + 1)) true
      else estimate_wait fuel' count changed
  end.

(** [None]: still waiting after [fuel] polls. *)
Definition estimate (fuel : nat) (mode samples : Z) : prg (option unit) :=
  p ← ext Parameter_;
  v ← read 0x60006140 4;
  write (p + COUNT) 2 0 ;;
  write 0x60006140 4 (Z.lor (Z.land v 0xf3ffffff) 0x04000000) ;;
  update 0x60006144 (fun v => Z.lor (Z.land v 0xffe7ffff) 0x00100000) ;;
  update 0x60006144 (fun v => Z.lor (Z.land v 0xfffe0003) (Z.land (u32 (Z.shiftl samples 2)) 0x1fffc)) ;;
  update 0x60006144 (fun v => Z.lor v 1) ;;
  run (Delay 1) ;;
  update 0x60006144 (fun v => Z.lor v 2) ;;
  run Trigger ;;
  count ← read (p + COUNT) 2;
  r ← estimate_wait fuel count false;
  match r with
  | None => mret None
  | Some (count, changed) =>
      (if (changed : bool) then write (p + COUNT) 2 count else mret tt) ;;
      mret (Some tt)
  end.

Definition callback (offset : Z) (argument : option Z) : prg unit :=
  g ← ext TableGlobal;
  table ← read g 4;
  target ← read (table + offset) 4;
  run (Callback target argument).

Definition check : prg unit :=
  buffer ← ext Local;
  for_all (range 0 4) (fun i => write (buffer + i * 2) 2 0x100) ;;
  callback (if s3 then 0x1b0 else 0x1d4) None ;;
  callback (if s3 then 0x1c0 else 0x1e4) (Some 0) ;;
  callback (if s3 then 0x1cc else 0x1f0) (Some buffer) ;;
  run Trigger ;;
  run (Delay 5) ;;
  count ← for_each_with (range 0 100) 0 (fun _ count =>
            v ← read 0x6001c08c 4;
            mret (if low_gain v then count + 1 else count));
  (if negb (count =? 0) then p ← ext Parameter_; write (p + SATURATED) 1 1 else mret tt) ;;
  callback (if s3 then 0x1b4 else 0x1d8) None.

End RxControls.
End RxControls.

Module RxDc.

Inductive method :=
| TableGlobal
| ParameterAddress
| Local
| Estimate (target samples output : Z)
| Difference (target value : Z).

Section RxDc.
Variable s3 : bool.
Abbreviation prg := (prog (io method)).

Definition target (slot : Z) : prg Z :=
  g ← ext TableGlobal;
  table ← read g 4;
  read (table + slot) 4.

(** One attempt: the best score so far, and whether it is good enough. *)
Definition minimum_try (samples buffer parameter output attempt : Z) (best : Z * bool) : prg (flow (Z * bool)) :=
  let (gate, selector) := if s3 then (736, 730) else (842, 844) in
  t ← target (if s3 then 0xf8 else 0x10c);
  run (Estimate t samples buffer) ;;
  score ← read (buffer + 8) 4;
  let score := i32 score in
  take ← (if score <? best.1 then
            g ← read (parameter + gate) 2;
            if g =? 0 then mret true else s ← read (parameter + selector) 1; mret (s =? 1)
          else mret false);
  best ← (if (take : bool) then
            first ← read buffer 4;
            write (output + 8) 4 (u32 score) ;;
            write output 4 first ;;
            second ← read (buffer + 4) 4;
            write (output + 4) 4 second ;;
            mret score
          else mret best.1);
  if (best <=? 35) || ((best <=? 47) && (2 <=? attempt)) then mret (Break (best, true))
  else mret (Next (best, false)).

Definition minimum (samples unused output : Z) : prg unit :=
  let samples := if s3 then u16 samples else samples in
  buffer ← ext Local;
  parameter ← ext ParameterAddress;
  best ← for_loop (range 0 8) (100, false) (minimum_try samples buffer parameter output);
  if (best.2 : bool) then mret tt
  else
    write (output + 8) 4 56 ;;
    write output 4 0 ;;
    write (output + 4) 4 0.

Definition columns : Z := if s3 then 1 else 3.

(** How many channels of a column have status 1, added to the preference. *)
Definition preference_count (status column preference : Z) : prg Z :=
  for_each_with (range 0 14) preference (fun channel preference =>
    s ← read (status + channel * columns + column) 1;
    mret (if s =? 1 then u8 (preference + 1) else preference)).

(** The channel whose data replaces that of [channel], and its distance. *)
Definition candidate_step (status column preference channel candidate : Z) (best : Z * Z) : prg (Z * Z) :=
  s ← read (status + candidate * columns + column) 1;
  if negb (s =? preference) then mret best else
  t ← target (if s3 then 0xec else 0x100);
  value ← ext (Difference t (channel - candidate));
  let value := i8 value in
  mret (if value <? best.2 then (candidate, value) else best).

Definition sort_channel (data status column preference channel : Z) : prg unit :=
  s ← read (status + channel * columns + column) 1;
  if s =? 1 then mret tt else
  best ← for_each_with (range 0 14) (channel, 20) (candidate_step status column preference channel);
  value ← read (data + (best.1 * columns + column) * 4) 4;
  write (data + (channel * columns + column) * 4) 4 (Z.land value 0xffff01ff).

Definition sort_column (data status column preference : Z) : prg Z :=
  preference ← preference_count status column preference;
  let preference := if preference =? 0 then 2 else 1 in
  for_all (range 0 14) (sort_channel data status column preference) ;;
  mret preference.

Definition sort (data status : Z) : prg unit :=
  for_each_with (range 0 (Z.to_nat columns)) 0 (sort_column data status) ;;
  mret tt.

End RxDc.
End RxDc.

Module DcSearch.

Inductive method :=
| TableGlobal
| Coarse (index : Z)
| Local (tag : Z)
| PbusRead (target block bank : Z)
| Force (target block bank value : Z)
| Estimate (target samples output : Z)
| Difference (target value : Z)
| Limit (target value : Z)
| Minimum (samples output : Z)
| Delay (value : Z)
| Log (kind : Z) (args : list Z).

Section DcSearch.
Variable s3 : bool.
Abbreviation prg := (prog (io method)).

Definition READ : Z := if s3 then 0x1ac else 0x1d0.
Definition FORCE : Z := if s3 then 0x1a8 else 0x1cc.
Definition ESTIMATE : Z := if s3 then 0xf8 else 0x10c.
Definition ABS : Z := if s3 then 0xec else 0x100.

Definition target (slot : Z) : prg Z :=
  g ← ext TableGlobal;
  table ← read g 4;
  read (table + slot) 4.

Definition absolute (value : Z) : prg Z :=
  t ← target ABS;
  ext (Difference t (i32 value)).

(** [absolute] of a word of memory *)
Definition absolute_at (address : Z) : prg Z := v ← read address 4; absolute v.

Definition force (block bank value : Z) : prg unit :=
  t ← target FORCE;
  run (Force t block bank value).

(** ** [general] *)

Definition write_current (pointer phase i current : Z) : prg unit :=
  t ← target FORCE;
  let value := Z.shiftr (current + 1) 1 in
  write (pointer + i * 2) 2 (u32 value) ;;
  run (Force t (2 + i) (phase + 1) (u16 value)).

(** Both components are within the threshold. *)
Definition settled (scratch threshold : Z) : prg bool :=
  a ← absolute_at scratch;
  if threshold <? a then mret false
  else b ← absolute_at (scratch + 4); mret (b <=? threshold).

Definition read_pair (scratch : Z) : prg (Z * Z) :=
  a ← read scratch 4;
  b ← read (scratch + 4) 4;
  mret (a, b).

(** The correction of one component: its new value and the shift amount. *)
Definition adjust (phase threshold index fine_shift address previous current amount : Z) : prg (Z * Z) :=
  a ← absolute_at address;
  if a <=? threshold then mret (current, amount) else
  r ← (if negb (phase =? 0) then
         v ← read address 4;
         mret (Z.shiftr (i32 (i32 v * 280)) (Z.land fine_shift 31), amount)
       else
         v ← read address 4;
         distance ← absolute (u32 (v - previous));
         v ← read address 4;
         let scaled := Z.quot (i32 (i32 v * 3)) 2 in
         a ← absolute (u32 scaled);
         let amount := if a <? distance then Z.land (amount + 1) 255 else amount in
         c ← ext (Coarse index);
         v ← read address 4;
         mret (Z.shiftr (i32 (u32 (u32 (c * v) * 6))) (Z.land (amount + 2) 31), amount));
  mret (i16 (i32 (current - r.1)), r.2).

Record search := { current : Z * Z; previous : Z * Z; attempt : Z }.

Definition general_try (samples delay detail scratch pointer phase threshold total index fine_shift : Z)
    (n : Z) (s : search) : prg (flow search) :=
  write_current pointer phase 0 (current s).1 ;;
  write_current pointer phase 1 (current s).2 ;;
  run (Delay delay) ;;
  t ← target ESTIMATE;
  run (Estimate t samples scratch) ;;
  (if negb (detail =? 0) then
     second ← read (pointer + 2) 2;
     first ← read pointer 2;
     run (Log 0 [u32 (i16 first); u32 (i16 second)]) ;;
     p ← read_pair scratch;
     run (Log 1 [p.1; p.2])
   else mret tt) ;;
  ok ← settled scratch threshold;
  if (ok : bool) then mret (Break s) else
  previous ← (if attempt s =? 0 then read_pair scratch else mret (previous s));
  let amount := total + 6 in
  a ← adjust phase threshold index fine_shift scratch previous.1 (current s).1 amount;
  b ← adjust phase threshold index fine_shift (scratch + 4) previous.2 (current s).2 a.2;
  previous ← read_pair scratch;
  mret (Next {| current := (clamp 0 1022 a.1, clamp 0 1022 b.1); previous := previous; attempt := attempt s + 1 |}).

Definition general_phase (samples coefficients delay summary detail scratch total index fine_shift : Z)
    (phase : Z) (current : Z * Z) : prg (Z * Z) :=
  let '(threshold, budget, current) :=
    if phase =? 0 then (if 2 <? total then 15 else 5, 12%nat, current)
    else (if 3 <? total then 5 else 2, 4%nat, (512, 512)) in
  let pointer := coefficients + phase * 4 in
  s ← for_loop (range 0 budget) {| current := current; previous := (0, 0); attempt := 0 |}
        (general_try samples delay detail scratch pointer phase threshold total index fine_shift);
  (if negb (summary =? 0) then
     p ← read_pair scratch;
     run (Log 2 [phase + 1; total; index; p.1; p.2; attempt s])
   else mret tt) ;;
  (if negb (detail =? 0) then run (Log 3 []) else mret tt) ;;
  mret (DcSearch.current s).

Definition general (samples coefficients delay summary detail : Z) : prg unit :=
  let samples := if s3 then u16 samples else samples in
  let delay := if s3 then u16 delay else delay in
  let summary := if s3 then u8 summary else summary in
  let detail := if s3 then u8 detail else detail in
  t ← target READ;
  state ← ext (PbusRead t 1 2);
  let low := count_ones (Z.land state 15) in
  let total := count_ones (Z.land state 63) in
  let index := Z.land (Z.shiftr state 6) 255 in
  force 2 2 256 ;;
  force 3 2 256 ;;
  let fine_shift := (if low =? 0 then 4 else low + 5) + 2 in
  a ← read coefficients 2;
  b ← read (coefficients + 2) 2;
  scratch ← ext (Local 0);
  for_each_with (range 0 2) (i16 (i16 a * 2), i16 (i16 b * 2))
    (general_phase samples coefficients delay summary detail scratch total index fine_shift) ;;
  if negb (summary =? 0) then run (Log 3 []) else mret tt.

(** ** [one_step] *)

(** What the measurement of a step gives: its score and the shift amount. *)
Definition one_step_measure (policy mode samples output zero set gain : Z) : prg (Z * Z) :=
  if mode =? 1 then
    run (Delay 10) ;;
    run (Minimum samples output) ;;
    score ← read (output + 8) 4;
    mret (i32 score, Z.max 0 (gain - 1))
  else
    force 1 2 0 ;;
    run (Delay 10) ;;
    run (Minimum samples zero) ;;
    force 1 2 32 ;;
    run (Delay 10) ;;
    run (Minimum samples set) ;;
    sx ← read set 4;
    zx ← read zero 4;
    sy ← read (set + 4) 4;
    zy ← read (zero + 4) 4;
    let dx := u32 (sx - zx) in
    let dy := u32 (sy - zy) in
    (if s3 then write (output + 4) 4 dy ;; write output 4 dx
     else write output 4 dx ;; write (output + 4) 4 dy) ;;
    zs ← read (zero + 8) 4;
    ss ← read (set + 8) 4;
    let score := Z.max (i32 zs) (i32 ss) in
    if negb (policy =? 0) then mret (score, 3)
    else a ← absolute dx; mret (score, bool_to_Z (a <? 5)).

Definition shifted (address amount : Z) : prg Z :=
  v ← read address 4;
  mret (i16 (Z.shiftr (i32 v) (Z.land amount 31))).

Definition change_of (output threshold amount i : Z) : prg Z :=
  a ← absolute_at (output + i * 4);
  if threshold <=? a then shifted (output + i * 4) amount else mret 0.

Definition change_fallback (zero output amount i change : Z) : prg Z :=
  if negb (change =? 0) then mret change else
  a ← absolute_at (zero + i * 4);
  if 49 <? a then shifted (zero + i * 4) amount
  else v ← read (output + i * 4) 4; mret (Z.sgn (i32 v)).

(** The corrections of a step outside mode 1. *)
Definition change_limits (mode output score backup : Z) (changes : Z * Z) : prg (Z * Z) :=
  if mode =? 1 then mret changes else
  changes ← (if 44 <? score then mret (0, 0)
             else if negb s3 then
               a ← absolute_at output;
               (if a <=? 9 then absolute_at (output + 4) ;; mret tt else mret tt) ;;
               mret changes
             else mret changes);
  if 436 <? backup then
    t ← target 40;
    a ← ext (Limit t changes.1);
    t ← target 40;
    b ← ext (Limit t changes.2);
    mret (i16 a, i16 b)
  else mret changes.

Definition converged (output threshold score : Z) : prg bool :=
  a ← absolute_at output;
  if threshold <? a then mret false else
  b ← absolute_at (output + 4);
  if threshold <? b then mret false else mret (score <=? 45).

Definition one_step_try (policy mode samples coefficients output status zero set gain threshold bank backup : Z)
    (n : Z) (pair : Z * Z) : prg (flow (Z * Z)) :=
  let '(first, second) := pair in
  t ← target FORCE;
  let saved := u16 first in
  write coefficients 2 (u32 first) ;;
  write (coefficients + 2) 2 (u32 second) ;;
  run (Force t 2 bank saved) ;;
  t ← target FORCE;
  value ← read (coefficients + 2) 2;
  run (Force t 3 bank value) ;;
  '(score, amount) ← one_step_measure policy mode samples output zero set gain;
  c0 ← change_of output threshold amount 0;
  c1 ← change_of output threshold amount 1;
  c0 ← change_fallback zero output amount 0 c0;
  c1 ← change_fallback zero output amount 1 c1;
  changes ← change_limits mode output score backup (c0, c1);
  ok ← converged output threshold score;
  if (ok : bool) then write status 1 1 ;; mret (Break pair) else
  a ← absolute_at output;
  let first := if threshold <? a then i16 (saved - changes.1) else first in
  b ← absolute_at (output + 4);
  let second := if threshold <? b then i16 (second - changes.2) else second in
  mret (Next (clamp 0 511 first, clamp 0 511 second)).

Definition clamp_coefficient (address : Z) : prg unit :=
  v ← read address 2;
  let value := i16 v in
  if (0 <=? value) && (value <=? 511) then mret tt
  else write address 2 (u32 (clamp 0 511 value)).

Definition force_coefficient (coefficients bank i : Z) : prg unit :=
  t ← target FORCE;
  value ← read (coefficients + i * 2) 2;
  run (Force t (2 + i) bank value).

Definition clear3 (address : Z) : prg unit :=
  write address 4 0 ;; write (address + 4) 4 0 ;; write (address + 8) 4 0.

Definition one_step_threshold (policy mode gain : Z) : Z :=
  if mode =? 1 then Z.max (Z.max 0 (gain - 1)) 1
  else if negb (policy =? 0) then (if s3 then 10 else 6) else 1.

Definition one_step (policy mode samples coefficients output status : Z) : prg unit :=
  let policy := if s3 then u8 policy else policy in
  let mode := if s3 then u8 mode else mode in
  let samples := if s3 then u16 samples else samples in
  first ← read coefficients 2;
  second ← read (coefficients + 2) 2;
  zero ← ext (Local 0);
  set ← ext (Local 1);
  clear3 zero ;;
  clear3 set ;;
  t ← target READ;
  state ← ext (PbusRead t 1 2);
  t ← target READ;
  backup ← ext (PbusRead t 0 1);
  let gain := count_ones (Z.land (u8 state) 63) in
  let threshold := one_step_threshold policy mode gain in
  let bank := if mode =? 1 then 2 else 1 in
  let budget := if mode =? 1 then 8%nat else 16%nat in
  write status 1 0 ;;
  for_loop (range 0 budget) (i16 first, i16 second)
    (one_step_try policy mode samples coefficients output status zero set gain threshold bank backup) ;;
  clamp_coefficient coefficients ;;
  clamp_coefficient (coefficients + 2) ;;
  force_coefficient coefficients bank 0 ;;
  force_coefficient coefficients bank 1.

End DcSearch.
End DcSearch.
