(* ===== verification/PhyDcSpec.v ===== *)
(** * Correctness of the receive DC calibration *)

From S2P Require Import Prelude Program PhyAccess PhyDc.

(** ** Filling the channel table *)
Module SortSpec.
Import RxDc.

Section Sort.
Variable s3 : bool.
Variables data status : Z.

(** The difference callback answers the absolute value. *)
Definition sort_frame (y : method) (m : mem) (x : Z) (m' : mem) : Prop :=
  match y with
  | TableGlobal => m' = m
  | Difference _ v => x = Z.abs v /\ m' = m
  | _ => True
  end.

Abbreviation wpm := (wp no_guard (mem_io sort_frame)).
Abbreviation cols := (columns s3).

(** Status byte and data word of a channel in a column. *)
Definition st (m : mem) (c ch : nat) : Z := m (status + Z.of_nat ch * cols + Z.of_nat c).
Definition word (m : mem) (c ch : nat) : Z := mem_read m (data + (Z.of_nat ch * cols + Z.of_nat c) * 4) 4.

Definition mask (v : Z) : Z := Z.land v 0xffff01ff.

(** The status that makes a channel of column [c] a source: 1, except in
    column 0 when no channel has it. *)
Definition preferred (m : mem) (c : nat) : Z :=
  if decide (c = 0%nat /\ Forall (fun ch => st m c ch <> 1) (seq 0 14)) then 2 else 1.

Lemma preferred_range m c : 1 <= preferred m c <= 2.
Proof. unfold preferred. case_decide; lia. Qed.

Definition distance (a b : nat) : Z := Z.abs (Z.of_nat a - Z.of_nat b).

(** [s] is the nearest source to [ch], the lower one of two; a channel with no
    source in its column is its own. *)
Definition is_source (m : mem) (c ch s : nat) : Prop :=
  (s < 14)%nat /\
  ((s = ch /\ forall x, (x < 14)%nat -> st m c x <> preferred m c) \/
   (st m c s = preferred m c /\ forall x, (x < 14)%nat -> st m c x = preferred m c ->
      distance ch s < distance ch x \/ (distance ch s = distance ch x /\ (s <= x)%nat))).

Definition entry_filled (m m' : mem) (c ch : nat) : Prop :=
  if st m c ch =? 1 then word m' c ch = word m c ch
  else exists s, is_source m c ch s /\ word m' c ch = mask (word m c s).

Lemma cols_cases : cols = 1 \/ cols = 3.
Proof. unfold columns. destruct s3; auto. Qed.

Lemma source_of_source m c s s' : st m c s = preferred m c -> (s < 14)%nat -> is_source m c s s' -> s' = s.
Proof.
  intros Hs Hlt (Hlt' & [[-> _]|[_ Hmin]]); [done|]. destruct (Hmin s Hlt Hs); unfold distance in *; lia.
Qed.

Lemma wp_target slot (Q : Z -> mem -> Prop) m : (forall x, Q x m) -> wpm (target slot) Q m.
Proof. intros HQ. unfold target. apply wp_bind, wp_io_ext. intros x m' ->. io_run. apply HQ. Qed.

Lemma candidates_spec m m0 c ch (Q : Z * Z -> mem -> Prop) :
  (forall x, (x < 14)%nat -> st m c x = st m0 c x) -> (c < Z.to_nat cols)%nat -> (ch < 14)%nat ->
  (forall s d, is_source m0 c ch s -> Q (Z.of_nat s, d) m) ->
  wpm (for_each_with (range 0 14) (Z.of_nat ch, 20)
         (candidate_step s3 status (Z.of_nat c) (preferred m0 c) (Z.of_nat ch))) Q m.
Proof.
  intros Hst Hc Hch HQ.
  apply (wp_for_each_range _ _ (fun k b m' => m' = m /\ exists s d, b = (Z.of_nat s, d) /\
    ((s = ch /\ d = 20 /\ forall x, (x < k)%nat -> st m0 c x <> preferred m0 c) \/
     ((s < k)%nat /\ d = distance ch s /\ st m0 c s = preferred m0 c /\
      forall x, (x < k)%nat -> st m0 c x = preferred m0 c ->
        distance ch s < distance ch x \/ (distance ch s = distance ch x /\ (s <= x)%nat))))).
  - lia.
  - split; [done|]. exists ch, 20. split; [done|]. left. split_and!; [done..|]. lia.
  - intros k b m1 Hk (-> & s & d & -> & Hinv). unfold candidate_step. io_run. rewrite mem_read_1.
    fold (st m c k). rewrite Hst by lia.
    destruct (Z.eqb_spec (st m0 c k) (preferred m0 c)) as [Heq|Hne]; cbn [negb].
    + apply wp_bind, wp_target. intros t. apply wp_bind, wp_io_ext. intros x m' [-> ->]. apply wp_ret.
      split; [done|]. assert (i8 (Z.abs (Z.of_nat ch - Z.of_nat k)) = distance ch k) as ->.
      { apply sext_small; [lia|]. unfold in_swidth, distance. lia. }
      cbn [snd]. destruct (Z.ltb_spec (distance ch k) d) as [Hlt|Hge].
      * exists k, (distance ch k). split; [done|]. right. split_and!; [lia|done|done|].
        intros x Hx Hpx. destruct (decide (x = k)) as [->|]; [right; lia|].
        destruct Hinv as [(-> & -> & Hno)|(Hs & -> & Hps & Hmin)]; [exfalso; apply (Hno x); [lia|done]|].
        destruct (Hmin x ltac:(lia) Hpx); left; lia.
      * exists s, d. split; [done|]. right.
        destruct Hinv as [(-> & -> & Hno)|(Hs & -> & Hps & Hmin)]; [unfold distance in Hge; lia|].
        split_and!; [lia|done|done|]. intros x Hx Hpx. destruct (decide (x = k)) as [->|]; [|apply Hmin; [lia|done]].
        destruct (decide (distance ch s < distance ch k)); [by left|right; lia].
    + apply wp_ret. split; [done|]. exists s, d. split; [done|].
      destruct Hinv as [(-> & -> & Hno)|(Hs & -> & Hps & Hmin)]; [left|right]; split_and!; try done; try lia.
      * intros x Hx. destruct (decide (x = k)) as [->|]; [done|]. apply Hno. lia.
      * intros x Hx Hpx. destruct (decide (x = k)) as [->|]; [done|]. apply Hmin; [lia|done].
  - intros b m' (-> & s & d & -> & Hinv). apply HQ.
    destruct Hinv as [(-> & -> & Hno)|(Hs & -> & Hps & Hmin)]; (split; [lia|]); [left|right]; by split.
Qed.

(** Columns below [col] and, in [col], channels below [k] are filled. *)
Definition filled_upto (col k : nat) (m m' : mem) : Prop :=
  (forall a, a < data \/ data + 56 * cols <= a -> m' a = m a) /\
  forall c ch, (c < Z.to_nat cols)%nat -> (ch < 14)%nat ->
    if decide (c < col \/ (c = col /\ ch < k))%nat then entry_filled m m' c ch else word m' c ch = word m c ch.

Hypothesis Happart : apart status (14 * cols) data (56 * cols).

Lemma filled_status col k m m' c ch :
  filled_upto col k m m' -> (c < Z.to_nat cols)%nat -> (ch < 14)%nat -> st m' c ch = st m c ch.
Proof.
  intros [Hout _] Hc Hch. apply Hout. unfold apart in Happart. destruct cols_cases as [Hcols|Hcols]; rewrite Hcols in *; lia.
Qed.

Lemma word_write_other m c ch c' ch' v :
  (c < Z.to_nat cols)%nat -> (c' < Z.to_nat cols)%nat -> ~ (c = c' /\ ch = ch') ->
  word (mem_write m (data + (Z.of_nat ch * cols + Z.of_nat c) * 4) 4 v) c' ch' = word m c' ch'.
Proof.
  intros Hc Hc' Hne. apply mem_read_write_other.
  destruct cols_cases as [Hcols|Hcols]; rewrite Hcols in *; lia.
Qed.

Lemma mask_range v : 0 <= mask v < 256 ^ 4.
Proof. unfold mask. pose proof (land_le_r v 0xffff01ff). lia. Qed.

Lemma mask_idem v : mask (mask v) = mask v.
Proof. unfold mask. by rewrite <- Z.land_assoc. Qed.

(** What the code copies from a source is masked source data, whether the
    source has been rewritten already or not. *)
Lemma source_word m m' c ch s :
  filled_upto c ch m m' -> (c < Z.to_nat cols)%nat -> (ch < 14)%nat -> is_source m c ch s ->
  mask (word m' c s) = mask (word m c s).
Proof.
  intros [_ Hw] Hc Hch Hs. pose proof Hs as [Hs14 Hcase]. specialize (Hw c s Hc Hs14).
  destruct (decide _) as [Hd|Hd]; [|by rewrite Hw].
  destruct Hcase as [[-> _]|[Hp _]]; [lia|]. unfold entry_filled in Hw.
  destruct (st m c s =? 1); [by rewrite Hw|]. destruct Hw as (s' & Hs' & ->).
  by rewrite (source_of_source m c s s' Hp Hs14 Hs'), mask_idem.
Qed.

Lemma sort_channel_spec m m' c ch :
  filled_upto c ch m m' -> (c < Z.to_nat cols)%nat -> (ch < 14)%nat ->
  wpm (sort_channel s3 data status (Z.of_nat c) (preferred m c) (Z.of_nat ch)) (fun _ => filled_upto c (S ch) m) m'.
Proof.
  intros Hf Hc Hch. unfold sort_channel. io_run. rewrite mem_read_1. fold (st m' c ch).
  rewrite (filled_status _ _ _ _ _ _ Hf Hc Hch). destruct (st m c ch =? 1) eqn:Hst.
  - apply wp_ret. destruct Hf as [Hout Hw]. split; [done|]. intros c' ch' Hc' Hch'. specialize (Hw c' ch' Hc' Hch').
    repeat destruct (decide _); try done; try lia.
    assert (c' = c /\ ch' = ch) as [-> ->] by lia. unfold entry_filled. by rewrite Hst.
  - apply wp_bind, (candidates_spec _ m); [by intros; eapply filled_status|done..|]. intros s d Hs. io_run. cbn [fst].
    fold (word m' c s). fold (mask (word m' c s)). rewrite (source_word m m' c ch s) by done.
    destruct Hf as [Hout Hw]. split.
    + intros a Ha. rewrite mem_write_out; [by apply Hout|]. destruct cols_cases as [Hcols|Hcols]; rewrite Hcols in *; lia.
    + intros c' ch' Hc' Hch'. destruct (decide (c' = c /\ ch' = ch)) as [[-> ->]|Hne].
      * rewrite decide_True by lia. unfold entry_filled. rewrite Hst. exists s. split; [done|].
        unfold word at 1. rewrite mem_read_write_same by lia. apply Z.mod_small, mask_range.
      * specialize (Hw c' ch' Hc' Hch'). unfold entry_filled in *. rewrite !word_write_other by (done || lia).
        repeat destruct (decide _); try done; lia.
Qed.

Lemma filled_next c m m' : filled_upto c 14 m m' -> filled_upto (S c) 0 m m'.
Proof.
  intros [Hout Hw]. split; [done|]. intros c' ch' Hc' Hch'. specialize (Hw c' ch' Hc' Hch').
  repeat destruct (decide _); try done; lia.
Qed.

(** Count of the channels below [k] with status 1. *)
Definition ones (m : mem) (c k : nat) : Z := Z.of_nat (length (filter (fun ch => st m c ch = 1) (seq 0 k))).

Lemma ones_S m c k : ones m c (S k) = ones m c k + (if st m c k =? 1 then 1 else 0).
Proof.
  unfold ones. rewrite seq_S, filter_app, length_app, Nat.add_0_l, filter_cons, filter_nil.
  destruct (Z.eqb_spec (st m c k) 1); [rewrite decide_True by done|rewrite decide_False by done]; cbn [length]; lia.
Qed.

Lemma ones_le m c k : 0 <= ones m c k <= Z.of_nat k.
Proof.
  unfold ones. pose proof (length_filter (fun ch => st m c ch = 1) (seq 0 k)) as Hl. rewrite length_seq in Hl. lia.
Qed.

Lemma ones_zero m c : ones m c 14 = 0 <-> Forall (fun ch => st m c ch <> 1) (seq 0 14).
Proof.
  unfold ones. split.
  - intros Hl. apply Forall_forall. intros ch Hch Hst.
    assert (ch ∈ filter (fun ch => st m c ch = 1) (seq 0 14)) as Hin by by apply list_elem_of_filter.
    destruct (filter (fun ch => st m c ch = 1) (seq 0 14)); [by apply not_elem_of_nil in Hin|cbn [length] in Hl; lia].
  - intros Hf. destruct (filter (fun ch => st m c ch = 1) (seq 0 14)) as [|x l] eqn:Hl; [done|].
    assert (x ∈ filter (fun ch => st m c ch = 1) (seq 0 14)) as Hin by (rewrite Hl; apply elem_of_cons; by left).
    apply list_elem_of_filter in Hin as [Hx Hin]. rewrite Forall_forall in Hf. by destruct (Hf x Hin).
Qed.

Lemma preference_count_spec m m' c p :
  (forall x, (x < 14)%nat -> st m' c x = st m c x) -> 0 <= p <= 2 ->
  wpm (preference_count s3 status (Z.of_nat c) p) (fun r m1 => r = p + ones m c 14 /\ m1 = m') m'.
Proof.
  intros Hst Hp. unfold preference_count.
  apply (wp_for_each_range _ _ (fun k r m1 => r = p + ones m c k /\ m1 = m')).
  - lia.
  - split; [|done]. change (ones m c 0) with 0. lia.
  - intros k r m1 Hk [-> ->]. io_run. rewrite mem_read_1. fold (st m' c k). rewrite Hst, ones_S by lia.
    split; [|done]. destruct (st m c k =? 1); [|lia]. pose proof (ones_le m c k). rewrite wrap_small; [lia|].
    unfold in_width. lia.
  - done.
Qed.

Lemma sort_column_spec m m' c p :
  filled_upto c 0 m m' -> (c < Z.to_nat cols)%nat -> (if decide (c = 0%nat) then p = 0 else 1 <= p <= 2) ->
  wpm (sort_column s3 data status (Z.of_nat c) p) (fun r m1 => filled_upto (S c) 0 m m1 /\ 1 <= r <= 2) m'.
Proof.
  intros Hf Hc Hp. unfold sort_column. apply wp_bind.
  eapply wp_mono; [|apply (preference_count_spec m); [by intros; eapply filled_status|destruct (decide _); lia]].
  intros r m1 [-> ->]. cbv beta iota zeta.
  assert ((if p + ones m c 14 =? 0 then 2 else 1) = preferred m c) as ->.
  { unfold preferred. pose proof (ones_le m c 14). destruct (decide (c = 0%nat)) as [->|Hne].
    - subst p. destruct (Z.eqb_spec (0 + ones m 0 14) 0) as [Hz|Hz].
      + rewrite decide_True; [done|]. split; [done|]. apply ones_zero. lia.
      + rewrite decide_False; [done|]. intros [_ Hz'%ones_zero]. lia.
    - rewrite decide_False by tauto. destruct (Z.eqb_spec (p + ones m c 14) 0); [lia|done]. }
  apply wp_bind, (wp_for_range _ _ (fun k => filled_upto c k m)); [lia|done| |].
  - intros k m2 Hk Hf2. apply sort_channel_spec; [done..|lia].
  - intros m2 Hf2. apply wp_ret. split; [by apply filled_next|]. apply preferred_range.
Qed.

(** C32: filling the DC table copies each channel's value from the nearest calibrated channel.  In
    every column, a channel of status 1 keeps its word; any other channel gets, with the undefined
    bits masked off, the original word of the nearest channel whose status is preferred, the lower
    one of two equally near, or its own word when there is none.  Status 1 is preferred, and status 2
    in the first column when no channel has status 1; the in-place update never copies a value that
    was itself copied from elsewhere.  Nothing outside the table changes. *)
Theorem sort_copies_nearest h m :
  obeys_contract no_guard (mem_io sort_frame) h ->
  exists x m', exec h (sort s3 data status) m = Some (x, m') /\
    (forall a, a < data \/ data + 56 * cols <= a -> m' a = m a) /\
    forall c ch, (c < Z.to_nat cols)%nat -> (ch < 14)%nat -> entry_filled m m' c ch.
Proof.
  intros Hh. apply (exec_wp _ _ h _ _ m Hh). unfold sort.
  apply wp_bind, (wp_for_each_range _ _ (fun c p m' =>
    filled_upto c 0 m m' /\ if decide (c = 0%nat) then p = 0 else 1 <= p <= 2)); [lia| | |].
  - split; [|done]. split; [done|]. intros c ch _ _. by rewrite decide_False by lia.
  - intros c p m1 Hc [Hf Hp]. eapply wp_mono; [|by apply sort_column_spec; [| lia |]].
    intros r m2 [Hf2 Hr]. split; [done|]. by rewrite decide_False by lia.
  - intros p m1 [[Hout Hw] _]. apply wp_ret. split; [done|]. intros c ch Hc Hch.
    specialize (Hw c ch Hc Hch). by rewrite decide_True in Hw by lia.
Qed.

(** An environment with the absolute value as difference. *)
Definition sort_ref : io method -> mem -> Z * mem :=
  mem_handler (fun y m => match y with Difference _ v => (Z.abs v, m) | _ => (0, m) end).

Lemma sort_ref_obeys : obeys_contract no_guard (mem_io sort_frame) sort_ref.
Proof. apply mem_handler_obeys. by intros [] m. Qed.

End Sort.

Lemma sort_copies_nearest_witness : exists x m',
  exec sort_ref (sort true 100 0) (fun a => a) = Some (x, m') /\
  (forall a, a < 100 \/ 100 + 56 * columns true <= a -> m' a = a) /\
  forall c ch, (c < Z.to_nat (columns true))%nat -> (ch < 14)%nat -> entry_filled true 100 0 (fun a => a) m' c ch.
Proof.
  apply (sort_copies_nearest true 100 0).
  - unfold apart. cbn. lia.
  - apply sort_ref_obeys.
Defined.
End SortSpec.

(** ** The DC search of one channel *)
Module SearchSpec.
Import DcSearch.

(** The environment's state: memory, and what the PBUS registers were forced
    to, by block and bank. *)
Abbreviation pbus := (Z -> Z -> Z).

Section Search.
Variable s3 : bool.
Variables coefficients output status zero set : Z.

Definition bytes (m : mem) : Prop := forall a, is_u8 (m a).

(** The estimator may write only the three words it is passed. *)
Definition search_frame (y : method) (s : mem * pbus) (x : Z) (s' : mem * pbus) : Prop :=
  match y with
  | Force _ block bank v =>
      s' = (s.1, fun bl bk => if (bl =? block) && (bk =? bank) then v else s.2 bl bk)
  | Minimum _ o | Estimate _ _ o =>
      s'.2 = s.2 /\ (bytes s.1 -> bytes s'.1) /\ forall a, a < o \/ o + 12 <= a -> s'.1 a = s.1 a
  | Difference _ v => x = Z.abs v /\ s' = s
  | Local tag => x = (if tag =? 0 then zero else set) /\ s' = s
  | _ => s' = s
  end.

Abbreviation wpg := (wp no_guard (ghost_io search_frame)).

Record buffers_apart : Prop := {
  coef_output : apart coefficients 4 output 12;
  status_coef : apart status 1 coefficients 4;
  status_output : apart status 1 output 12;
  status_zero : apart status 1 zero 12;
  status_set : apart status 1 set 12;
}.

Definition quiet (e : io method) : Prop :=
  match e with
  | Read _ _ => True
  | Ext (TableGlobal | Coarse _ | PbusRead _ _ _ | Difference _ _ | Limit _ _ | Delay _ | Log _ _) => True
  | _ => False
  end.

Lemma quiet_same {A} (p : prog (io method) A) s : calls_only quiet p -> wpg p (fun _ s' => s' = s) s.
Proof.
  intros Hp. apply (wp_untouched _ _ quiet); [done|done|]. intros e s1 x s2 He Hx.
  destruct e as [| |[]]; simpl in *; try done; by destruct Hx.
Qed.

Lemma quiet_bind {A B} (p : prog (io method) A) (f : A -> prog (io method) B) (Q : B -> mem * pbus -> Prop) s :
  calls_only quiet p -> (forall a, wpg (f a) Q s) -> wpg (p ≫= f) Q s.
Proof. intros Hp Hf. apply wp_bind. eapply wp_mono; [|by apply quiet_same]. intros a ? ->. apply Hf. Qed.

Lemma quiet_target slot : calls_only quiet (target slot).
Proof. unfold target. io_calls; done. Qed.

Lemma quiet_absolute v : calls_only quiet (absolute s3 v).
Proof. unfold absolute. io_calls; [apply quiet_target|done]. Qed.

Lemma quiet_absolute_at a : calls_only quiet (absolute_at s3 a).
Proof. unfold absolute_at. io_calls; [done|apply quiet_absolute]. Qed.

Lemma quiet_shifted a n : calls_only quiet (shifted a n).
Proof. unfold shifted. by io_calls. Qed.

Lemma quiet_change_of o th n i : calls_only quiet (change_of s3 o th n i).
Proof. unfold change_of. io_calls; [apply quiet_absolute_at|apply quiet_shifted]. Qed.

Lemma quiet_change_fallback z o n i c : calls_only quiet (change_fallback s3 z o n i c).
Proof. unfold change_fallback. io_calls; [apply quiet_absolute_at|apply quiet_shifted|done]. Qed.

Lemma quiet_change_limits mode o score b cs : calls_only quiet (change_limits s3 mode o score b cs).
Proof. unfold change_limits. io_calls; [apply quiet_absolute_at..|apply quiet_target|done|apply quiet_target|done]. Qed.

Lemma wp_absolute_at a (Q : Z -> mem * pbus -> Prop) s :
  Q (Z.abs (i32 (mem_read s.1 a 4))) s -> wpg (absolute_at s3 a) Q s.
Proof.
  intros HQ. unfold absolute_at, absolute. apply wp_bind, wp_ghost_read, quiet_bind; [apply quiet_target|]. intros t.
  apply wp_ghost_ext. by intros x s' [-> ->].
Qed.

Lemma converged_spec th score s :
  wpg (converged s3 output th score) (fun b s' => s' = s /\ (b = true ->
    Z.abs (i32 (mem_read s.1 output 4)) <= th /\ Z.abs (i32 (mem_read s.1 (output + 4) 4)) <= th /\ score <= 45)) s.
Proof.
  unfold converged. apply wp_bind, wp_absolute_at. destruct (Z.ltb_spec th (Z.abs (i32 (mem_read s.1 output 4)))).
  { by apply wp_ret. }
  apply wp_bind, wp_absolute_at. destruct (Z.ltb_spec th (Z.abs (i32 (mem_read s.1 (output + 4) 4)))); [by apply wp_ret|].
  apply wp_ret. split; [done|]. rewrite Z.leb_le. lia.
Qed.

Hypothesis Hbuf : buffers_apart.

(** Calls of a measurement: they leave the status byte alone. *)
Definition measuring (e : io method) : Prop :=
  quiet e \/
  match e with
  | Write a w _ => (a = output \/ a = output + 4) /\ w = 4
  | Ext (Force _ _ _ _) => True
  | Ext (Minimum _ o) => o = output \/ o = zero \/ o = set
  | _ => False
  end.

Lemma measuring_quiet {A} (p : prog (io method) A) : calls_only quiet p -> calls_only measuring p.
Proof. apply calls_only_mono. by left. Qed.

Lemma measuring_force block bank v : calls_only measuring (force s3 block bank v).
Proof. unfold force. io_calls; [apply measuring_quiet, quiet_target|by right]. Qed.

Lemma measuring_measure policy mode samples gain :
  calls_only measuring (one_step_measure s3 policy mode samples output zero set gain).
Proof.
  unfold one_step_measure.
  io_calls; first [exact (measuring_force _ _ _)|exact (measuring_quiet _ (quiet_absolute _))|unfold measuring, quiet; tauto].
Qed.

(** The search has not succeeded yet. *)
Definition searching (s : mem * pbus) : Prop := s.1 status = 0 /\ bytes s.1.

Lemma searching_write s a w v : searching s -> apart status 1 a w -> searching (mem_write s.1 a w v, s.2).
Proof.
  intros [Hs Hu] Ha. unfold apart in Ha. split; cbn [fst]; [by rewrite mem_write_out by lia|].
  intros b. by apply mem_write_byte.
Qed.

Lemma measure_searching policy mode samples gain s :
  searching s -> wpg (one_step_measure s3 policy mode samples output zero set gain) (fun _ => searching) s.
Proof.
  destruct Hbuf as [? ? ? ? ?]. unfold apart in *.
  apply (wp_frame _ _ measuring searching); [apply measuring_measure|done|].
  intros e s1 x s2 He Hs1 Hx. destruct e as [a w|a w v|y]; [by destruct Hx as [_ ->]| |].
  - destruct He as [[]|[Ha ->]]. simpl in Hx. subst s2. apply searching_write; [done|]. unfold apart. lia.
  - destruct He as [He|He]; destruct y; simpl in *; try done; try (by rewrite Hx); try (by rewrite (proj2 Hx)).
    destruct Hx as (_ & Hu & Hx), Hs1 as [Hs1 Hb]. split; [|by apply Hu]. rewrite Hx; [done|lia].
Qed.

Definition within (m : mem) (th : Z) : Prop :=
  Z.abs (i32 (mem_read m output 4)) <= th /\ Z.abs (i32 (mem_read m (output + 4) 4)) <= th.

Lemma one_step_try_spec policy mode samples gain th bank backup n pair s :
  searching s ->
  wpg (one_step_try s3 policy mode samples coefficients output status zero set gain th bank backup n pair)
    (fun r s' => match r with
                 | Next _ => searching s'
                 | Break _ => s'.1 status = 1 /\ bytes s'.1 /\ within s'.1 th
                 end) s.
Proof.
  intros Hst. pose proof Hbuf as [? ? ? ? ?]. unfold apart in *. unfold one_step_try. destruct pair as [first second].
  apply quiet_bind; [apply quiet_target|]. intros t. ghost_run. apply wp_ghost_run. intros ? ? ->.
  apply quiet_bind; [apply quiet_target|]. intros t2. apply wp_bind, wp_ghost_read, wp_bind, wp_ghost_run. intros ? ? ->.
  apply wp_bind. eapply wp_mono.
  2: { apply measure_searching. cbn [fst snd]. apply (searching_write (_, _)); [apply searching_write|]; unfold apart; (done || lia). }
  intros [score amount] s1 Hs1.
  do 4 (apply quiet_bind; [apply quiet_change_of || apply quiet_change_fallback|intros ?]).
  apply quiet_bind; [apply quiet_change_limits|]. intros changes. apply wp_bind.
  eapply wp_mono; [|apply converged_spec]. intros b s2 [-> Hb]. destruct b.
  - ghost_run. cbn [fst]. split; [by rewrite mem_write_1|]. split; [intros a'; apply mem_write_byte, Hs1|]. unfold within. rewrite !mem_read_write_other by lia. destruct (Hb eq_refl) as (? & ? & _). done.
  - do 2 (apply quiet_bind; [apply quiet_absolute_at|intros ?]). by apply wp_ret.
Qed.

Lemma clamp_coefficient_spec a s : (forall b, is_u8 (s.1 b)) ->
  wpg (clamp_coefficient a) (fun _ s' => 0 <= mem_read s'.1 a 2 <= 511 /\ s'.2 = s.2 /\
    (forall b, is_u8 (s'.1 b)) /\ forall b, b < a \/ a + 2 <= b -> s'.1 b = s.1 b) s.
Proof.
  intros Hu. unfold clamp_coefficient. ghost_run. cbv zeta. set (v := mem_read s.1 a 2).
  assert (0 <= v < 2 ^ 16) as Hv by (apply (mem_read_range s.1 a 2 Hu); lia).
  destruct ((0 <=? i16 v) && (i16 v <=? 511)) eqn:Hr; ghost_run.
  - split; [|by split_and!]. fold v. apply andb_true_iff in Hr as [H0%Z.leb_le H1%Z.leb_le].
    unfold sext in *. rewrite (wrap_small 16 v) in * by done. destruct (v <? 2 ^ (16 - 1)); lia.
  - split_and!; cbn [fst].
    + rewrite mem_read_write_same by lia. apply Z.mod_pos_bound. lia.
    + rewrite mem_read_write_same by lia. unfold clamp. rewrite (wrap_small 32), Z.mod_small; unfold in_width; lia.
    + done.
    + intros b. by apply mem_write_byte.
    + intros b Hb. apply mem_write_out. lia.
Qed.

Lemma count_ones_63 v : count_ones (Z.land v 63) <= 6.
Proof.
  assert (Forall (fun x => count_ones x <= 6) (seqZ 0 64)) as Hf by decide_now.
  rewrite Forall_forall in Hf. apply Hf, in_seqZ. pose proof (land_le_r v 63). lia.
Qed.

(** The error a successful search leaves at most. *)
Definition tolerance (policy mode : Z) : Z :=
  if mode =? 1 then 5 else if negb (policy =? 0) then (if s3 then 10 else 6) else 1.

Lemma threshold_tolerance policy mode v :
  one_step_threshold s3 policy mode (count_ones (Z.land v 63)) <= tolerance policy mode.
Proof.
  pose proof (count_ones_63 v). unfold one_step_threshold, tolerance. destruct (mode =? 1); [lia|].
  destruct (negb (policy =? 0)), s3; lia.
Qed.

(** Success or not, as the status byte says. *)
Definition outcome (th : Z) (s : mem * pbus) : Prop :=
  s.1 status = 0 \/ (s.1 status = 1 /\ within s.1 th).

Lemma outcome_frame th s s' :
  outcome th s -> (forall b, b < coefficients \/ coefficients + 4 <= b -> s'.1 b = s.1 b) -> outcome th s'.
Proof.
  pose proof Hbuf as [? ? ? ? ?]. unfold apart in *. intros Ho Hf. unfold outcome, within in *.
  rewrite (mem_read_ext s'.1 s.1 output 4), (mem_read_ext s'.1 s.1 (output + 4) 4), Hf; [done|lia|..]; intros; apply Hf; lia.
Qed.

Lemma search_loop_spec policy mode samples gain th bank backup budget pair s :
  searching s ->
  wpg (for_loop (range 0 budget) pair
         (one_step_try s3 policy mode samples coefficients output status zero set gain th bank backup))
    (fun _ s' => bytes s'.1 /\ outcome th s') s.
Proof.
  intros Hs. apply (wp_for_loop _ _ (fun _ _ => searching)); [done| |].
  - intros i l b s1 Hs1. eapply wp_mono; [|by apply one_step_try_spec].
    intros [b'|b'] s2; [done|]. intros (? & ? & ?). split; [done|]. by right.
  - intros b s1 [? ?]. split; [done|]. by left.
Qed.

Lemma force_coefficient_spec bank i (Q : unit -> mem * pbus -> Prop) s :
  Q tt (s.1, fun bl bk => if (bl =? 2 + i) && (bk =? bank) then mem_read s.1 (coefficients + i * 2) 2 else s.2 bl bk) ->
  wpg (force_coefficient s3 coefficients bank i) Q s.
Proof.
  intros HQ. unfold force_coefficient. apply quiet_bind; [apply quiet_target|]. intros t.
  apply wp_bind, wp_ghost_read, wp_ghost_run. by intros ? ? ->.
Qed.

(** The coefficient of component [i] is in range and programmed. *)
Definition programmed (bank : Z) (s : mem * pbus) (i : Z) : Prop :=
  let v := mem_read s.1 (coefficients + i * 2) 2 in 0 <= v <= 511 /\ s.2 (2 + i) bank = v.

Lemma finish_spec bank th s :
  bytes s.1 -> outcome th s ->
  wpg (clamp_coefficient coefficients ;; clamp_coefficient (coefficients + 2) ;;
       force_coefficient s3 coefficients bank 0 ;; force_coefficient s3 coefficients bank 1)
    (fun _ s' => programmed bank s' 0 /\ programmed bank s' 1 /\ outcome th s') s.
Proof.
  intros Hu Ho. apply wp_bind. eapply wp_mono; [|by apply clamp_coefficient_spec].
  intros ? s1 (Hr1 & _ & Hu1 & Hf1). apply wp_bind. eapply wp_mono; [|by apply clamp_coefficient_spec].
  intros ? s2 (Hr2 & _ & Hu2 & Hf2). apply wp_bind, force_coefficient_spec, force_coefficient_spec. cbn [fst snd].
  assert (0 <= mem_read s2.1 coefficients 2 <= 511) as Hr1'.
  { rewrite (mem_read_ext s2.1 s1.1); [done|]. intros b Hb. apply Hf2. lia. }
  split_and!.
  - unfold programmed. cbn [fst snd]. by rewrite Z.eqb_refl, Z.mul_0_l, Z.add_0_r.
  - unfold programmed. cbn [fst snd]. by rewrite !Z.eqb_refl.
  - apply (outcome_frame th s); [done|]. cbn [fst]. intros b Hb. rewrite Hf2, Hf1 by lia. done.
Qed.

Lemma clear3_spec a (Q : unit -> mem * pbus -> Prop) s :
  bytes s.1 -> (forall s', bytes s'.1 -> Q tt s') -> wpg (clear3 a) Q s.
Proof. intros Hu HQ. unfold clear3. ghost_run. apply HQ. cbn [fst]. repeat (intros ?; apply mem_write_byte). done. Qed.

Definition narrow (v : Z) : Z := if s3 then u8 v else v.

(** ** How often the search measures *)

Definition measures (e : io method) : bool :=
  match e with Ext (Minimum _ _ | Estimate _ _ _) => true | _ => false end.

Ltac no_measure := apply at_most_none; unfold target, force, shifted, absolute_at, absolute; io_calls; done.

Lemma at_most_measure policy mode samples zero' set' gain :
  at_most measures (if mode =? 1 then 1 else 2) (one_step_measure s3 policy mode samples output zero' set' gain).
Proof.
  unfold one_step_measure. destruct (mode =? 1).
  - apply (at_most_bind _ 0 1); [no_measure|]. intros _. apply (at_most_bind _ 1 0); [done|]. intros _. no_measure.
  - do 2 (apply (at_most_bind _ 0 2); [no_measure|]; intros _).
    apply (at_most_bind _ 1 1); [done|]. intros _.
    do 2 (apply (at_most_bind _ 0 1); [no_measure|]; intros _).
    apply (at_most_bind _ 1 0); [done|]. intros _. no_measure.
Qed.

Lemma at_most_try policy mode samples zero' set' gain th bank backup n pair :
  at_most measures (if mode =? 1 then 1 else 2)
    (one_step_try s3 policy mode samples coefficients output status zero' set' gain th bank backup n pair).
Proof.
  unfold one_step_try. destruct pair as [first second]. set (k := if mode =? 1 then 1%nat else 2%nat).
  do 7 (apply (at_most_bind _ 0 k); [no_measure|]; intros ?). rewrite <- (Nat.add_0_r k).
  apply at_most_bind; [apply at_most_measure|]. intros [score amount].
  unfold change_of, change_fallback, change_limits, converged. no_measure.
Qed.

Lemma at_most_one_step policy mode samples :
  at_most measures (if narrow mode =? 1 then 8 else 32) (one_step s3 policy mode samples coefficients output status).
Proof.
  unfold one_step. fold (narrow policy) (narrow mode). cbv zeta. set (k := if narrow mode =? 1 then 8%nat else 32%nat).
  assert (Hb : (length (range 0 (if (narrow mode =? 1)%Z then 8%nat else 16%nat)) * (if (narrow mode =? 1)%Z then 1 else 2))%nat = k).
  { unfold k. by destruct (narrow mode =? 1). }
  do 11 (apply (at_most_bind _ 0 k); [unfold clear3; no_measure|]; intros ?). rewrite <- (Nat.add_0_r k).
  apply at_most_bind; [rewrite <- Hb; apply at_most_for_loop; intros; apply at_most_try|].
  intros _. unfold clamp_coefficient, force_coefficient. no_measure.
Qed.

(** C33: the DC search of one channel always ends with usable coefficients.  Whatever the estimator
    measures and whatever coefficients it starts from, the search returns, after at most 8 measurements
    in mode 1 and otherwise at most 32 (16 steps of two); it leaves both coefficients between 0 and 511
    and exactly these values programmed in the PBUS, in the bank of the mode; the status byte is 0 or 1,
    and when it is 1 both measured components are within the tolerance, 5 in mode 1 and otherwise 1, or
    with a policy 6 on the C3 and 10 on the S3.  Assumed are the caller's buffers, of which the status
    byte overlaps none and the coefficients do not overlap the output, an estimator that writes only the
    three words it is given, a force callback that programs the register it names, and an absolute-value
    callback; the other callbacks may answer anything and leave the buffers alone. *)
Theorem one_step_programs h s policy mode samples :
  obeys_contract no_guard (ghost_io search_frame) h -> bytes s.1 ->
  (count_calls measures h (one_step s3 policy mode samples coefficients output status) s
     <= if (narrow mode =? 1)%Z then 8 else 32)%nat /\
  exists x s', exec h (one_step s3 policy mode samples coefficients output status) s = Some (x, s') /\
    let bank := if narrow mode =? 1 then 2 else 1 in
    programmed bank s' 0 /\ programmed bank s' 1 /\ outcome (tolerance (narrow policy) (narrow mode)) s'.
Proof.
  intros Hh Hu. split; [apply count_at_most, at_most_one_step|].
  apply (exec_wp _ _ h _ _ s Hh). unfold one_step. fold (narrow policy) (narrow mode). ghost_run. cbv zeta.
  apply wp_ghost_ext. intros ? ? [-> ->]. apply wp_bind, wp_ghost_ext. intros ? ? [-> ->]. cbn [Z.eqb].
  apply wp_bind, clear3_spec; [done|]. intros s1 Hu1. apply wp_bind, clear3_spec; [done|]. intros s2 Hu2.
  apply quiet_bind; [apply quiet_target|]. intros t. apply wp_bind, wp_ghost_ext. intros state ? ->.
  apply quiet_bind; [apply quiet_target|]. intros t2. apply wp_bind, wp_ghost_ext. intros backup ? ->. ghost_run.
  set (th := one_step_threshold s3 (narrow policy) (narrow mode) (count_ones (Z.land (u8 state) 63))).
  eapply wp_mono; [|apply search_loop_spec].
  - intros ? s3' [Hu3 Ho3]. eapply wp_mono; [|by apply finish_spec].
    intros ? s4 (? & ? & Ho). split_and!; [done..|]. pose proof (threshold_tolerance (narrow policy) (narrow mode) (u8 state)).
    destruct Ho as [|[? [? ?]]]; [by left|]. right. split; [done|]. split; lia.
  - split; cbn [fst]; [by rewrite mem_write_1|]. intros b. by apply mem_write_byte.
Qed.

(** An estimator that always measures what its buffer holds. *)
Definition search_ref : io method -> mem * pbus -> Z * (mem * pbus) :=
  ghost_handler (fun y s =>
    match y with
    | Force _ block bank v => (0, (s.1, fun bl bk => if (bl =? block) && (bk =? bank) then v else s.2 bl bk))
    | Difference _ v => (Z.abs v, s)
    | Local tag => (if tag =? 0 then zero else set, s)
    | _ => (0, s)
    end).

Lemma search_ref_obeys : obeys_contract no_guard (ghost_io search_frame) search_ref.
Proof. intros e s _. by destruct e as [| |[]]. Qed.

End Search.

Lemma one_step_programs_witness :
  (count_calls measures (search_ref 200 300) (one_step true 1 1 64 0 100 50) (fun _ => 1%Z, fun _ _ => 0%Z) <= 8)%nat /\
  exists x s',
  exec (search_ref 200 300) (one_step true 1 1 64 0 100 50) (fun _ => 1, fun _ _ => 0) = Some (x, s') /\
  programmed 0 2 s' 0 /\ programmed 0 2 s' 1 /\ outcome 100 50 5 s'.
Proof.
  apply (one_step_programs true 0 100 50 200 300 ltac:(split; unfold apart; lia) (search_ref 200 300) (fun _ => 1, fun _ _ => 0) 1 1 64).
  - apply search_ref_obeys.
  - intros a. cbn [fst]. unfold in_width. lia.
Defined.
End SearchSpec.
