(* ===== verification/PhyIq.v ===== *)
(** * IQ calibration of receiver and transmitter

    Models [phy_rx_iq.rs] (Module [RxIq]), [phy_rf_iq.rs] ([RfIq]),
    [phy_tx_iq_measure.rs] ([TxIqMeasure]), [phy_txiq_search.rs]
    ([TxIqSearch]), [phy_txiq_wrappers.rs] ([TxIqWrappers]) and
    [phy_tx_detector.rs] ([TxDetector]).  [s3] selects the chip; signed
    arguments and answers are integers in their range. *)

From S2P Require Import Prelude Program PhyAccess.

Module RxIq.

Inductive method :=
| Divide (numerator denominator : Z)
| Log (sample magnitude phase : Z)
| Set_ (coefficient mode : Z)
| TableGlobal
| Callback (target : Z) (samples : option Z)
| Local
| Measure (mode output logging : Z).

Section RxIq.
Variable s3 : bool.
Abbreviation prg := (prog (io method)).

Definition byte_arg (v : Z) : Z := if s3 then u8 v else v.

(** [(divide(..) as i8 as i32 + 1) >> 1] *)
Definition halved (numerator denominator : Z) : prg Z :=
  q ← ext (Divide numerator denominator);
  mret (Z.shiftr (i8 q + 1) 1).

Definition mismatch (mode output logging : Z) : prg unit :=
  let mode := byte_arg mode in
  let shift := Z.land (u32 (mode - 2)) 31 in
  a ← read 0x60006148 4;
  d ← read 0x60006154 4;
  c ← read 0x60006150 4;
  b ← read 0x6000614c 4;
  let a := Z.shiftr (i32 a) shift in
  let d := Z.shiftr (i32 d) shift in
  let c := Z.shiftr (i32 c) shift in
  let b := Z.shiftr (i32 b) shift in
  let x := i32 (a + d) in
  let y := i32 (b - c) in
  let u := i32 (a - d) in
  let v := i32 (c + b) in
  let denominator := i64 (x * x + y * y) in
  let denominator := if denominator =? 0 then 1 else denominator in
  let first := i64 (Z.shiftl (i64 (x * u - y * v)) 9) in
  let second := i64 (Z.shiftl (i64 (x * v + y * u)) 9) in
  magnitude ← halved first denominator;
  phase ← halved second denominator;
  write output 1 (u32 magnitude) ;;
  write (output + 1) 1 (u32 phase) ;;
  if negb (byte_arg logging =? 0) then
    s ← read 0x60006164 4;
    run (Log (Z.shiftr (i32 s) (Z.land (u32 (mode - 3)) 31)) magnitude phase)
  else mret tt.

Definition callback (offset : Z) (samples : option Z) : prg unit :=
  g ← ext TableGlobal;
  table ← read g 4;
  target ← read (table + offset) 4;
  run (Callback target samples).

Definition correct_round (mode logging samples buffer : Z) (s : Z * Z) : prg (Z * Z) :=
  let '(magnitude, phase) := s in
  let signed_phase := i8 phase in
  let correction := u8 (Z.shiftr (signed_phase * signed_phase + 128) 8) in
  magnitude ← ext (Set_ (i8 (u32 (magnitude - correction))) 1);
  let magnitude := byte_arg magnitude in
  phase ← ext (Set_ signed_phase 0);
  let phase := byte_arg phase in
  callback (if s3 then 0xf0 else 0x104) (Some samples) ;;
  run (Measure mode buffer logging) ;;
  '(m, p) ← (if s3 then
               m ← read buffer 1; p ← read (buffer + 1) 1; mret (m, p)
             else
               p ← read (buffer + 1) 1; m ← read buffer 1; mret (m, p));
  let magnitude := u32 (u32 (magnitude + correction) + m) in
  let phase := u32 (phase - p) in
  callback (if s3 then 0xf4 else 0x108) None ;;
  mret (u8 magnitude, u8 phase).

Definition correct (mode magnitude_output phase_output logging : Z) : prg unit :=
  let mode := byte_arg mode in
  let logging := byte_arg logging in
  let samples := u16 (u32 (Z.shiftl 1 (Z.land mode 31))) in
  buffer ← ext Local;
  '(magnitude, phase) ← for_each_with (range 0 2) (0, 0) (fun _ => correct_round mode logging samples buffer);
  let magnitude := clamp (-31) 31 (i8 magnitude) in
  let phase := clamp (-31) 31 (i8 phase) in
  run (Set_ magnitude 1) ;;
  run (Set_ phase 0) ;;
  write magnitude_output 1 (u32 magnitude) ;;
  write phase_output 1 (u32 phase).

End RxIq.
End RxIq.

Module RfIq.

Inductive method :=
| Start (frequency gain : Z)
| Stop
| Correct (mode magnitude phase logging : Z)
| Log (index magnitude phase : Z)
| TableGlobal
| Difference (target value : Z)
| Local (kind : Z)
| Sample (mode frequency gain output logging : Z).

Section RfIq.
Variable s3 : bool.
Abbreviation prg := (prog (io method)).

Definition byte (v : Z) : Z := if s3 then u8 v else v.
Definition frequency (v : Z) : Z := if s3 then u32 (i16 v) else v.

Definition sample (mode tone_frequency gain output logging : Z) : prg unit :=
  value ← read 0x6000607c 4;
  write 0x6000607c 4 (Z.lor value 0x08000000) ;;
  value ← read 0x6000607c 4;
  write 0x6000607c 4 (Z.land value 0xefffffff) ;;
  run (Start (frequency tone_frequency) (byte gain)) ;;
  buffer ← ext (Local 1);
  run (Correct (byte mode) buffer (buffer + 1) (byte logging)) ;;
  run Stop ;;
  magnitude ← read buffer 1;
  write output 1 magnitude ;;
  phase ← read (buffer + 1) 1;
  write (output + 1) 1 phase.

Definition read_i8 (a : Z) : prg Z := v ← read a 1; mret (i8 v).

Record collection := {
  previous_m : Z; previous_p : Z;
  sum_m : Z; sum_p : Z;
  magnitude : Z; phase : Z;
}.

(** Whether the sample in the buffer agrees with the previous one. *)
Definition agrees (buffer : Z) (s : collection) : prg bool :=
  let slot := if s3 then 0xec else 0x100 in
  '(table, m) ← (if s3 then
                   m ← read_i8 buffer; g ← ext TableGlobal; table ← read g 4; mret (table, m)
                 else
                   g ← ext TableGlobal; table ← read g 4; m ← read_i8 buffer; mret (table, m));
  target ← read (table + slot) 4;
  d ← ext (Difference target (previous_m s - m));
  if 1 <? d then mret false else
  g ← ext TableGlobal;
  table ← read g 4;
  p ← read_i8 (buffer + 1);
  target ← read (table + slot) 4;
  d ← ext (Difference target (previous_p s - p));
  mret (d <=? 1).

Definition collect_step (tone_frequency gain logging buffer index : Z) (s : collection) : prg (flow collection) :=
  run (Sample 14 tone_frequency gain buffer logging) ;;
  (if negb (logging =? 0) then
     p ← read_i8 (buffer + 1);
     m ← read_i8 buffer;
     run (Log index m p)
   else mret tt) ;;
  ok ← (if negb (index =? 0) then agrees buffer s else mret false);
  if (ok : bool) then
    m ← read_i8 buffer;
    p ← read_i8 (buffer + 1);
    mret (Break {| previous_m := previous_m s; previous_p := previous_p s; sum_m := sum_m s; sum_p := sum_p s;
                   magnitude := i8 (Z.shiftr (previous_m s + m + 1) 1);
                   phase := i8 (Z.shiftr (previous_p s + p + 1) 1) |})
  else
    m ← read_i8 buffer;
    p ← read_i8 (buffer + 1);
    let sm := i16 (sum_m s + m) in
    let sp := i16 (sum_p s + p) in
    mret (Next {| previous_m := m; previous_p := p; sum_m := sm; sum_p := sp;
                  magnitude := i8 (Z.shiftr (sm + 2) 2);
                  phase := i8 (Z.shiftr (sp + 2) 2) |}).

Definition collect (tone_frequency gain logging : Z) : prg Z :=
  let tone_frequency := frequency tone_frequency in
  let gain := byte gain in
  let logging := byte logging in
  buffer ← ext (Local 0);
  s ← for_loop (range 0 4)
        {| previous_m := 0; previous_p := 0; sum_m := 0; sum_p := 0; magnitude := 0; phase := 0 |}
        (collect_step tone_frequency gain logging buffer);
  mret (Z.lor (Z.shiftl (Z.land (u32 (clamp (-31) 31 (magnitude s))) 63) 6)
              (Z.land (u32 (clamp (-31) 31 (phase s))) 63)).

End RfIq.
End RfIq.

Module TxIqMeasure.

Inductive acc :=
| ReadRegister (address : Z)
| WriteRegister (address value : Z)
| WriteSample (address value : Z)
| Delay
| Linear
| Tone (tone code : Z)
| PowerDb (offset : Z)
| Log (iteration attenuation sample target delta : Z)
| Limit (delta : Z).

Definition run (e : acc) : prog acc unit := call e ;; mret tt.

Section TxIqMeasure.
Variable s3 : bool.

Definition measure (select negative offset out1 out2 : Z) : prog acc unit :=
  let select := if s3 then u8 select else select in
  let offset := if s3 then i16 offset else offset in
  let fields := Z.land
    (Z.lor (Z.lor (Z.lor (u32 (Z.shiftl select 26)) (Z.land (u32 (Z.shiftl (u32 (- negative)) 10)) 0x3fc00))
                  (u32 (Z.shiftr offset 2)))
           0x2c0000) 0x0fffffff in
  old ← call (ReadRegister 0x60006040);
  run (WriteRegister 0x60006040 (Z.lor (Z.land old 0xf0000000) fields)) ;;
  old ← call (ReadRegister 0x60006050);
  run (WriteRegister 0x60006050 (Z.lor (Z.ldiff old 3) (Z.land (u32 offset) 3))) ;;
  run Delay ;;
  sample ← call Linear;
  run (WriteSample out1 (u16 sample)) ;;
  old ← call (ReadRegister 0x60006040);
  run (WriteRegister 0x60006040
    (Z.lor (Z.land old 0xf0ffffff)
       (Z.land (u32 (Z.shiftl (Z.lor (Z.land (Z.lnot select) 1) (u32 (Z.shiftl select 3))) 24)) 0x0f000000))) ;;
  run Delay ;;
  sample ← call Linear;
  run (WriteSample out2 (u16 sample)).

Record search := { level : Z; previous_attenuation : Z; previous_sample : Z; result : option Z }.

Definition attenuation_step (tone target offset debug iteration : Z) (s : search) : prog acc (flow search) :=
  let stop (level r : Z) := Break {| level := level; previous_attenuation := previous_attenuation s;
                                     previous_sample := previous_sample s; result := Some r |} in
  run (Tone tone (u8 (level s))) ;;
  (if s3 then run Delay else mret tt) ;;
  p ← call (PowerDb offset);
  let sample := i16 (Z.shiftr p 2) in
  let delta := i16 (i32 (sample - target)) in
  let attenuation :=
    if negb (iteration =? 0) && (previous_attenuation s <? level s) && (previous_sample s <? sample)
    then i16 (i32 (previous_attenuation s - 20)) else level s in
  (if negb (debug =? 0) then run (Log iteration attenuation sample target delta) else mret tt) ;;
  if u16 (delta + 3) <=? 6 then mret (stop attenuation attenuation) else
  adjustment ← (if s3 then mret delta else l ← call (Limit delta); mret (i16 l));
  let adjustment := if 0 <? adjustment then adjustment else Z.quot (adjustment * 3) 4 in
  let next := i16 (i32 (attenuation + adjustment)) in
  if next <? 0 then mret (stop attenuation 0)
  else if 120 <? next then mret (stop attenuation 120)
  else mret (Next {| level := next; previous_attenuation := attenuation; previous_sample := sample; result := None |}).

Definition attenuation (tone initial target offset debug : Z) : prog acc Z :=
  let tone := if s3 then i16 tone else tone in
  let initial := if s3 then i8 initial else initial in
  let target := if s3 then u8 target else target in
  let offset := if s3 then u16 offset else offset in
  let debug := if s3 then u8 debug else debug in
  s ← for_loop (range 0 6) {| level := initial; previous_attenuation := 0; previous_sample := 0; result := None |}
        (attenuation_step tone target offset debug);
  mret (default (level s) (result s)).

End TxIqMeasure.
End TxIqMeasure.

Module TxIqSearch.

Inductive method :=
| Parameter_ (offset width : Z)
| Table
| Slot (table offset : Z)
| Call (callback : Z) (args : list Z)
| SetCorrection (code select : Z)
| Measure (select attenuation tone : Z)
| Sample (index : Z)
| DebugMode
| WorkMode
| Txdc (dc_buffer : Z)
| Attenuation (tone initial target offset : Z)
| Cover (attenuation tone : Z)
| Coefficient (index : Z)
| WriteCoefficient (index value : Z).

Section TxIqSearch.
Variable s3 : bool.
Abbreviation prg := (prog (io method)).

Definition code_argument (code : Z) : Z := if s3 then i8 code else code.

Definition target (offset : Z) : prg Z := table ← ext Table; ext (Slot table offset).

(** [((n / d + 16) >> 5) as u8], with 1 for a zero denominator *)
Definition ratio (numerator denominator : Z) : Z :=
  let denominator := if denominator =? 0 then 1 else denominator in
  u8 (Z.shiftr (Z.quot numerator denominator + 16) 5).

Record search_state := { first : Z; second : Z; sum_first : Z; sum_second : Z }.

Definition set_correction (code select : Z) : prg Z :=
  c ← ext (SetCorrection (code_argument code) select);
  mret (if s3 then u8 c else c).

Definition search_step (attenuation reduced tone out iteration : Z) (s : search_state) : prg (flow search_state) :=
  f ← set_correction (first s) 1;
  g ← set_correction (second s) 0;
  run (Measure 1 reduced tone) ;;
  '(x, y) ← (if s3 then x ← ext (Sample 0); y ← ext (Sample 1); mret (x, y)
             else y ← ext (Sample 1); x ← ext (Sample 0); mret (x, y));
  write out 1 (ratio ((y - x) * 2048) (Z.min x y)) ;;
  run (Measure 0 attenuation tone) ;;
  x ← ext (Sample 0);
  y ← ext (Sample 1);
  let correction := ratio ((x - y) * 4096) (i16 (x + y)) in
  delta_first ← (if s3 then write (out + 1) 1 correction ;; d ← read out 1; mret (u8 d)
                 else d ← read out 1; write (out + 1) 1 correction ;; mret (u8 d));
  if iteration <? 3 then
    mret (Next {| first := i8 (i32 (f - delta_first)); second := i8 (i32 (g - correction));
                  sum_first := sum_first s; sum_second := sum_second s |})
  else
    let sf := i8 (sum_first s + i8 delta_first) in
    let sg := i8 (sum_second s + i8 correction) in
    let slot := if s3 then 0xec else 0x100 in
    table ← ext Table;
    callback ← ext (Slot table slot);
    magnitude ← ext (Call callback [u32 (i8 delta_first)]);
    ok ← (if i32 magnitude <=? 1 then
            table ← ext Table;
            d ← read (out + 1) 1;
            callback ← ext (Slot table slot);
            magnitude ← ext (Call callback [u32 (i8 (u8 d))]);
            mret (i32 magnitude <=? 1)
          else mret false);
    if (ok : bool) then mret (Break {| first := f; second := g; sum_first := sf; sum_second := sg |})
    else if iteration =? 6 then
      mret (Break {| first := i8 (i32 (f - Z.shiftr (sf + 2) 2)); second := i8 (i32 (g - Z.shiftr (sg + 2) 2));
                     sum_first := sf; sum_second := sg |})
    else mret (Next {| first := f; second := g; sum_first := sf; sum_second := sg |}).

(** The loop leaves at iteration 6 at the latest. *)
Definition search (attenuation tone out : Z) : prg unit :=
  let attenuation := if s3 then Z.land attenuation 255 else attenuation in
  let tone := if s3 then i16 tone else tone in
  let reduced := Z.max (i8 (u32 (attenuation - 12))) 0 in
  s ← for_loop (range 0 7) {| first := 0; second := 0; sum_first := 0; sum_second := 0 |}
        (search_step attenuation reduced tone out);
  run (SetCorrection (code_argument (first s)) 1) ;;
  run (SetCorrection (code_argument (second s)) 0) ;;
  if s3 then write out 1 (u8 (first s)) ;; write (out + 1) 1 (u8 (second s))
  else write (out + 1) 1 (u8 (second s)) ;; write out 1 (u8 (first s)).

Definition clamp_coefficient (index limit : Z) : prg unit :=
  value ← ext (Coefficient index);
  let value := i8 value in
  if limit <? value then run (WriteCoefficient index (u8 limit))
  else if value <? - limit then run (WriteCoefficient index (u8 (- limit)))
  else mret tt.

(** Set up the analog front end: gain, mode and DC. *)
Definition calibrate_begin (initial dc mode : Z) : prg unit :=
  let write_slot := if s3 then 0x1a8 else 0x1cc in
  let read_slot := if s3 then 0x1ac else 0x1d0 in
  let dc_slot := if s3 then 0x1cc else 0x1f0 in
  value ← read 0x6000607c 4;
  write 0x6000607c 4 (Z.lor value 0x800) ;;
  value ← read 0x6000607c 4;
  write 0x6000607c 4 (Z.ldiff value 0x1000) ;;
  run DebugMode ;;
  f ← target write_slot;
  run (Call f [1; 2; initial]) ;;
  (if mode =? 1 then
     table ← ext Table;
     wr ← ext (Slot table write_slot);
     rd ← ext (Slot table read_slot);
     value ← ext (Call rd [1; 1]);
     run (Call wr [1; 1; Z.land (Z.lor value 2) 65535]) ;;
     if s3 then f ← target write_slot; run (Call f [4; 2; 24]) else mret tt
   else mret tt) ;;
  if mode =? 2 then
    f ← target 36;
    run (Call f [1]) ;;
    run (Txdc dc)
  else
    f ← target dc_slot;
    run (Call f [dc]).

(** The run up to the attenuation search: the power target and the offset of
    that search. *)
Definition calibrate_open (initial dc mode : Z) : prg (Z * Z) :=
  power_target ← (if s3 then mret 56 else
                    selector ← ext (Parameter_ 162 1);
                    mret (if u8 (u8 selector - 16) <=? 1 then 30 else 56));
  calibrate_begin initial dc mode ;;
  offset ← (if s3 then mret 224 else ext (Parameter_ 832 2));
  mret (power_target, offset).

(** The two searches, between saving the tone register and writing it back. *)
Definition calibrate_search (iq tone attenuation power_target offset : Z) : prg unit :=
  saved ← read 0x60006040 4;
  code ← ext (Attenuation tone attenuation power_target offset);
  run (Cover (u8 code) tone) ;;
  run WorkMode ;;
  clamp_coefficient 0 15 ;;
  clamp_coefficient 1 31 ;;
  first ← ext (Coefficient 0);
  second ← ext (Coefficient 1);
  write iq 2 (Z.lor (Z.shiftl (Z.land first 31) 6) (Z.land second 63)) ;;
  write 0x60006040 4 saved.

Definition calibrate_close (mode : Z) : prg unit :=
  (if mode =? 2 then f ← target 36; run (Call f [0]) else mret tt) ;;
  value ← read 0x6000607c 4;
  write 0x6000607c 4 (Z.lor value 0x1000).

Definition calibrate (initial dc iq tone attenuation mode : Z) : prg unit :=
  let initial := if s3 then Z.land initial 65535 else initial in
  let mode := if s3 then Z.land mode 255 else mode in
  let tone := if s3 then u8 tone else i16 tone in
  let attenuation := if s3 then i8 attenuation else i32 attenuation in
  r ← calibrate_open initial dc mode;
  calibrate_search iq tone attenuation r.1 r.2 ;;
  calibrate_close mode.

End TxIqSearch.
End TxIqSearch.

Module TxIqWrappers.

Inductive Output := Parameter_ (offset : Z) | Scratch.

Inductive acc :=
| ReadFlags
| WriteFlags (value : Z)
| ReadAttenuation
| Table
| Slot (table offset : Z)
| ReadAnalog (callback block host register : Z)
| WriteAnalog (callback block host register value : Z)
| Calibrate (output1 : Output) (output2 tone attenuation mode : Z).

Definition run (e : acc) : prog acc unit := call e ;; mret tt.

Definition initialize : prog acc unit :=
  flags ← call ReadFlags;
  if negb (Z.land flags (Z.shiftl 1 14) =? 0) then mret tt else
  a ← call ReadAttenuation;
  let initial := Z.max (i8 a) 0 in
  run (Calibrate (Parameter_ 0x124) 0x14c 128 initial 0) ;;
  run (Calibrate Scratch 0x162 128 (Z.max (initial - 20) 0) 2) ;;
  flags ← call ReadFlags;
  run (WriteFlags (Z.lor flags (Z.shiftl 1 14))).

Section TxIqWrappers.
Variable s3 : bool.

Definition host : Z := if s3 then 0 else 1.
Definition read_slot : Z := if s3 then 0x188 else 0x1ac.
Definition write_slot : Z := if s3 then 0x190 else 0x1b4.

Definition read_analog (register : Z) : prog acc Z :=
  table ← call Table;
  callback ← call (Slot table read_slot);
  call (ReadAnalog callback 103 host register).

Definition write_analog (register value : Z) : prog acc unit :=
  table ← call Table;
  callback ← call (Slot table write_slot);
  run (WriteAnalog callback 103 host register value).

Definition bluetooth : prog acc unit :=
  flags ← call ReadFlags;
  if negb (Z.land flags (Z.shiftl 1 11) =? 0) then mret tt else
  first ← read_analog 28;
  second ← read_analog 29;
  write_analog 28 0 ;;
  write_analog 29 0 ;;
  code ← call ReadAttenuation;
  let code := i8 (if s3 then code else u8 (code + 20)) in
  run (Calibrate (Parameter_ 0x182) 0x180 32 code 1) ;;
  flags ← call ReadFlags;
  table ← (if s3 then run (WriteFlags (Z.lor flags (Z.shiftl 1 11))) ;; call Table
           else table ← call Table; run (WriteFlags (Z.lor flags (Z.shiftl 1 11))) ;; mret table);
  callback ← call (Slot table write_slot);
  run (WriteAnalog callback 103 host 28 first) ;;
  write_analog 29 second.

End TxIqWrappers.
End TxIqWrappers.

Module TxDetector.

Inductive acc :=
| ReadRegister
| WriteRegister (value : Z)
| ReadFlags
| WriteFlags (value : Z)
| WriteSample (index value : Z)
| Tone (code : Z)
| Sample
| DebugMode
| WorkMode.

Definition run (e : acc) : prog acc unit := call e ;; mret tt.

Section TxDetector.
Variable s3 : bool.

Definition reference (code : Z) : prog acc unit :=
  run (Tone code) ;;
  register ← call ReadRegister;
  run (WriteRegister (Z.land register 0xffff0000)) ;;
  first ← call Sample;
  register ← call ReadRegister;
  run (WriteSample 0 (u16 first)) ;;
  run (WriteRegister (Z.lor (Z.land register 0xffff0000) 0x5555)) ;;
  second ← call Sample;
  register ← (if s3 then run (WriteSample 1 (u16 second)) ;; call ReadRegister
              else register ← call ReadRegister; run (WriteSample 1 (u16 second)) ;; mret register);
  run (WriteRegister (Z.lor (Z.land register 0xffff0000) 0xaaaa)).

Definition calibrate : prog acc unit :=
  flags ← call ReadFlags;
  if negb (Z.land flags (Z.shiftl 1 24) =? 0) then mret tt else
  run DebugMode ;;
  reference (if s3 then 80 else 120) ;;
  run WorkMode ;;
  flags ← call ReadFlags;
  run (WriteFlags (Z.lor flags (Z.shiftl 1 24))).

End TxDetector.
End TxDetector.
