(* ===== verification/PhyIqSpec.v ===== *)
(** * Correctness of the IQ calibration *)

From S2P Require Import Prelude Program PhyAccess PhyIq.

(** ** The transmitter's calibration run *)
Module TxIqSpec.
Import TxIqSearch.

Definition bytes (m : mem) : Prop := forall a, is_u8 (m a).

(** The register the measurements program. *)
Definition TONE : Z := 0x60006040.
Definition tone_register (m : mem) : Z := mem_read m TONE 4.

(** The state is the memory and the two coefficients, a buffer on the stack of
    the calibration.  Every routine and every callback may change any memory,
    the registers included; the correction search, which is given the buffer,
    may change the coefficients too.  Memory cells hold bytes. *)
Definition txiq_frame (y : method) (s : mem * (Z -> Z)) (x : Z) (s' : mem * (Z -> Z)) : Prop :=
  match y with
  | Coefficient i => x = s.2 i /\ s' = s
  | WriteCoefficient i v => s' = (s.1, fun j => if j =? i then v else s.2 j)
  | Cover _ _ => (bytes s.1 -> bytes s'.1) /\ (bytes s.2 -> bytes s'.2)
  | _ => (bytes s.1 -> bytes s'.1) /\ s'.2 = s.2
  end.

Section TxIq.
Variable s3 : bool.
Abbreviation wpg := (wp no_guard (ghost_io txiq_frame)).

(** Two signed fields of a halfword. *)
Definition gain_field (v : Z) : Z := sext 5 (Z.shiftr v 6).
Definition phase_field (v : Z) : Z := sext 6 v.

Lemma pack_fields f g : is_u8 f -> is_u8 g -> -15 <= i8 f <= 15 -> -31 <= i8 g <= 31 ->
  let v := Z.lor (Z.shiftl (Z.land f 31) 6) (Z.land g 63) in
  0 <= v < 2 ^ 16 /\ gain_field v = i8 f /\ phase_field v = i8 g.
Proof.
  intros Hf Hg Hif Hig v. unfold in_width in *.
  assert (0 <= Z.land f 31 <= 31) as Ha by (apply land_le_r; lia).
  assert (0 <= Z.land g 63 <= 63) as Hb by (apply land_le_r; lia).
  assert (v = Z.land f 31 * 2 ^ 6 + Z.land g 63) as Hv.
  { unfold v. rewrite Z.shiftl_mul_pow2 by lia. apply lor_disjoint_add; lia. }
  assert (Forall (fun f => -15 <= i8 f <= 15 -> sext 5 (Z.land f 31) = i8 f) (seqZ 0 256)) as H1 by decide_now.
  assert (Forall (fun g => -31 <= i8 g <= 31 -> sext 6 (Z.land g 63) = i8 g) (seqZ 0 256)) as H2 by decide_now.
  rewrite Forall_forall in H1, H2. split_and!; [lia|lia| |].
  - unfold gain_field. rewrite <- (H1 f) by (done || apply in_seqZ; lia). f_equal. rewrite Hv, Z.shiftr_div_pow2 by lia.
    rewrite Z.div_add_l, (Z.div_small (Z.land g 63)) by lia. lia.
  - unfold phase_field. rewrite <- (H2 g) by (done || apply in_seqZ; lia). apply sext_cong. unfold wrap. rewrite Hv.
    rewrite Z.add_comm, Z.mod_add by lia. done.
Qed.

Lemma clamp_tx_spec i limit (Q : unit -> mem * (Z -> Z) -> Prop) s :
  0 <= limit < 128 -> bytes s.2 ->
  (forall c, bytes c -> - limit <= i8 (c i) <= limit -> (forall j, j <> i -> c j = s.2 j) -> Q tt (s.1, c)) ->
  wpg (clamp_coefficient i limit) Q s.
Proof.
  intros Hl Hu HQ. unfold clamp_coefficient. apply wp_bind, wp_ghost_ext. intros ? ? [-> ->]. cbv zeta.
  assert (Hset : forall v, - limit <= v <= limit -> wpg (run (WriteCoefficient i (u8 v))) Q s).
  { intros v Hv. apply wp_ghost_run. intros ? ? ->. apply HQ.
    - intros j. destruct (j =? i); [by apply wrap_range|apply Hu].
    - rewrite Z.eqb_refl, sext_wrap, sext_small; unfold in_swidth; lia.
    - intros j Hj. by rewrite (proj2 (Z.eqb_neq j i)). }
  destruct (Z.ltb_spec limit (i8 (s.2 i))); [apply Hset; lia|].
  destruct (Z.ltb_spec (i8 (s.2 i)) (- limit)); [apply Hset; lia|].
  apply wp_ret. destruct s as [m c]. apply HQ; [done|cbn [snd] in *; lia|done].
Qed.

(** Both parts of the state hold bytes. *)
Definition well_stored (s : mem * (Z -> Z)) : Prop := bytes s.1 /\ bytes s.2.

Lemma txiq_frame_stored y s x s' :
  txiq_frame y s x s' -> (forall i v, y = WriteCoefficient i v -> is_u8 v) -> well_stored s -> well_stored s'.
Proof.
  intros Hf Hw [Hm Hc]. destruct y; simpl in Hf.
  all: try (split; [by apply (proj1 Hf)|by rewrite (proj2 Hf)]).
  - destruct Hf as [Hf1 Hf2]. split; auto.
  - by destruct Hf as [_ ->].
  - subst s'. split; [done|]. intros j. cbn. destruct (j =? index); [by eapply Hw|apply Hc].
Qed.

Definition stores_bytes (e : io method) : Prop :=
  match e with Ext (WriteCoefficient _ _) => False | _ => True end.

Lemma stores_bytes_keeps {A} (p : prog (io method) A) s :
  calls_only stores_bytes p -> well_stored s -> wpg p (fun _ => well_stored) s.
Proof.
  intros Hp. apply (wp_frame _ _ stores_bytes well_stored); [done|done|].
  intros e s1 x s2 He [Hm Hc] Hx. destruct e as [a w|a w v|y]; [by destruct Hx as [_ ->]| |].
  - simpl in Hx. subst s2. split; [|done]. intros b. by apply mem_write_byte.
  - apply (txiq_frame_stored y s1 x s2 Hx); [|done]. intros i v ->. done.
Qed.

(** What the searches leave: the tone register as it was, and the coefficients
    clamped and packed at [iq]. *)
Definition restored (m : mem) (iq : Z) (s' : mem * (Z -> Z)) : Prop :=
  let v := mem_read s'.1 iq 2 in
  tone_register s'.1 = tone_register m /\
  -15 <= gain_field v <= 15 /\ gain_field v = i8 (s'.2 0) /\
  -31 <= phase_field v <= 31 /\ phase_field v = i8 (s'.2 1).

(** The last part of the searches, from the clamping of the coefficients. *)
Lemma search_end_spec iq m s :
  apart iq 2 TONE 4 -> well_stored s -> bytes m ->
  wpg (clamp_coefficient 0 15 ;; clamp_coefficient 1 31 ;;
       first ← ext (Coefficient 0);
       second ← ext (Coefficient 1);
       write iq 2 (Z.lor (Z.shiftl (Z.land first 31) 6) (Z.land second 63)) ;;
       write 0x60006040 4 (mem_read m 0x60006040 4))
    (fun _ s' => well_stored s' /\ restored m iq s') s.
Proof.
  intros Ha [Hu Hc] Hm. unfold apart, TONE in *.
  apply wp_bind, clamp_tx_spec; [lia|done|]. intros c1 Hc1 Hr1 _.
  apply wp_bind, clamp_tx_spec; [lia|done|]. intros c2 Hc2 Hr2 Hk. cbn [fst snd] in *.
  apply wp_bind, wp_ghost_ext. intros ? ? [-> ->]. apply wp_bind, wp_ghost_ext. intros ? ? [-> ->]. cbn [fst snd].
  rewrite <- (Hk 0) in Hr1 by lia. destruct (pack_fields (c2 0) (c2 1)) as (Hv & Hg & Hp); [apply Hc2..|done|done|].
  set (v := Z.lor (Z.shiftl (Z.land (c2 0) 31) 6) (Z.land (c2 1) 63)) in *. ghost_run. cbn [fst snd].
  split; [split; [|done]; intros b; apply mem_write_byte; intros b'; by apply mem_write_byte|].
  unfold restored, tone_register. cbn [fst snd].
  assert (mem_read (mem_write (mem_write s.1 iq 2 v) 0x60006040 4 (mem_read m 0x60006040 4)) iq 2 = v) as ->.
  { rewrite mem_read_write_other, mem_read_write_same by lia. by apply Z.mod_small. }
  rewrite Hg, Hp. split_and!; try done; try lia.
  unfold TONE. rewrite mem_read_write_same by lia. apply Z.mod_small. apply (mem_read_range m 0x60006040 4 Hm). lia.
Qed.

Lemma calibrate_search_spec iq tone attenuation power_target offset s :
  apart iq 2 TONE 4 -> well_stored s ->
  wpg (calibrate_search iq tone attenuation power_target offset) (fun _ s' => well_stored s' /\ restored s.1 iq s') s.
Proof.
  intros Ha Hs. unfold calibrate_search. apply wp_bind, wp_ghost_read.
  apply wp_bind, wp_ghost_ext. intros code s1 H1. apply txiq_frame_stored in H1; [|done..].
  apply wp_bind, wp_ghost_run. intros ? s2 H2. apply txiq_frame_stored in H2; [|done..].
  apply wp_bind, wp_ghost_run. intros ? s4 H4. apply txiq_frame_stored in H4; [|done..].
  apply search_end_spec; [done|done|apply Hs].
Qed.

Lemma calibrate_close_spec iq mode m s :
  apart iq 2 0x6000607c 4 -> well_stored s -> restored m iq s ->
  wpg (calibrate_close mode) (fun _ s' =>
    Z.testbit (mem_read s'.1 0x6000607c 4) 12 = true /\ (mode <> 2 -> restored m iq s')) s.
Proof.
  intros Ha Hs Hr. unfold calibrate_close. apply wp_bind.
  eapply (wp_mono _ _ _ (fun _ s1 => mode <> 2 -> s1 = s)).
  - intros ? s1 H1. ghost_run. cbn [fst snd]. split.
    + rewrite mem_read_write_same by lia. change (256 ^ 4) with (2 ^ 32).
      rewrite Z.mod_pow2_bits_low, Z.lor_spec by lia. by rewrite orb_true_r.
    + intros Hm. rewrite (H1 Hm). unfold restored, tone_register, apart, TONE in *. cbn [fst snd].
      by rewrite !mem_read_write_other by lia.
  - destruct (Z.eqb_spec mode 2) as [->|Hm]; [|by apply wp_ret]. unfold target.
    apply wp_bind, wp_bind, wp_ghost_ext. intros ? s1 _. apply wp_ghost_ext. intros ? s2 _. by apply wp_ghost_run.
Qed.

(** C36: a calibration run of the transmitter's IQ correction restores what it borrowed.  The run
    prepares ([calibrate_open]), searches ([calibrate_search]) and closes ([calibrate_close]).  Whatever
    the called routines and callbacks answer and whatever memory and registers they change, as long as
    the two coefficients on the stack of the run are changed only by the correction search that is given
    them, the run returns.  When its searches are over, the tone register has the value again that it
    had when they began, and the halfword at the output, which overlaps neither the tone nor the mode
    register, packs the two coefficients, left between -15 and 15 and between -31 and 31, as signed
    fields of five and six bits that read back exactly.  What is left to do then is the closing part; it
    sets bit 12 of the mode register, and outside mode 2, where it first calls the callback of slot 36,
    the tone register and the output are still as described when the run returns. *)
Theorem txiq_calibration_restores h s initial dc iq tone attenuation mode :
  let mode' := if s3 then Z.land mode 255 else mode in
  obeys_contract no_guard (ghost_io txiq_frame) h -> bytes s.1 -> bytes s.2 ->
  apart iq 2 TONE 4 -> apart iq 2 0x6000607c 4 ->
  exists r s1 s2 s',
    exec h (calibrate_open s3 (if s3 then Z.land initial 65535 else initial) dc mode') s = Some (r, s1) /\
    restored s1.1 iq s2 /\
    exec h (calibrate s3 initial dc iq tone attenuation mode) s = exec h (calibrate_close mode') s2 /\
    exec h (calibrate_close mode') s2 = Some (tt, s') /\
    Z.testbit (mem_read s'.1 0x6000607c 4) 12 = true /\ (mode' <> 2 -> restored s1.1 iq s').
Proof.
  intros mode' Hh Hu Hc Ha Hb.
  edestruct (exec_wp _ _ h (calibrate_open s3 (if s3 then Z.land initial 65535 else initial) dc mode') (fun _ => well_stored) s Hh)
    as (r & s1 & H1 & Hs1).
  { apply stores_bytes_keeps; [|by split]. unfold calibrate_open, calibrate_begin, target. io_calls; done. }
  edestruct (exec_wp _ _ h _ _ s1 Hh (calibrate_search_spec iq (if s3 then u8 tone else i16 tone)
    (if s3 then i8 attenuation else i32 attenuation) r.1 r.2 s1 Ha Hs1)) as ([] & s2 & H2 & Hs2 & Hr2).
  edestruct (exec_wp _ _ h _ _ s2 Hh (calibrate_close_spec iq mode' s1.1 s2 Hb Hs2 Hr2)) as ([] & s' & H3 & Hbit & Hr3).
  exists r, s1, s2, s'. split_and!; [done..| |done|done|done].
  unfold calibrate. cbv zeta. fold mode'. rewrite exec_bind, H1. cbn [mbind option_bind]. by rewrite exec_bind, H2.
Qed.

End TxIq.

(** Searches that find the coefficients 100 and 200, and a tone register that
    the preparation, the searches and the end of the tone all change. *)
Definition txiq_ref : io method -> mem * (Z -> Z) -> Z * (mem * (Z -> Z)) :=
  let tone v (m : mem) := fun a => if a =? TONE then v else m a in
  ghost_handler (fun y s =>
    match y with
    | Coefficient i => (s.2 i, s)
    | WriteCoefficient i v => (0, (s.1, fun j => if j =? i then v else s.2 j))
    | DebugMode => (0, (tone 5 s.1, s.2))
    | Cover _ _ => (0, (tone 7 s.1, fun j => if j =? 0 then 100 else 200))
    | WorkMode => (0, (tone 1 s.1, s.2))
    | _ => (0, s)
    end).

Lemma txiq_ref_obeys : obeys_contract no_guard (ghost_io txiq_frame) txiq_ref.
Proof.
  assert (forall v m, is_u8 v -> bytes m -> bytes (fun a => if a =? TONE then v else m a)).
  { intros v m Hv Hm a. by destruct (a =? TONE). }
  intros e s _. destruct e as [| |[]]; try done; (split; [|done || (intros _ j; cbn; destruct (j =? 0); unfold in_width; lia)]); cbn; auto;
    intros; auto with lia; by apply H.
Qed.

Lemma txiq_calibration_restores_witness : exists r s1 s2 s',
  exec txiq_ref (calibrate_open false 0 0 2) (fun _ => 3, fun _ => 0) = Some (r, s1) /\
  restored s1.1 100 s2 /\
  exec txiq_ref (calibrate false 0 0 100 128 40 2) (fun _ => 3, fun _ => 0) = exec txiq_ref (calibrate_close 2) s2 /\
  exec txiq_ref (calibrate_close 2) s2 = Some (tt, s') /\
  Z.testbit (mem_read s'.1 0x6000607c 4) 12 = true /\ (2 <> 2 -> restored s1.1 100 s').
Proof.
  apply (txiq_calibration_restores false txiq_ref (fun _ => 3, fun _ => 0) 0 0 100 128 40 2).
  - apply txiq_ref_obeys.
  - intros a. cbn. unfold in_width. lia.
  - intros a. cbn. unfold in_width. lia.
  - unfold apart, TONE. lia.
  - unfold apart. lia.
Defined.
End TxIqSpec.

(** ** The Bluetooth wrapper *)
Module BluetoothSpec.
Import TxIqWrappers.

(** Calibration flags and the analog registers of block 103. *)
Record front_end := { flags : Z; analog : Z -> Z; runs : nat }.

(** A function table entry is known by its slot.  The calibration may change
    the analog registers. *)
Definition wrapper_reply (s3 : bool) (e : acc) (s : front_end) (x : Z) (s' : front_end) : Prop :=
  match e with
  | ReadFlags => x = flags s /\ s' = s
  | WriteFlags v => s' = {| flags := v; analog := analog s; runs := runs s |}
  | Slot _ off => x = off /\ s' = s
  | ReadAnalog f 103 _ r => (f = read_slot s3 -> x = analog s r) /\ s' = s
  | WriteAnalog f 103 _ r v =>
      f = write_slot s3 -> s' = {| flags := flags s; analog := (fun q => if q =? r then v else analog s q); runs := runs s |}
  | Calibrate _ _ _ _ _ => flags s' = flags s /\ runs s' = S (runs s)
  | _ => s' = s
  end.

Section Bluetooth.
Variable s3 : bool.
Abbreviation wpb := (wp no_guard (wrapper_reply s3)).

Definition flag_set (s : front_end) : bool := Z.testbit (flags s) 11.

Lemma flag_test v : negb (Z.land v (Z.shiftl 1 11) =? 0) = Z.testbit v 11.
Proof.
  destruct (Z.eqb_spec (Z.land v (Z.shiftl 1 11)) 0) as [H|H]; cbn [negb].
  - apply (f_equal (fun x => Z.testbit x 11)) in H. rewrite Z.land_spec, Z.bits_0 in H. cbn in H. by rewrite andb_true_r in H.
  - destruct (Z.testbit v 11) eqn:Hb; [done|]. destruct H. apply Z.bits_inj'. intros i Hi.
    rewrite Z.land_spec, Z.bits_0. destruct (decide (i = 11)) as [->|Hne]; [by rewrite Hb|].
    change (Z.shiftl 1 11) with (2 ^ 11). by rewrite Z.pow2_bits_false, andb_false_r by lia.
Qed.

Lemma wp_table (Q : Z -> front_end -> Prop) s : (forall x, Q x s) -> wpb (call Table) Q s.
Proof. intros HQ. apply wp_call; [done|]. by intros x s' ->. Qed.

Lemma wp_slot t off (Q : Z -> front_end -> Prop) s : Q off s -> wpb (call (Slot t off)) Q s.
Proof. intros HQ. apply wp_call; [done|]. by intros x s' [-> ->]. Qed.

Lemma wp_read_analog r (Q : Z -> front_end -> Prop) s : Q (analog s r) s -> wpb (read_analog s3 r) Q s.
Proof.
  intros HQ. unfold read_analog. apply wp_bind, wp_table. intros t. apply wp_bind, wp_slot.
  apply wp_call; [done|]. intros x s' [Hx ->]. by rewrite Hx.
Qed.

Definition put (s : front_end) (r v : Z) : front_end :=
  {| flags := flags s; analog := (fun q => if q =? r then v else analog s q); runs := runs s |}.

Lemma wp_put h r v (Q : unit -> front_end -> Prop) s :
  Q tt (put s r v) -> wpb (run (WriteAnalog (write_slot s3) 103 h r v)) Q s.
Proof. intros HQ. unfold run. apply wp_bind, wp_call; [done|]. intros x s' Hs. by rewrite Hs. Qed.

Lemma wp_write_analog r v (Q : unit -> front_end -> Prop) s : Q tt (put s r v) -> wpb (write_analog s3 r v) Q s.
Proof.
  intros HQ. unfold write_analog. apply wp_bind, wp_table. intros t. apply wp_bind, wp_slot. by apply wp_put.
Qed.

(** The Bluetooth calibration of the transmitter runs once and puts the analog front end back.
    When its flag is set it changes nothing; otherwise it runs the calibration once, sets its flag
    and no other, and the analog registers 28 and 29, cleared for the run, hold their old values
    afterwards, whatever the calibration did to them. *)
Theorem bluetooth_restores_analog h s :
  obeys_contract no_guard (wrapper_reply s3) h ->
  exists x s', exec h (bluetooth s3) s = Some (x, s') /\
    if flag_set s then s' = s
    else runs s' = S (runs s) /\ flags s' = Z.setbit (flags s) 11 /\
         analog s' 28 = analog s 28 /\ analog s' 29 = analog s 29.
Proof.
  intros Hh. apply (exec_wp _ _ h _ _ s Hh). unfold bluetooth, flag_set. apply wp_bind, wp_call; [done|].
  intros ? ? [-> ->]. rewrite flag_test. destruct (Z.testbit (flags s) 11); [by apply wp_ret|].
  apply wp_bind, wp_read_analog, wp_bind, wp_read_analog, wp_bind, wp_write_analog, wp_bind, wp_write_analog.
  apply wp_bind, wp_call; [done|]. intros code s1 ->. apply wp_bind. unfold run at 1. apply wp_bind, wp_call; [done|].
  intros ? s2 [Hf Hr]. apply wp_ret, wp_bind, wp_call; [done|]. intros ? ? [-> ->]. apply wp_bind.
  change (Z.lor (flags s2) (Z.shiftl 1 11)) with (Z.setbit (flags s2) 11). cbn [put flags runs] in Hf, Hr.
  eapply (wp_mono _ _ _ (fun _ s3' => s3' = {| flags := Z.setbit (flags s2) 11; analog := analog s2; runs := runs s2 |})).
  - intros t ? ->. apply wp_bind, wp_slot, wp_bind, wp_put, wp_write_analog. cbn. rewrite Hf. done.
  - destruct s3.
    + apply wp_bind. unfold run. apply wp_bind, wp_call; [done|]. intros ? ? ->. apply wp_ret. by apply wp_table.
    + apply wp_bind, wp_table. intros t. apply wp_bind. unfold run. apply wp_bind, wp_call; [done|]. intros ? ? ->. by apply wp_ret.
Qed.

(** A calibration that overwrites every analog register. *)
Definition wrapper_ref (e : acc) (s : front_end) : Z * front_end :=
  match e with
  | ReadFlags => (flags s, s)
  | WriteFlags v => (0, {| flags := v; analog := analog s; runs := runs s |})
  | Slot _ off => (off, s)
  | ReadAnalog _ 103 _ r => (analog s r, s)
  | WriteAnalog _ 103 _ r v => (0, put s r v)
  | Calibrate _ _ _ _ _ => (0, {| flags := flags s; analog := (fun _ => 255); runs := S (runs s) |})
  | _ => (0, s)
  end.

Lemma wrapper_ref_obeys : obeys_contract no_guard (wrapper_reply s3) wrapper_ref.
Proof. intros e s _. destruct e; try done; cbn; repeat case_match; try done; by subst. Qed.

End Bluetooth.

Lemma bluetooth_restores_analog_witness : exists x s',
  exec wrapper_ref (bluetooth false) {| flags := 4; analog := (fun q => q + 1); runs := 0 |} = Some (x, s') /\
  runs s' = 1%nat /\ flags s' = 2052 /\ analog s' 28 = 29 /\ analog s' 29 = 30.
Proof.
  apply (bluetooth_restores_analog false wrapper_ref {| flags := 4; analog := (fun q => q + 1); runs := 0 |}).
  apply wrapper_ref_obeys.
Defined.
End BluetoothSpec.
