(* ===== verification/PhyBus.v ===== *)
(** * PBUS, analog I2C and power detector

    Models [phy_pbus.rs] (Module [Pbus]), [phy_i2c.rs] ([I2c]),
    [phy_i2c_iram.rs] ([I2cIram]) and [phy_pwdet.rs] ([Pwdet]).  [s3] selects
    the chip.  A loop that polls the hardware without a limit takes the number
    of polls as an argument; its user answers [None] when the hardware was not
    ready by then. *)

From S2P Require Import Prelude Program.

Module Pbus.

Inductive acc :=
| Read8 (offset : Z)
| Read16 (offset : Z)
| Write32 (offset value : Z)
| ReadRegister (address : Z)
| WriteRegister (address value : Z)
| Table
| Slot (table offset : Z)
| CallVoid0 (function : Z)
| CallClock (function arg : Z)
| CallRx (function arg : Z)
| CallVoid2 (function arg0 arg1 : Z)
| CallIndex (function arg : Z)
| CallParam (function offset : Z)
| DirectStopTone (arg : Z)
| DelayUs (micros : Z).

Definition run (e : acc) : prog acc unit := call e ;; mret tt.

Definition update (address : Z) (f : Z -> Z) : prog acc unit :=
  value ← call (ReadRegister address);
  run (WriteRegister address (f value)).

(** C3 only *)
Definition force_mode (enabled : Z) : prog acc unit :=
  if negb (enabled =? 0) then
    update 0x6000610c (fun v => Z.ldiff v 0x08000000) ;;
    update 0x60006104 (fun v => Z.lor v 1)
  else
    update 0x60006104 (fun v => Z.ldiff v 1) ;;
    update 0x6000610c (fun v => Z.lor v 0x08000000) ;;
    gate ← call (ReadRegister 0x6002600c);
    if negb (Z.land gate 2 =? 0) then
      run (DelayUs 1) ;;
      update 0x6001c02c (fun v => Z.lor (Z.land v 0x00ffffff) 0x32000000) ;;
      update 0x6001c02c (fun v => Z.lor v 0x00800000) ;;
      run (DelayUs 2) ;;
      update 0x6001c02c (fun v => Z.ldiff v 0x00800000)
    else mret tt.

Section Pbus.
Variable s3 : bool.

Definition SLOTS : list Z :=
  if s3 then [0x44; 0x1b0; 0x1c8; 0xdc; 0x1cc; 0xe8; 0x1c0; 0x1b4]
  else [0x50; 0x1d4; 0x1ec; 0xec; 0x1f0; 0xfc; 0x1e4; 0x1d8].

Definition function (i : nat) : prog acc Z := table ← call Table; call (Slot table (nth i SLOTS 0)).

Definition debug_mode : prog acc unit :=
  index ← call (Read8 (if s3 then 0x20c else 0xa3));
  '(mode, gain, clock) ←
    (if s3 then
       mode ← call (Read8 (0x0e + index));
       gain ← call (Read16 (0x20 + index * 2));
       clock ← function 0;
       mret (mode, gain, clock)
     else
       gain ← call (Read16 (0x20 + index * 2));
       clock ← function 0;
       mode ← call (Read8 (0x0e + index));
       mret (mode, gain, clock));
  run (CallClock clock 1) ;;
  f ← function 1;
  run (CallVoid0 f) ;;
  f ← function 2;
  run (CallVoid2 f mode gain) ;;
  f ← function 3;
  index ← call (CallIndex f gain);
  let index := if s3 then Z.land index 0xffff else index in
  let offset := u32 (0x124 + u32 (index * 8)) in
  f ← function 4;
  run (CallParam f offset) ;;
  f ← function 5;
  run (CallVoid0 f).

Definition work_mode : prog acc unit :=
  run (DirectStopTone 1) ;;
  f ← function 0;
  run (CallClock f 0) ;;
  f ← function 6;
  run (CallRx f 0) ;;
  f ← function 7;
  run (CallVoid0 f).

Definition SAVED : Z := if s3 then 0x2ac else 0x328.

Definition save : prog acc unit :=
  for_all (range 0 6) (fun index =>
    value ← call (ReadRegister (0x600060e0 + index * 4));
    run (Write32 (SAVED + index * 4) value)).

Definition PROGRAMS : list (list Z) :=
  if s3 then
    [ [0x0709ff; 0x1713ff; 0xf50000; 0xf60000];
      [0x0401ff; 0x1801ff; 0x1401ff];
      [0x0403ff; 0x14f9ff; 0x1801ff; 0x4801ff; 0xf00000; 0xf10000; 0xf20000; 0xf40000];
      [0x0401ff; 0x1801ff; 0x1401ff];
      [0x14f9ff; 0x44ffff; 0xf30000];
      [0x4401ff; 0x5401ff];
      [0x0709ff; 0x1717ff; 0xf50000; 0xf60000];
      [0x0401ff; 0x1801ff; 0x1401ff];
      [0x0403ff; 0x14f9ff; 0x1801ff; 0x4831ff; 0xf00000; 0xf10000; 0xf20000; 0xf40000];
      [0x0401ff; 0x1801ff; 0x1401ff];
      [0x14fdff; 0x44ffff; 0xf30000];
      [0x4401ff; 0x5401ff] ]
  else
    [ [0x0709ff; 0x1713ff; 0xf50000; 0xf60000];
      [0x0401ff; 0x1401ff];
      [0x0403ff; 0x14f9ff; 0x1801ff; 0x4801ff; 0xf00000; 0xf10000; 0xf20000; 0xf40000];
      [0x0401ff; 0x1401ff];
      [0x14f9ff; 0x44ffff; 0xf30000];
      [0x4401ff; 0x5401ff];
      [0x0709ff; 0x1717ff; 0xf50000; 0xf60000];
      [0x0401ff; 0x1401ff];
      [0x0403ff; 0x14fdff; 0x1801ff; 0x4801ff; 0xf00000; 0xf10000; 0xf20000; 0xf40000];
      [0x0401ff; 0x1401ff];
      [0x14fdff; 0x44ffff; 0xf30000];
      [0x4401ff; 0x5401ff] ].

(** One word of a program, at address [start + index]. *)
Definition mem_word (start : Z) (p : nat * Z) : prog acc unit :=
  run (WriteRegister 0x600060cc p.2) ;;
  update 0x600060c8 (fun v =>
    Z.lor (Z.land v 0xfffc00ff) (Z.shiftl (Z.land (start + Z.of_nat p.1 + 0x200) 0x3ff) 8)) ;;
  update 0x600060c8 (fun v => Z.land v 0xfffcffff).

Definition enumerate {A} (l : list A) : list (nat * A) := zip (seq 0 (length l)) l.

Definition mem_program (p : nat * list Z) (start : Z) : prog acc Z :=
  let end_ := start + Z.of_nat (length p.2) in
  let register := 0x600060e0 + Z.of_nat (p.1 / 2) * 4 in
  let shift := Z.of_nat (p.1 mod 2) * 16 in
  let range := Z.land (Z.lor (Z.shiftl (end_ - 1) 8) start) 0xffff in
  update register (fun v => Z.lor (Z.ldiff v (Z.shiftl 0xffff shift)) (Z.shiftl range shift)) ;;
  for_all (enumerate p.2) (mem_word start) ;;
  mret end_.

Definition mem : prog acc unit :=
  for_each_with (enumerate PROGRAMS) 0 mem_program ;;
  save.

End Pbus.
End Pbus.

Module I2c.

Inductive acc :=
| Read8 (offset : Z)
| Write8 (offset value : Z)
| Write16 (offset value : Z)
| Write32 (offset value : Z)
| Table
| Slot (table offset : Z)
| ReadReg (function block host reg : Z)
| WriteReg (function block host reg data : Z)
| WriteMask (function : Z) (args : list Z)
| DirectBias (arg : Z)
| DirectBiasPart0.

Definition run (e : acc) : prog acc unit := call e ;; mret tt.

Section I2c.
Variable s3 : bool.

Definition READ : Z := if s3 then 0x188 else 0x1ac.
Definition WRITE : Z := if s3 then 0x190 else 0x1b4.
Definition MASK : Z := if s3 then 0x198 else 0x1bc.
Definition BBTOP_HOST : Z := if s3 then 0 else 1.

Definition function (offset : Z) : prog acc Z := table ← call Table; call (Slot table offset).

Definition get_data : prog acc unit :=
  run (Write8 0xbd 27) ;;
  (if s3 then
     run (Write8 0xbe 119) ;;
     v ← call (Read8 0x20d);
     let variant := v =? 1 in
     run (Write8 0xbf (if variant then 7 else 8)) ;;
     for_all [(0xc1, 10); (0xc4, 10); (0xc5, 116); (0xc6, 5); (0xc7, 127); (0xc8, 0); (0xc9, 240); (0xca, 2);
              (0xcb, 63); (0xcc, 168); (0xcd, 243); (0xce, 148)]
       (fun p : Z * Z => run (Write8 p.1 p.2)) ;;
     run (Write8 0xc0 (if variant then 148 else 164)) ;;
     run (Write8 0xcf 68) ;;
     run (Write8 0xc2 8) ;;
     run (Write8 0xc3 95)
   else
     run (Write16 0xbe 0x0877) ;;
     run (Write32 0xc0 0x5f080aa4) ;;
     run (Write32 0xc4 0x7f05740a) ;;
     run (Write32 0xc8 0x3f02f000) ;;
     run (Write32 0xcc 0x410ff3a8)) ;;
  run (Write8 0xd0 38).

Definition write_reg (block host reg data : Z) : prog acc unit :=
  f ← function WRITE;
  run (WriteReg f block host reg data).

Definition write_mask (args : list Z) : prog acc unit :=
  f ← function MASK;
  run (WriteMask f args).

Definition read_reg (block host reg : Z) : prog acc Z :=
  f ← function READ;
  call (ReadReg f block host reg).

Definition bias (arg : Z) : prog acc unit :=
  if s3 then
    let enabled := negb (u8 arg =? 0) in
    write_reg 106 0 0 (if enabled then 252 else 119) ;;
    writer ← function WRITE;
    value ← (if negb enabled then mret 119
             else v ← call (Read8 0x20d); mret (if v =? 1 then 127 else 124));
    run (WriteReg writer 106 0 1 value)
  else if Z.land arg 1 =? 0 then run DirectBiasPart0
  else
    run (DirectBias 0) ;;
    v ← call (Read8 0x9f);
    (if v =? 0 then
       raw ← read_reg 97 0 4;
       run (Write8 0x9f (u8 (Z.max (i16 (u32 (raw - 15))) 60)))
     else mret tt) ;;
    table ← call Table;
    value ← call (Read8 0x9f);
    writer ← call (Slot table WRITE);
    run (Write8 0xa0 value) ;;
    run (WriteReg writer 97 0 6 value) ;;
    write_mask [97; 0; 5; 6; 6; 1].

Definition bbpll : prog acc unit :=
  for_all [[102; 0; 9; 3; 2; 3]; [102; 0; 9; 5; 4; 2]; [102; 0; 10; 1; 0; 1]] write_mask ;;
  (if s3 then mret tt else write_mask [102; 0; 4; 3; 2; 3]) ;;
  first ← read_reg 102 0 9;
  table ← call Table;
  reader ← (if s3 then reader ← call (Slot table READ); run (Write8 0xd1 (u8 first)) ;; mret reader
            else run (Write8 0xd1 (u8 first)) ;; call (Slot table READ));
  second ← call (ReadReg reader 102 0 10);
  gate ← (if s3 then
            run (Write8 0xd2 (u8 second)) ;;
            call (Read8 0x2a6)
          else
            table ← call Table;
            run (Write8 0xd2 (u8 second)) ;;
            reader ← call (Slot table READ);
            third ← call (ReadReg reader 102 0 4);
            gate ← call (Read8 0x323);
            run (Write8 0x31d (u8 third)) ;;
            mret gate);
  (if gate =? 0 then write_mask [102; 0; 5; 7; 7; 0] else mret tt) ;;
  last ← read_reg 102 0 5;
  run (Write8 (if s3 then 0x2a1 else 0x31e) (u8 last)).

Definition write_bbtop (p : Z * Z) : prog acc unit := write_reg 103 BBTOP_HOST p.1 p.2.

Definition write_param (p : Z * Z) : prog acc unit :=
  table ← call Table;
  value ← call (Read8 p.2);
  writer ← call (Slot table WRITE);
  run (WriteReg writer 103 BBTOP_HOST p.1 value).

Definition init2 : prog acc unit :=
  '(reg29, reg31, reg22) ←
    (if s3 then mret (0, 0, 0)
     else
       x ← call (Read8 0x16d);
       y ← call (Read8 0x16e);
       z ← call (Read8 0x16c);
       mret (Z.min (x + 10) 60, Z.min (y + 3) 60, u8 (z + 4)));
  for_all [(36, 72); (40, 72); (37, 8); (41, 8); (44, 136); (48, 136); (45, 136); (49, 136); (52, 17); (53, 17);
           (54, 0); (55, if s3 then 0 else 85)] write_bbtop ;;
  reg29 ←
    (if s3 then
       table ← call Table;
       value ← call (Read8 0x167);
       writer ← call (Slot table WRITE);
       x ← call (Read8 0x16d);
       run (WriteReg writer 103 BBTOP_HOST 4 value) ;;
       writer ← function WRITE;
       value ← call (Read8 0x167);
       run (WriteReg writer 103 BBTOP_HOST 5 value) ;;
       mret (u8 (Z.max (u16 (x - 10)) 5))
     else
       write_param (4, 0x167) ;;
       write_param (5, 0x167) ;;
       mret reg29);
  for_all [(12, 0x168); (13, 0x168); (6, 0x169); (7, 0x169); (14, 0x16a); (15, 0x16a); (20, 0x16b); (21, 0x16b)]
    write_param ;;
  write_param (28, 0x16d) ;;
  write_bbtop (29, reg29) ;;
  (if s3 then write_param (22, 0x16c) ;; write_param (23, 0x16c)
   else write_bbtop (22, reg22) ;; write_bbtop (23, reg22)) ;;
  write_param (30, 0x16e) ;;
  (if s3 then write_param (31, 0x16e) else write_bbtop (31, reg31)) ;;
  write_bbtop (56, 255) ;;
  write_mask [103; BBTOP_HOST; 2; 3; 2; 1] ;;
  write_reg 98 1 0 168 ;;
  write_reg 98 1 11 (if s3 then 72 else 104) ;;
  write_reg 98 1 2 136.

End I2c.
End I2c.

Module I2cIram.

Inductive acc :=
| Read8 (offset : Z)
| Write8 (offset value : Z)
| Input8 (input index : Z)
| ReadRegister (address : Z)
| WriteRegister (address value : Z)
| Table
| Slot (table offset : Z)
| Pause (function : Z)
| Resume (function token : Z)
| BlockValue (function block : Z)
| ReadOriginal (function block mask host reg : Z)
| ReadReg (function block host reg : Z)
| WriteReg (function block host reg data : Z)
| WriteMask (function : Z) (args : list Z)
| ReadMask (function : Z) (args : list Z)
| Batch (function : Z) (data_a data_b : list Z)
| Enter
| Exit
| Init2
| Sar2 (function : option Z) (arg : Z).

Definition run (e : acc) : prog acc unit := call e ;; mret tt.

Section I2cIram.
Variable s3 : bool.

Definition SLOTS : list Z :=
  if s3 then [0x154; 0x158; 0x15c; 0x160; 0x164; 0x168; 0x180; 0x188; 0x190; 0x194; 0x198]
  else [0x178; 0x17c; 0x180; 0x184; 0x188; 0x18c; 0x1a4; 0x1ac; 0x1b4; 0x1b8; 0x1bc].

Definition function (index : nat) : prog acc Z := table ← call Table; call (Slot table (nth index SLOTS 0)).

Definition hostid (block : Z) : prog acc Z :=
  let index := Z.land (u32 (block - 98)) 255 in
  let host := bool_to_Z ((index <=? 9) && negb (Z.land (Z.shiftl 1 index) 0x227 =? 0)) in
  value ← call (ReadRegister 0x6000e048);
  run (WriteRegister 0x6000e048 (Z.lor (Z.land value 0xfffe000f) 0x1fe00)) ;;
  mret host.

Definition read (block host reg : Z) : prog acc Z :=
  let block := if s3 then Z.land block 255 else block in
  let reg := if s3 then Z.land reg 255 else reg in
  f ← function 3;
  token ← call (Pause f);
  run Enter ;;
  f ← function 0;
  mask ← call (BlockValue f block);
  f ← function 2;
  host ← call (BlockValue f block);
  f ← function 5;
  value ← call (ReadOriginal f block mask host reg);
  run Exit ;;
  f ← function 4;
  run (Resume f token) ;;
  mret value.

(** Poll the busy bit; whether the bus was free within [fuel] polls. *)
Fixpoint wait_free (fuel : nat) (address : Z) : prog acc bool :=
  match fuel with
  | O => mret false
  | S fuel' =>
      v ← call (ReadRegister address);
      if Z.land v (Z.shiftl 1 25) =? 0 then mret true else wait_free fuel' address
  end.

Definition write (fuel : nat) (block host reg data : Z) : prog acc (option unit) :=
  let block := if s3 then Z.land block 255 else block in
  let reg := if s3 then Z.land reg 255 else reg in
  let data := if s3 then Z.land data 255 else data in
  f ← function 3;
  token ← call (Pause f);
  run Enter ;;
  f ← function 2;
  host ← call (BlockValue f block);
  let address := u32 (Z.shiftl (u32 (host + 0x18003800)) 2) in
  run (WriteRegister address
         (Z.lor (Z.lor (Z.lor block (u32 (Z.shiftl reg 8))) (u32 (Z.shiftl data 16))) 0x05000000)) ;;
  free ← wait_free fuel address;
  if (free : bool) then
    run Exit ;;
    f ← function 4;
    run (Resume f token) ;;
    mret (Some tt)
  else mret None.

(** C3 only *)
Definition bias_part0 : prog acc unit :=
  f ← function 8;
  run (WriteReg f 106 0 0 204) ;;
  f ← function 8;
  run (WriteReg f 106 0 1 124).

(** C3 only *)
Definition bias_dreg (arg : Z) : prog acc unit :=
  if negb (arg =? 0) then bias_part0
  else
    f ← function 8;
    run (WriteReg f 106 0 0 119) ;;
    f ← function 8;
    run (WriteReg f 106 0 1 119).

Definition wakeup : prog acc unit :=
  let host := if s3 then 0 else 1 in
  f ← function 7;
  first ← call (ReadReg f 103 host 4);
  f ← function 7;
  second ← call (ReadReg f 103 host 6);
  if (first =? 16) && (second =? 16) then run Init2 else mret tt.

(** The capacitor value of a column for a rate. *)
Definition txcap_column (input rate : Z) (use_saved : bool) (column : Z) : prog acc Z :=
  a ← call (Input8 input column);
  b ← call (Input8 input (column + 3));
  c ← call (Input8 input (column + 6));
  '(a, b, c) ← (if use_saved then
                  a ← call (Read8 (0x2ce + column * 3));
                  b ← call (Read8 (0x2cf + column * 3));
                  c ← call (Read8 (0x2d0 + column * 3));
                  mret (a, b, c)
                else mret (a, b, c));
  mret (if rate <=? 3 then a else if rate <=? 8 then b else c).

(** S3 only *)
Definition txcap (input rate : Z) : prog acc unit :=
  let rate := u8 rate in
  v ← call (Read8 0x2cd);
  let use_saved := negb (v =? 0) in
  s0 ← txcap_column input rate use_saved 0;
  s1 ← txcap_column input rate use_saved 1;
  s2 ← txcap_column input rate use_saved 2;
  f ← function 10;
  run (WriteMask f [107; 0; 1; 3; 0; s0]) ;;
  let packed := u8 (Z.lor (i32 (Z.shiftl (i8 s2) 4)) s1) in
  f ← function 8;
  run (WriteReg f 107 0 2 packed) ;;
  previous ← call (Read8 0xbd);
  run (Write8 0xbd (Z.lor (Z.land previous 0xf0) s0)) ;;
  run (Write8 0xbe packed).

(** The order in which the twenty values are read. *)
Definition init1_order : list Z :=
  if s3 then [0xc0; 0xbd; 0xc1; 0xc2; 0xbe; 0xbf; 0xc3; 0xc4; 0xc7; 0xc8; 0xc9; 0xc6; 0xca; 0xc5; 0xcb; 0xcc; 0xcf; 0xd0;
              0xce; 0xcd]
  else (fun i => 0xbd + i) <$> range 0 20.

Definition init1 : prog acc unit :=
  run Enter ;;
  values ← for_each_with init1_order (replicate 20 0) (fun offset values =>
             v ← call (Read8 offset);
             mret (<[Z.to_nat (offset - 0xbd) := v]> values));
  let data_a := take 10 values in
  let data_b := drop 10 values in
  f ← function 1;
  mask ← call (BlockValue f 107);
  previous ← call (ReadRegister 0x6000e048);
  let masked := Z.lor (Z.land previous 0xfffe000f) (Z.land mask 0x1fff0) in
  batch ← (if s3 then run (WriteRegister 0x6000e048 masked) ;; function 6
           else batch ← function 6; run (WriteRegister 0x6000e048 masked) ;; mret batch);
  run (Batch batch data_a data_b) ;;
  previous ← call (ReadRegister 0x6000e048);
  let restored := Z.lor (Z.land previous 0xfffe000f) 0x1fe00 in
  table ← (if s3 then table ← call Table; run (WriteRegister 0x6000e048 restored) ;; mret table
           else run (WriteRegister 0x6000e048 restored) ;; call Table);
  reader ← call (Slot table (nth 9 SLOTS 0));
  v ← call (ReadMask reader [105; 0; 4; 3; 0]);
  (if v =? 0 then
     if s3 then
       table ← call Table;
       callback ← call (Slot table 0x23c);
       run (Sar2 (Some callback) 1400)
     else run (Sar2 None 1400)
   else mret tt) ;;
  run Exit.

End I2cIram.
End I2cIram.

Module Pwdet.

Inductive acc :=
| Param
| Read16 (address : Z)
| Write16 (address value : Z)
| Read32 (address : Z)
| Write32 (address value : Z)
| Table
| Slot (table offset : Z)
| Setup (target : Z)
| Fill (target : Z)
| Pair
| Convert (target value selector : Z)
| Delay (microseconds : Z)
| Tone
| Samples (count : Z)
| Reference (input signal reference : Z)
| Fm (signal reference : Z)
| DivideUnsigned (numerator denominator : Z).

(** [Fill] answers the second of the eight halfwords it writes to the private
    buffer, the only one the code reads; [Pair] answers the address of the
    uninitialised local pair of halfwords. *)
Definition run (e : acc) : prog acc unit := call e ;; mret tt.

Section Pwdet.
Variable s3 : bool.

Definition SETUP : Z := if s3 then 0x120 else 0x144.
Definition OUTPUT : Z := if s3 then 0x124 else 0x148.
Definition CONVERT : Z := if s3 then 0x104 else 0x118.

Definition function (offset : Z) : prog acc Z := table ← call Table; call (Slot table offset).

Definition reference (input signal reference : Z) : prog acc unit :=
  param ← call Param;
  baseline ← call (Read16 (param + 0xda));
  calibrated ← call (Read16 (param + 0xdc));
  let input := u16 (u32 (input + if s3 then 50 else 40)) in
  run (Write16 signal (if baseline <=? input then u16 (input - baseline) else 0)) ;;
  run (Write16 reference (if baseline <=? calibrated then u16 (calibrated - baseline) else 0)).

Definition modify (address clear set : Z) : prog acc unit :=
  v ← call (Read32 address);
  run (Write32 address (Z.lor (Z.ldiff v clear) set)).

(** Whether the detector became ready within [fuel] polls. *)
Fixpoint wait_ready (fuel : nat) : prog acc bool :=
  match fuel with
  | O => mret false
  | S fuel' =>
      v ← call (Read32 0x6000e050);
      if Z.land (Z.shiftr v 24) 7 =? 7 then mret true else wait_ready fuel'
  end.

Definition tone (fuel : nat) : prog acc (option unit) :=
  modify 0x60006040 0 (Z.shiftl 1 18) ;;
  run (Delay 1) ;;
  modify 0x6000e050 2 0 ;;
  modify 0x6000e050 0 2 ;;
  run (Delay 2) ;;
  ready ← wait_ready fuel;
  if (ready : bool) then modify 0x60006040 (Z.shiftl 1 18) 0 ;; mret (Some tt) else mret None.

(** C3 only *)
Definition pkdet (fuel : nat) : prog acc (option unit) :=
  modify 0x6000e05c 0 (Z.shiftl 1 21) ;;
  modify 0x6000e05c 0 (Z.shiftl 1 19) ;;
  ready ← wait_ready fuel;
  if negb ready then mret None else
  modify 0x6000e050 2 0 ;;
  modify 0x6000e050 0 2 ;;
  run (Delay 10) ;;
  ready ← wait_ready fuel;
  if negb ready then mret None else
  modify 0x6000e05c (Z.shiftl 1 21) 0 ;;
  modify 0x6000e05c (Z.shiftl 1 19) 0 ;;
  mret (Some tt).

Definition read_code : prog acc Z :=
  f ← function SETUP;
  run (Setup f) ;;
  f ← function OUTPUT;
  call (Fill f).

(** On the C3 a count above 255 is never reached by the 8-bit counter; [None]
    when [fuel] samples were not enough. *)
Fixpoint samples_loop (fuel : nat) (count counter sum : Z) : prog acc (option (Z * Z)) :=
  if counter =? count then mret (Some (sum, counter)) else
  match fuel with
  | O => mret None
  | S fuel' =>
      run Tone ;;
      f ← function OUTPUT;
      v ← call (Fill f);
      samples_loop fuel' count (u8 (counter + 1)) (u32 (sum + v))
  end.

Definition samples (fuel : nat) (count : Z) : prog acc (option Z) :=
  let count := if s3 then u8 count else count in
  r ← samples_loop fuel count 0 0;
  match r with
  | None => mret None
  | Some (sum, counter) =>
      q ← call (DivideUnsigned sum counter);
      mret (Some (u16 q))
  end.

Definition fm (signal reference : Z) : prog acc Z :=
  n ← call (Samples 2);
  run (Reference n signal reference) ;;
  mret 0.

(** A division by zero is a panic. *)
Definition linear_step (result : Z) : prog acc Z :=
  ptr ← call Pair;
  n ← call (Samples 2);
  run (Reference n ptr (ptr + 2)) ;;
  denominator ← call (Read16 (ptr + 2));
  (if i16 denominator =? 0 then run (Write16 (ptr + 2) 1) else mret tt) ;;
  a ← call (Read16 ptr);
  let numerator := i32 (Z.shiftl (i16 a) 10) in
  b ← call (Read16 (ptr + 2));
  assert (negb (i16 b =? 0)) ;;
  mret (i16 (result + Z.quot numerator (i16 b))).

Definition linear : prog acc Z := for_each_with (range 0 2) 0 (fun _ => linear_step).

Definition db (offset : Z) : prog acc Z :=
  let offset := if s3 then u16 offset else offset in
  ptr ← call Pair;
  call (Fm ptr (ptr + 2)) ;;
  f ← function CONVERT;
  v ← call (Read16 ptr);
  first ← call (Convert f (i16 v) 3);
  f ← function CONVERT;
  v ← call (Read16 (ptr + 2));
  second ← call (Convert f (i16 v) 3);
  mret (i16 (u32 (u32 (offset + first) - second))).

End Pwdet.
End Pwdet.
