(* ===== verification/PhyBusSpec.v ===== *)
(** * Correctness of the bus programming *)

From S2P Require Import Prelude Program PhyBus.

(** ** The PBUS programs *)
Module PbusSpec.
Import Pbus.

(** Registers, saved words, and the words presented to the program memory: a
    write of the address register 0x600060c8 with bit 17 set presents the data
    register 0x600060cc at the address in bits 8 to 16.  This reading of the
    address register is the specification's own: the documents name it only as
    an address and control word, and the code's writes fit it. *)
Record port := { regs : Z -> Z; saved : Z -> Z; shown : list (Z * Z) }.

Definition set_reg (s : port) (a v : Z) : port :=
  {| regs := (fun b => if b =? a then v else regs s b); saved := saved s;
     shown := if (a =? 0x600060c8) && Z.testbit v 17
              then shown s ++ [(Z.land (Z.shiftr v 8) 0x1ff, regs s 0x600060cc)] else shown s |}.

Definition port_reply (e : acc) (s : port) (x : Z) (s' : port) : Prop :=
  match e with
  | ReadRegister a => x = regs s a /\ s' = s
  | WriteRegister a v => s' = set_reg s a v
  | Write32 off v => s' = {| regs := regs s; saved := (fun o => if o =? off then v else saved s o); shown := shown s |}
  | _ => True
  end.

Abbreviation wpp := (wp no_guard port_reply).

Lemma wp_reg_write a v (Q : unit -> port -> Prop) s : Q tt (set_reg s a v) -> wpp (run (WriteRegister a v)) Q s.
Proof. intros HQ. unfold run. apply wp_bind, wp_call; [done|]. by intros ? ? ->. Qed.

Lemma wp_update a f (Q : unit -> port -> Prop) s : Q tt (set_reg s a (f (regs s a))) -> wpp (update a f) Q s.
Proof.
  intros HQ. unfold update. apply wp_bind, wp_call; [done|]. intros ? ? [-> ->]. by apply wp_reg_write.
Qed.

(** The address word of a program word. *)
Definition address_word (v a : Z) : Z := Z.lor (Z.land v 0xfffc00ff) (Z.shiftl (Z.land (a + 0x200) 0x3ff) 8).

Lemma address_word_spec v a : 0 <= a < 512 ->
  Z.testbit (address_word v a) 17 = true /\ Z.land (Z.shiftr (address_word v a) 8) 0x1ff = a.
Proof.
  intros Ha. unfold address_word.
  assert (Z.land (a + 0x200) 0x3ff = a + 0x200) as ->.
  { etrans; [apply (land_ones_mod (a + 0x200) 10); lia|]. apply Z.mod_small. lia. }
  assert (Z.testbit (a + 0x200) 9 = true) as H9.
  { rewrite Z.testbit_true by lia. replace ((a + 0x200) / 2 ^ 9) with 1; [done|].
    apply (Z.div_unique (a + 0x200) (2 ^ 9) 1 a); lia. }
  split.
  - rewrite Z.lor_spec, Z.shiftl_spec by lia. change (17 - 8) with 9. by rewrite H9, orb_true_r.
  - rewrite Z.shiftr_lor, Z.land_lor_distr_l, Z.shiftr_land, <- Z.land_assoc.
    change (Z.land (Z.shiftr 0xfffc00ff 8) 0x1ff) with 0. rewrite Z.land_0_r, Z.lor_0_l.
    rewrite Z.shiftr_shiftl_l by lia. change (8 - 8) with 0. rewrite Z.shiftl_0_r.
    etrans; [apply (land_ones_mod (a + 0x200) 9); lia|]. symmetry. apply (Z.mod_unique _ _ 1); lia.
Qed.

(** Nothing but the address and data registers changes. *)
Definition same_ranges (s s' : port) : Prop :=
  saved s' = saved s /\ forall a, a <> 0x600060c8 -> a <> 0x600060cc -> regs s' a = regs s a.

Lemma mem_word_spec start p (Q : unit -> port -> Prop) s :
  0 <= start + Z.of_nat p.1 < 512 ->
  (forall s', same_ranges s s' -> shown s' = shown s ++ [(start + Z.of_nat p.1, p.2)] -> Q tt s') ->
  wpp (mem_word start p) Q s.
Proof.
  intros Hp HQ. unfold mem_word. apply wp_bind, wp_reg_write, wp_bind, wp_update, wp_update.
  destruct (address_word_spec (regs (set_reg s 0x600060cc p.2) 0x600060c8) (start + Z.of_nat p.1) Hp) as [Hbit Hadr].
  unfold address_word in *. set (w := Z.lor _ _) in *. apply HQ.
  - split; [done|]. intros a Ha Hb. cbn. apply Z.eqb_neq in Ha, Hb. by rewrite Ha, Hb.
  - cbn [set_reg shown regs]. rewrite !Z.eqb_refl, Hbit, Hadr. change (0x600060cc =? 0x600060c8) with false. cbn [andb].
    rewrite Z.land_spec. change (Z.testbit 0xfffcffff 17) with false. by rewrite andb_false_r.
Qed.

(** The words of one program, from an address on. *)
Definition placed (start : Z) (l : list Z) : list (Z * Z) :=
  (fun p : nat * Z => (start + Z.of_nat p.1, p.2)) <$> enumerate l.

Lemma mem_words_spec start l (Q : unit -> port -> Prop) s :
  0 <= start -> start + Z.of_nat (length l) <= 512 ->
  (forall s', same_ranges s s' -> shown s' = shown s ++ placed start l -> Q tt s') ->
  wpp (for_all (enumerate l) (mem_word start)) Q s.
Proof.
  intros H0 Hl HQ. unfold placed, enumerate in *.
  assert (Hb : forall i x, (i, x) ∈ zip (seq 0 (length l)) l -> (i < length l)%nat).
  { intros i x Hin. apply elem_of_zip_l, elem_of_seq in Hin. lia. }
  revert s HQ. generalize (zip (seq 0 (length l)) l) Hb. intros pl. induction pl as [|[i x] pl IHl]; intros Hpl s HQ; cbn [for_all].
  - apply wp_ret, HQ; [done|]. by rewrite app_nil_r.
  - apply wp_bind, mem_word_spec; cbn [fst snd].
    { specialize (Hpl i x). assert (i < length l)%nat by (apply Hpl; left). lia. }
    intros s1 [Hsv Hr] Hs. apply IHl; [intros; apply (Hpl i0 x0); by right|]. intros s2 [Hsv2 Hr2] Hs2. apply HQ.
    + split; [congruence|]. intros a Ha Hb'. by rewrite Hr2, Hr.
    + rewrite Hs2, Hs. by rewrite <- app_assoc.
Qed.

Lemma testbit_ffff i : 0 <= i -> Z.testbit 0xffff i = (i <? 16).
Proof. intros Hi. change 0xffff with (Z.ones 16). rewrite Z.testbit_ones by lia. by rewrite (proj2 (Z.leb_le 0 i) Hi). Qed.

(** Replace a half of a register. *)
Definition put_half (v r sh : Z) : Z := Z.lor (Z.ldiff v (Z.shiftl 0xffff sh)) (Z.shiftl r sh).
Definition get_half (v sh : Z) : Z := Z.land (Z.shiftr v sh) 0xffff.

Lemma get_put_half v r sh : 0 <= sh -> 0 <= r < 2 ^ 16 -> get_half (put_half v r sh) sh = r.
Proof.
  intros Hsh Hr. unfold get_half, put_half. apply Z.bits_inj'. intros i Hi.
  rewrite Z.land_spec, Z.shiftr_spec, Z.lor_spec, Z.ldiff_spec, !shiftl_testbit by lia.
  rewrite (proj2 (Z.leb_le sh (i + sh))), !Z.add_simpl_r, testbit_ffff by lia. cbn [andb].
  destruct (Z.ltb_spec i 16); [by rewrite andb_false_r, andb_true_r|].
  rewrite andb_false_r. symmetry. apply (testbit_high 16); [done|lia].
Qed.

Lemma get_put_other v r sh sh' :
  (sh = 0 /\ sh' = 16) \/ (sh = 16 /\ sh' = 0) -> 0 <= r < 2 ^ 16 -> get_half (put_half v r sh) sh' = get_half v sh'.
Proof.
  intros Hsh Hr. unfold get_half, put_half. apply Z.bits_inj'. intros i Hi.
  rewrite !Z.land_spec, !Z.shiftr_spec, Z.lor_spec, Z.ldiff_spec, !shiftl_testbit, (testbit_ffff i) by lia.
  destruct (Z.ltb_spec i 16); [|by rewrite !andb_false_r]. rewrite !andb_true_r.
  destruct Hsh as [[-> ->]|[-> ->]].
  - rewrite !Z.sub_0_r, testbit_ffff by lia. rewrite (proj2 (Z.ltb_ge (i + 16) 16)) by lia.
    rewrite (testbit_high 16 r) by (done || lia). by rewrite !andb_false_r, andb_true_r, orb_false_r.
  - rewrite (proj2 (Z.leb_gt 16 (i + 0))) by lia. cbn [andb negb]. by rewrite andb_true_r, orb_false_r.
Qed.

(** The range register half of a program, and what it must hold: the addresses
    of its first and last word. *)
Definition range_reg (p : nat) : Z := 0x600060e0 + Z.of_nat (p / 2) * 4.
Definition half (s : port) (p : nat) : Z := get_half (regs s (range_reg p)) (Z.of_nat (p mod 2) * 16).

Definition start_of (P : list (list Z)) (p : nat) : Z := Z.of_nat (length (concat (take p P))).
Definition range_of (P : list (list Z)) (p : nat) : Z := start_of P p + 256 * (start_of P (S p) - 1).

Lemma start_of_S P p l : P !! p = Some l -> start_of P (S p) = start_of P p + Z.of_nat (length l).
Proof.
  intros Hp. unfold start_of. rewrite (take_S_r _ _ _ Hp), concat_app, length_app. cbn [concat]. rewrite app_nil_r. lia.
Qed.

Lemma half_set s p q r : 0 <= r < 2 ^ 16 ->
  half (set_reg s (range_reg p) (put_half (regs s (range_reg p)) r (Z.of_nat (p mod 2) * 16))) q =
  if decide (q = p) then r else half s q.
Proof.
  intros Hr. unfold half. cbn [set_reg regs]. pose proof (Nat.mod_upper_bound p 2). pose proof (Nat.mod_upper_bound q 2).
  destruct (decide (q = p)) as [->|Hne].
  - rewrite Z.eqb_refl. apply get_put_half; lia.
  - destruct (Z.eqb_spec (range_reg q) (range_reg p)) as [Heq|]; [|done]. rewrite Heq. apply get_put_other; [|done].
    unfold range_reg in Heq. pose proof (Nat.div_mod_eq p 2). pose proof (Nat.div_mod_eq q 2). lia.
Qed.

(** Programs below [k] are loaded. *)
Definition loaded (P : list (list Z)) (s0 : port) (k : nat) (s : port) : Prop :=
  saved s = saved s0 /\ shown s = shown s0 ++ placed 0 (concat (take k P)) /\
  forall p, (p < k)%nat -> half s p = range_of P p.

Lemma placed_shift start m n : forall j (k : list Z),
  (fun p : nat * Z => (start + Z.of_nat p.1, p.2)) <$> zip (seq (m + j) n) k =
  (fun p : nat * Z => (start + Z.of_nat m + Z.of_nat p.1, p.2)) <$> zip (seq j n) k.
Proof.
  induction n as [|n IHn]; intros j [|x k]; try done. cbn [seq zip zip_with fmap list_fmap fst snd].
  f_equal; [f_equal; lia|]. rewrite <- Nat.add_succ_r. apply IHn.
Qed.

Lemma placed_app start l l' : placed start (l ++ l') = placed start l ++ placed (start + Z.of_nat (length l)) l'.
Proof.
  unfold placed, enumerate. rewrite length_app, seq_app, zip_with_app by (by rewrite length_seq). rewrite fmap_app. f_equal.
  rewrite <- placed_shift. by rewrite Nat.add_0_r, Nat.add_0_l.
Qed.

Lemma mem_program_spec P s0 p l s (Q : Z -> port -> Prop) :
  P !! p = Some l -> (1 <= length l)%nat -> (length (concat P) <= 256)%nat -> (p < 12)%nat ->
  loaded P s0 p s -> (forall s', loaded P s0 (S p) s' -> Q (start_of P (S p)) s') ->
  wpp (mem_program (p, l) (start_of P p)) Q s.
Proof.
  intros Hp Hl Hlen Hp12 (Hsv & Hsh & Hh) HQ. unfold mem_program. cbn [fst snd]. cbv zeta.
  pose proof (start_of_S P p l Hp) as HS.
  assert (Hmax : start_of P (S p) <= 256).
  { unfold start_of. rewrite <- (take_drop (S p) P), concat_app, length_app in Hlen. lia. }
  assert (0 <= start_of P p) as H0 by (unfold start_of; lia). rewrite <- HS.
  assert (Z.land (Z.lor (Z.shiftl (start_of P (S p) - 1) 8) (start_of P p)) 0xffff = range_of P p) as ->.
  { rewrite Z.shiftl_mul_pow2, lor_disjoint_add by lia. etrans; [apply (land_ones_mod _ 16); lia|].
    rewrite Z.mod_small by lia. unfold range_of. lia. }
  assert (0 <= range_of P p < 2 ^ 16) as Hr by (unfold range_of; lia).
  apply wp_bind, wp_update. fold (range_reg p). fold (put_half (regs s (range_reg p)) (range_of P p) (Z.of_nat (p mod 2) * 16)).
  set (s1 := set_reg _ _ _). assert (shown s1 = shown s) as Hs1.
  { unfold s1. cbn [set_reg shown]. assert ((range_reg p =? 0x600060c8) = false) as ->; [|done].
    apply Z.eqb_neq. unfold range_reg. lia. }
  apply wp_bind, mem_words_spec; [lia..|]. intros s2 [Hsv2 Hr2] Hs2. apply wp_ret, HQ. split_and!.
  - rewrite Hsv2. exact Hsv.
  - rewrite Hs2, Hs1, Hsh, <- app_assoc. f_equal. rewrite (take_S_r _ _ _ Hp), concat_app, placed_app. cbn [concat].
    rewrite app_nil_r. by rewrite Z.add_0_l.
  - intros q Hq. transitivity (half s1 q).
    { unfold half. rewrite Hr2; [done|..]; unfold range_reg; lia. }
    unfold s1. rewrite half_set by done. destruct (decide (q = p)) as [->|]; [done|]. apply Hh. lia.
Qed.

Lemma enumerate_drop {A} (P : list A) k i x rest :
  drop k (enumerate P) = (i, x) :: rest -> i = k /\ P !! k = Some x /\ rest = drop (S k) (enumerate P).
Proof.
  intros Hd. assert (enumerate P !! k = Some (i, x)) as Hk.
  { rewrite <- (Nat.add_0_r k), <- lookup_drop, Hd. done. }
  unfold enumerate in Hk. rewrite lookup_zip_with in Hk.
  destruct (seq 0 (length P) !! k) as [i'|] eqn:Hseq; [|done]. destruct (P !! k) as [x'|] eqn:Hx; [|done].
  apply lookup_seq in Hseq as [-> ?]. cbn in Hk. simplify_eq. split_and!; [done..|].
  rewrite <- Nat.add_1_r, <- drop_drop, Hd. done.
Qed.

Lemma programs_loaded P s (Q : Z -> port -> Prop) :
  length P = 12%nat -> Forall (fun l => (1 <= length l)%nat) P -> (length (concat P) <= 256)%nat ->
  (forall s', loaded P s 12 s' -> Q (start_of P 12) s') ->
  wpp (for_each_with (enumerate P) 0 mem_program) Q s.
Proof.
  intros H12 Hne Hlen HQ.
  apply (wp_for_each_with _ _ (fun rest b s' => exists k, (k <= 12)%nat /\ rest = drop k (enumerate P) /\
    b = start_of P k /\ loaded P s k s')).
  - exists 0%nat. split_and!; [lia|done|done|]. split_and!; [done|by rewrite app_nil_r|]. intros p Hp. lia.
  - intros [i l] rest b s1 (k & Hk & Hrest & -> & Hl). symmetry in Hrest. apply enumerate_drop in Hrest as (-> & Hx & ->).
    assert (k < 12)%nat by (rewrite <- H12; by eapply lookup_lt_Some).
    apply (mem_program_spec P s k l); try done; [by eapply (Forall_lookup_1 (fun l => (1 <= length l)%nat))|].
    intros s2 Hs2. exists (S k). split_and!; [lia|done..].
  - intros b s1 (k & Hk & Hrest & -> & Hl). assert (k = 12)%nat as ->; [|by apply HQ].
    apply (f_equal length) in Hrest. unfold enumerate in Hrest.
    rewrite length_drop, length_zip_with, length_seq, H12 in Hrest. cbn in Hrest. lia.
Qed.

Section Load.
Variable s3 : bool.

Lemma save_spec s (Q : unit -> port -> Prop) :
  (forall s', regs s' = regs s -> shown s' = shown s ->
     (forall i, (i < 6)%nat -> saved s' (SAVED s3 + Z.of_nat i * 4) = regs s (range_reg (2 * i))) -> Q tt s') ->
  wpp (save s3) Q s.
Proof.
  intros HQ. unfold save.
  apply (wp_for_range _ _ (fun k s' => regs s' = regs s /\ shown s' = shown s /\
    forall i, (i < k)%nat -> saved s' (SAVED s3 + Z.of_nat i * 4) = regs s (range_reg (2 * i)))).
  - lia.
  - split_and!; [done..|]. lia.
  - intros k s1 Hk (Hr & Hs & Hi). apply wp_bind, wp_call; [done|]. intros ? ? [-> ->]. unfold run.
    apply wp_bind, wp_call; [done|]. intros ? ? ->. apply wp_ret. cbn [regs shown saved]. split_and!; [done..|].
    intros i Hik. destruct (Z.eqb_spec (SAVED s3 + Z.of_nat i * 4) (SAVED s3 + Z.of_nat k * 4)).
    + assert (i = k) as -> by lia. rewrite Hr. unfold range_reg. rewrite (Nat.mul_comm 2 k), Nat.div_mul by lia. done.
    + apply Hi. lia.
  - intros s1 (Hr & Hs & Hi). by apply HQ.
Qed.

(** C35: loading the PBUS programs fills the program memory and describes it correctly.  From any
    register contents, the words of the twelve programs are presented one after the other at
    consecutive addresses from 0, and nothing else is; the half of a range register that belongs to a
    program holds the addresses of its first and last word; and the six range registers are saved,
    with these values, in the parameters. *)
Theorem pbus_programs_loaded h s :
  obeys_contract no_guard port_reply h ->
  exists x s', exec h (mem s3) s = Some (x, s') /\
    shown s' = shown s ++ placed 0 (concat (PROGRAMS s3)) /\
    (forall p, (p < 12)%nat -> half s' p = range_of (PROGRAMS s3) p) /\
    (forall i, (i < 6)%nat -> saved s' (SAVED s3 + Z.of_nat i * 4) = regs s' (range_reg (2 * i))).
Proof.
  intros Hh. apply (exec_wp _ _ h _ _ s Hh). unfold mem.
  apply wp_bind, programs_loaded; [by destruct s3|destruct s3; decide_now|destruct s3; cbn; lia|].
  intros s1 (_ & Hs & Hh1). apply save_spec. intros s2 Hr2 Hs2 Hi. split_and!.
  - rewrite Hs2, Hs. by destruct s3.
  - intros p Hp. unfold half. rewrite Hr2. by apply Hh1.
  - intros i Hi6. rewrite Hr2. by apply Hi.
Qed.

(** The port itself. *)
Definition port_ref (e : acc) (s : port) : Z * port :=
  match e with
  | ReadRegister a => (regs s a, s)
  | WriteRegister a v => (0, set_reg s a v)
  | Write32 off v => (0, {| regs := regs s; saved := (fun o => if o =? off then v else saved s o); shown := shown s |})
  | _ => (0, s)
  end.

Lemma port_ref_obeys : obeys_contract no_guard port_reply port_ref.
Proof. intros e s _. by destruct e. Qed.

End Load.

Lemma pbus_programs_loaded_witness : exists x s',
  exec port_ref (mem true) {| regs := (fun a => a); saved := (fun _ => 0); shown := [] |} = Some (x, s') /\
  shown s' = placed 0 (concat (PROGRAMS true)) /\
  (forall p, (p < 12)%nat -> half s' p = range_of (PROGRAMS true) p) /\
  (forall i, (i < 6)%nat -> saved s' (SAVED true + Z.of_nat i * 4) = regs s' (range_reg (2 * i))).
Proof.
  apply (pbus_programs_loaded true port_ref {| regs := (fun a => a); saved := (fun _ => 0); shown := [] |}).
  apply port_ref_obeys.
Defined.

End PbusSpec.

(** ** I2C transactions *)
Module I2cSpec.
Import I2cIram.

Inductive bus := Idle | Paused (token : Z) | Inside (token : Z) | Left (token : Z).

(** Interrupts are paused, then the critical section is entered, and both are
    undone in the opposite order with the token of the pause; the bus is
    touched only inside. *)
Definition bus_step (e : acc) (x : Z) (st : bus) : option bus :=
  match e, st with
  | (Table | Slot _ _), _ => Some st
  | Pause _, Idle => Some (Paused x)
  | Enter, Paused t => Some (Inside t)
  | (BlockValue _ _ | ReadOriginal _ _ _ _ _ | ReadRegister _ | WriteRegister _ _), Inside _ => Some st
  | Exit, Inside t => Some (Left t)
  | Resume _ t', Left t => if t' =? t then Some Idle else None
  | _, _ => None
  end.

Abbreviation any := (fun (_ : acc) (_ : Z) => True).
Abbreviation wpb := (wp (step_allowed bus_step any) (step_reply bus_step any)).

Lemma wp_function s3 i (Q : Z -> bus -> Prop) st : (forall x, Q x st) -> wpb (function s3 i) Q st.
Proof.
  intros HQ. unfold function. apply wp_bind, wp_step_call. intros x _. exists st. split; [done|].
  apply wp_step_call. intros y _. exists st. by split.
Qed.

Lemma wp_bus_run e (Q : unit -> bus -> Prop) st :
  (forall x, exists st', bus_step e x st = Some st' /\ Q tt st') -> wpb (run e) Q st.
Proof.
  intros HQ. unfold run. apply wp_bind, wp_step_call. intros x _. destruct (HQ x) as (st' & ? & ?). exists st'. by split.
Qed.

Ltac bus_run :=
  repeat
    (cbv beta iota;
     lazymatch goal with
     | |- wp _ _ (_ ≫= _) _ _ => apply wp_bind
     | |- wp _ _ (mret _) _ _ => apply wp_ret
     | |- wp _ _ (function _ _) _ _ => apply wp_function; intros ?
     | |- wp _ _ (call _) _ _ => apply wp_step_call; intros ? _; eexists; split; [reflexivity|]
     | |- wp _ _ (run _) _ _ =>
         apply wp_bus_run; intros ?; eexists; split; [cbn; rewrite ?Z.eqb_refl; reflexivity|]
     end).

Lemma wait_free_inside fuel address t : wpb (wait_free fuel address) (fun _ st => st = Inside t) (Inside t).
Proof.
  induction fuel as [|fuel IHf]; cbn [wait_free]; [by apply wp_ret|]. bus_run.
  destruct (_ =? 0); [by apply wp_ret|exact IHf].
Qed.

(** Analog I2C transactions are atomic.  Whatever the hardware answers, a read pauses, enters,
    touches the bus, leaves and resumes with the token of its own pause, and ends with the bus idle;
    a write does the same when the hardware releases the bus within the polls allowed, and until then
    stays inside the critical section, where nobody else can use the bus. *)
Theorem i2c_transactions_atomic s3 block host reg data :
  respects bus_step any (read s3 block host reg) Idle (fun _ st => st = Idle) /\
  forall fuel, respects bus_step any (write s3 fuel block host reg data) Idle
    (fun r st => match r with Some _ => st = Idle | None => exists t, st = Inside t end).
Proof.
  split; [|intros fuel]; apply wp_respects.
  - unfold read. bus_run. done.
  - unfold write. bus_run. cbv zeta. bus_run. eapply wp_mono; [|apply wait_free_inside].
    intros b ? ->. destruct b; bus_run; eauto.
Qed.

End I2cSpec.
