(* ===== verification/PhyTrack.v ===== *)
(** * Tracking of temperature drift

    Models [phy_track.rs] (Module [Track]).  The PLL and the transmit power are
    corrected when the temperature has drifted far enough.  [s3] selects the
    chip. *)

From S2P Require Import Prelude Program.

Module Track.

Inductive acc :=
| Param
| Read8 (offset : Z)
| Read16 (offset : Z)
| Read32 (offset : Z)
| Write8 (offset value : Z)
| Write16 (offset value : Z)
| Write32 (offset value : Z)
| Busy
| Table
| Slot (table offset : Z)
| ReadCall (target : Z) (args : list Z)
| WriteCall (target : Z) (args : list Z)
| External (kind : Z) (args : list Z)
| Internal (kind : Z) (args : list Z)
| Print (kind : Z) (args : list Z).

Definition run (e : acc) : prog acc unit := call e ;; mret tt.

Section Track.
Variable s3 : bool.

Definition ABS : Z := if s3 then 0xec else 0x100.
Definition READ : Z := if s3 then 0x188 else 0x1ac.
Definition WRITE : Z := if s3 then 0x190 else 0x1b4.
Definition MASK_WRITE : Z := WRITE + 8.
Definition BUSY : Z := if s3 then 0x2a4 else 0x321.

Definition argument (value : Z) : Z := if s3 then u8 value else value.

Definition signed16 (offset : Z) : prog acc Z := v ← call (Read16 offset); mret (u32 (i16 v)).
Definition target (offset : Z) : prog acc Z := table ← call Table; call (Slot table offset).

Definition write_call (slot : Z) (args : list Z) : prog acc unit := t ← target slot; run (WriteCall t args).

(** Poll until the hardware is not busy, at most [fuel] times; whether it was
    seen busy. *)
Fixpoint wait_idle (fuel : nat) (observed : bool) : prog acc (option bool) :=
  match fuel with
  | O => mret None
  | S fuel' =>
      v ← call Busy;
      if Z.testbit v 31 then wait_idle fuel' true else mret (Some observed)
  end.

Definition wait (fuel : nat) : prog acc (option unit) :=
  r ← wait_idle fuel false;
  match r with
  | None => mret None
  | Some observed =>
      (if (observed : bool) then run (External 0 [50; 0; 0; 0]) else mret tt) ;;
      mret (Some tt)
  end.

Definition ulp_set (enabled value : Z) : prog acc unit :=
  let enabled := argument enabled in
  let value := argument value in
  table ← call Table;
  if enabled =? 0 then
    t ← call (Slot table WRITE);
    run (WriteCall t [97; 0; 6; value])
  else
    t ← call (Slot table READ);
    raw ← call (ReadCall t [97; 0; 4]);
    run (Write8 0x9f (u8 raw)) ;;
    run (Write8 0xa0 (u8 raw)) ;;
    write_call WRITE [97; 0; 6; raw] ;;
    write_call MASK_WRITE [97; 0; 5; 6; 6; 1].

Definition ulp_track (debug : Z) : prog acc unit :=
  let debug := argument debug in
  current ← call (Read16 0x94);
  reference ← call (Read16 (if s3 then 0x2c6 else 0x212));
  let delta := i16 (current - reference) in
  let adjustment := if delta <? 0 then Z.quot delta 6 else Z.shiftr delta 3 in
  t ← target 0x28;
  raw ← call (ReadCall t [u32 adjustment; 15; u32 (-15)]);
  base ← call (Read8 0x9f);
  old ← call (Read8 0xa0);
  let value := i16 (raw + base) in
  (if negb (value =? old) then
     run (Write8 0xa0 (u8 value)) ;;
     run (Internal 1 [0; u8 value; 0])
   else mret tt) ;;
  if negb (debug =? 0) then
    base ← call (Read8 0x9f);
    current ← call (Read8 0xa0);
    run (Print 0 [current; base; 0; 0])
  else mret tt.

(** The part of [pll_track] that runs with the busy flag set. *)
Definition pll_retune (debug : Z) : prog acc unit :=
  table ← call Table;
  run (Write8 (BUSY + 4) 0) ;;
  t ← call (Slot table (if s3 then 0x204 else 0x228));
  run (WriteCall t []) ;;
  run (Internal 0 [0; 0; 0]) ;;
  code ← call (Read8 0x9b);
  correction ← call (External 3 [code; 1; 0; 0]);
  (if negb (debug =? 0) then
     if s3 then
       table ← call Table;
       previous ← signed16 0x94;
       callback ← call (Slot table 0x194);
       current ← signed16 0x92;
       stage ← call (ReadCall callback [107; 0; 4; 7; 4]);
       run (Print 1 [current; previous; correction; stage])
     else
       previous ← signed16 0x94;
       current ← signed16 0x92;
       run (Print 1 [current; previous; correction; 0])
   else mret tt) ;;
  current ← call (Read16 0x92);
  run (Write16 0x94 current) ;;
  v ← call (Read8 0x9f);
  (if negb (v =? 0) then run (Internal 2 [debug; 0; 0]) else mret tt) ;;
  write_call (if s3 then 0x200 else 0x224) [].

Definition pll_track (debug : Z) : prog acc unit :=
  let debug := argument debug in
  '(table, current, previous) ←
    (if s3 then
       table ← call Table; current ← signed16 0x92; previous ← signed16 0x94; mret (table, current, previous)
     else
       previous ← signed16 0x94; current ← signed16 0x92; table ← call Table; mret (table, current, previous));
  t ← call (Slot table ABS);
  distance ← call (ReadCall t [u32 (current - previous)]);
  if i32 distance <=? 9 then mret tt else
  busy ← call (Read8 BUSY);
  if negb (busy =? 0) then mret tt else
  run (Write8 BUSY 1) ;;
  pll_retune debug ;;
  run (Write8 BUSY 0).

(** The baseline temperature of a radio. *)
Definition baseline_offset (radio : Z) : prog acc Z :=
  first ← (if radio =? 0 then v ← call (Read8 0x204); mret (v =? 1) else mret false);
  if (first : bool) then mret (if s3 then 0x206 else 0x20c) else
  second ← (if radio =? 1 then v ← call (Read8 0x204); mret (v =? 16) else mret false);
  if (second : bool) then mret (if s3 then 0x208 else 0x20e) else mret (if s3 then 0x2c4 else 0x210).

(** The power code for the present temperature. *)
Definition power_code (radio baseline : Z) : prog acc Z :=
  '(table, current) ←
    (if s3 then current ← signed16 0x92; table ← call Table; mret (table, current)
     else table ← call Table; current ← signed16 0x92; mret (table, current));
  t ← call (Slot table ABS);
  distance ← call (ReadCall t [u32 (current - baseline)]);
  let threshold := if 7 <? i32 distance then 4 else 2 in
  table ← call Table;
  let low_offset := if radio =? 0 then 0xae else 0xb2 in
  let high_offset := if radio =? 0 then 0xb0 else 0xb4 in
  '(callback, low, high, current) ←
    (if s3 then
       callback ← call (Slot table 0x28);
       low ← signed16 low_offset;
       high ← signed16 high_offset;
       current ← signed16 0x92;
       mret (callback, low, high, current)
     else
       current ← signed16 0x92;
       callback ← call (Slot table 0x28);
       low ← signed16 low_offset;
       high ← signed16 high_offset;
       mret (callback, low, high, current));
  converted ← call (ReadCall callback [current; high; low]);
  let converted := u32 (i16 converted) in
  table ← call Table;
  previous ← signed16 0x96;
  t ← call (Slot table ABS);
  distance ← call (ReadCall t [u32 (converted - previous)]);
  if threshold <=? i32 distance then
    raw ← call (External 2 [converted; baseline; if s3 then 0 else radio; 0]);
    mret (if s3 then u8 raw else raw)
  else
    raw ← call (Read8 0x1fa);
    mret (if s3 then raw else u32 (i8 raw)).

(** Store a new code and have it applied. *)
Definition power_apply (radio debug baseline code : Z) : prog acc unit :=
  current ← call (Read16 0x92);
  run (Write8 0x1fa (u8 code)) ;;
  run (Write16 0x96 current) ;;
  (if negb (radio =? 0) then
     if s3 then
       table ← call Table;
       run (Write8 0x1fc (u8 code)) ;;
       t ← call (Slot table 0x270);
       run (WriteCall t [0])
     else
       run (Write8 0x1fc (u8 code)) ;;
       run (External 6 [0; 0; 0; 0])
   else if s3 then
     run (Write8 0x1fb (u8 code)) ;;
     table ← call Table;
     gain ← call (Read8 0x1f2);
     t ← call (Slot table 0x264);
     run (WriteCall t [gain; 0])
   else
     gain ← call (Read8 0x1f2);
     run (Write8 0x1fb (u8 code)) ;;
     run (External 5 [gain; 0; 0; 0])) ;;
  if negb (debug =? 0) then
    if s3 then
      wifi ← call (Read8 0x1fb);
      bt ← call (Read8 0x1fc);
      current ← signed16 0x92;
      run (Print 2 [u32 (i8 bt); u32 (i8 wifi); current; baseline])
    else
      current ← signed16 0x92;
      power ← call (Read8 0x1fa);
      run (Print 2 [u32 (i8 power); current; baseline; 0])
  else mret tt.

(** Switch transmission off or back on. *)
Definition power_gate (on : Z) : prog acc unit :=
  if s3 then write_call 0x240 [on] else run (External 7 [on; 0; 0; 0]).

Definition power_track (radio apply debug : Z) : prog acc unit :=
  let radio := argument radio in
  let apply := argument apply in
  let debug := argument debug in
  offset ← baseline_offset radio;
  baseline ← signed16 offset;
  code ← power_code radio baseline;
  if apply =? 0 then mret tt else
  previous ← call (Read8 (if radio =? 0 then 0x1fb else 0x1fc));
  let compare := if s3 then i8 code else i32 code in
  if i8 previous =? compare then mret tt else
  power_gate 1 ;;
  power_apply radio debug baseline code ;;
  power_gate 0.

Definition offset : prog acc unit :=
  flags ← call (Read32 0x120);
  if Z.testbit flags 22 then mret tt else
  voltage ← call (External 1 [0; 0; 0; 0]);
  adjustment ←
    (if voltage <=? 3299 then
       let slot := if s3 then 0x104 else 0x118 in
       t ← target slot;
       first ← call (ReadCall t [voltage; 3]);
       t ← target slot;
       second ← call (ReadCall t [3300; 3]);
       let narrowed := i8 (u32 (u32 (first - second) * 2)) in
       mret (u8 (Z.shiftr (narrowed + 2) 2))
     else mret 0);
  run (Write32 0x200 (Z.lor (u32 (Z.shiftl voltage 16)) (Z.shiftl adjustment 8))) ;;
  flags ← call (Read32 0x120);
  run (Write32 0x120 (Z.lor flags (Z.shiftl 1 22))).

(** C3 only *)
Definition rfcal (debug threshold : Z) : prog acc unit :=
  previous ← signed16 0x214;
  current ← signed16 0x92;
  t ← target ABS;
  distance ← call (ReadCall t [u32 (current - previous)]);
  if i32 distance <? i32 threshold then mret tt else
  write_call 8 [] ;;
  p ← call Param;
  run (External 4 [u32 (p + 0x124); 15; 32; 0]) ;;
  gain ← call (Read8 0x1f2);
  run (External 5 [gain; 0; 0; 0]) ;;
  (if negb (debug =? 0) then
     previous ← signed16 0x214;
     current ← signed16 0x92;
     run (Print 3 [current; previous; 0; 0])
   else mret tt) ;;
  current ← call (Read16 0x92);
  run (Write16 0x214 current) ;;
  write_call 12 [].

(** S3 only *)
Definition radio_power (radio enabled debug : Z) : prog acc unit :=
  write_call 0x268 [radio; u8 enabled; u8 debug].

End Track.
End Track.
