(* ===== verification/PhyHwFreq.v ===== *)
(** * Hardware frequency memory

    Models [phy_hw_freq.rs] (Module [HwFreq]): the frequency memory, the I2C
    table of the channel switch and its start.  [s3] selects the chip.  The wait
    for the hardware takes the number of polls; a loop over an 8-bit index
    never ends for a count above 255, for which the model has no result. *)

From S2P Require Import Prelude Program PhyAccess.

Module HwFreq.

Inductive method :=
| Param
| Table
| Slot (table offset : Z)
| ReadCall (target : Z) (args : list Z)
| WriteCall (target : Z) (args : list Z)
| External (kind : Z) (args : list Z)
| Internal (kind : Z) (args : list Z)
| Scratch (kind : Z)
| LocalRead (address width : Z)
| LocalWrite (address width value : Z).

Definition CONTROL : Z := 0x6000e0c4.

Section HwFreq.
Variable s3 : bool.
Abbreviation prg := (prog (io method)).

Definition READ : Z := if s3 then 0x188 else 0x1ac.
Definition MASK_READ : Z := READ + 12.
Definition MASK_WRITE : Z := READ + 16.

Definition target (slot : Z) : prg Z := table ← ext Table; ext (Slot table slot).

Definition update (address mask value : Z) : prg unit :=
  old ← read address 4;
  write address 4 (Z.lor (Z.ldiff old mask) value).

Definition short (value : Z) : Z := u32 (i16 value).

Definition write_call (slot : Z) (args : list Z) : prg unit := t ← target slot; run (WriteCall t args).
Definition read_call (slot : Z) (args : list Z) : prg Z := t ← target slot; ext (ReadCall t args).

(** Whether the hardware was ready within [fuel] polls. *)
Fixpoint wait (fuel : nat) : prg bool :=
  match fuel with
  | O => mret false
  | S fuel' =>
      v ← read 0x6000e168 4;
      if Z.land v 0x80000000 =? 0 then mret true else wait fuel'
  end.

Definition disable : prg unit :=
  update CONTROL 0 0x02000000 ;;
  run (External 0 [2]).

Definition enable : prg unit := update CONTROL 0x02000000 0.

(** Strobe the write of a memory word. *)
Definition strobe : prg unit :=
  update CONTROL 0 0x200 ;;
  update CONTROL 0x200 0.

Definition memory_word (index buffer i : Z) : prg unit :=
  '(value, old) ← (if s3 then old ← read CONTROL 4; value ← read (buffer + i * 4) 4; mret (value, old)
                   else value ← read (buffer + i * 4) 4; old ← read CONTROL 4; mret (value, old));
  write CONTROL 4 (Z.lor (Z.ldiff old 255) (Z.land (u32 (u32 (index * 3) + i)) 255)) ;;
  write 0x6000e148 4 value ;;
  strobe.

Definition memory (index buffer : Z) : prg unit := for_all (range 0 3) (memory_word index buffer).

(** [while (i as u8 as u32) < count] from 0 *)
Definition while_u8 (count : Z) (body : Z -> prg unit) : prg unit :=
  if count <=? 255 then for_all (range 0 (Z.to_nat count)) body else Crash.

(** Replace the field of [old] under a mask. *)
Definition field (old mask value : Z) : Z := Z.lor (Z.ldiff old mask) value.

(** [wrapping_shl] by an index *)
Definition bit (v i : Z) : Z := u32 (Z.shiftl v (Z.land i 31)).

Definition write_host (p0 i : Z) : prg unit :=
  let bank := Z.shiftr i 3 in
  let address := if bank =? 0 then 0x6000e100 else if bank =? 1 then 0x6000e104 else 0x6000e108 in
  let shift := Z.land (i * 4) 31 in
  '(value, old) ← (if s3 && (bank =? 0) then old ← read address 4; value ← read (p0 + i) 1; mret (value, old)
                   else value ← read (p0 + i) 1; old ← read address 4; mret (value, old));
  write address 4 (field old (u32 (Z.shiftl 15 shift)) (u32 (Z.shiftl (Z.land value 15) shift))).

Definition write_register (p1 p2 i : Z) : prg unit :=
  let bank := Z.shiftr i 1 in
  let address := if bank <=? 7 then 0x6000e0d8 + bank * 4 else if bank =? 8 then 0x6000e10c else 0x6000e110 in
  '(value, old) ←
    (if s3 && (7 <=? bank) then
       block ← read (p1 + i) 1;
       old ← read address 4;
       reg ← read (p2 + i) 1;
       mret (Z.lor (Z.shiftl reg 8) block, old)
     else
       reg ← read (p2 + i) 1;
       block ← read (p1 + i) 1;
       old ← read address 4;
       mret (Z.lor (Z.shiftl reg 8) block, old));
  let shift := Z.land i 1 * 16 in
  write address 4 (field old (u32 (Z.shiftl 65535 shift)) (u32 (Z.shiftl value shift))).

Definition write_selector (p3 p5 i : Z) : prg unit :=
  second ← read (p5 + i) 1;
  update 0x6000e128 (bit 1 i) (bit (Z.land (Z.shiftr second 4) 1) i) ;;
  first ← read (p3 + i) 1;
  update 0x6000e12c (bit 1 i) (bit (Z.land (Z.shiftr first 4) 1) i) ;;
  let bank := Z.shiftr i 3 in
  let shift := Z.land (i * 4) 31 in
  let second_address := if bank =? 0 then 0x6000e0d0 else if bank =? 1 then 0x6000e0d4 else 0x6000e124 in
  let first_address := if bank =? 0 then 0x6000e11c else if bank =? 1 then 0x6000e120 else 0x6000e124 in
  second ← read (p5 + i) 1;
  update second_address (u32 (Z.shiftl 15 shift)) (u32 (Z.shiftl (Z.land second 15) shift)) ;;
  let first_shift := if 2 <=? bank then Z.land (shift + 16) 31 else shift in
  '(first, old) ← (if s3 && (bank =? 0) then old ← read first_address 4; first ← read (p3 + i) 1; mret (first, old)
                   else first ← read (p3 + i) 1; old ← read first_address 4; mret (first, old));
  write first_address 4 (field old (u32 (Z.shiftl 15 first_shift)) (u32 (Z.shiftl (Z.land first 15) first_shift))).

Definition write_value (selector data i : Z) : prg unit :=
  slot ← read (selector + i) 1;
  let bank := Z.shiftr slot 2 in
  if 3 <? bank then mret tt else
  let address := if bank =? 0 then 0x6000e0c8 else if bank =? 1 then 0x6000e0cc
                 else if bank =? 2 then 0x6000e114 else 0x6000e118 in
  let shift := Z.land slot 3 * 8 in
  old ← read address 4;
  value ← read (data + i) 1;
  write address 4 (field old (u32 (Z.shiftl 255 shift)) (u32 (Z.shiftl value shift))).

(** [p]: host, block, register, first selector and value, second selector and
    value, enabled. *)
Definition write_i2c (p : nat -> Z) (count : Z) : prg unit :=
  let count := if s3 then u8 count else count in
  update CONTROL 0x7c00 (Z.land (u32 (Z.shiftl count 10)) 0x7c00) ;;
  mask ← (if count <=? 255 then
            for_each_with (range 0 (Z.to_nat count)) 0 (fun i mask =>
              v ← read (p 7%nat + i) 1;
              mret (if v =? 1 then u32 (mask + bit 1 i) else mask))
          else Crash);
  write 0x6000e164 4 mask ;;
  while_u8 count (write_host (p 0%nat)) ;;
  while_u8 count (write_register (p 1%nat) (p 2%nat)) ;;
  while_u8 count (write_selector (p 3%nat) (p 5%nat)) ;;
  while_u8 count (fun i =>
    write_value (p 5%nat) (p 6%nat) i ;;
    write_value (p 3%nat) (p 4%nat) i).

(** The capacitor field of a memory word, moved by [delta]. *)
Definition moved_cap (old delta : Z) : Z :=
  let cap := u16 (u32 (Z.lor (Z.land old 255) (Z.land (Z.shiftr old 4) 256) + delta)) in
  Z.lor (Z.lor (Z.land old 0xef00) (u8 cap)) (u32 (Z.shiftl (u32 (Z.shiftr (i16 cap) 8)) 12)).

Definition cap_memory_step (delta i : Z) : prg unit :=
  update CONTROL 255 (i * 3) ;;
  old ← read 0x6000e0c0 4;
  write 0x6000e148 4 (moved_cap old delta) ;;
  strobe.

Definition cap_memory (delta : Z) : prg unit := for_all (range 0 85) (cap_memory_step delta).

(** One entry of the memory: the frequency words and the interpolated
    capacitor. *)
Definition initialize_step (param buffer low saved delta i accumulated : Z) : prg Z :=
  selector ← read (param + 0xf3) 1;
  run (External 4 [2400 + i; selector; 0; buffer]) ;;
  cap ← read_call 0x28 [short (u32 (low + u32 (Z.quot accumulated 64))); 511; 0];
  let first := Z.lor (Z.lor (u32 (Z.shiftl (u32 (Z.shiftr (i32 (short cap)) 8)) 4)) saved) 0xffffff80 in
  b0 ← ext (LocalRead buffer 1);
  b1 ← ext (LocalRead (buffer + 1) 1);
  b2 ← ext (LocalRead (buffer + 2) 1);
  run (LocalWrite (buffer + 4) 4 (Z.lor (Z.shiftl (Z.land first 255) 8) (Z.land cap 255))) ;;
  run (LocalWrite (buffer + 8) 4 (Z.lor (Z.lor (Z.shiftl b0 16) (Z.shiftl b1 8)) b2)) ;;
  run (LocalWrite (buffer + 12) 4 0) ;;
  run (Internal 3 [i; buffer + 4]) ;;
  mret (i32 (accumulated + delta)).

(** Measure the capacitor at a frequency. *)
Definition measure_cap (param buffer frequency : Z) : prg Z :=
  selector ← read (param + 0xf3) 1;
  run (External 2 [selector; frequency; 0; buffer]) ;;
  ext (External 3 []).

Definition initialize : prg unit :=
  param ← ext Param;
  flags ← read (param + 0x120) 4;
  if negb (Z.land flags 32 =? 0) then mret tt else
  buffer ← ext (Scratch 0);
  (if s3 then write_call 0x20c [200] else run (External 1 [200])) ;;
  write_call MASK_WRITE [98; 1; 2; 7; 7; 0] ;;
  selector ← read (param + 0xf3) 1;
  run (External 2 [selector; 2437; 0; buffer]) ;;
  saved ← read_call MASK_READ [98; 1; 6; 3; 0];
  write_call MASK_WRITE [98; 1; 2; 3; 0; saved] ;;
  write_call MASK_WRITE [98; 1; 2; 7; 7; 1] ;;
  low ← measure_cap param buffer 2400;
  high ← measure_cap param buffer 2464;
  let delta := i16 high - i16 low in
  for_each_with (range 0 85) 0 (initialize_step param buffer low saved delta) ;;
  flags ← read (param + 0x120) 4;
  (if s3 then mret tt else write (param + 0xe2) 2 0) ;;
  write (param + 0x120) 4 (Z.lor flags 32) ;;
  (if s3 then write (param + 0xe2) 2 0 else mret tt).

(** Host, block, register, first and second selector, first and second value of
    an entry. *)
Definition i2c_entry (sdm cap i : Z) : option (list Z) :=
  match i with
  | 0 => Some [1; 99; 0; 15; 15; 0; 0]
  | 1 => Some [1; 98; 1; 16; 16; 0; 0]
  | 2 => Some [1; 98; 2; 17; 17; 0; 0]
  | 3 => Some [1; 99; 0; 0; 0; Z.land sdm 239; Z.land sdm 239]
  | 4 => Some [1; 99; 3; 22; 22; 0; 0]
  | 5 => Some [1; 99; 5; 20; 20; 0; 0]
  | 6 => Some [1; 99; 4; 21; 21; 0; 0]
  | 7 => Some [1; 99; 0; 1; 1; Z.land (Z.lor sdm 16) 255; Z.land (Z.lor sdm 16) 255]
  | 8 => Some [1; 98; 11; 2; 2; cap; cap]
  | 9 => Some [if s3 then 0 else 1; 103; 3; 3; 4; 240; 244]
  | _ => None
  end.

Definition read_i2c_step (p : nat -> Z) (sdm cap i : Z) : prg unit :=
  write (p 7%nat + i) 1 0 ;;
  match i2c_entry sdm cap i with
  | Some values =>
      for_all (zip [0; 1; 2; 3; 5; 4; 6]%nat values) (fun q => write (p q.1 + i) 1 q.2) ;;
      if i =? 0 then write (p 7%nat) 1 1 else mret tt
  | None => mret tt
  end.

Definition read_i2c (p : nat -> Z) (count : Z) : prg unit :=
  let count := if s3 then u8 count else count in
  write_call MASK_WRITE [98; 1; 11; 6; 6; 1] ;;
  cap ← read_call READ [98; 1; 11];
  sdm ← read_call READ [99; 1; 0];
  t ← target (if s3 then 0x100 else 0x114);
  param ← ext Param;
  run (WriteCall t [param + 0x158; 6]) ;;
  while_u8 count (read_i2c_step p sdm cap).

Definition program_i2c : prg unit :=
  buffer ← ext (Scratch 1);
  let a := (fun i => if i =? 7 then 10 else buffer + (if i =? 8 then 7 else i) * 10) <$> range 0 9 in
  run (Internal 7 a) ;;
  run (Internal 4 a).

Definition hardware_init (first second : Z) : prg unit :=
  bias ← ext (External 5 []);
  param ← ext Param;
  write (param + 0xde) 2 bias ;;
  run (Internal 6 []) ;;
  run (Internal 8 []) ;;
  update 0x6003509c 0xffff0000 0x0c800000 ;;
  update CONTROL 0x000f0000 (Z.land (u32 (Z.shiftl first 16)) 0x000f0000) ;;
  update CONTROL 0x00f00000 (Z.land (u32 (Z.shiftl second 20)) 0x00f00000) ;;
  update CONTROL 0 0x01000000 ;;
  update CONTROL 0 0x40000000 ;;
  update CONTROL 0x20000000 0.

(** One attempt of the switch; [None]: the hardware was not ready in time. *)
Definition start_attempt (fuel : nat) (channel : Z) (i : Z) (_ : option unit) : prg (flow (option unit)) :=
  ready ← wait fuel;
  if negb ready then mret (Break None) else
  update CONTROL 0 256 ;;
  update CONTROL 256 0 ;;
  run (External 0 [1]) ;;
  ready ← wait fuel;
  if negb ready then mret (Break None) else
  v ← read 0x6000e170 4;
  if Z.land (Z.shiftr v 17) 127 =? channel then mret (Break (Some tt)) else mret (Next (Some tt)).

Definition software_start (fuel : nat) (channel offset mode : Z) : prg (option unit) :=
  let channel := if s3 then u8 channel else channel in
  update CONTROL 256 0 ;;
  param ← ext Param;
  run (External 6 [if s3 then short offset else offset; if s3 then u8 mode else mode; param + 0xe2]) ;;
  update 0x6000e150 0x0ff00000 (u32 (Z.shiftl channel 20)) ;;
  update CONTROL 255 (Z.land (u32 (Z.shiftl channel 1)) 255) ;;
  r ← for_loop (range 0 3) (Some tt) (start_attempt fuel channel);
  match r with
  | None => mret None
  | Some _ =>
      cap ← ext (External 3 []);
      param ← ext Param;
      write (param + if s3 then 0x2aa else 0x326) 2 cap ;;
      mret (Some tt)
  end.

End HwFreq.
End HwFreq.
