(* ===== verification/PhyHwFreqSpec.v ===== *)
(** * Correctness of the capacitor update in the frequency memory *)

From S2P Require Import Prelude Program PhyAccess PhyHwFreq.
Import HwFreq.

(** The nine-bit capacitor value of a memory word, bits 0 to 7 and 12, and the
    rest of its low half. *)
Definition cap_of (w : Z) : Z := Z.lor (Z.land w 255) (Z.land (Z.shiftr w 4) 256).
Definition rest_of (w : Z) : Z := Z.land w 0xef00.

Lemma cap_of_range w : 0 <= cap_of w < 512.
Proof.
  unfold cap_of. pose proof (land_le_r w 255). pose proof (land_le_r (Z.shiftr w 4) 256).
  change 512 with (2 ^ 9). apply lor_width; unfold in_width; lia.
Qed.

(** The pieces of a word, put together. *)
Lemma joined_fields w c : 0 <= c < 512 ->
  let v := Z.lor (Z.lor (rest_of w) (c mod 256)) (Z.shiftl (c / 256) 12) in
  cap_of v = c /\ rest_of v = rest_of w.
Proof.
  intros Hc v.
  assert (Hb : Z.land (c mod 256) 255 = c mod 256).
  { etrans; [apply (land_ones_mod (c mod 256) 8); lia|]. apply Z.mod_small, Z.mod_pos_bound. lia. }
  assert (Hlow : forall k, Z.land (c mod 256) k = Z.land (c mod 256) (Z.land 255 k)).
  { intros k. by rewrite Z.land_assoc, Hb. }
  assert (Hx : c / 256 = 0 \/ c / 256 = 1).
  { assert (0 <= c / 256 < 2) by (split; [apply Z.div_pos|apply Z.div_lt_upper_bound]; lia). lia. }
  assert (Hrest : forall k, Z.land (rest_of w) k = Z.land w (Z.land 0xef00 k)).
  { intros k. unfold rest_of. by rewrite Z.land_assoc. }
  assert (Hhi : forall k, Z.land (Z.shiftl (c / 256) 12) k = if c / 256 =? 0 then 0 else Z.land 0x1000 k).
  { intros k. by destruct Hx as [->| ->]. }
  split.
  - unfold cap_of, v. rewrite Z.shiftr_lor, Z.shiftr_lor, !Z.land_lor_distr_l.
    assert (forall a, Z.land (Z.shiftr a 4) 256 = Z.shiftr (Z.land a 0x1000) 4) as Hsh by (intros; by rewrite Z.shiftr_land).
    rewrite !Hsh, !Hrest, !Hhi, (Hlow 255), (Hlow 0x1000). change (Z.land 0xef00 255) with 0. change (Z.land 0xef00 0x1000) with 0.
    change (Z.land 255 255) with 255. change (Z.land 255 0x1000) with 0. rewrite !Z.land_0_r, Hb, Z.lor_0_l.
    pose proof (Z.div_mod c 256). destruct Hx as [Hx|Hx]; rewrite Hx in *; cbn [Z.eqb].
    + rewrite !Z.lor_0_r. lia.
    + change (Z.land 0x1000 255) with 0. change (Z.shiftr 0 4) with 0. change (Z.shiftr (Z.land 0x1000 0x1000) 4) with 256.
      rewrite !Z.lor_0_l, Z.lor_0_r, Z.lor_comm. change 256 with (1 * 2 ^ 8) at 1.
      rewrite lor_disjoint_add; [lia..|]. apply Z.mod_pos_bound. lia.
  - unfold rest_of at 1. unfold v. rewrite !Z.land_lor_distr_l, Hrest, Hhi, (Hlow 0xef00).
    change (Z.land 0xef00 0xef00) with 0xef00. change (Z.land 255 0xef00) with 0. change (Z.land 0x1000 0xef00) with 0.
    destruct (c / 256 =? 0); by rewrite Z.land_0_r, !Z.lor_0_r.
Qed.

Lemma moved_cap_spec w d : 0 <= cap_of w + d < 512 ->
  cap_of (moved_cap w (u32 d)) = cap_of w + d /\ rest_of (moved_cap w (u32 d)) = rest_of w.
Proof.
  intros Hc. unfold moved_cap. cbv zeta. fold (cap_of w). fold (rest_of w).
  rewrite wrap_add_r, (wrap_wrap 16 32) by lia. set (c := cap_of w + d) in *.
  rewrite (wrap_small 16 c), (sext_small 16 c) by (unfold in_width, in_swidth; lia).
  rewrite Z.shiftr_div_pow2 by lia. change (2 ^ 8) with 256.
  assert (0 <= c / 256 < 2) by (split; [apply Z.div_pos|apply Z.div_lt_upper_bound]; lia).
  rewrite (wrap_small 32 (c / 256)) by (unfold in_width; lia).
  rewrite (wrap_small 32 (Z.shiftl _ 12)) by (rewrite Z.shiftl_mul_pow2; unfold in_width; lia).
  exact (joined_fields w c Hc).
Qed.

(** ** The memory behind the registers

    The low byte of the control register selects a word; reading 0x6000e0c0
    answers it, and writing the control register with bit 9 set stores the data
    register 0x6000e148 there. *)
Record freq := { regs : Z -> Z; words : Z -> Z }.

Definition selected (control : Z) : Z := Z.land control 255.

Definition store (s : freq) (a v : Z) : freq :=
  {| regs := (fun b => if b =? a then v else regs s b);
     words := if (a =? CONTROL) && Z.testbit v 9
              then (fun k => if k =? selected v then regs s 0x6000e148 else words s k) else words s |}.

Definition freq_reply (e : io method) (s : freq) (x : Z) (s' : freq) : Prop :=
  match e with
  | Read a _ => x = (if a =? 0x6000e0c0 then words s (selected (regs s CONTROL)) else regs s a) /\ s' = s
  | Write a _ v => s' = store s a v
  | Ext _ => s' = s
  end.

Abbreviation wpf := (wp no_guard freq_reply).

Lemma wp_freq_read a w (Q : Z -> freq -> Prop) s :
  Q (if a =? 0x6000e0c0 then words s (selected (regs s CONTROL)) else regs s a) s -> wpf (read a w) Q s.
Proof. intros HQ. apply wp_call; [done|]. by intros ? ? [-> ->]. Qed.

Lemma wp_freq_write a w v (Q : unit -> freq -> Prop) s : Q tt (store s a v) -> wpf (write a w v) Q s.
Proof. intros HQ. unfold write. apply wp_bind, wp_call; [done|]. by intros ? ? ->. Qed.

Lemma wp_control mask v (Q : unit -> freq -> Prop) s :
  Q tt (store s CONTROL (Z.lor (Z.ldiff (regs s CONTROL) mask) v)) -> wpf (update CONTROL mask v) Q s.
Proof. intros HQ. unfold update. by apply wp_bind, wp_freq_read, wp_freq_write. Qed.

Definition strobe_low (s : freq) : Prop := Z.testbit (regs s CONTROL) 9 = false.

Lemma selected_lor_ldiff old k : 0 <= k < 256 -> selected (Z.lor (Z.ldiff old 255) k) = k.
Proof.
  intros Hk. unfold selected. rewrite Z.land_lor_distr_l.
  assert (Z.land (Z.ldiff old 255) 255 = 0) as -> by (apply (Z.land_ldiff old 255)).
  rewrite Z.lor_0_l. etrans; [apply (land_ones_mod k 8); lia|]. apply Z.mod_small. lia.
Qed.

Lemma select_bit9 old k : 0 <= k < 256 -> Z.testbit (Z.lor (Z.ldiff old 255) k) 9 = Z.testbit old 9.
Proof.
  intros Hk. rewrite Z.lor_spec, Z.ldiff_spec, (testbit_high 8 k) by (done || lia).
  change (Z.testbit 255 9) with false. by rewrite andb_true_r, orb_false_r.
Qed.

(** One word: it is selected, read, changed and stored. *)
Lemma cap_step_spec delta i s (Q : unit -> freq -> Prop) :
  (i < 85)%nat -> strobe_low s ->
  (forall s', strobe_low s' ->
     (forall k, words s' k = if k =? 3 * Z.of_nat i then moved_cap (words s k) delta else words s k) -> Q tt s') ->
  wpf (cap_memory_step delta (Z.of_nat i)) Q s.
Proof.
  intros Hi Hb HQ. unfold cap_memory_step, strobe. set (k := Z.of_nat i * 3). assert (0 <= k < 256) as Hk by lia.
  apply wp_bind, wp_control. set (c1 := Z.lor (Z.ldiff (regs s CONTROL) 255) k).
  assert (Z.testbit c1 9 = false) as Hc1 by (unfold c1; by rewrite select_bit9).
  assert (selected c1 = k) as Hsel by (by apply selected_lor_ldiff).
  assert (store s CONTROL c1 = {| regs := (fun b => if b =? CONTROL then c1 else regs s b); words := words s |}) as ->.
  { unfold store. by rewrite Hc1, andb_false_r. }
  apply wp_bind, wp_freq_read. cbn [regs words]. rewrite !Z.eqb_refl. cbv iota. rewrite Hsel.
  set (v := moved_cap (words s k) delta). apply wp_bind, wp_freq_write.
  set (sd := {| regs := (fun b => if b =? 0x6000e148 then v else if b =? CONTROL then c1 else regs s b); words := words s |}).
  change (store _ 0x6000e148 v) with sd. apply wp_bind, wp_control, wp_control.
  change (regs sd CONTROL) with c1. rewrite Z.ldiff_0_r. set (c2 := Z.lor c1 0x200).
  assert (Z.testbit c2 9 = true) as Hc2 by (unfold c2; by rewrite Z.lor_spec, orb_true_r).
  assert (selected c2 = k) as Hsel2.
  { unfold selected, c2 in *. rewrite Z.land_lor_distr_l, Hsel. apply Z.lor_0_r. }
  change (regs (store sd CONTROL c2) CONTROL) with c2. rewrite Z.lor_0_r.
  assert (Z.testbit (Z.ldiff c2 0x200) 9 = false) as Hc3 by (rewrite Z.ldiff_spec; by rewrite andb_false_r).
  apply HQ; [exact Hc3|]. intros j. unfold store. cbn [regs words]. rewrite Hc3, Hc2, Hsel2, !Z.eqb_refl. cbn [andb].
  replace (3 * Z.of_nat i) with k by lia. destruct (Z.eqb_spec j k) as [->|]; done.
Qed.

(** Moving the capacitor of the frequency memory by a number moves exactly the capacitors.  Every
    one of the 85 frequency entries gets its nine-bit capacitor value changed by the number, as long
    as the result fits, and keeps its other fields; no other word of the memory changes, and the
    write strobe is low again at the end. *)
Theorem cap_memory_moves h s d :
  obeys_contract no_guard freq_reply h -> strobe_low s ->
  (forall i, (i < 85)%nat -> 0 <= cap_of (words s (3 * Z.of_nat i)) + d < 512) ->
  exists x s', exec h (cap_memory (u32 d)) s = Some (x, s') /\ strobe_low s' /\
    (forall i, (i < 85)%nat -> let k := 3 * Z.of_nat i in
       cap_of (words s' k) = cap_of (words s k) + d /\ rest_of (words s' k) = rest_of (words s k)) /\
    (forall k, (forall i, (i < 85)%nat -> k <> 3 * Z.of_nat i) -> words s' k = words s k).
Proof.
  intros Hh Hb Hd. apply (exec_wp _ _ h _ _ s Hh). unfold cap_memory.
  apply (wp_for_range _ _ (fun n s' => strobe_low s' /\
    (forall i, (i < n)%nat -> words s' (3 * Z.of_nat i) = moved_cap (words s (3 * Z.of_nat i)) (u32 d)) /\
    (forall k, (forall i, (i < n)%nat -> k <> 3 * Z.of_nat i) -> words s' k = words s k))).
  - lia.
  - split_and!; [done|lia|done].
  - intros n s1 Hn (Hb1 & Hw1 & Ho1). apply cap_step_spec; [lia|done|]. intros s2 Hb2 Hw2. split_and!; [done|..].
    + intros i Hi. rewrite Hw2. destruct (Z.eqb_spec (3 * Z.of_nat i) (3 * Z.of_nat n)) as [Heq|].
      * rewrite Ho1; [done|]. intros j Hj. lia.
      * apply Hw1. lia.
    + intros k Hk. rewrite Hw2, (proj2 (Z.eqb_neq k _)) by (apply Hk; lia). apply Ho1. intros i Hi. apply Hk. lia.
  - intros s1 (Hb1 & Hw1 & Ho1). split_and!; [done| |done]. intros i Hi. cbv zeta. rewrite Hw1 by done. by apply moved_cap_spec, Hd.
Qed.

(** The memory itself. *)
Definition freq_ref (e : io method) (s : freq) : Z * freq :=
  match e with
  | Read a _ => (if a =? 0x6000e0c0 then words s (selected (regs s CONTROL)) else regs s a, s)
  | Write a _ v => (0, store s a v)
  | Ext _ => (0, s)
  end.

Lemma cap_memory_moves_witness :
  let s := {| regs := (fun _ => 0); words := (fun k => k + 2) |} in
  exists x s', exec freq_ref (cap_memory (u32 (-2))) s = Some (x, s') /\ strobe_low s' /\
    (forall i, (i < 85)%nat -> let k := 3 * Z.of_nat i in
       cap_of (words s' k) = cap_of (words s k) + -2 /\ rest_of (words s' k) = rest_of (words s k)) /\
    (forall k, (forall i, (i < 85)%nat -> k <> 3 * Z.of_nat i) -> words s' k = words s k).
Proof.
  apply (cap_memory_moves freq_ref {| regs := (fun _ => 0); words := (fun k => k + 2) |} (-2)).
  - by intros [] ? _.
  - reflexivity.
  - intros i Hi. assert (Forall (fun i => 0 <= cap_of (3 * Z.of_nat i + 2) + -2 < 512) (seq 0 85)) as Hf by decide_now.
    rewrite Forall_forall in Hf. apply Hf, elem_of_seq. lia.
Defined.
