(* ===== verification/PhyTrackSpec.v ===== *)
(** * Correctness of the drift tracking

    [pll_track_hysteresis]: the PLL is corrected only when the temperature has
    moved by more than nine degrees and no correction is under way, and then
    exactly once. *)

From S2P Require Import Prelude Program PhyTrack.
Import Track.

(** Parameter bytes and halfwords, and how often the PLL was corrected. *)
Record tracker := { par8 : Z -> Z; par16 : Z -> Z; corrections : nat }.

Section Tracking.
Variable s3 : bool.

(** What helpers may not touch: the temperatures 0x92 and 0x94, the busy flag
    and the count. *)
Definition kept (s s' : tracker) : Prop :=
  par16 s' 0x92 = par16 s 0x92 /\ par16 s' 0x94 = par16 s 0x94 /\
  par8 s' (BUSY s3) = par8 s (BUSY s3) /\ corrections s' = corrections s.

(** A table slot is known by its offset; the slot [ABS] answers the absolute
    value of a signed word. *)
Definition tracker_reply (e : acc) (s : tracker) (x : Z) (s' : tracker) : Prop :=
  match e with
  | Read8 off => x = par8 s off /\ s' = s
  | Read16 off => x = par16 s off /\ s' = s
  | Write8 off v => s' = {| par8 := (fun o => if o =? off then v else par8 s o); par16 := par16 s; corrections := corrections s |}
  | Write16 off v => s' = {| par8 := par8 s; par16 := (fun o => if o =? off then v else par16 s o); corrections := corrections s |}
  | Slot _ off => x = off /\ s' = s
  | ReadCall t args => s' = s /\ (t = ABS s3 -> x = Z.abs (i32 (nth 0 args 0)))
  | External 3 _ =>
      par16 s' 0x92 = par16 s 0x92 /\ par16 s' 0x94 = par16 s 0x94 /\
      par8 s' (BUSY s3) = par8 s (BUSY s3) /\ corrections s' = S (corrections s)
  | WriteCall _ _ | External _ _ | Internal _ _ => kept s s'
  | _ => s' = s
  end.

Abbreviation wpt := (wp no_guard tracker_reply).

Lemma wp_signed16 off (Q : Z -> tracker -> Prop) s : Q (u32 (i16 (par16 s off))) s -> wpt (signed16 off) Q s.
Proof. intros HQ. unfold signed16. apply wp_bind, wp_call; [done|]. by intros ? ? [-> ->]. Qed.

Lemma wp_track_table (Q : Z -> tracker -> Prop) s : (forall x, Q x s) -> wpt (call Table) Q s.
Proof. intros HQ. apply wp_call; [done|]. by intros ? ? ->. Qed.

Lemma wp_track_slot t off (Q : Z -> tracker -> Prop) s : Q off s -> wpt (call (Slot t off)) Q s.
Proof. intros HQ. apply wp_call; [done|]. by intros ? ? [-> ->]. Qed.

(** The calls of a correction, but the correction itself and the store of the
    temperature. *)
Definition helper (e : acc) : Prop :=
  match e with
  | External k _ => k <> 3
  | Write8 off _ => off <> BUSY s3
  | Write16 _ _ => False
  | _ => True
  end.

Lemma helper_kept s0 {A} (p : prog acc A) s :
  calls_only helper p -> kept s0 s -> wpt p (fun _ => kept s0) s.
Proof.
  intros Hp. apply (wp_frame _ _ helper (kept s0)); [done|done|].
  intros e s1 x s2 He Hk Hx. unfold kept in *. destruct e; simpl in He, Hx; try (by rewrite (proj2 Hx)); try (by rewrite Hx).
  - rewrite Hx. cbn. rewrite (proj2 (Z.eqb_neq (BUSY s3) _)) by congruence. done.
  - by rewrite (proj1 Hx).
  - unfold kept in Hx. intuition congruence.
  - unfold kept in Hx. repeat case_match; try done; intuition congruence.
  - unfold kept in Hx. intuition congruence.
Qed.

Lemma helper_kept_bind s0 {A B} (p : prog acc A) (f : A -> prog acc B) (Q : B -> tracker -> Prop) s :
  calls_only helper p -> kept s0 s -> (forall a s', kept s0 s' -> wpt (f a) Q s') -> wpt (p ≫= f) Q s.
Proof. intros Hp Hk Hf. apply wp_bind. eapply wp_mono; [|by apply (helper_kept s0)]. intros a s' Hs'. by apply Hf. Qed.

Ltac helper_calls :=
  unfold run, signed16, write_call, target;
  repeat lazymatch goal with |- calls_only _ _ => calls_step end; unfold helper; try done.

(** After a correction that began in [s0]. *)
Definition corrected (s0 s : tracker) : Prop :=
  par16 s 0x92 = par16 s0 0x92 /\ par16 s 0x94 = par16 s0 0x92 /\
  par8 s (BUSY s3) = par8 s0 (BUSY s3) /\ corrections s = S (corrections s0).

Lemma retune_spec debug s : wpt (pll_retune s3 debug) (fun _ => corrected s) s.
Proof.
  assert (HB : BUSY s3 + 4 <> BUSY s3) by lia.
  unfold pll_retune. apply (helper_kept_bind s); [by helper_calls|done|]. intros t s1 H1.
  do 5 (apply (helper_kept_bind s); [by helper_calls|done|]; clear dependent s1; intros ? s1 H1).
  apply wp_bind, wp_call; [done|]. intros corr s2 (Ha & Hb & Hc & Hd).
  set (s2' := s2). assert (kept s2 s2) as Hk by done.
  apply (helper_kept_bind s2); [destruct (negb (debug =? 0)), s3; by helper_calls|done|]. intros ? s4 H4.
  apply wp_bind, wp_call; [done|]. intros ? ? [-> ->]. unfold run at 1. apply wp_bind, wp_bind, wp_call; [done|]. intros ? ? ->. apply wp_ret.
  match goal with |- wp _ _ _ _ ?st => set (s5 := st) end. assert (kept s5 s5) as H5 by done.
  apply (helper_kept_bind s5); [by helper_calls|done|]. intros v s6 H6.
  apply (helper_kept_bind s5); [destruct (negb (v =? 0)); by helper_calls|done|]. intros ? s7 H7.
  eapply wp_mono; [|apply (helper_kept s5); [by helper_calls|exact H7]]. intros ? s8 H8.
  unfold kept, corrected in *. cbn in H8. intuition congruence.
Qed.

(** The temperature has moved by more than nine degrees. *)
Definition drifted (s : tracker) : bool := 9 <? Z.abs (i16 (par16 s 0x92) - i16 (par16 s 0x94)).

(** The PLL is corrected exactly when the temperature has drifted and no
    correction is under way; then once, the reference temperature becomes the
    present one and the busy flag is released, so that the next call does
    nothing until the temperature drifts again. *)
Theorem pll_track_hysteresis h s debug :
  obeys_contract no_guard tracker_reply h ->
  exists x s', exec h (pll_track s3 debug) s = Some (x, s') /\
    if drifted s && (par8 s (BUSY s3) =? 0) then
      par8 s' (BUSY s3) = 0 /\ par16 s' 0x94 = par16 s 0x92 /\ corrections s' = S (corrections s) /\ drifted s' = false
    else s' = s.
Proof.
  intros Hh. apply (exec_wp _ _ h _ _ s Hh). unfold pll_track. cbv zeta. apply wp_bind.
  eapply (wp_mono _ _ _ (fun r s' => s' = s /\ r.1.2 = u32 (i16 (par16 s 0x92)) /\ r.2 = u32 (i16 (par16 s 0x94)))).
  2: { destruct s3.
    - apply wp_bind, wp_track_table. intros t. by apply wp_bind, wp_signed16, wp_bind, wp_signed16, wp_ret.
    - apply wp_bind, wp_signed16, wp_bind, wp_signed16, wp_bind, wp_track_table. intros t. by apply wp_ret. }
  intros [[t cur] prev] ? (-> & Hcur & Hprev). cbn [fst snd] in *. subst cur prev.
  apply wp_bind, wp_track_slot, wp_bind, wp_call; [done|]. intros dist ? [-> Hdist]. rewrite (Hdist eq_refl). cbn [nth].
  pose proof (sext_range 16 (par16 s 0x92)) as H1. pose proof (sext_range 16 (par16 s 0x94)) as H2. unfold in_swidth in *.
  rewrite wrap_sub_l, wrap_sub_r, sext_u32 by (unfold in_swidth; lia). unfold drifted. set (D := Z.abs _).
  rewrite (sext_small 32 D) by (unfold in_swidth; lia).
  destruct (Z.leb_spec D 9) as [Hle|Hgt].
  { rewrite (proj2 (Z.ltb_ge 9 D)) by lia. by apply wp_ret. }
  rewrite (proj2 (Z.ltb_lt 9 D)) by lia. cbn [andb]. apply wp_bind, wp_call; [done|]. intros ? ? [-> ->].
  destruct (par8 s (BUSY s3) =? 0) eqn:Hbusy; cbn [negb]; [|by apply wp_ret].
  unfold run. apply wp_bind, wp_bind, wp_call; [done|]. intros ? ? ->. apply wp_ret, wp_bind.
  eapply wp_mono; [|apply retune_spec]. intros ? s2 (Ha & Hb & Hc & Hd). cbn in Ha, Hb, Hd.
  apply wp_bind, wp_call; [done|]. intros ? ? ->. apply wp_ret. cbn. rewrite Z.eqb_refl, Hb, Ha.
  split_and!; try done. by rewrite Z.sub_diag.
Qed.

(** Helpers that do nothing. *)
Definition tracker_ref (e : acc) (s : tracker) : Z * tracker :=
  match e with
  | Read8 off => (par8 s off, s)
  | Read16 off => (par16 s off, s)
  | Write8 off v => (0, {| par8 := (fun o => if o =? off then v else par8 s o); par16 := par16 s; corrections := corrections s |})
  | Write16 off v => (0, {| par8 := par8 s; par16 := (fun o => if o =? off then v else par16 s o); corrections := corrections s |})
  | Slot _ off => (off, s)
  | ReadCall _ args => (Z.abs (i32 (nth 0 args 0)), s)
  | External 3 _ => (0, {| par8 := par8 s; par16 := par16 s; corrections := S (corrections s) |})
  | _ => (0, s)
  end.

Lemma tracker_ref_obeys : obeys_contract no_guard tracker_reply tracker_ref.
Proof. intros e s _. destruct e; try done; cbn; repeat case_match; done. Qed.

End Tracking.

Lemma pll_track_hysteresis_witness :
  let s := {| par8 := (fun _ => 0); par16 := (fun o => if o =? 0x92 then 60 else 20); corrections := 0 |} in
  exists x s', exec tracker_ref (pll_track false 0) s = Some (x, s') /\
    par8 s' (BUSY false) = 0 /\ par16 s' 0x94 = 60 /\ corrections s' = 1%nat /\ drifted s' = false.
Proof.
  apply (pll_track_hysteresis false tracker_ref
           {| par8 := (fun _ => 0); par16 := (fun o => if o =? 0x92 then 60 else 20); corrections := 0 |} 0).
  apply tracker_ref_obeys.
Defined.
