(* ===== verification/PhyRxGain.v ===== *)
(** * Receive gain tables

    Models [phy_rx_gain.rs] (Module [RxGain]): generation of the gain table,
    its transfer to the gain memory, and the sequencing of both.  [s3] selects
    the chip.  An index past the five coefficients is a panic. *)

From S2P Require Import Prelude Program PhyAccess.

Module RxGain.

Inductive method :=
| Param
| Table
| Slot (table offset : Z)
| Call (target : Z) (args : list Z)
| External (kind : Z) (args : list Z)
| Log (kind : Z) (args : list Z)
| Local (tag size : Z)
| Copy (destination offset size : Z)
| Child (kind : Z) (args : list Z).

Definition COEFFICIENTS : list Z := [0; 1; 5; 13; 29].

Section RxGain.
Variable s3 : bool.
Abbreviation prg := (prog (io method)).

Definition byte (v : Z) : Z := if s3 then u8 v else v.

Definition update (address mask value : Z) : prg unit :=
  old ← read address 4;
  write address 4 (Z.lor (Z.land old mask) value).

Definition target (offset : Z) : prg Z := table ← ext Table; ext (Slot table offset).

Definition call_slot (slot : Z) (args : list Z) : prg unit := t ← target slot; run (Call t args).

(** The coefficient of a gain; out of the table it is a panic. *)
Definition coefficient (gain : Z) : prg Z :=
  match COEFFICIENTS !! Z.to_nat (gain / 6) with Some c => mret c | None => Crash end.

(** ** [generate] *)

(** Skip inputs without steps.  The 8-bit input reaches any last input below
    256 within [fuel] 256; a larger one on the C3 would never be reached. *)
Fixpoint next_input (fuel : nat) (steps last input : Z) : prg Z :=
  match fuel with
  | O => Crash
  | S fuel' =>
      let input := Z.land (u32 (input + 1)) 255 in
      s ← read (steps + input) 1;
      if negb (s =? 0) || (last <=? input) then mret input else next_input fuel' steps last input
  end.

Record generator := { gain : Z; input : Z; index : Z; result : option Z }.

Definition generate_step (out max codes steps starts count : Z) (logging : bool) (_ : Z) (g : generator)
    : prg (flow generator) :=
  let last := i32 (u32 (count - 1)) in
  step ← read (steps + input g) 1;
  start ← read (starts + input g) 1;
  '(gain, input) ← (if (i32 (gain g) =? i8 step + i8 start) && (input g <? last) then
                      input ← next_input 256 steps last (input g);
                      gain ← read (starts + input) 1;
                      mret (gain, input)
                    else mret (gain g, input g));
  c ← coefficient gain;
  let shifted := Z.land (c * 8) 65535 in
  let remainder := gain mod 6 in
  code ← read (codes + input) 1;
  let packed := Z.land (Z.shiftl code 8 + shifted + remainder) 65535 in
  let address := out + Z.shiftr (i8 (index g)) 1 * 4 in
  (if negb (Z.land (index g) 1 =? 0) then
     old ← read address 4;
     write address 4 (u32 (old + Z.shiftl packed 16))
   else write address 4 packed) ;;
  (if logging then
     step ← read (steps + input) 1;
     code ← read (codes + input) 1;
     run (Log 0 [index g; packed; code; shifted; remainder; count; input; u32 (i8 step)])
   else mret tt) ;;
  if max <? gain then
    (if logging then run (Log 1 [index g]) else mret tt) ;;
    mret (Break {| gain := gain; input := input; index := index g; result := Some (Z.land (index g) 255) |})
  else
    let gain := Z.land (gain + 1) 255 in
    let index := index g + 1 in
    if index =? 127 then mret (Break {| gain := gain; input := input; index := index; result := Some 85 |})
    else mret (Next {| gain := gain; input := input; index := index; result := None |}).

(** The index grows with every turn, so the loop ends within 127 turns. *)
Definition generate (a : list Z) : prg Z :=
  match a with
  | [out; a1; codes; steps; starts; a5; a6] =>
      let max := byte a1 in
      let count := byte a5 in
      let logging := negb (byte a6 =? 0) in
      gain ← read starts 1;
      g ← for_loop (range 0 127) {| gain := gain; input := 0; index := 0; result := None |}
            (generate_step out max codes steps starts count logging);
      match result g with Some r => mret r | None => Crash end
  | _ => Crash
  end.

(** ** [write_memory] *)

Definition memory_starts : list Z :=
  if s3 then [0; 0; 0; 0; 0; 4; 4; 8; 0; 0; 0; 0; 0; 0; 0] else [0; 2; 1; 3; 6; 3; 12; 11; 10; 0; 0; 0; 0; 0; 0].
Definition memory_steps : list Z :=
  if s3 then [7; 13; 10; 5; 12; 8; 5; 9; 0; 0; 0; 0; 0; 0; 0] else [9; 12; 11; 8; 9; 12; 4; 4; 0; 0; 0; 0; 0; 0; 0].
Definition memory_total : Z := foldl (fun sum v => u8 (sum + v)) 0 (take (if s3 then 8 else 6) memory_steps).

(** An element of a fixed array; out of range it is a panic. *)
Definition element (l : list Z) (i : Z) : prg Z :=
  match l !! Z.to_nat i with Some v => mret v | None => Crash end.

(** The gain word of an entry, and the gain and input after it. *)
Definition memory_word (alternate : bool) (codes packed index input gain : Z) : prg (Z * Z * Z) :=
  if alternate then
    '(input, gain) ←
      (if s3 then mret (input, gain) else
       st ← element memory_steps input;
       sa ← element memory_starts input;
       if (st + i8 sa <=? i32 gain) && (input <=? 7) then
         let input := Z.land (input + 1) 255 in
         g ← element memory_starts input;
         mret (input, g)
       else mret (input, gain));
    c ← coefficient gain;
    let encoded := Z.land (c * 8 + gain mod 6) 255 in
    code ← read (codes + if s3 then 0 else input) 1;
    mret (Z.lor (Z.shiftl code 8) encoded, input, gain)
  else if s3 then
    word ← read (packed + index / 2 * 4 + Z.land index 1 * 2) 2;
    mret (word, input, Z.land (count_ones (Z.land (Z.shiftr word 3) 63) * 6 + Z.land word 7) 255)
  else
    value ← read (packed + Z.land (u32 (Z.shiftl index 1)) 1020) 4;
    let word := if negb (Z.land index 1 =? 0) then Z.shiftr value 16 else Z.land value 65535 in
    code ← read (codes + input) 1;
    mret (word, if negb (Z.land word 0xffffff00 =? Z.shiftl code 8) then Z.land (input + 1) 255 else input, gain).

Definition memory_iq (mode codes iq extra index input word : Z) : prg (Z * Z) :=
  if (mode =? 0) && (memory_total <=? index) then
    p ← ext Param;
    v ← read (p + 0x1f2) 1;
    let value := i8 v in
    let offset := u16 (if s3 then value - 1 else (value - 1) * 3 - 6 + input) in
    x ← read (extra + offset * 4) 4;
    mret (x, input)
  else
    input ← (if s3 then
               code ← read (codes + input) 1;
               mret (if negb (Z.land word 0xffffff00 =? Z.shiftl code 8) then Z.land (input + 1) 255 else input)
             else mret input);
    x ← read (iq + input * 4) 4;
    mret (x, input).

Definition memory_dc (mode dc word : Z) : prg (Z * Z) :=
  if negb (mode =? 0) then mret (0x01000100, 0)
  else
    let bits := count_ones (Z.land (Z.shiftr word 3) 63) in
    dc_value ← read (dc + Z.min bits 3 * 4) 4;
    p ← ext Param;
    v ← read (p + 0x150 + if negb (Z.land word 0xf8 =? 0) then 2 else 0) 2;
    mret (dc_value, Z.lor (Z.shiftl (Z.shiftr v 7) 6) (Z.land v 63)).

Definition memory_entry (mode : Z) (alternate : bool) (codes iq dc extra packed index input gain : Z) : prg (Z * Z) :=
  '(word, input, gain) ← memory_word alternate codes packed index input gain;
  '(iq_value, input) ← memory_iq mode codes iq extra index input word;
  '(dc_value, correction) ← memory_dc mode dc word;
  let hi := Z.shiftr dc_value 16 in
  table ← ext Table;
  callback ← ext (Slot table 0x2c);
  let first := u32 (u32 (Z.shiftl word 17) + Z.shiftl (Z.shiftr iq_value 16) 8 + Z.shiftr (i32 hi) 1) in
  let second := u32 (u32 (Z.shiftl hi 31) + u32 (Z.shiftl (Z.land iq_value 65535) 22) + u32 (Z.shiftl (Z.land dc_value 65535) 13)
                     + Z.land (Z.shiftl correction 2) 0x1ffc + (if negb s3 && negb (mode =? 0) then 3 else 0)) in
  run (Call callback [first; second;
                      Z.land (index + if negb (mode =? 0) then (if s3 then 83 else 80) else 0) 255]) ;;
  mret (input, if alternate then Z.land (gain + 1) 255 else gain).

(** On the C3 a count above 255 is never reached by the 8-bit index. *)
Fixpoint memory_loop (fuel : nat) (mode : Z) (alternate : bool) (codes iq dc extra packed count index input gain : Z) : prg unit :=
  if count <=? index then mret tt else
  match fuel with
  | O => Crash
  | S fuel' =>
      '(input, gain) ← memory_entry mode alternate codes iq dc extra packed index input gain;
      memory_loop fuel' mode alternate codes iq dc extra packed count (Z.land (index + 1) 255) input gain
  end.

Definition write_memory (a : list Z) : prg unit :=
  match a with
  | [a0; a1; codes; iq; dc; extra; a6; packed] =>
      let mode := byte a0 in
      let alternate := negb (byte a1 =? 0) in
      let count := byte a6 in
      let index := if alternate then memory_total else 0 in
      let input := if negb s3 && alternate then 6 else 0 in
      gain ← (if s3 then mret 8 else element memory_starts input);
      memory_loop 256 mode alternate codes iq dc extra packed count index input gain
  | _ => Crash
  end.

(** ** Sequencing *)

Definition set_bit1 (rd wr : Z) : prg unit :=
  t ← ext Table;
  w ← ext (Slot t wr);
  r ← ext (Slot t rd);
  value ← ext (Call r [1; 1]);
  run (Call w [1; 1; Z.land (Z.lor value 2) 65535]).

Definition set_param (a : list Z) : prg unit :=
  match a with
  | [a0; a1; codes; a3; a4; a5] =>
      let mode := byte a0 in
      let count := byte a5 in
      p ← ext Param;
      let enter := if s3 then 0x1b0 else 0x1d4 in
      let exit := if s3 then 0x1b4 else 0x1d8 in
      let rd := if s3 then 0x1ac else 0x1d0 in
      let wr := if s3 then 0x1a8 else 0x1cc in
      let select := if s3 then 0x1c0 else 0x1e4 in
      update 0x60006110 0xffffffff 0x4000 ;;
      update 0x60006110 0xffffffff 0x8000 ;;
      call_slot enter [] ;;
      call_slot select [0] ;;
      (if negb (mode =? 0) then set_bit1 rd wr
       else
         v ← read (p + 0x120) 4;
         if Z.land v 1024 =? 0 then
           run (External 0 [0; 128; p + 0x150; 0]) ;;
           v ← read (p + 0x120) 4;
           write (p + 0x120) 4 (Z.lor v 1024)
         else mret tt) ;;
      update 0x6000607c 0xf7ffffff 0 ;;
      call_slot select [0] ;;
      (if negb (mode =? 0) then
         set_bit1 rd wr ;;
         call_slot wr [4; 2; if s3 then 0 else 24]
       else mret tt) ;;
      let args := [if negb (mode =? 0) then 1 else 0; 0; if negb (mode =? 0) then 1 else 3; codes;
                   p + (if s3 then 0x248 else 0x2c4); p + (if s3 then 0x290 else 0x30c); p + (if s3 then 0x210 else 0x21c);
                   count; if mode =? 0 then 4 else 0; if mode =? 0 then 14 else 0] in
      run (External 1 (take (if s3 then 10 else 8) args)) ;;
      update 0x60006110 0xffff7fff 0 ;;
      (if negb (mode =? 0) then call_slot wr [4; 2; 0] else mret tt) ;;
      call_slot select [0] ;;
      call_slot exit []
  | _ => Crash
  end.

Definition initialize : prg unit :=
  p ← ext Param;
  write (p + 0x1f6) 1 (if s3 then 82 else 79) ;;
  write (p + 0x1f5) 1 (if s3 then 76 else 79) ;;
  for_all (range 0 (if s3 then 82 else 79)) (fun index => call_slot 0x2c [0x10080; 0x40200000; index]) ;;
  (if s3 then call_slot 0x248 [] else run (External 3 [])) ;;
  call_slot 4 [].

(** A byte in all four bytes of a word *)
Definition spread (value : Z) : Z :=
  Z.lor (Z.lor (Z.lor value (u32 (Z.shiftl value 8))) (u32 (Z.shiftl value 16))) (u32 (Z.shiftl value 24)).

(** Generate both tables, calibrate and load them; done once. *)
Definition set_table_once (p b frequency count input1 input0 : Z) : prg unit :=
  let code0 := b in let code1 := b + 12 in let step0 := b + 24 in let step1 := b + 40 in
  let start0 := b + 56 in let start1 := b + 72 in let out1 := b + 88 in let out0 := b + 288 in
  r ← ext (Child 0 [out1; 22; code1; step1; start1; input1; 0]);
  write (p + 0x1f5) 1 (Z.min r (if s3 then 76 else 79)) ;;
  r ← ext (Child 0 [out0; if s3 then 25 else 22; code0; step0; start0; input0; 0]);
  write (p + 0x1f6) 1 (Z.min r (if s3 then 82 else 79)) ;;
  let freq := if s3 then u16 frequency else frequency in
  value ← read (p + 0xf3) 1;
  run (External 2 [value; freq; 0]) ;;
  v ← read (p + 0x1f5) 1;
  run (Child 2 [1; p + 0x120; code1; Z.land (v + 1) 255; out1; 9]) ;;
  skip ← (if s3 then mret false else v ← read (p + 0xa2) 1; mret (v =? 17));
  (if (skip : bool) then mret tt else
     value ← read (p + 0xf3) 1;
     run (External 2 [value; freq; 0]) ;;
     v ← read (p + 0x1f6) 1;
     run (Child 2 [0; p + 0x120; code0; Z.land (v + 1) 255; out0; count])) ;;
  v ← read (p + 0x1f5) 1;
  run (Child 1 [1; 0; code1; p + (if s3 then 0x248 else 0x2c4); p + (if s3 then 0x290 else 0x30c);
                p + (if s3 then 0x210 else 0x21c); Z.land (v + 1) 255; out1]) ;;
  v ← read (p + 0x1f6) 1;
  run (Child 1 [0; 0; code0; p + (if s3 then 0x26c else 0x2e8); p + (if s3 then 0x290 else 0x30c);
                p + (if s3 then 0x210 else 0x21c); Z.land (v + 1) 255; out0]) ;;
  old ← read (p + 0x120) 4;
  write (p + 0x120) 4 (Z.lor old 512).

(** Program the registers with the sizes of the tables. *)
Definition set_table_registers (p : Z) : prg unit :=
  value ← read (p + 0x1f6) 1;
  update 0x6001c02c 0xffff80ff (Z.shiftl (Z.land value 127) 8) ;;
  held0 ← read (p + 0x1f6) 1;
  update 0x6001c13c 0xfe03ffff (Z.shiftl (Z.min held0 76) 18) ;;
  update 0x6001c0d0 0xfe01ffff (if s3 then 0xa60000 else 0xa00000) ;;
  update 0x60011848 0xff00ffff (if s3 then 0x530000 else 0x500000) ;;
  held1 ← read (p + 0x1f5) 1;
  update 0x6001c0a4 0xffc07fff (Z.shiftl (Z.land held1 127) 15) ;;
  for_all [0x800; 0x1000; 0x08000000; 0x10000000] (update 0x6000607c 0xffffffff) ;;
  flag ← read (p + if s3 then 0x2da else 0x34c) 1;
  if flag =? 0 then mret tt else
  value ← (if s3 then mret held0 else read (p + 0x1f6) 1);
  write (p + 0xd4) 4 (spread (u32 (value - 5))) ;;
  value ← (if s3 then read (p + 0x1f5) 1 else mret held1);
  write (p + if s3 then 0x2dc else 0x344) 4 (spread (u32 (value - 5))).

Definition set_table (frequency requested : Z) : prg unit :=
  b ← ext (Local 0 512);
  for_all [(b, if s3 then 25 else 32, 9); (b + 12, if s3 then 34 else 32, 9); (b + 24, if s3 then 10 else 0, 15);
           (b + 40, if s3 then 43 else 44, 15); (b + 56, if s3 then 58 else 16, 15); (b + 72, if s3 then 73 else 60, 15)]
    (fun c : Z * Z * Z => run (Copy c.1.1 c.1.2 c.2)) ;;
  let count := Z.land (u32 (9 - byte requested)) 255 in
  value ← read (u32 (u32 (b + count) - 1)) 1;
  p ← ext Param;
  write (p + 0xf1) 1 value ;;
  '(input1, input0) ←
    (if s3 then mret (9, 9)
     else
       v ← read (p + 0x218) 1;
       input1 ← (if negb (Z.land v 2 =? 0) then
                   write (b + 12 + 8) 1 0 ;;
                   write (b + 12 + 7) 1 0 ;;
                   write (b + 40 + 6) 2 0 ;;
                   mret 7
                 else mret 9);
       v ← read (p + 0x348) 1;
       mret (input1, if i8 v <? -6 then 5 else 9));
  flags ← read (p + 0x120) 4;
  (if Z.land flags 512 =? 0 then set_table_once p b frequency count input1 input0 else mret tt) ;;
  set_table_registers p.

Definition CONSTANTS : list Z :=
  if s3 then
    [0; 0; 1; 0; 5; 0; 13; 0; 29; 0; 7; 13; 10; 5; 12; 8; 5; 9; 0; 0; 0; 0; 0; 0; 0; 160; 132; 142;
     232; 238; 210; 242; 248; 254; 160; 132; 134; 226; 232; 208; 244; 248; 254; 7; 9; 8; 5; 8; 12;
     11; 7; 0; 0; 0; 0; 0; 0; 0; 0; 0; 0; 0; 0; 0; 4; 4; 8; 0; 0; 0; 0; 0; 0; 0; 0; 0; 0; 0; 0; 4;
     8; 10; 0; 0; 0; 0; 0; 0]
  else
    [9; 12; 11; 8; 9; 12; 4; 4; 0; 0; 0; 0; 0; 0; 0; 0; 0; 2; 1; 3; 6; 3; 12; 11; 10; 0; 0; 0; 0; 0;
     0; 0; 160; 132; 142; 232; 238; 210; 242; 248; 254; 0; 0; 0; 6; 12; 10; 13; 12; 9; 4; 4; 0; 0;
     0; 0; 0; 0; 0; 0; 3; 2; 1; 0; 8; 8; 14; 13; 12; 0; 0; 0; 0; 0; 0].

End RxGain.
End RxGain.
