(* ===== verification/PhyRxGainSpec.v ===== *)
(** * Correctness of the receive gain table

    [gain_table_generated]: the generator writes the gain ramp its code, step
    and start tables describe, and the routine that loads the gain memory
    decodes the words it wrote. *)

From S2P Require Import Prelude Program PhyAccess PhyRxGain.
Import RxGain.

(** Two halfwords make a word. *)
Lemma mem_read_halves m a : mem_read m a 4 = mem_read m a 2 + 65536 * mem_read m (a + 2) 2.
Proof.
  unfold mem_read. change (seq 0 (Z.to_nat 4)) with [0; 1; 2; 3]%nat. change (seq 0 (Z.to_nat 2)) with [0; 1]%nat.
  cbn [fmap list_fmap le_word].
  replace (a + Z.of_nat 2) with (a + 2 + Z.of_nat 0) by lia. replace (a + Z.of_nat 3) with (a + 2 + Z.of_nat 1) by lia. lia.
Qed.

Lemma halves_of_word m a lo hi : (forall b, is_u8 (m b)) -> 0 <= lo < 65536 ->
  mem_read m a 4 = lo + 65536 * hi -> mem_read m a 2 = lo /\ mem_read m (a + 2) 2 = hi.
Proof. intros Hm Hlo. rewrite mem_read_halves. pose proof (mem_read_range m a 2 Hm). lia. Qed.

(** ** The encoding of a gain *)

Definition encoded (gain : Z) : Z := default 0 (COEFFICIENTS !! Z.to_nat (gain / 6)) * 8 + gain mod 6.

(** The number of six-unit stages is the number of ones above the remainder. *)
Definition decoded (word : Z) : Z := Z.land (count_ones (Z.land (Z.shiftr word 3) 63) * 6 + Z.land word 7) 255.

Definition gain_word (code gain : Z) : Z := code * 256 + encoded gain.

Lemma encoded_range gain : 0 <= gain <= 29 -> 0 <= encoded gain < 256.
Proof.
  intros Hg. assert (Forall (fun g => 0 <= encoded g < 256) (seqZ 0 30)) as Hf by decide_now.
  rewrite Forall_forall in Hf. apply Hf, in_seqZ. lia.
Qed.

Lemma decoded_gain_word code gain : Z.Even code -> 0 <= gain <= 29 -> decoded (gain_word code gain) = gain.
Proof.
  intros [c ->] Hg. unfold gain_word, decoded.
  replace (2 * c * 256 + encoded gain) with (encoded gain + (c * 64) * 8) by lia.
  change 63 with (Z.ones 6). change 7 with (Z.ones 3). rewrite !land_ones_mod, !Z.shiftr_div_pow2 by lia.
  change (2 ^ 3) with 8. change (2 ^ 6) with 64.
  rewrite Z.div_add, !Z.mod_add by lia. change 8 with (2 ^ 3). change 64 with (2 ^ 6).
  rewrite <- Z.shiftr_div_pow2, <- !land_ones_mod by lia. fold (decoded (encoded gain)).
  assert (Forall (fun g => decoded (encoded g) = g) (seqZ 0 30)) as Hf by decide_now.
  rewrite Forall_forall in Hf. apply Hf, in_seqZ. lia.
Qed.

(** ** The gain ramp of three tables *)
Section Ramp.
Variables (code step start : Z -> Z) (last : Z).

(** The next input with steps, or the last one. *)
Definition next_used (i : Z) : Z := default last (head (filter (fun j => step j <> 0) (seqZ (i + 1) (last - i - 1)))).

(** When the gain has left the steps of its input, the next input takes over. *)
Definition settle (p : Z * Z) : Z * Z :=
  if (p.1 =? i8 (step p.2) + start p.2) && (p.2 <? last) then (start (next_used p.2), next_used p.2) else p.

(** The gain and the input of an entry *)
Fixpoint entry (k : nat) : Z * Z :=
  match k with
  | O => settle (start 0, 0)
  | S k' => settle ((entry k').1 + 1, (entry k').2)
  end.

Definition ramp_word (k : nat) : Z := gain_word (code (entry k).2) (entry k).1.

Lemma next_used_last i : last <= i + 1 -> next_used i = last.
Proof. intros Hi. unfold next_used. by replace (seqZ (i + 1) (last - i - 1)) with (@nil Z) by (symmetry; apply seqZ_nil; lia). Qed.

Lemma next_used_step i : i + 1 < last -> next_used i = if step (i + 1) =? 0 then next_used (i + 1) else i + 1.
Proof.
  intros Hi. unfold next_used. rewrite (seqZ_cons (i + 1)) by lia.
  replace (Z.succ (i + 1)) with (i + 1 + 1) by lia. replace (Z.pred (last - i - 1)) with (last - (i + 1) - 1) by lia.
  destruct (Z.eqb_spec (step (i + 1)) 0).
  - by rewrite filter_cons_False by auto.
  - by rewrite filter_cons_True.
Qed.

Lemma next_used_range i : i < last -> i < next_used i <= last.
Proof.
  intros Hi. unfold next_used. destruct (head _) as [j|] eqn:Hj; simpl; [|lia].
  apply head_Some_elem_of, list_elem_of_filter in Hj as [_ Hj]. apply elem_of_seqZ in Hj. lia.
Qed.

End Ramp.

(** ** The generator *)

(** The log leaves the memory alone. *)
Definition log_frame (y : method) (m : mem) (_ : Z) (m' : mem) : Prop :=
  match y with Log _ _ => m' = m | _ => True end.

Abbreviation wpr := (wp no_guard (mem_io log_frame)).

Lemma wp_log k args (Q : unit -> mem -> Prop) m : Q tt m -> wpr (run (Log k args)) Q m.
Proof. intros HQ. apply wp_io_run. by intros ? ? ->. Qed.

Lemma wp_coefficient gain (Q : Z -> mem -> Prop) m :
  0 <= gain <= 29 -> Q (encoded gain / 8) m -> wpr (coefficient gain) Q m.
Proof.
  intros Hg HQ. unfold coefficient, encoded in *. assert (0 <= gain / 6 < 5) by (split; [apply Z.div_pos|apply Z.div_lt_upper_bound]; lia).
  destruct (lookup_lt_is_Some_2 COEFFICIENTS (Z.to_nat (gain / 6))) as [c Hc]; [simpl; lia|].
  rewrite Hc in *. cbn [default] in HQ. apply wp_ret. change (default 0 (Some c)) with c in HQ. pose proof (Z.mod_pos_bound gain 6).
  rewrite Z.add_comm, Z.div_add, Z.div_small in HQ by lia. done.
Qed.

Section Generate.
Variable s3 : bool.
Variables (m0 : mem) (out max codes steps starts count : Z).

Abbreviation code := (fun i => m0 (codes + i)).
Abbreviation stepb := (fun i => m0 (steps + i)).
Abbreviation startb := (fun i => m0 (starts + i)).
Abbreviation last := (count - 1).
Abbreviation ent := (entry stepb startb last).
Abbreviation word := (ramp_word code stepb startb last).

(** The tables: bytes, at most 255 inputs with gains up to 29, apart from the
    output. *)
Record tables_ok : Prop := {
  ok_bytes : forall b, is_u8 (m0 b);
  ok_max : 0 <= max <= 28;
  ok_count : 1 <= count <= 255;
  ok_starts : forall i, 0 <= i < count -> startb i <= 29;
  ok_codes : forall i, 0 <= i < count -> Z.Even (code i);
  ok_apart : apart out 256 codes count /\ apart out 256 steps count /\ apart out 256 starts count }.

(** The first [k] entries are in the output and nothing else has changed, up to
    the second half of the last word. *)
Record filled (k : nat) (m : mem) : Prop := {
  filled_bytes : forall b, is_u8 (m b);
  filled_words : forall j, (2 * j < k)%nat ->
    mem_read m (out + 4 * Z.of_nat j) 4 =
    word (2 * j) + 65536 * (if decide (2 * j + 1 < k)%nat then word (2 * j + 1) else 0);
  filled_else : forall b, b < out \/ out + 4 * ((Z.of_nat k + 1) / 2) <= b -> m b = m0 b }.

Hypothesis Hok : tables_ok.

Lemma settle_range g i : 0 <= g <= 29 -> 0 <= i <= last ->
  let p := settle stepb startb last (g, i) in 0 <= p.1 <= 29 /\ 0 <= p.2 <= last.
Proof.
  intros Hg Hi. unfold settle. cbn [fst snd].
  destruct ((g =? _) && (i <? last)) eqn:Hc; [|done]. apply andb_true_iff in Hc as [_ Hc]. apply Z.ltb_lt in Hc.
  pose proof (next_used_range stepb last i Hc) as Hn. cbn [fst snd].
  pose proof (ok_starts Hok (next_used stepb last i)). pose proof (ok_bytes Hok (starts + next_used stepb last i)) as Hb.
  unfold in_width in Hb. lia.
Qed.

Lemma entry_range k : (forall j, (j < k)%nat -> (ent j).1 <= max) -> 0 <= (ent k).1 <= 29 /\ 0 <= (ent k).2 <= last.
Proof.
  pose proof (ok_max Hok). pose proof (ok_count Hok). induction k as [|k IH]; intros Hk; cbn [entry].
  - pose proof (ok_starts Hok 0). pose proof (ok_bytes Hok (starts + 0)) as Hb. unfold in_width in Hb.
    apply settle_range; lia.
  - destruct IH as [? ?]; [intros; apply Hk; lia|]. pose proof (Hk k). apply settle_range; lia.
Qed.

Lemma word_range k : (forall j, (j < k)%nat -> (ent j).1 <= max) -> 0 <= word k < 65536.
Proof.
  intros Hk. destruct (entry_range k Hk) as [Hg Hi]. pose proof (encoded_range _ Hg).
  pose proof (ok_bytes Hok (codes + (ent k).2)) as Hb. unfold in_width in Hb. unfold ramp_word, gain_word. lia.
Qed.

(** Memory in which an area the output is apart from can still be read *)
Lemma filled_read k m a w i : filled k m -> (k <= 127)%nat -> apart out 256 a w -> 0 <= i < w -> mem_read m (a + i) 1 = m0 (a + i).
Proof. intros Hf Hk Ha Hi. rewrite mem_read_1. apply (filled_else _ _ Hf). unfold apart in Ha. Z.to_euclidean_division_equations. lia. Qed.

(** *** Storing an entry *)

Lemma fill_even k m : 0 <= word (2 * k) < 65536 -> filled (2 * k) m ->
  filled (S (2 * k)) (mem_write m (out + 4 * Z.of_nat k) 4 (word (2 * k))).
Proof.
  intros Hw Hf. split.
  - intros b. apply mem_write_byte, (filled_bytes _ _ Hf).
  - intros j Hj. destruct (decide (j = k)) as [->|Hjk].
    + rewrite mem_read_write_same by lia. rewrite decide_False by lia. rewrite Z.mul_0_r, Z.add_0_r. apply Z.mod_small. lia.
    + rewrite mem_read_write_other by lia. rewrite (filled_words _ _ Hf) by lia. by rewrite !decide_True by lia.
  - intros b Hb. Z.to_euclidean_division_equations. rewrite mem_write_out by lia. apply (filled_else _ _ Hf).
    Z.to_euclidean_division_equations. lia.
Qed.

Lemma fill_odd k m : 0 <= word (2 * k) < 65536 -> 0 <= word (2 * k + 1) < 65536 -> filled (S (2 * k)) m ->
  filled (S (2 * k + 1)) (mem_write m (out + 4 * Z.of_nat k) 4
    (u32 (mem_read m (out + 4 * Z.of_nat k) 4 + Z.shiftl (word (2 * k + 1)) 16))).
Proof.
  intros Hw Hw' Hf. rewrite (filled_words _ _ Hf) by lia. rewrite decide_False, Z.mul_0_r, Z.add_0_r, Z.shiftl_mul_pow2 by lia.
  split.
  - intros b. apply mem_write_byte, (filled_bytes _ _ Hf).
  - intros j Hj. destruct (decide (j = k)) as [->|Hjk].
    + rewrite mem_read_write_same, decide_True by lia. rewrite wrap_small by (unfold in_width; lia).
      rewrite Z.mod_small by lia. lia.
    + rewrite mem_read_write_other by lia. rewrite (filled_words _ _ Hf) by lia. by rewrite !decide_True by lia.
  - intros b Hb. Z.to_euclidean_division_equations. rewrite mem_write_out by lia. apply (filled_else _ _ Hf).
    Z.to_euclidean_division_equations. lia.
Qed.

Lemma store_entry k m (Q : unit -> mem -> Prop) : 
  (k < 127)%nat -> (forall j, (j < k)%nat -> (ent j).1 <= max) -> filled k m ->
  (forall m', filled (S k) m' -> Q tt m') ->
  wpr (let address := out + Z.shiftr (i8 (Z.of_nat k)) 1 * 4 in
       if negb (Z.land (Z.of_nat k) 1 =? 0) then
         old ← read address 4;
         write address 4 (u32 (old + Z.shiftl (word k) 16))
       else write address 4 (word k)) Q m.
Proof.
  intros Hk Hmax Hf HQ. cbv zeta. rewrite sext_small by (unfold in_swidth; lia).
  assert (Z.land (Z.of_nat k) 1 = Z.of_nat k mod 2) as -> by (apply (land_ones_mod _ 1); lia).
  rewrite Z.shiftr_div_pow2 by lia. change (2 ^ 1) with 2.
  assert (Hw : forall j, (j <= k)%nat -> 0 <= word j < 65536).
  { intros j Hj. apply word_range. intros j' Hj'. apply Hmax. lia. }
  destruct (Nat.Even_or_Odd k) as [[j ->]|[j ->]].
  - replace (Z.of_nat (2 * j) mod 2) with 0 by (Z.to_euclidean_division_equations; lia). cbn [Z.eqb negb]. io_run. apply HQ.
    replace (Z.of_nat (2 * j) / 2 * 4) with (4 * Z.of_nat j) by (Z.to_euclidean_division_equations; lia).
    apply fill_even; [apply Hw; lia|done].
  - replace (Z.of_nat (2 * j + 1) mod 2) with 1 by (Z.to_euclidean_division_equations; lia). cbn [Z.eqb negb]. io_run. apply HQ.
    replace (Z.of_nat (2 * j + 1) / 2 * 4) with (4 * Z.of_nat j) by (Z.to_euclidean_division_equations; lia).
    apply fill_odd; [apply Hw; lia..|]. by replace (S (2 * j)) with (2 * j + 1)%nat by lia.
Qed.

Lemma next_input_spec fuel i k m (Q : Z -> mem -> Prop) :
  filled k m -> (k <= 127)%nat -> 0 <= i < last -> last - i <= Z.of_nat fuel ->
  Q (next_used stepb last i) m -> wpr (next_input fuel steps last i) Q m.
Proof.
  intros Hf Hk. destruct (ok_apart Hok) as (_ & Hs & _). pose proof (ok_count Hok). revert i. induction fuel as [|fuel IH]; intros i Hi Hfuel HQ; [lia|].
  cbn [next_input]. cbv zeta. rewrite wrap_small by (unfold in_width; lia).
  change 255 with (Z.ones 8) in |- *. rewrite (land_ones_mod _ 8), (Z.mod_small (i + 1)) by lia. io_run.
  rewrite (filled_read k m steps count (i + 1)) by (done || lia).
  destruct (Z.leb_spec last (i + 1)) as [Hl|Hl].
  - rewrite orb_true_r. apply wp_ret. rewrite next_used_last in HQ by done. by replace (i + 1) with last by lia.
  - rewrite next_used_step in HQ by done. rewrite orb_false_r. destruct (m0 (steps + (i + 1)) =? 0); cbn [negb]; [|done].
    apply IH; [lia..|done].
Qed.

(** *** The loop *)

(** The table ends with the first gain above the maximum, or is full. *)
Definition ends_at (n : nat) (r : Z) : Prop :=
  (forall j, (j < n)%nat -> (ent j).1 <= max) /\
  ((n < 127)%nat /\ max < (ent n).1 /\ r = Z.of_nat n \/ n = 126%nat /\ (ent n).1 <= max /\ r = 85).

Record at_turn (k : nat) (g : generator) (m : mem) : Prop := {
  turn_bound : (k < 127)%nat;
  turn_index : index g = Z.of_nat k;
  turn_entry : settle stepb startb last (gain g, input g) = ent k;
  turn_gain : 0 <= gain g <= 29;
  turn_input : 0 <= input g <= last;
  turn_ramp : forall j, (j < k)%nat -> (ent j).1 <= max;
  turn_filled : filled k m }.

Lemma settled {B} (f : Z * Z -> prog (io method) B) k g m (Q : B -> mem -> Prop) : at_turn k g m -> wpr (f (ent k)) Q m ->
  wpr (step ← read (steps + input g) 1;
       start ← read (starts + input g) 1;
       (if (i32 (gain g) =? i8 step + i8 start) && (input g <? last) then
          input ← next_input 256 steps last (input g);
          gain ← read (starts + input) 1;
          mret (gain, input)
        else mret (gain g, input g)) ≫= f) Q m.
Proof.
  intros [Hk Hi He Hg Hin Hr Hf] HQ. destruct (ok_apart Hok) as (_ & Hs & Ht). pose proof (ok_count Hok).
  io_run. rewrite (filled_read k m steps count), (filled_read k m starts count) by (done || lia).
  pose proof (ok_starts Hok (input g)) as Hstart. pose proof (ok_bytes Hok (starts + input g)) as Hb. unfold in_width in Hb.
  rewrite (sext_small 32 (gain g)), (sext_small 8 (m0 (starts + input g))) by (unfold in_swidth; lia).
  unfold settle in He. cbn [fst snd] in He. destruct ((gain g =? _) && (input g <? last)) eqn:Hc; rewrite <- He in HQ.
  - apply andb_true_iff in Hc as [_ Hc]. apply Z.ltb_lt in Hc. apply wp_bind, (next_input_spec _ _ k); [done|lia..|].
    pose proof (next_used_range stepb last (input g) Hc). io_run. by rewrite (filled_read k m starts count) by (done || lia).
  - by apply wp_ret.
Qed.

Lemma packed_word code gain : is_u8 code -> 0 <= gain <= 29 ->
  Z.land (Z.shiftl code 8 + Z.land (encoded gain / 8 * 8) 65535 + gain mod 6) 65535 = gain_word code gain.
Proof.
  intros Hc Hg. unfold in_width in Hc. pose proof (encoded_range gain Hg) as He.
  change 65535 with (Z.ones 16). rewrite !land_ones_mod, Z.shiftl_mul_pow2 by lia.
  assert (encoded gain mod 8 = gain mod 6) as Hm.
  { unfold encoded. pose proof (Z.mod_pos_bound gain 6). rewrite Z.add_comm, Z.mod_add by lia. apply Z.mod_small. lia. }
  rewrite <- Hm. rewrite (Z.mod_small (_ / 8 * 8)) by (Z.to_euclidean_division_equations; lia).
  unfold gain_word. rewrite Z.mod_small by (Z.to_euclidean_division_equations; lia).
  Z.to_euclidean_division_equations. lia.
Qed.

Lemma generate_step_spec logging k i g m : at_turn k g m ->
  wpr (generate_step out max codes steps starts count logging i g)
    (fun r m' => match r with
                 | Next g' => at_turn (S k) g' m'
                 | Break g' => exists n r, result g' = Some r /\ ends_at n r /\ filled (S n) m'
                 end) m.
Proof.
  intros Ht. destruct (ok_apart Hok) as (Hc & Hs & _). pose proof (ok_count Hok). pose proof (ok_max Hok).
  destruct (entry_range k (turn_ramp _ _ _ Ht)) as [Hg Hi].
  pose proof (turn_filled _ _ _ Ht) as Hf. pose proof (turn_bound _ _ _ Ht) as Hk.
  unfold generate_step. rewrite sext_u32 by (unfold in_swidth; lia).
  eapply (settled _ k g m); [done|]. destruct (ent k) as [gn ip] eqn:Hent. cbn [fst snd] in Hg, Hi. cbv beta iota.
  apply wp_bind, wp_coefficient; [done|]. cbv zeta. apply wp_bind, wp_io_read.
  rewrite (filled_read k m codes count) by (done || lia). rewrite packed_word; [|apply (ok_bytes Hok)|done].
  assert (gain_word (m0 (codes + ip)) gn = word k) as -> by (unfold ramp_word; by rewrite Hent).
  rewrite (turn_index _ _ _ Ht).
  apply wp_bind, (store_entry k m); [done|apply (turn_ramp _ _ _ Ht)|done|]. intros m1 Hf1. apply wp_bind.
  assert (Hlog : forall p (Q : unit -> mem -> Prop), Q tt m1 ->
    wpr p (fun _ m' => m' = m1) m1 -> wpr (if logging then p else mret tt) Q m1).
  { intros p Q HQ Hp. destruct logging; [|done]. eapply wp_mono, Hp. by intros [] ? ->. }
  apply Hlog; [|io_run; by apply wp_log]. destruct (Z.ltb_spec max gn) as [Hm|Hm].
  - apply wp_bind, Hlog; [|by apply wp_log]. apply wp_ret. exists k, (Z.of_nat k). split_and!; [|split|done].
    + cbn [result]. change 255 with (Z.ones 8). rewrite land_ones_mod, Z.mod_small by lia. done.
    + apply (turn_ramp _ _ _ Ht).
    + left. by rewrite Hent.
  - pose proof (turn_ramp _ _ _ Ht) as Hr. change 255 with (Z.ones 8). rewrite land_ones_mod, (Z.mod_small (gn + 1)) by lia.
    destruct (Z.eqb_spec (Z.of_nat k + 1) 127); apply wp_ret.
    + exists k, 85. split_and!; [done|split; [done|right]|done]. rewrite Hent. cbn [fst]. split_and!; [lia..|done].
    + assert (forall j, (j < S k)%nat -> (ent j).1 <= max) as Hr'.
      { intros j Hj. destruct (decide (j = k)) as [->|]; [by rewrite Hent|apply Hr; lia]. }
      split; cbn [gain input index]; [lia|lia| |lia|done|done|done]. cbn [entry]. by rewrite Hent.
Qed.

(** The table of the entries up to [n] is in the output and [n] ends it. *)
Definition generated (r : Z) (m' : mem) : Prop := exists n, ends_at n r /\ filled (S n) m'.

Lemma generate_spec log : wpr (generate s3 [out; max; codes; steps; starts; count; log]) generated m0.
Proof.
  pose proof (ok_max Hok). pose proof (ok_count Hok). pose proof (ok_starts Hok 0) as Hs. pose proof (ok_bytes Hok (starts + 0)) as Hb.
  cbv beta in Hs. unfold in_width in Hb. rewrite Z.add_0_r in *.
  assert (forall v, 0 <= v < 256 -> byte s3 v = v) as Hbyte.
  { intros v Hv. unfold byte. destruct s3; [apply wrap_small; unfold in_width; lia|done]. }
  unfold generate. cbv zeta. rewrite (Hbyte max), (Hbyte count) by lia. io_run. rewrite mem_read_1.
  apply (wp_for_loop _ _ (fun rest g m => exists k, rest = range k 127 /\ at_turn k g m)).
  - exists 0%nat. split; [done|]. split; cbn [gain input index]; [lia|done| |lia|lia|intros; lia|].
    + cbn [entry]. by rewrite Z.add_0_r.
    + split; [apply (ok_bytes Hok)|intros; lia|done].
  - intros i l g m (k & Hrest & Ht). eapply wp_mono; [|by apply (generate_step_spec _ k)].
    intros [g'|g'] m'; cbv beta iota.
    + intros Ht'. exists (S k). split; [|done]. unfold range in *. pose proof (turn_bound _ _ _ Ht).
      replace (127 - k)%nat with (S (127 - S k)) in Hrest by lia. cbn [seq fmap list_fmap] in Hrest. by simplify_eq.
    + intros (n & r & -> & He & Hf). apply wp_ret. by exists n.
  - intros g m (k & Hrest & Ht). pose proof (turn_bound _ _ _ Ht). unfold range in Hrest.
    by replace (127 - k)%nat with (S (126 - k)) in Hrest by lia.
Qed.

(** *** Reading the table back *)

Lemma ramp_of n r : ends_at n r -> forall k, (k <= n)%nat -> forall j, (j < k)%nat -> (ent j).1 <= max.
Proof. intros [Hr _] k Hk j Hj. apply Hr. lia. Qed.

Lemma filled_halves n r m j : ends_at n r -> filled (S n) m -> (2 * j <= n)%nat ->
  mem_read m (out + 4 * Z.of_nat j) 2 = word (2 * j) /\
  ((2 * j + 1 <= n)%nat -> mem_read m (out + 4 * Z.of_nat j + 2) 2 = word (2 * j + 1)).
Proof.
  intros He Hf Hj. pose proof (filled_words _ _ Hf j) as Hw.
  apply halves_of_word in Hw as [Hlo Hhi]; [|apply (filled_bytes _ _ Hf)|apply word_range, (ramp_of n r He); lia|lia].
  split; [done|]. intros Hj'. by rewrite decide_True in Hhi by lia.
Qed.

Lemma ends_bound n r : ends_at n r -> (n < 127)%nat.
Proof. intros [_ [?|?]]; lia. Qed.

(** The word offset and the parity of an index *)
Lemma index_parts j : 0 <= j < 64 -> Z.land (u32 (Z.shiftl (2 * j) 1)) 1020 = 4 * j /\ Z.land (2 * j) 1 = 0 /\
  Z.land (u32 (Z.shiftl (2 * j + 1) 1)) 1020 = 4 * j /\ Z.land (2 * j + 1) 1 = 1.
Proof.
  intros Hj. assert (Forall (fun j => Z.land (u32 (Z.shiftl (2 * j) 1)) 1020 = 4 * j /\ Z.land (2 * j) 1 = 0 /\
    Z.land (u32 (Z.shiftl (2 * j + 1) 1)) 1020 = 4 * j /\ Z.land (2 * j + 1) 1 = 1) (seqZ 0 64)) as Hf by decide_now.
  rewrite Forall_forall in Hf. apply Hf, in_seqZ. lia.
Qed.

(** The halfword of an entry, as each chip fetches it *)
Lemma fetched n r m k : ends_at n r -> filled (S n) m -> (k <= n)%nat ->
  mem_read m (out + Z.of_nat k / 2 * 4 + Z.land (Z.of_nat k) 1 * 2) 2 = word k /\
  (let value := mem_read m (out + Z.land (u32 (Z.shiftl (Z.of_nat k) 1)) 1020) 4 in
   (if negb (Z.land (Z.of_nat k) 1 =? 0) then Z.shiftr value 16 else Z.land value 65535) = word k).
Proof.
  intros He Hf Hk. pose proof (ends_bound n r He) as Hn. cbv zeta.
  change (Z.land (mem_read m _ 4) 65535) with (Z.land (mem_read m (out + Z.land (u32 (Z.shiftl (Z.of_nat k) 1)) 1020) 4) (Z.ones 16)).
  rewrite land_ones_mod, Z.shiftr_div_pow2, mem_read_halves by lia. change (2 ^ 16) with 65536.
  assert (Hlo : forall a, 0 <= mem_read m a 2 < 65536).
  { intros a. apply (mem_read_range m a 2); [apply (filled_bytes _ _ Hf)|lia]. }
  destruct (Nat.Even_or_Odd k) as [[j ->]|[j ->]].
  - replace (Z.of_nat (2 * j)) with (2 * Z.of_nat j) by lia. destruct (index_parts (Z.of_nat j)) as (-> & -> & _); [lia|].
    replace (2 * Z.of_nat j / 2 * 4) with (4 * Z.of_nat j) by (Z.to_euclidean_division_equations; lia).
    destruct (filled_halves n r m j He Hf Hk) as [Hw _]. rewrite Z.mul_0_l, Z.add_0_r. cbn [Z.eqb negb].
    split; [done|]. rewrite (Z.mul_comm 65536), Z.mod_add by lia. rewrite Z.mod_small by apply Hlo. done.
  - replace (Z.of_nat (2 * j + 1)) with (2 * Z.of_nat j + 1) by lia. destruct (index_parts (Z.of_nat j)) as (_ & _ & -> & ->); [lia|].
    replace ((2 * Z.of_nat j + 1) / 2 * 4) with (4 * Z.of_nat j) by (Z.to_euclidean_division_equations; lia).
    destruct (filled_halves n r m j He Hf) as [_ Hw]; [lia|]. rewrite Z.mul_1_l. cbn [Z.eqb negb].
    split; [by apply Hw|]. rewrite (Z.mul_comm 65536), Z.div_add, Z.div_small by (apply Hlo || lia). by apply Hw.
Qed.

Lemma memory_word_spec n r m k i g : ends_at n r -> filled (S n) m -> (k <= n)%nat ->
  wpr (memory_word s3 false codes out (Z.of_nat k) i g)
    (fun x m' => m' = m /\ x.1.1 = word k /\ (s3 = true -> x.2 = (ent k).1)) m.
Proof.
  intros He Hf Hk. destruct (fetched n r m k He Hf Hk) as [Hs Hc]. cbv zeta in Hc.
  destruct (entry_range k (ramp_of n r He k Hk)) as [Hg Hi].
  unfold memory_word. destruct s3; io_run.
  - rewrite Hs. split_and!; [done..|]. intros _. cbn [snd]. fold (decoded (word k)).
    apply decoded_gain_word; [|done]. apply (ok_codes Hok). lia.
  - cbv zeta. split_and!; [done| |done]. exact Hc.
Qed.

(** C37: generating a receive gain table and reading it back.  Take code, step and start tables of at most
    255 inputs, with gains up to 29 and even codes, apart from the output.  For every environment that
    reads and writes memory as bytes and whose log leaves memory alone, [generate] returns, without ever
    indexing past the five coefficients.  The output holds the gain ramp of the tables: from the first
    start the gain grows by one per entry, and where it has left the steps of its input the next input
    that has steps takes over with its own start.  The answer is the index of the first entry above the
    maximum, or 85 when all 127 entries were written; nothing but the words of those entries has changed.
    [write_memory] then fetches from every entry the word that was packed, on both chips, and the S3 gets
    the entry's gain back by counting the ones of the word. *)
Theorem gain_table_generated h log :
  obeys_contract no_guard (mem_io log_frame) h ->
  exists n r m', exec h (generate s3 [out; max; codes; steps; starts; count; log]) m0 = Some (r, m') /\
    ends_at n r /\
    (forall b, b < out \/ out + 4 * (Z.of_nat n / 2 + 1) <= b -> m' b = m0 b) /\
    (forall k i g, (k <= n)%nat ->
       exists i' g', exec h (memory_word s3 false codes out (Z.of_nat k) i g) m' = Some ((word k, i', g'), m') /\
         (s3 = true -> g' = (ent k).1)).
Proof.
  intros Hh. destruct (exec_wp _ _ h _ _ m0 Hh (generate_spec log)) as (r & m' & Hx & n & He & Hf).
  exists n, r, m'. split_and!; [done|done| |].
  - intros b Hb. apply (filled_else _ _ Hf). Z.to_euclidean_division_equations. lia.
  - intros k i g Hk.
    destruct (exec_wp _ _ h _ _ m' Hh (memory_word_spec n r m' k i g He Hf Hk)) as ([[w i'] g'] & m2 & Hx' & -> & Hw & Hg).
    cbn [fst snd] in Hw, Hg. subst w. by exists i', g'.
Qed.

End Generate.

(** The first table of the S3, in a memory that starts with the constants *)
Definition gain_mem : mem := fun b => if 0 <=? b then nth (Z.to_nat b) (CONSTANTS true) 0 else 0.

Definition log_ref : io method -> mem -> Z * mem := mem_handler (fun _ m => (0, m)).

Lemma log_ref_obeys : obeys_contract no_guard (mem_io log_frame) log_ref.
Proof. apply mem_handler_obeys. by intros []. Qed.

Lemma gain_mem_bytes b : is_u8 (gain_mem b).
Proof.
  unfold gain_mem. destruct (0 <=? b); [|done]. assert (Forall is_u8 (CONSTANTS true)) as Hf by decide_now.
  destruct (nth_in_or_default (Z.to_nat b) (CONSTANTS true) 0) as [Hin| ->]; [|done].
  rewrite Forall_forall in Hf. by apply Hf, list_elem_of_In.
Qed.

Lemma gain_tables_ok : tables_ok gain_mem 1000 22 34 43 73 9.
Proof.
  split; [apply gain_mem_bytes|lia..| | |unfold apart; lia].
  - intros i Hi. assert (Forall (fun i => gain_mem (73 + i) <= 29) (seqZ 0 9)) as Hf by decide_now.
    rewrite Forall_forall in Hf. apply Hf, in_seqZ. lia.
  - intros i Hi. apply Z.even_spec. assert (Forall (fun i => Z.even (gain_mem (34 + i)) = true) (seqZ 0 9)) as Hf by decide_now.
    rewrite Forall_forall in Hf. apply Hf, in_seqZ. lia.
Qed.

Lemma gain_table_generated_witness : exists n r m',
  exec log_ref (generate true [1000; 22; 34; 43; 73; 9; 1]) gain_mem = Some (r, m') /\
  ends_at gain_mem 22 43 73 9 n r.
Proof.
  destruct (gain_table_generated true gain_mem 1000 22 34 43 73 9 gain_tables_ok log_ref 1 log_ref_obeys)
    as (n & r & m' & Hx & He & _). exists n, r, m'. exact (conj Hx He).
Defined.

(** That table has 81 entries. *)
Example gain_table_size : (fst <$> exec log_ref (generate true [1000; 22; 34; 43; 73; 9; 1]) gain_mem) = Some 80.
Proof. vm_compute. reflexivity. Qed.
