(* ===== verification/PhyReg.v ===== *)
(** * PHY register programming

    Models [phy_reg.rs] (Module [Reg]): every routine that programs PHY
    registers.  [s3] selects the chip; [paon] exists on the C3 only and
    [digital_gain] on the S3 only. *)

From S2P Require Import Prelude Program PhyAccess.

Module Reg.

Inductive method :=
| Param
| Table
| Slot (table offset : Z)
| Call (target : Z) (args : list Z)
| Internal (kind : Z)
| Delay (us : Z).

Section Reg.
Variable s3 : bool.
Abbreviation prg := (prog (io method)).

Definition byte_arg (value : Z) : Z := if s3 then u8 value else value.

Definition update (address preserve value : Z) : prg unit := rmw address preserve value.

Definition pbus : prg unit :=
  param ← ext Param;
  for_all (range 0 6) (fun i =>
    value ← read (param + (if s3 then 0x2ac else 0x328) + i * 4) 4;
    write (0x600060e0 + i * 4) 4 value).

Definition paon : prg unit :=
  update 0x6001d000 0xffe007ff 0xa000 ;;
  update 0x600060f8 0xffff00ff 0x9600 ;;
  read 0x6001d06c 4 ;;
  write 0x6001d06c 4 0x0782a094 ;;
  update 0x6001c400 0xfff8ffff 0.

Definition digital_gain (buffer : Z) : prg unit :=
  for_all (range 0 3) (fun i =>
    b1 ← read (buffer + i * 4 + 1) 1;
    b0 ← read (buffer + i * 4) 1;
    b2 ← read (buffer + i * 4 + 2) 1;
    b3 ← read (buffer + i * 4 + 3) 1;
    write (0x60006024 + i * 4) 4
      (Z.lor (Z.lor (Z.lor b0 (Z.shiftl b1 8)) (Z.shiftl b2 16)) (Z.shiftl b3 24))) ;;
  hi ← read (buffer + 13) 1;
  lo ← read (buffer + 12) 1;
  write 0x60006030 4 (Z.lor (Z.lor (Z.lor lo (Z.shiftl hi 8)) (Z.shiftl hi 16)) (Z.shiftl hi 24)).

Definition btbb : prg unit := update 0x60026010 0xffffffff 0xf000b.

Definition agc_options : prg unit :=
  update 0x6001c1b0 0xf01fffff (if s3 then 0x04000000 else 0x03c00000) ;;
  (if s3 then mret tt else update 0x6001c034 0xffffff80 32) ;;
  read 0x6001c068 4 ;;
  write 0x6001c068 4 0x404 ;;
  update 0x6001c05c 0xfff80000 0x4e20 ;;
  if s3 then
    update 0x6001c134 0xfffff000 0xa60 ;;
    update 0x6001c134 0xf8ffffff 0x05000000
  else
    p ← ext Param;
    v ← read (p + 0x1f6) 1;
    update 0x6001c13c 0xfe03ffff (Z.land (u32 (Z.shiftl (u32 (v - 3)) 18)) 0x01fc0000) ;;
    v ← read (p + 0x1f6) 1;
    update 0x6001c094 0xfffffe03 (Z.land (u32 (Z.shiftl (u32 (v - 3)) 2)) 0x1fc) ;;
    v ← read (p + 0x1f6) 1;
    let threshold := u32 (v - 5) in
    value ← read (p + 0x1f5) 1;
    write 0x6001c0a4 4 (Z.lor (Z.lor (u32 (Z.shiftl value 15)) threshold) (u32 (Z.shiftl threshold 7))).

Definition options_11b (mode : Z) : prg unit :=
  old ← read 0x6001c044 4;
  let enabled := negb (byte_arg mode =? 0) in
  write 0x6001c044 4 (if enabled then Z.lor old 0x003f0000 else Z.lor (Z.land old 0xffc0ffff) 0x003e0000) ;;
  update 0x6001c044 0xffffc0ff (if enabled then 0x2100 else 0x1800) ;;
  update 0x6001c124 0xffff03ff (if enabled then 0x8400 else 0x6000) ;;
  update 0x6001c124 0xfffffff0 (if enabled then 3 else 4) ;;
  update 0x6001c804 0xffff0fff (if enabled then 0x9000 else 0x6000) ;;
  update 0x6001c104 0xfffffe00 (if enabled then 482 else 456) ;;
  update 0x60026010 0xffffffff 0x20000 ;;
  (if s3 then mret tt else run (Internal 2)) ;;
  run (Internal 3).

Definition disable_agc : prg unit :=
  update 0x6001c01c 0xff00ffff 0x007f0000 ;;
  update 0x6001c034 0xffffffff 128 ;;
  update 0x6001c080 0xffffffff 1.

Definition enable_agc : prg unit :=
  update 0x6001c080 0xfffffffe 0 ;;
  update 0x6001c01c 0xff00ffff 0x00200000 ;;
  update 0x6001c034 0xffffffff 128.

Definition renew : prg unit :=
  update 0x6000e058 0xffffff00 (if s3 then 100 else 64) ;;
  update 0x6000e060 0xffff00ff (if s3 then 0x5000 else 0x3800) ;;
  update 0x60006000 0xffffffff (Z.shiftl 1 26) ;;
  update 0x60006000 0xffffffff (Z.shiftl 1 27) ;;
  update 0x6000e048 0xfffe000f 0x1fe00 ;;
  if s3 then
    update 0x600060fc 0xffff00ff 0xc800 ;;
    run (Internal 2) ;;
    table ← ext Table;
    target ← ext (Slot table 0x190);
    p ← ext Param;
    value ← read (p + 0x2a1) 1;
    run (Call target [102; 0; 5; value])
  else
    p ← ext Param;
    for_all (range 0 2) (fun i =>
      table ← ext Table;
      value ← read (p + 0x31d + i) 1;
      target ← ext (Slot table 0x1b4);
      run (Call target [102; 0; 4 + i; value])) ;;
    update 0x600060fc 0xffff 0x1e1e0000 ;;
    update 0x600060fc 0xffff00ff 0xc800.

Definition wifi_enable (mode : Z) : prg unit :=
  update 0x6002600c 0xfffffffd (if negb (byte_arg mode =? 0) then 2 else 0).

(** The signed coefficient of an argument *)
Definition signed_arg (coefficient : Z) : Z := if s3 then i8 coefficient else i32 coefficient.

(** The result register: the S3 zero-extends the low byte. *)
Definition result (value : Z) : Z := if s3 then u8 value else u32 value.

Definition tx_iq (coefficient mode : Z) : prg Z :=
  let mode := byte_arg mode in
  let bound := if mode =? 0 then 31 else 15 in
  let value := clamp (- bound) bound (signed_arg coefficient) in
  (if mode =? 0 then update 0x6000607c (not32 0x7e0) (Z.land (u32 (Z.shiftl (u32 value) 5)) 0x7e0)
   else update 0x6000607c (not32 31) (Z.land (u32 value) 31)) ;;
  mret (result value).

Definition rx_iq (coefficient mode : Z) : prg Z :=
  let mode := byte_arg mode in
  let value := signed_arg coefficient in
  let value := if mode =? 0 then clamp (-31) 31 value else clamp (-15) 15 (Z.quot value 2) in
  r ← (if mode =? 0 then
         update 0x6000607c (not32 0x07e00000) (Z.land (u32 (Z.shiftl (u32 value) 21)) 0x07e00000) ;;
         mret value
       else
         update 0x6000607c (not32 0x001f0000) (Z.land (u32 (Z.shiftl (u32 value) 16)) 0x001f0000) ;;
         mret (value * 2));
  mret (result r).

(** The signed frequency of a tone *)
Definition tone_frequency (v : Z) : Z := if s3 then i16 v else i32 v.

Definition tone_word (en p f : Z) : Z :=
  Z.land (Z.lor (Z.lor (u32 (Z.shiftl en 18)) (Z.shiftl p 10)) (u32 f)) 0x0fffffff.

Definition start_tone (a : list Z) : prg unit :=
  match a with
  | [a0; a1; a2; a3; a4; a5] =>
      v ← read 0x60006040 4;
      let divided := negb (Z.land v (Z.shiftl 1 29) =? 0) in
      let en0 := byte_arg a0 in
      let en1 := byte_arg a3 in
      let f0 := tone_frequency a1 in
      let f1 := tone_frequency a4 in
      let p0 := Z.land (u32 (- a2)) 255 in
      let p1 := Z.land (u32 (- a5)) 255 in
      (if negb (Z.lor en0 en1 =? 0) then
         update 0x60006000 (not32 (Z.shiftl 1 26)) 0 ;;
         update 0x600061e4 0xffffffff (Z.shiftl 1 10)
       else
         update 0x60006000 0xffffffff (Z.shiftl 1 26) ;;
         update 0x600061e4 (not32 (Z.shiftl 1 10)) 0) ;;
      '(f0, f1) ← (if divided then
                     update 0x60006050 (not32 3) (Z.land (u32 f0) 3) ;;
                     update 0x60006050 (not32 12) (Z.land (u32 (Z.shiftl (u32 f1) 2)) 12) ;;
                     mret (Z.shiftr f0 2, Z.shiftr f1 2)
                   else mret (f0, f1));
      update 0x60006040 0xf0000000 (tone_word en0 p0 f0) ;;
      update 0x60006044 0xf0000000 (tone_word en1 p1 f1)
  | _ => Crash
  end.

Definition stop_tone (mode : Z) : prg unit :=
  let off address := update address (not32 (Z.shiftl 1 18)) 0 in
  (if mode =? 1 then off 0x60006040
   else if mode =? 2 then off 0x60006044
   else if mode =? 3 then off 0x6000604c
   else off 0x60006040 ;; off 0x60006044 ;; off 0x6000604c) ;;
  update 0x60006000 0xffffffff (Z.shiftl 1 26) ;;
  update 0x600061e4 (not32 (Z.shiftl 1 10)) 0.

Definition noise_floor : prg unit := if s3 then mret tt else update 0x6001c134 0xfffff00f 0xa60.

Definition frequency_field (value threshold : Z) : Z :=
  if threshold <? value then 2 else if value <? - threshold then 61 else 31.

Definition frequency_correct (mode offset : Z) : prg unit :=
  if negb (byte_arg mode =? 0) then
    let offset := if s3 then i16 offset else i32 offset in
    let twice := i32 (offset * 2) in
    let q := Z.quot twice 5 in
    update 0x6001d030 (not32 1023) 250 ;;
    update 0x60006090 (not32 511) 250 ;;
    update 0x60006070 (not32 (Z.shiftl 1 30)) 0 ;;
    update 0x60006064 0xfff00000 0xf4240 ;;
    update 0x60006068 0xfff00000 (u32 (0xf4240 + u32 q)) ;;
    let field := if s3 then frequency_field q 100 else frequency_field twice 504 in
    update 0x6001c850 0xffff81ff (Z.shiftl field 9) ;;
    update 0x6001c850 (not32 511) (Z.land (u32 q) 511) ;;
    update 0x6001cc98 (not32 1023) (Z.land (u32 q) 1023)
  else
    update 0x6001d030 (not32 1023) 0 ;;
    update 0x60006090 (not32 511) 0 ;;
    update 0x60006070 0xffffffff (Z.shiftl 1 30) ;;
    update 0x6001c850 0xffff81ff (Z.shiftl 31 9) ;;
    update 0x6001c850 (not32 511) 0 ;;
    update 0x6001cc98 (not32 1023) 0.

Definition force_off (mode : Z) : prg unit :=
  let enabled := negb (byte_arg mode =? 0) in
  update 0x60006110 0xfffff0ff (if enabled then 0x800 else 0x200) ;;
  run (Delay 1) ;;
  update 0x60006110 0xfffff0ff (if enabled then 0xa00 else 0) ;;
  run (Delay 1).

End Reg.

(** [native::internal]: the routines other routines of the module call *)
Definition internal (s3 : bool) (kind : Z) : prog (io method) unit :=
  if kind =? 2 then btbb else if kind =? 3 then agc_options s3 else Crash.

End Reg.
