(* ===== verification/PhyInit.v ===== *)
(** * PHY initialisation

    Models [phy_init.rs] (Module [Init]) and the state and dispatch of
    [phy_init_native.rs]: installation of the callback table, the parameters,
    storage and checksum of the calibration data, and the sequences that
    initialise, close and wake the radio.  [s3] selects the chip. *)

From stdpp Require Import strings.
From S2P Require Import Prelude Program PhyAccess.

Module Init.
Open Scope string_scope.
Open Scope Z_scope.

Inductive method :=
| Symbol (name : string)
| Call (target : Z) (args : list Z) (returns : bool)
| Local (tag size : Z)
| Copy (destination source size : Z)
| Clear (destination size : Z)
| Readonly (offset : Z)
| Child (kind : Z) (args : list Z).

(** [(a..b).step_by(4)] *)
Definition step4 (a b : nat) : list Z := (fun i => Z.of_nat a + 4 * Z.of_nat i) <$> seq 0 (Nat.div (b - a + 3) 4).

Section Init.
Variable s3 : bool.
Abbreviation prg := (prog (io method)).

Definition PARAM_SIZE : nat := if s3 then 740%nat else 848%nat.

Definition byte (value : Z) : Z := if s3 then u8 value else value.

Definition param : prg Z := ext (Symbol "phy_param").
Definition table : prg Z := g ← ext (Symbol "g_phyFuns"); read g 4.
Definition slot (offset : Z) : prg Z := t ← table; read (t + offset) 4.
Definition invoke (name : string) (args : list Z) (returns : bool) : prg Z :=
  f ← ext (Symbol name); ext (Call f args returns).
Definition callback (offset : Z) (args : list Z) (returns : bool) : prg Z :=
  f ← slot offset; ext (Call f args returns).

(** ** The callback table *)

Definition patches (t : Z) (l : list (Z * string)) : prg unit :=
  for_all l (fun e => f ← ext (Symbol e.2); write (t + e.1) 4 (u32 f)).

Definition s3_patches : list (Z * string) := [
    (0x144, "ram_temp_to_power"); (0x208, "ram_pll_vol_cal"); (0x264, "ram_wifi_set_tx_gain");
    (0x228, "ram_wifi_get_tx_gain"); (0x218, "ram_bt_get_tx_gain"); (0x15c, "ram_get_i2c_hostid");
    (0x268, "ram_txpwr_cal_track"); (0x224, "ram_wifi_tx_dig_gain"); (8, "ram_disable_wifi_agc");
    (12, "ram_enable_wifi_agc"); (0x128, "ram_read_sar2_code"); (0x22c, "ram_fe_i2c_reg_renew");
    (0x20c, "ram_write_pll_cap"); (0x288, "ram_bt_track_tx_power"); (0x28c, "ram_wifi_track_tx_power");
    (0x1e4, "ram_tsens_code_read"); (0x258, "ram_tsens_temp_read"); (0xc8, "ram_set_pbus_reg");
    (0x204, "ram_phy_dis_hw_set_freq"); (0x200, "ram_phy_en_hw_set_freq"); (0x80, "ram_set_noise_floor");
    (0x270, "ram_bt_set_tx_gain"); (0x18c, "ram_chip_i2c_writeReg"); (0x16c, "ram_chip_i2c_readReg");
    (0x254, "ram_phy_i2c_init1"); (0x234, "ram_i2c_master_reset"); (0xfc, "ram_set_chan_cal_interp");
    (0x54, "spur_coef_cfg_new"); (0x100, "ram_set_txcap_reg"); (0xf0, "ram_iq_est_enable")].

Definition c3_old_rom_patches : list (Z * string) := [
    (0xb8, "rom_agc_reg_init"); (0xbc, "rom_bb_reg_init"); (0xe0, "rom_phy_xpd_rf"); (0x114, "rom_set_txcap_reg");
    (0x124, "rom_write_txrate_power_offset"); (0x1ec, "rom_pbus_xpd_tx_on"); (0x1fc, "rom_open_i2c_xpd");
    (0x208, "rom_tsens_code_read"); (0x48, "rom_set_tx_dig_gain"); (0xec, "rom_txbbgain_to_index");
    (0xf0, "rom_index_to_txbbgain")].

Definition c3_new_rom_patches : list (Z * string) := [
    (0x288, "ram1_wifi_set_tx_gain"); (0x24c, "rom1_wifi_get_tx_gain"); (0x23c, "rom1_bt_get_tx_gain_new");
    (0x28c, "rom1_txpwr_cal_track"); (0x248, "rom1_wifi_tx_dig_gain")].

Definition c3_patches : list (Z * string) := [
    (0x180, "rom1_get_i2c_hostid"); (8, "rom1_disable_wifi_agc"); (12, "rom1_enable_wifi_agc");
    (0x14c, "rom1_read_sar2_code"); (0x250, "ram1_fe_i2c_reg_renew"); (0x228, "ram1_phy_dis_hw_set_freq");
    (0x224, "rom1_phy_en_hw_set_freq"); (0x8c, "rom1_set_noise_floor"); (0xa8, "rom1_tx_paon_set");
    (0x1b0, "rom1_chip_i2c_writeReg"); (0x190, "rom1_chip_i2c_readReg"); (0x278, "rom1_phy_i2c_init1");
    (0x258, "rom1_i2c_master_reset"); (0xd4, "ram1_set_pbus_reg"); (0x27c, "rom1_tsens_temp_read");
    (0x210, "phy_get_tsens_value"); (0x130, "phy_set_tsens_power"); (0x138, "phy_i2c_enter_critical");
    (0x30, "phy_i2c_exit_critical"); (0x1c0, "ram_pbus_force_mode"); (0x128, "rom1_get_rate_fcc_index");
    (0x144, "ram_pkdet_vol_start"); (0x104, "ram_iq_est_enable")].

Definition callbacks : prg unit :=
  t ← invoke "phy_get_romfuncs" [] true;
  g ← ext (Symbol "g_phyFuns");
  write g 4 t ;;
  if s3 then
    patches t s3_patches ;;
    p ← param;
    invoke "rom_phy_param_addr" [p] false ;;
    mret tt
  else
    version ← invoke "chip726_phyrom_version_num" [] true;
    v ← ext (Symbol "new_rom.4621");
    write v 1 version ;;
    p ← param;
    invoke "rom_phy_param_addr" [p] false ;;
    v ← ext (Symbol "new_rom.4621");
    version ← read v 1;
    t ← table;
    (if version =? 0 then patches t c3_old_rom_patches else patches t c3_new_rom_patches) ;;
    t ← table;
    patches t c3_patches.

(** ** Parameters *)

Definition package : prg Z := v ← read 0x60007050 4; mret (Z.land (Z.shiftr v 21) 7).

Definition chip_version : prg unit :=
  v ← ext (Child 14 []);
  p ← param;
  write (p + 525) 1 v.

Definition power_limits (input : Z) : prg unit :=
  b ← ext (Local 0 28);
  r ← ext (Readonly 0);
  run (Copy (b + 14) r 14) ;;
  r ← ext (Readonly 14);
  run (Copy b r 14) ;;
  for_all (range 0 14) (fun i =>
    p ← param;
    kind ← read (p + 525) 1;
    v ← read (b + (if kind =? 1 then 0 else 14) + i) 1;
    write (input + 2 + i) 1 v).

Definition defaults : list Z := [0; 82; 82; 80; 76; 76; 72; 76; 72; 72; 70; 74; 70; 70; 68].

Definition seed_defaults (b first : Z) : prg unit :=
  write b 1 first ;;
  for_all (zip (range 1 16) defaults) (fun e => write (b + e.1) 1 e.2).

(** Copy [count] bytes one by one. *)
Definition copy_bytes (source destination : Z) (count : nat) : prg unit :=
  for_all (range 0 count) (fun i => v ← read (source + i) 1; write (destination + i) 1 v).

(** A power is stored, and replaced when it exceeds its limit as a signed byte. *)
Definition limit_power (p b input i : Z) : prg unit :=
  v ← read (input + i) 1;
  limit ← read (b + i) 1;
  write (p + 242 + i) 1 v ;;
  if limit <? i8 v then write (p + 242 + i) 1 limit else mret tt.

Definition init_param (input : Z) : prg unit :=
  p ← param;
  b ← ext (Local 1 20);
  (if s3 then run (Clear b 20) else mret tt) ;;
  seed_defaults b (if s3 then 0 else 2) ;;
  (if s3 then mret tt else write (b + 16) 4 0) ;;
  v ← read input 1;
  write (p + 242) 1 v ;;
  v ← read (input + 1) 1;
  write (p + 243) 1 v ;;
  (if s3 then run (Child 13 [b]) else mret tt) ;;
  for_all (range 2 16) (limit_power p b input) ;;
  v ← read (input + 18) 1;
  write (p + 260) 1 v ;;
  ctrl ← ext (Symbol "chip7_phy_init_ctrl");
  for_all (range 0 3) (fun group => copy_bytes (input + 19 + 14 * group) (ctrl + 14 * group) 14) ;;
  copy_bytes (input + 61) (p + 261) 9 ;;
  high ← read (input + 70) 1;
  low ← read (input + 71) 1;
  write (p + 280) 2 (Z.lor (Z.shiftl high 8) low) ;;
  v ← read (input + 72) 1;
  write (p + 282) 1 v ;;
  high ← read (input + 73) 1;
  low ← read (input + 74) 1;
  write (p + 284) 2 (Z.lor (Z.shiftl (Z.land high 127) 8) low) ;;
  v ← read (input + 75) 1;
  write (p + 286) 1 v ;;
  v ← read (input + 76) 1;
  write (p + 287) 1 v.

(** ** Calibration data *)

(** The ROM routine that reads a word of the data *)
Definition LOAD : Z := if s3 then 0x98 else 0xa4.

Definition save_word (p data i : Z) : prg unit :=
  for_all (range 0 4) (fun shift =>
    v ← read (p + i) 4;
    write (data + 12 + i + shift) 1 (Z.shiftr v (shift * 8))).

Definition load_word (p data i : Z) : prg unit :=
  v ← callback LOAD [data + 12 + i] true;
  write (p + i) 4 v.

Definition transfer (data save : Z) : prg unit :=
  p ← param;
  for_all (step4 0 PARAM_SIZE) (fun i =>
    if negb (byte save =? 0) then save_word p data i else load_word p data i).

Definition recovery (data : Z) : prg unit :=
  p ← param;
  run (Copy (p + 288) (data + 300) (if s3 then 236 else 244)) ;;
  first ← read (data + 230) 2;
  if s3 then
    second ← read (data + 232) 2;
    write (p + 218) 2 first ;;
    write (p + 220) 2 second
  else
    write (p + 218) 2 first ;;
    second ← read (data + 232) 2;
    write (p + 220) 2 second.

Definition backup (data : Z) : prg unit := run (Child 4 [data; 1]).

(** Four bytes of a word, least significant first *)
Definition store_bytes (address value : Z) : prg unit :=
  for_all (range 0 4) (fun i => write (address + i) 1 (Z.shiftr value (i * 8))).

Definition SUM_AT : Z := Z.of_nat PARAM_SIZE + 12.

Definition check (check_only data version : Z) : prg Z :=
  run (Child 3 [data; version]) ;;
  sum ← for_each_with (step4 0 (PARAM_SIZE + 12)) 0 (fun i sum =>
    w ← callback LOAD [data + i] true;
    mret (u32 (sum + w)));
  let expected := not32 sum in
  actual ← callback LOAD [data + SUM_AT] true;
  if negb (byte check_only =? 0) then mret (bool_to_Z (negb (expected =? actual)))
  else store_bytes (data + SUM_AT) expected ;; mret 0.

Definition mac_data (data version : Z) : prg unit := store_bytes data version.

Definition level : prg unit :=
  p ← param;
  mode ← read (p + 162) 1;
  if 1 <? Z.land (u32 (mode - 16)) 255 then mret tt else
  write (p + 163) 1 9 ;;
  write (p + 164) 1 6 ;;
  if negb (mode =? 17) then mret tt else
  write (p + 344) 4 0x0b040d0b ;;
  write (p + 348) 4 0x0d0b040d ;;
  write (p + 352) 1 4 ;;
  for_all (step4 744 796) (fun i => write (p + i) 4 0x01000100) ;;
  for_all (step4 540 708) (fun i => write (p + i) 4 0x01000100) ;;
  flags ← read (p + 288) 4;
  write (p + 288) 4 (Z.lor flags 0x1c4400).

Definition txcap : prg unit :=
  p ← param;
  v ← read (p + 498) 1;
  let index := Z.min (Z.shiftr v 2) 2 in
  v ← read (p + 189) 1;
  let high := Z.land v (not32 15) in
  b ← read (p + 345 + index * 3) 1;
  c ← read (p + 346 + index * 3) 1;
  a ← read (p + 344 + index * 3) 1;
  write (p + 189) 1 (Z.lor high a) ;;
  write (p + 190) 1 (Z.lor (Z.shiftl c 4) b).

(** ** Initialisation sequences *)

(** A routine reached through the callback table on the S3 and by name on the
    C3 *)
Definition either (offset : Z) (name : string) (args : list Z) : prg Z :=
  if s3 then callback offset args false else invoke name args false.

(** A routine at a table offset of each chip *)
Definition chip_slot (on_s3 on_c3 : Z) (args : list Z) : prg Z := callback (if s3 then on_s3 else on_c3) args false.

Definition pulse_reset : prg unit :=
  v ← read 0x6000e130 4;
  write 0x6000e130 4 (Z.land v (not32 0x20000)) ;;
  v ← read 0x6000e130 4;
  write 0x6000e130 4 (Z.lor v 0x20000).

Definition rf_gains : prg unit :=
  b ← ext (Local 2 8);
  if s3 then
    r ← ext (Readonly 28); a ← read r 2;
    r ← ext (Readonly 30); c ← read r 2;
    write b 2 a ;;
    r ← ext (Readonly 32); d ← read r 2;
    r ← ext (Readonly 34); e ← read r 2;
    write (b + 4) 2 d ;;
    write (b + 6) 2 e ;;
    t ← table;
    write (b + 2) 2 c ;;
    f ← read (t + 0x1cc) 4;
    run (Call f [b] false)
  else
    r ← ext (Readonly 0); a ← read r 4;
    r ← ext (Readonly 4); c ← read r 4;
    write b 4 a ;;
    write (b + 4) 4 c ;;
    callback 0x1f0 [b] false ;; mret tt.

Definition rf : prg unit :=
  p ← param;
  (if s3 then run (Child 15 []) else mret tt) ;;
  bias ← (if s3 then mret 1 else read (p + 536) 1);
  invoke "bias_reg_set" [bias] false ;;
  chip_slot 0x1d8 0x1fc [] ;;
  invoke "i2c_bbpll_set" [] false ;;
  pulse_reset ;;
  chip_slot 0xa0 0xac [] ;;
  chip_slot 0xa8 0xb4 [] ;;
  dac ← read (p + 170) 1;
  invoke (if s3 then "tsens_read_init_new" else "rom2_tsens_read_init1") [bool_to_Z s3; dac] false ;;
  chip_slot 0x13c 0x160 [] ;;
  either 0x22c "ram1_fe_i2c_reg_renew" [] ;;
  v ← read 0x60006110 4;
  write 0x60006110 4 (Z.land v (not32 0x300)) ;;
  chip_slot 0x1b0 0x1d4 [] ;;
  rf_gains ;;
  for_all (if s3 then [0x1c4; 0x1bc; 0x1b4] else [0x1e8; 0x1e0; 0x1d8]) (fun offset => callback offset [] false ;; mret tt) ;;
  invoke "phy_get_i2c_data" [] false ;;
  either 0x254 "rom1_phy_i2c_init1" [] ;;
  invoke "rc_cal" [] false ;;
  invoke "phy_i2c_init2" [] false ;;
  invoke "set_chan_freq_hw_init" [2; 4] false ;;
  mret tt.

(** Run a calibration whose flag is not yet set, and set the flag. *)
Definition bb_once (p flag : Z) (step : prg Z) : prg unit :=
  v ← read (p + 288) 4;
  if Z.land v flag =? 0 then
    step ;;
    v ← read (p + 288) 4;
    write (p + 288) 4 (Z.lor v flag)
  else mret tt.

Definition bb : prg unit :=
  p ← param;
  invoke "phy_set_pwdet_power" [1] false ;;
  (if s3 then mret tt else run (Child 9 []) ;; invoke "txcal_gain_check" [] false ;; mret tt) ;;
  bb_once p 0x10000 (invoke "set_pbus_mem" [] false) ;;
  (if s3 then invoke "tx_gain_set" [] false ;; mret tt else mret tt) ;;
  bb_once p 0x80000 (invoke "txdc_cal_init" [p + 292; 15; 32; 0] false) ;;
  invoke "pwdet_code_cal" [] false ;;
  invoke "tx_cap_init" [] false ;;
  invoke "freq_i2c_data_write" [] false ;;
  invoke "txpwr_offset" [0] false ;;
  invoke "tx_pwctrl_init" [0] false ;;
  invoke "txiq_cal_init" [] false ;;
  chip_slot 0x110 0x124 [] ;;
  invoke "bt_tx_gain_init" [] false ;;
  either 0x258 "rom1_tsens_temp_read" [] ;;
  invoke "phy_rx_table_init" [] false ;;
  invoke "rfrx_sat_rst" [0] false ;;
  invoke "phy_check_rx_sat" [] false ;;
  invoke "set_rx_gain_table" [2437; 0] false ;;
  invoke "rfrx_sat_rst" [1] false ;;
  either 0x248 "rom_phy_reg_init" [] ;;
  invoke "rx_11b_opt" [1] false ;;
  (if s3 then
     v ← read (p + 729) 1;
     invoke "phy_set_tx_seed" [if negb (v =? 0) then 76 else 37] false ;; mret tt
   else mret tt) ;;
  callback 4 [] false ;;
  (if s3 then invoke "phy_2448m_spur_pwr" [0] false ;; mret tt else mret tt) ;;
  write (p + 356) 2 (u32 (-384)) ;;
  write (p + 504) 2 (u32 (-384)) ;;
  invoke "chip_v7_set_chan" [11; 0] false ;;
  invoke "phy_set_pwdet_power" [0] false ;;
  v ← read (p + if s3 then 679 else 804) 1;
  if negb (v =? 0) then invoke "phy_wifi_enable_set" [0] false ;; mret tt else mret tt.

Definition close : prg unit :=
  p ← param;
  (if s3 then
     v ← read (p + 674) 1;
     (if v =? 0 then callback 0x258 [] false ;; mret tt else mret tt) ;;
     callback 0xd4 [] false ;;
     invoke "bias_reg_set" [0] false
   else
     callback 0xe0 [] false ;;
     invoke "bias_dreg_i2c_set" [0] false) ;;
  chip_slot 0x190 0x1b4 [103; bool_to_Z (negb s3); 2; 6] ;;
  either 0x240 "rom_phy_bbpll_cal" [1] ;;
  chip_slot 0x204 0x228 [] ;;
  if s3 then write (p + 675) 1 1 else mret tt.

Definition wakeup_filter (p i : Z) : prg unit :=
  t ← table;
  '(f, v) ← (if s3 && (i =? 0) then f ← read (t + 0x190) 4; v ← read (p + 209 + i) 1; mret (f, v)
             else v ← read (p + 209 + i) 1; f ← read (t + if s3 then 0x190 else 0x1b4) 4; mret (f, v));
  run (Call f [102; 0; 9 + i; v] false).

(** The gains, filters and buses are programmed again. *)
Definition wakeup_restore (p : Z) : prg unit :=
  for_all (range 0 2) (wakeup_filter p) ;;
  chip_slot 0xc8 0xd4 [] ;;
  chip_slot 0xa8 0xb4 [] ;;
  either 0x22c "ram1_fe_i2c_reg_renew" [] ;;
  chip_slot 0x110 0x124 [] ;;
  either 0x224 "rom1_wifi_tx_dig_gain" [p + 442] ;;
  either 0x214 "rom_bt_tx_dig_gain" [p + 426] ;;
  chip_slot 0xc0 0xcc [] ;;
  chip_slot 0x13c 0x160 [] ;;
  chip_slot 0x1d8 0x1fc [] ;;
  either 0x254 "rom1_phy_i2c_init1" [] ;;
  t ← table;
  v ← read (p + 498) 1;
  f ← read (t + if s3 then 0xcc else 0xd8) 4;
  run (Call f [v] false).

(** The channel is set and the radio enabled again. *)
Definition wakeup_enable (p : Z) : prg unit :=
  either 0x248 "rom_phy_reg_init" [] ;;
  invoke "rx_11b_opt" [1] false ;;
  either 0x24c "rom_set_chan_reg" [0] ;;
  invoke "wait_freq_set_busy" [] false ;;
  invoke "phy_i2c_bbtop_wakeup" [] false ;;
  v ← read 0x60006110 4;
  write 0x60006110 4 (Z.land v (not32 0x200)) ;;
  callback 4 [] false ;;
  chip_slot 0x200 0x224 [] ;;
  either 0x240 "rom_phy_bbpll_cal" [0] ;;
  enabled ← (if s3 then
               write (p + 675) 1 0 ;;
               write (p + 674) 1 0 ;;
               read (p + 679) 1
             else
               enabled ← read (p + 804) 1;
               write (p + 800) 1 0 ;;
               write (p + 799) 1 0 ;;
               mret enabled);
  if negb (enabled =? 0) then invoke "phy_wifi_enable_set" [0] false ;; mret tt else mret tt.

Definition wakeup : prg unit :=
  p ← param;
  saved ← callback (if s3 then 0x160 else 0x184) [] true;
  invoke (if s3 then "bias_reg_set" else "bias_dreg_i2c_set") [1] false ;;
  pulse_reset ;;
  chip_slot 0x204 0x228 [] ;;
  (if s3 then invoke "phy_set_tsens_power" [1] false
   else dac ← read (p + 170) 1; invoke "rom2_tsens_read_init1" [0; dac] false) ;;
  v ← read 0x60006110 4;
  write 0x60006110 4 (Z.lor (Z.land v (not32 0x300)) 0x200) ;;
  wakeup_restore p ;;
  wakeup_enable p ;;
  chip_slot 0x164 0x188 [saved] ;;
  mret tt.

(** ** Comparison of calibration data *)

Definition snapshot_areas : list (Z * Z * nat * Z) :=
  [(292, 0, 20%nat, 2); (386, 40, 12%nat, 2); (332, 64, 6%nat, 2); (384, 76, 1%nat, 2);
   (370, 78, 3%nat, 1); (374, 81, 3%nat, 1); (344, 84, 9%nat, 1)].

Definition snapshot (p reference : Z) : prg unit :=
  for_all snapshot_areas (fun '(source, dest, count, width) =>
    for_all (range 0 count) (fun i =>
      v ← read (p + source + i * width) width;
      write (reference + dest + i * width) width v)).

(** The ROM's absolute value *)
Definition ABS : Z := if s3 then 0xec else 0x100.

(** Count a difference of more than four. *)
Definition count_difference (t delta differences : Z) : prg Z :=
  f ← read (t + ABS) 4;
  a ← ext (Call f [delta] true);
  mret (if 4 <? i32 a then Z.land (differences + 1) 65535 else differences).

Definition compare_dc (p reference source dest i j differences : Z) : prg Z :=
  t ← table;
  let at_p := p + source + i * 8 + j * 2 in
  let at_r := reference + dest + i * 8 + j * 2 in
  '(a, b) ← (if s3 then b ← read at_p 2; a ← read at_r 2; mret (a, b)
             else a ← read at_r 2; b ← read at_p 2; mret (a, b));
  count_difference t (u32 (a - b)) differences.

Definition compare_iq (first second j differences : Z) : prg Z :=
  '(t, a, b) ← (if s3 then a ← read (first + j) 1; t ← table; b ← read (second + j) 1; mret (t, a, b)
                else t ← table; a ← read (first + j) 1; b ← read (second + j) 1; mret (t, a, b));
  count_difference t (u32 (i32 (i8 a - i8 b))) differences.

Definition compare_byte (p reference source dest : Z) (is_signed : bool) (i differences : Z) : prg Z :=
  t ← table;
  '(a, b) ← (if s3 && negb is_signed then
               b ← read (p + source + i) 1; a ← read (reference + dest + i) 1; mret (a, b)
             else a ← read (reference + dest + i) 1; b ← read (p + source + i) 1; mret (a, b));
  count_difference t (if is_signed then u32 (i32 (i8 a - i8 b)) else u32 (a - b)) differences.

Definition check_value (data reference compare : Z) : prg Z :=
  p ← param;
  if byte compare =? 0 then
    run (Child 5 [data]) ;;
    snapshot p reference ;;
    mret 0
  else
    d ← for_each_with [(292, 0, 5%nat); (386, 40, 3%nat)] 0 (fun '(source, dest, count) d =>
          for_each_with (range 0 count) d (fun i d =>
            for_each_with (range 0 2) d (fun j d => compare_dc p reference source dest i j d)));
    first ← ext (Local 3 2);
    second ← ext (Local 4 2);
    d ← for_each_with [(332, 64, 2%nat, 0); (336, 68, 4%nat, 1); (384, 76, 1%nat, 0)] d
          (fun '(source, dest, count, mode) d =>
          for_each_with (range 0 count) d (fun i d =>
            v ← read (reference + dest + i * 2) 2;
            invoke "get_iq_value" [first; v; mode] false ;;
            v ← read (p + source + i * 2) 2;
            invoke "get_iq_value" [second; v; mode] false ;;
            for_each_with (range 0 2) d (compare_iq first second)));
    for_each_with [(370, 78, 3%nat, true); (374, 81, 3%nat, true); (344, 84, 9%nat, false)] d
      (fun '(source, dest, count, is_signed) d =>
      for_each_with (range 0 count) d (compare_byte p reference source dest is_signed)).

(** ** Registration *)

(** Validate the stored data and choose what to recalibrate. *)
Definition register_load (p s input data mode : Z) : prg (Z * Z) :=
  version ← invoke "phy_get_rf_cal_version" [] true;
  status ← ext (Child 8 [1; data; input; version]);
  let mode := if (mode =? 1) && negb (status =? 0) then 2 else mode in
  if mode =? 1 then
    run (Child 5 [data]) ;;
    flags ← read (p + 288) 4;
    write (p + 288) 4 (Z.land flags 0xfffefddf) ;;
    mret (mode, status)
  else
    (if status =? 0 then run (Child 6 [data; s; 0]) else mret tt) ;;
    write (p + 288) 4 0 ;;
    mret (mode, status).

(** Compare with the previous data and store the new. *)
Definition register_save (s input data status : Z) : prg Z :=
  status ← (if status =? 0 then r ← ext (Child 6 [data; s; 1]); mret (bool_to_Z (negb (r =? 0))) else mret status);
  run (Child 7 [data]) ;;
  version ← invoke "phy_get_rf_cal_version" [] true;
  run (Child 8 [0; data; input; version]) ;;
  mret status.

Definition register (input data mode0 : Z) : prg Z :=
  p ← param;
  d ← ext (Local 5 128);
  run (Clear d 128) ;;
  s ← ext (Local 6 96);
  seed_defaults d (if s3 then 0 else 2) ;;
  (if s3 then run (Child 15 []) ;; run (Child 13 [d])
   else write d 1 2 ;; write (p + 162) 1 mode0) ;;
  run (Child 0 []) ;;
  let mode := byte mode0 in
  chip_slot 0x204 0x228 [] ;;
  either 0x234 "rom1_i2c_master_reset" [] ;;
  v ← read (p + 229) 1;
  let cold := v =? 0 in
  (if cold then run (Child 2 [if input =? 0 then d else input]) else mret tt) ;;
  reload ← (if s3 || cold then v ← read (p + 229) 1; mret (v =? 0) else mret false);
  '(mode, status) ← (if (reload : bool) then register_load p s input data mode else mret (mode, 0));
  flags ← read (p + 288) 4;
  run (Child 1 []) ;;
  run (Child 10 []) ;;
  invoke "get_temp_init" [Z.land (Z.lxor (Z.shiftr flags 5) 1) 1; Z.land (Z.lxor (Z.shiftr flags 20) 1) 1] false ;;
  v ← read (p + 229) 1;
  status ← (if (v =? 0) && negb (mode =? 1) then register_save s input data status else mret status);
  v ← read (p + 229) 1;
  offset ← (if v =? 0 then v ← read (p + 286) 1; mret (negb (v =? 0)) else mret false);
  (if (offset : bool) then invoke "chip_v7_set_chan_offset" [0] false ;; mret tt else mret tt) ;;
  either 0x240 "rom_phy_bbpll_cal" [0] ;;
  write 0x6001cd0c 4 23 ;;
  chip_slot 0x188 0x1ac [99; 1; 0] ;;
  write (p + 229) 1 1 ;;
  chip_slot 0x200 0x224 [] ;;
  mret status.

Definition dispatch (kind : Z) (a : list Z) : prg Z :=
  match kind, a with
  | 0, [] => callbacks ;; mret 0
  | 1, [] => rf ;; mret 0
  | 2, [a0] => init_param a0 ;; mret 0
  | 3, [a0; a1] => mac_data a0 a1 ;; mret 0
  | 4, [a0; a1] => transfer a0 a1 ;; mret 0
  | 5, [a0] => recovery a0 ;; mret 0
  | 6, [a0; a1; a2] => check_value a0 a1 a2
  | 7, [a0] => backup a0 ;; mret 0
  | 8, [a0; a1; _; a3] => check a0 a1 a3
  | 9, [] => level ;; mret 0
  | 10, [] => bb ;; mret 0
  | 11, [a0; a1; a2] => register a0 a1 a2
  | 12, [] => txcap ;; mret 0
  | 13, [a0] => power_limits a0 ;; mret 0
  | 14, [] => package
  | 15, [] => chip_version ;; mret 0
  | 16, [] => wakeup ;; mret 0
  | 17, [] => close ;; mret 0
  | _, _ => Crash
  end.

(** ** The state of [phy_init_native.rs] *)

(** The bytes [initial_parameters] sets; the others are zero. *)
Definition initial_bytes : list (Z * Z) :=
  if s3 then [
    (104, 127); (105, 111); (106, 95); (107, 79); (108, 63); (109, 47); (110, 31); (111, 15); (112, 11); (113, 7);
    (114, 3); (115, 2); (116, 1); (118, 43); (120, 40); (122, 35); (124, 29); (126, 22); (128, 13); (132, 233);
    (133, 255); (134, 222); (135, 255); (136, 208); (137, 255); (138, 184); (139, 255); (140, 176); (141, 255);
    (142, 164); (143, 255); (144, 140); (145, 255); (152, 100); (156, 1); (157, 1); (170, 2); (174, 216); (175, 255);
    (176, 95); (178, 216); (179, 255); (180, 85); (182, 237); (183, 237); (184, 237); (185, 37); (186, 37);
    (187, 37); (209, 158); (210, 1); (212, 59); (213, 46); (214, 28); (216, 80); (228, 48); (241, 254); (732, 48);
    (733, 36); (734, 23); (735, 6)]
  else [
    (152, 100); (156, 1); (157, 1); (170, 2); (174, 196); (175, 255); (176, 75); (178, 196); (179, 255); (180, 75);
    (182, 238); (183, 238); (184, 238); (185, 21); (186, 21); (187, 21); (209, 158); (210, 1); (212, 64); (213, 48);
    (214, 28); (216, 80); (228, 48); (241, 254); (803, 1); (832, 244); (836, 60); (837, 50); (838, 22)].

Definition initial_parameters : list Z :=
  foldl (fun p e => <[Z.to_nat e.1 := e.2]> p) (replicate PARAM_SIZE 0) initial_bytes.

Definition READONLY : list Z :=
  if s3 then [82; 82; 80; 76; 76; 72; 76; 72; 72; 70; 74; 70; 70; 68; 80; 80; 76; 74; 74; 70; 74; 70; 70; 68; 72; 68; 68; 66;
              0; 1; 0; 1; 0; 1; 0; 1]
  else [0; 1; 0; 1; 0; 1; 0; 1].

(** The names [symbol] knows; any other is a panic. *)
Definition symbols : list string :=
  ["phy_param"; "chip7_phy_init_ctrl"; "g_phyFuns"] ++
  if s3 then [
    "bias_reg_set"; "bt_tx_gain_init"; "chip_v7_set_chan"; "chip_v7_set_chan_offset"; "freq_i2c_data_write";
    "get_iq_value"; "get_temp_init"; "i2c_bbpll_set"; "memcpy"; "memset"; "phy_2448m_spur_pwr"; "phy_check_rx_sat";
    "phy_get_i2c_data"; "phy_get_rf_cal_version"; "phy_get_romfuncs"; "phy_i2c_bbtop_wakeup"; "phy_i2c_init2";
    "phy_rx_table_init"; "phy_set_pwdet_power"; "phy_set_tsens_power"; "phy_set_tx_seed"; "phy_wifi_enable_set";
    "pwdet_code_cal"; "ram_bt_get_tx_gain"; "ram_bt_set_tx_gain"; "ram_bt_track_tx_power"; "ram_chip_i2c_readReg";
    "ram_chip_i2c_writeReg"; "ram_disable_wifi_agc"; "ram_enable_wifi_agc"; "ram_fe_i2c_reg_renew";
    "ram_get_i2c_hostid"; "ram_i2c_master_reset"; "ram_iq_est_enable"; "ram_phy_dis_hw_set_freq";
    "ram_phy_en_hw_set_freq"; "ram_phy_i2c_init1"; "ram_pll_vol_cal"; "ram_read_sar2_code";
    "ram_set_chan_cal_interp"; "ram_set_noise_floor"; "ram_set_pbus_reg"; "ram_set_txcap_reg"; "ram_temp_to_power";
    "ram_tsens_code_read"; "ram_tsens_temp_read"; "ram_txpwr_cal_track"; "ram_wifi_get_tx_gain";
    "ram_wifi_set_tx_gain"; "ram_wifi_track_tx_power"; "ram_wifi_tx_dig_gain"; "ram_write_pll_cap"; "rc_cal";
    "rfrx_sat_rst"; "rom_phy_param_addr"; "rom_phy_reg_init"; "rom_phy_xpd_rf"; "rx_11b_opt";
    "set_chan_freq_hw_init"; "set_pbus_mem"; "set_rx_gain_table"; "spur_coef_cfg_new"; "tsens_read_init_new";
    "tx_cap_init"; "tx_gain_set"; "tx_pwctrl_init"; "txdc_cal_init"; "txiq_cal_init"; "txpwr_offset";
    "wait_freq_set_busy"]
  else [
    "new_rom.4621"; "bias_dreg_i2c_set"; "bias_reg_set"; "bt_tx_gain_init"; "chip726_phyrom_version_num";
    "chip_v7_set_chan"; "chip_v7_set_chan_offset"; "freq_i2c_data_write"; "get_iq_value"; "get_temp_init";
    "i2c_bbpll_set"; "memcpy"; "memset"; "phy_check_rx_sat"; "phy_get_i2c_data"; "phy_get_rf_cal_version";
    "phy_get_romfuncs"; "phy_get_tsens_value"; "phy_i2c_bbtop_wakeup"; "phy_i2c_enter_critical";
    "phy_i2c_exit_critical"; "phy_i2c_init2"; "phy_rx_table_init"; "phy_set_pwdet_power"; "phy_set_tsens_power";
    "phy_wifi_enable_set"; "pwdet_code_cal"; "ram1_fe_i2c_reg_renew"; "ram1_phy_dis_hw_set_freq";
    "ram1_set_pbus_reg"; "ram1_wifi_set_tx_gain"; "ram_iq_est_enable"; "ram_pbus_force_mode"; "ram_pkdet_vol_start";
    "rc_cal"; "rfrx_sat_rst"; "rom1_bt_get_tx_gain_new"; "rom1_chip_i2c_readReg"; "rom1_chip_i2c_writeReg";
    "rom1_disable_wifi_agc"; "rom1_enable_wifi_agc"; "rom1_get_i2c_hostid"; "rom1_get_rate_fcc_index";
    "rom1_i2c_master_reset"; "rom1_phy_en_hw_set_freq"; "rom1_phy_i2c_init1"; "rom1_read_sar2_code";
    "rom1_set_noise_floor"; "rom1_tsens_temp_read"; "rom1_tx_paon_set"; "rom1_txpwr_cal_track";
    "rom1_wifi_get_tx_gain"; "rom1_wifi_tx_dig_gain"; "rom2_tsens_read_init1"; "rom_agc_reg_init"; "rom_bb_reg_init";
    "rom_bt_filter_reg"; "rom_bt_tx_dig_gain"; "rom_index_to_txbbgain"; "rom_open_i2c_xpd"; "rom_pbus_xpd_tx_on";
    "rom_phy_ant_init"; "rom_phy_bbpll_cal"; "rom_phy_param_addr"; "rom_phy_reg_init"; "rom_phy_xpd_rf";
    "rom_set_chan_reg"; "rom_set_tx_dig_gain"; "rom_set_txcap_reg"; "rom_tsens_code_read"; "rom_txbbgain_to_index";
    "rom_wifi_agc_sat_gain"; "rom_write_txrate_power_offset"; "rx_11b_opt"; "set_chan_freq_hw_init"; "set_pbus_mem";
    "set_rx_gain_table"; "tx_cap_init"; "tx_pwctrl_init"; "txcal_gain_check"; "txdc_cal_init"; "txiq_cal_init";
    "txpwr_offset"; "wait_freq_set_busy"].

(** [native::child]: the entry points of the chip; another kind is a panic. *)
Definition child_exists (kind : Z) : bool :=
  (kind <? 18) && (0 <=? kind) &&
  negb (bool_decide (kind ∈ if s3 then [9; 12] else [13; 14; 15])).

Definition child (kind : Z) (a : list Z) : prg Z := if child_exists kind then dispatch kind a else Crash.

(** Resolve the calls of entry points, [n] levels deep. *)
Fixpoint linked {A} (n : nat) (p : prg A) : prg A :=
  link_with (fun e => match e with
                      | Ext (Child kind a) => Some match n with O => Crash | S n' => linked n' (child kind a) end
                      | _ => None
                      end) p.

End Init.
End Init.
