(* ===== verification/PhyInitSpec.v ===== *)
(** * Correctness of the PHY initialisation

    - [init_never_panics]: the entry points ask the native binding only for
      what it has, and return in every environment.
    - [calibration_check_detects]: the checksum of the calibration data.
    - [calibration_saved_restored]: saving and loading the parameters.
    - [power_table_limited]: the power limits of the parameters. *)

From stdpp Require Import strings.
From S2P Require Import Prelude Program PhyAccess PhyInit.
Import Init.
#[local] Open Scope list_scope.
#[local] Open Scope Z_scope.

(** A program that makes only calls of a kind returns, and its trace has only
    those calls. *)
Lemma calls_only_trace {E A} (P : E -> Prop) (p : prog E A) answer tr0 :
  calls_only P p -> exists a tr, exec (logged answer) p tr0 = Some (a, tr0 ++ tr) /\ Forall (fun c => P c.1) tr.
Proof.
  revert tr0. induction p as [a|e k IH|]; intros tr0; simpl; [|intros [He Hk]|done].
  - intros _. exists a, []. by rewrite app_nil_r.
  - destruct (IH (answer tr0 e) (tr0 ++ [(e, answer tr0 e)]) (Hk _)) as (a & tr & Hx & Hf).
    exists a, ((e, answer tr0 e) :: tr). rewrite <- app_assoc in Hx. by split; [|constructor].
Qed.

Section Native.
Variable s3 : bool.

(** What the native binding can serve without a panic *)
Definition served (child_ok : Z -> list Z -> Prop) (e : io method) : Prop :=
  match e with
  | Read _ w | Write _ w _ => w = 1 \/ w = 2 \/ w = 4
  | Ext (Symbol name) => name ∈ symbols s3
  | Ext (Call _ args _) => (length args <= 4)%nat
  | Ext (Child kind a) => child_ok kind a
  | Ext _ => True
  end.

Definition arity (kind : Z) : nat := nth (Z.to_nat kind) [0; 0; 1; 2; 2; 1; 3; 1; 4; 0; 0; 3; 0; 1; 0; 0; 0; 0]%nat 0%nat.

(** How deep the calls of an entry point go *)
Definition rank (kind : Z) : nat := nth (Z.to_nat kind) [0; 2; 1; 0; 0; 0; 1; 1; 1; 0; 1; 3; 0; 0; 0; 1; 0; 0]%nat 0%nat.

Definition entry (kind : Z) (a : list Z) : Prop := child_exists s3 kind = true /\ length a = arity kind.
Definition entry_below (n : nat) (kind : Z) (a : list Z) : Prop := entry kind a /\ (rank kind < n)%nat.

Abbreviation only n := (calls_only (served (entry_below n))).

Lemma only_invoke n name args returns :
  bool_decide (name ∈ symbols s3) = true -> (length args <= 4)%nat -> only n (invoke name args returns).
Proof. intros Hn Ha. unfold invoke. io_calls; [by apply bool_decide_eq_true in Hn|done]. Qed.

Lemma only_symbol n name : bool_decide (name ∈ symbols s3) = true -> only n (ext (Symbol name)).
Proof. intros Hn. split; [by apply bool_decide_eq_true in Hn|done]. Qed.

Lemma only_read n a w : (w =? 1) || (w =? 2) || (w =? 4) = true -> only n (read a w).
Proof. intros Hw. split; [|done]. simpl. lia. Qed.

Lemma only_write n a w v : (w =? 1) || (w =? 2) || (w =? 4) = true -> only n (write a w v).
Proof. intros Hw. unfold write. apply calls_only_bind; [|done]. split; [|done]. simpl. lia. Qed.

Lemma symbols_common name : name ∈ ["phy_param"; "chip7_phy_init_ctrl"; "g_phyFuns"]%string -> bool_decide (name ∈ symbols s3) = true.
Proof. intros Hn. apply bool_decide_eq_true. unfold symbols. rewrite elem_of_app. by left. Qed.

Lemma only_param n : only n param.
Proof. apply only_symbol, symbols_common. set_solver. Qed.

Lemma only_table n : only n table.
Proof. unfold table. calls_step; [apply only_symbol, symbols_common; set_solver|by apply only_read]. Qed.

Lemma only_callback n offset args returns : (length args <= 4)%nat -> only n (callback offset args returns).
Proof.
  intros Ha. unfold callback, slot. calls_step; [calls_step; [apply only_table|by apply only_read]|]. by split.
Qed.

Lemma only_child n kind a : entry_below n kind a -> only n (ext (Child kind a)).
Proof. by split. Qed.

End Native.

Abbreviation only s3 n := (calls_only (served s3 (entry_below s3 n))).

(** Walk through an initialisation routine. *)
Ltac only_walk :=
  repeat lazymatch goal with
  | |- calls_only _ param => apply only_param
  | |- calls_only _ table => apply only_table
  | |- calls_only _ (callback _ _ _) => apply only_callback; simpl; lia
  | |- calls_only _ (invoke _ _ _) => apply only_invoke; [by vm_compute|simpl; lia]
  | |- calls_only _ (read _ _) => apply only_read; reflexivity
  | |- calls_only _ (write _ _ _) => apply only_write; reflexivity
  | |- calls_only _ (ext (Symbol _)) => apply only_symbol; by vm_compute
  | |- calls_only _ (ext (Child _ _)) => apply only_child; split; [split; vm_compute; reflexivity|vm_compute; lia]
  | |- calls_only _ (run ?y) => apply (calls_only_bind _ (ext y)); [|intros ?; exact I]
  | |- calls_only _ (ext _) => split; [simpl; lia || exact I|intros ?; exact I]
  | |- calls_only _ ((match ?x with _ => _ end) _) => destruct x
  | |- calls_only _ _ => calls_step
  end.

Lemma only_patches s3 n t l : forallb (fun e => bool_decide (e.2 ∈ symbols s3)) l = true -> only s3 n (patches t l).
Proof.
  intros Hl. unfold patches. induction l as [|e l IH]; cbn [for_all]; [exact I|].
  cbn [forallb] in Hl. apply andb_true_iff in Hl as [He Hl]. apply calls_only_bind; [|auto].
  apply calls_only_bind; [by apply only_symbol|]. intros ?. by apply only_write.
Qed.

Lemma only_callbacks s3 n : only s3 n (callbacks s3).
Proof. destruct s3; unfold callbacks; only_walk; apply only_patches; by vm_compute. Qed.

Lemma only_rf s3 : only s3 2 (rf s3).
Proof. destruct s3; unfold rf, chip_slot, either, pulse_reset, rf_gains; only_walk. Qed.

Lemma only_bb s3 : only s3 1 (bb s3).
Proof. destruct s3; unfold bb, bb_once, chip_slot, either; only_walk. Qed.

Lemma only_init_param s3 input : only s3 1 (init_param s3 input).
Proof. destruct s3; unfold init_param, seed_defaults, limit_power, copy_bytes; only_walk. Qed.

Lemma only_snapshot s3 n p reference : only s3 n (snapshot p reference).
Proof.
  unfold snapshot. assert (Forall (fun a : Z * Z * nat * Z => a.2 = 1 \/ a.2 = 2) snapshot_areas) as Hf by decide_now.
  induction Hf as [|[[[source dest] count] width] l Hw _ IH]; cbn [for_all]; [exact I|]. apply calls_only_bind; [|done].
  cbn [snd] in Hw. apply calls_only_for_all. intros i. apply calls_only_bind; [apply only_read; lia|]. intros v. apply only_write. lia.
Qed.

Lemma only_check_value s3 data reference compare : only s3 1 (check_value s3 data reference compare).
Proof.
  destruct s3; unfold check_value, for_each_with, compare_dc, compare_iq, compare_byte, count_difference; only_walk; apply only_snapshot.
Qed.

Lemma only_register s3 input data mode : only s3 3 (register s3 input data mode).
Proof. destruct s3; unfold register, register_load, register_save, seed_defaults, chip_slot, either; only_walk. Qed.

Lemma only_wakeup s3 n : only s3 n (wakeup s3).
Proof. destruct s3; unfold wakeup, wakeup_restore, wakeup_filter, wakeup_enable, chip_slot, either, pulse_reset; only_walk. Qed.

Lemma only_discard s3 n {A} (p : prog (io method) A) : only s3 n p -> only s3 n (p ;; mret 0).
Proof. intros Hp. by apply calls_only_bind. Qed.

(** The entry points without calls of their own *)
Lemma only_mac_data s3 n data version : only s3 n (mac_data data version).
Proof. destruct s3; unfold mac_data, store_bytes; only_walk. Qed.

Lemma only_transfer s3 n data save : only s3 n (transfer s3 data save).
Proof. destruct s3; unfold transfer, save_word, load_word; only_walk. Qed.

Lemma only_recovery s3 n data : only s3 n (recovery s3 data).
Proof. destruct s3; unfold recovery; only_walk. Qed.

Lemma only_level s3 n : only s3 n level.
Proof. destruct s3; unfold level; only_walk. Qed.

Lemma only_txcap s3 n : only s3 n txcap.
Proof. destruct s3; unfold txcap; only_walk. Qed.

Lemma only_power_limits s3 n input : only s3 n (power_limits input).
Proof. destruct s3; unfold power_limits; only_walk. Qed.

Lemma only_package s3 n : only s3 n package.
Proof. destruct s3; unfold package; only_walk. Qed.

Lemma only_close s3 n : only s3 n (close s3).
Proof. destruct s3; unfold close, chip_slot, either; only_walk. Qed.

Lemma only_check s3 check_only data version : only s3 1 (check s3 check_only data version).
Proof. destruct s3; unfold check, for_each_with, store_bytes; only_walk. Qed.

Lemma only_backup s3 data : only s3 1 (backup data).
Proof. destruct s3; unfold backup; only_walk. Qed.

Lemma only_chip_version n : only true (S n) chip_version.
Proof.
  unfold chip_version. apply calls_only_bind; [|intros v; only_walk]. apply only_child. split; [done|vm_compute; lia].
Qed.

(** Each entry point calls only entry points of a lower rank. *)
Lemma only_dispatch s3 kind a : entry s3 kind a -> only s3 (rank kind) (dispatch s3 kind a).
Proof.
  intros [Hk Ha]. assert (kind ∈ seqZ 0 18) as Hr.
  { unfold child_exists in Hk. apply andb_true_iff in Hk as [[?%Z.ltb_lt ?%Z.leb_le]%andb_true_iff _]. apply in_seqZ. lia. }
  vm_compute seqZ in Hr. enum_in Hr;
    match type of Ha with _ = arity ?k => let n := eval vm_compute in (arity k) in change (arity k) with n in Ha end;
    repeat match type of Ha with length ?l = S _ => destruct l; [discriminate Ha|injection Ha as Ha] end;
    apply nil_length_inv in Ha; subst; cbn [dispatch].
  - apply only_discard, only_callbacks.
  - apply only_discard, only_rf.
  - apply only_discard, only_init_param.
  - apply only_discard, only_mac_data.
  - apply only_discard, only_transfer.
  - apply only_discard, only_recovery.
  - apply only_check_value.
  - apply only_discard, only_backup.
  - apply only_check.
  - apply only_discard, only_level.
  - apply only_discard, only_bb.
  - apply only_register.
  - apply only_discard, only_txcap.
  - apply only_discard, only_power_limits.
  - apply only_package.
  - destruct s3; [apply only_discard, only_chip_version|done].
  - apply only_discard, only_wakeup.
  - apply only_discard, only_close.
Qed.

Lemma only_mono s3 n n' {A} (p : prog (io method) A) : (n <= n')%nat -> only s3 n p -> only s3 n' p.
Proof.
  intros Hn. apply calls_only_mono. intros [| |[]]; simpl; auto. intros [? ?]. split; [done|lia].
Qed.

Definition none_left (_ : Z) (_ : list Z) : Prop := False.

Lemma linked_served s3 n {A} (p : prog (io method) A) : only s3 n p -> calls_only (served s3 none_left) (linked s3 n p).
Proof.
  revert A p. induction n as [|n IH]; intros A p Hp; cbn [linked]; apply calls_only_link; eapply calls_only_mono; try exact Hp;
    intros [| |[]]; simpl; auto.
  - intros [_ ?]. lia.
  - intros [He Hr]. apply IH. unfold child. rewrite (proj1 He). apply (only_mono _ (rank kind)); [lia|]. by apply only_dispatch.
Qed.

Lemma rank_bound kind : (rank kind <= 3)%nat.
Proof.
  unfold rank. destruct (Z.to_nat kind) as [|n]; [simpl; lia|]. do 17 (destruct n as [|n]; [simpl; lia|]). destruct n; simpl; lia.
Qed.

(** C26: initialisation never panics.  Every entry point of the chip, called with the arguments it takes,
    returns whatever the hardware, the ROM and the retained routines answer; the calls the entry points
    make of one another are at most three deep.  Of the native binding they ask only what it serves:
    symbols its table has on that chip, accesses of one, two or four bytes, calls of at most four
    arguments, and entry points that exist on the chip. *)
Theorem init_never_panics s3 kind a answer : entry s3 kind a ->
  exists r tr, exec (logged answer) (linked s3 3 (child s3 kind a)) [] = Some (r, tr) /\
    Forall (fun c => served s3 none_left c.1) tr.
Proof.
  intros He. destruct (calls_only_trace (served s3 none_left) (linked s3 3 (child s3 kind a)) answer []) as (r & tr & Hx & Hf).
  - apply linked_served. unfold child. rewrite (proj1 He). eapply only_mono, only_dispatch, He. apply rank_bound.
  - by exists r, tr.
Qed.

Lemma init_never_panics_witness : exists r tr,
  exec (logged (fun _ _ => 0)) (linked false 3 (child false 11 [0; 4096; 1])) [] = Some (r, tr) /\
  Forall (fun c => served false none_left c.1) tr.
Proof. apply (init_never_panics false 11 [0; 4096; 1] (fun _ _ => 0)). split; vm_compute; reflexivity. Defined.

(** ** Sums of words *)

Definition total (l : list Z) : Z := foldr Z.add 0 l.

Lemma foldl_wrap_total l s : foldl (fun s w => u32 (s + w)) (u32 s) l = u32 (s + total l).
Proof.
  revert s. induction l as [|w l IH]; intros s; cbn [foldl total foldr]; [by rewrite Z.add_0_r|].
  rewrite wrap_add_l, IH. f_equal. unfold total. lia.
Qed.

Lemma total_agree (f g : nat -> Z) l : (forall i, i ∈ l -> f i = g i) -> total (f <$> l) = total (g <$> l).
Proof. intros Hfg. f_equal. apply list_fmap_ext. intros i x Hx. by eapply Hfg, list_elem_of_lookup_2. Qed.

Lemma total_differ (f g : nat -> Z) l k : NoDup l -> k ∈ l -> (forall i, i ∈ l -> i <> k -> f i = g i) ->
  total (f <$> l) - total (g <$> l) = f k - g k.
Proof.
  induction 1 as [|i l Hi _ IH]; intros Hk Hfg; [by apply not_elem_of_nil in Hk|].
  cbn [fmap list_fmap total foldr]. fold (total (f <$> l)) (total (g <$> l)). destruct (decide (i = k)) as [->|Hik].
  - rewrite (total_agree f g l); [lia|]. intros j Hj. apply Hfg; [by right|]. by intros ->.
  - rewrite (Hfg i) by (by left || done). apply elem_of_cons in Hk as [?|Hk]; [done|]. rewrite <- IH; [lia|done|].
    intros j Hj. apply Hfg. by right.
Qed.

Lemma not32_eq v : is_u32 v -> not32 v = 2 ^ 32 - 1 - v.
Proof. intros Hv. unfold in_width in Hv. unfold not32, wrap, Z.lnot. rewrite <- (Z.mod_add _ 1) by lia. rewrite Z.mod_small; lia. Qed.

(** Words with different sums are told apart if the sums are closer than
    [2 ^ 32]. *)
Lemma wrap_differ a b : a <> b -> - 2 ^ 32 < a - b < 2 ^ 32 -> u32 a <> u32 b.
Proof.
  intros Hab Hr Heq. unfold wrap in Heq. assert ((a - b) mod 2 ^ 32 = 0) as Hm by (rewrite Zminus_mod, Heq, Z.sub_diag; done).
  apply Z.mod_divide in Hm as [q Hq]; lia.
Qed.

(** ** Linked programs *)

Definition not_child (e : io method) : Prop := match e with Ext (Child _ _) => False | _ => True end.

Definition init_links (s3 : bool) (n : nat) (e : io method) : option (prog (io method) Z) :=
  match e with
  | Ext (Child kind a) => Some match n with O => Crash | S n' => linked s3 n' (child s3 kind a) end
  | _ => None
  end.

Lemma linked_links s3 n {A} (p : prog (io method) A) : linked s3 n p = link_with (init_links s3 n) p.
Proof. by destruct n. Qed.

(** A program that calls no entry point is what it is linked to. *)
Lemma wpl_plain {S A} (Gd : io method -> S -> Prop) Rp s3 n (p : prog (io method) A) (Q : A -> S -> Prop) m :
  calls_only not_child p -> wp Gd Rp p Q m -> wpl Gd Rp (init_links s3 n) p Q m.
Proof. intros Hp Hw. apply wpl_unlinked; [|done]. eapply calls_only_mono, Hp. by intros [| |[]]. Qed.

Lemma wp_linked_plain {S A} (Gd : io method -> S -> Prop) Rp s3 n (p : prog (io method) A) (Q : A -> S -> Prop) m :
  calls_only not_child p -> wp Gd Rp p Q m -> wp Gd Rp (linked s3 n p) Q m.
Proof. intros Hp Hw. rewrite linked_links. by apply wpl_sound, wpl_plain. Qed.

(** ** Storage of the calibration data *)
Section Calibration.
Variable s3 : bool.
Variables G P data : Z.
Abbreviation N := (Z.to_nat (SUM_AT s3 / 4)).

(** The routine in the slot [LOAD] *)
Definition loader (m : mem) : Z := mem_read m (mem_read m G 4 + LOAD s3) 4.

(** [G] is the table pointer and [P] the parameter block; the routine in the
    slot [LOAD] reads a word. *)
Definition cal_frame (y : method) (m : mem) (x : Z) (m' : mem) : Prop :=
  match y with
  | Symbol name => m' = m /\ x = if bool_decide (name = "g_phyFuns"%string) then G else P
  | Call f [a] true => f = loader m -> x = mem_read m a 4 /\ m' = m
  | Copy d o n => forall b, m' b = if (d <=? b) && (b <? d + n) then m (o + (b - d)) else m b
  | _ => True
  end.

Abbreviation wpc := (wp no_guard (mem_io cal_frame)).

Lemma wp_load a (Q : Z -> mem -> Prop) m : Q (mem_read m a 4) m -> wpc (callback (LOAD s3) [a] true) Q m.
Proof.
  intros HQ. unfold callback, slot, table. apply wp_bind, wp_bind, wp_bind, wp_io_ext. intros ? ? [-> ->].
  rewrite bool_decide_true by done. io_run. apply wp_io_ext. intros x m' [-> ->]; done.
Qed.

Lemma wp_param (Q : Z -> mem -> Prop) m : Q P m -> wpc param Q m.
Proof. intros HQ. apply wp_io_ext. by intros ? ? [-> ->]. Qed.

Lemma le_bytes_4 v i : 0 <= i < 4 -> le_bytes 4 v !! Z.to_nat i = Some (u8 (Z.shiftr v (i * 8))).
Proof.
  intros Hi. rewrite Z.shiftr_div_pow2 by lia. assert (i = 0 \/ i = 1 \/ i = 2 \/ i = 3) as [->|[->|[->| ->]]] by lia;
    cbn [le_bytes lookup list_lookup Z.to_nat Pos.to_nat Pos.iter_op Nat.add]; rewrite ?Z.div_div by lia; by rewrite ?Z.div_1_r.
Qed.

Lemma store_bytes_spec a v (Q : unit -> mem -> Prop) m :
  (forall m', (forall b, m' b = mem_write m a 4 v b) -> Q tt m') -> wpc (store_bytes a v) Q m.
Proof.
  intros HQ. unfold store_bytes. eapply (wp_for_range _ _ (fun k m' => forall b,
    m' b = if (a <=? b) && (b <? a + Z.of_nat k) then u8 (Z.shiftr v ((b - a) * 8)) else m b)).
  - lia.
  - intros b. destruct (Z.leb_spec a b), (Z.ltb_spec b (a + Z.of_nat 0)); simpl; done || lia.
  - intros k m1 Hk Hm1. apply wp_io_write. intros b. destruct (decide (b = a + Z.of_nat k)) as [->|Hb].
    + rewrite mem_write_1. rewrite (proj2 (Z.leb_le _ _)), (proj2 (Z.ltb_lt _ _)) by lia. simpl. do 2 f_equal. lia.
    + rewrite mem_write_out, Hm1 by lia. destruct (Z.leb_spec a b); [|done]. simpl.
      destruct (Z.ltb_spec b (a + Z.of_nat k)), (Z.ltb_spec b (a + Z.of_nat (S k))); done || lia.
  - intros m' Hm'. apply HQ. intros b. rewrite Hm'. unfold mem_write. change (Z.to_nat 4) with 4%nat. change (Z.of_nat 4) with 4.
    destruct (Z.leb_spec a b); [|done]. cbn [andb].
    destruct (Z.ltb_spec b (a + 4)).
    + by rewrite le_bytes_4 by lia.
    + rewrite lookup_ge_None_2; [done|]. rewrite le_bytes_length. lia.
Qed.

(** *** Checksum *)

Definition word (m : mem) (k : nat) : Z := mem_read m (data + 4 * Z.of_nat k) 4.

(** The words the checksum covers, with [v] for the version *)
Definition covered (m : mem) (v : Z) : Z := v + total (word m <$> seq 1 (N - 1)).

(** Memory of bytes in which the data is apart from the table *)
Record ready (m : mem) : Prop := {
  ready_bytes : forall b, is_u8 (m b);
  ready_table : apart data (SUM_AT s3 + 4) G 4;
  ready_slot : apart data (SUM_AT s3 + 4) (mem_read m G 4 + LOAD s3) 4 }.

Lemma step4_words : step4 0 (PARAM_SIZE s3 + 12) = (fun k => 4 * Z.of_nat k) <$> seq 0 N /\ (0 < N)%nat /\ SUM_AT s3 = 4 * Z.of_nat N.
Proof. destruct s3; (split; [vm_compute; reflexivity|]); split; vm_compute; lia || done. Qed.

Abbreviation add_word := (fun i sum => w ← callback (LOAD s3) [data + i] true; mret (u32 (sum + w))).

Lemma sum_loop m l s (Q : Z -> mem -> Prop) : Q (foldl (fun s w => u32 (s + w)) s (word m <$> l)) m ->
  wpc (for_each_with ((fun k => 4 * Z.of_nat k) <$> l) s add_word) Q m.
Proof.
  unfold for_each_with. revert s. induction l as [|k l IH]; intros s HQ; [done|].
  cbn [fmap list_fmap for_loop]. apply wp_bind, wp_bind, wp_bind, wp_load. io_run. apply IH. exact HQ.
Qed.

Lemma sum_spec m (Q : Z -> mem -> Prop) : Q (u32 (total (word m <$> seq 0 N))) m ->
  wpc (for_each_with (step4 0 (PARAM_SIZE s3 + 12)) 0 add_word) Q m.
Proof.
  intros HQ. rewrite (proj1 step4_words). apply sum_loop. change 0 with (u32 0) at 1. by rewrite foldl_wrap_total.
Qed.

Lemma word_write m m1 a v k : (forall b, m1 b = mem_write m a 4 v b) -> is_u32 v ->
  (a = data + 4 * Z.of_nat k -> word m1 k = v) /\ (apart (data + 4 * Z.of_nat k) 4 a 4 -> word m1 k = word m k).
Proof.
  intros Hm1 Hv. unfold word. rewrite (mem_read_ext m1 (mem_write m a 4 v)) by auto. split.
  - intros ->. rewrite mem_read_write_same by lia. by apply Z.mod_small.
  - intros Ha. apply mem_read_write_other. unfold apart in Ha. lia.
Qed.

Lemma words_covered m m1 v : (forall b, m1 b = mem_write m data 4 v b) -> is_u32 v ->
  total (word m1 <$> seq 0 N) = covered m v.
Proof.
  intros Hm1 Hv. destruct step4_words as (_ & HN & _). unfold covered. destruct N as [|n]; [lia|]. cbn [seq fmap list_fmap total foldr].
  replace (S n - 1)%nat with n by lia. f_equal; [apply (word_write m m1 data v 0 Hm1 Hv); lia|]. f_equal. apply list_fmap_ext.
  intros i k Hk. apply lookup_seq in Hk as [-> _]. apply (word_write m m1 data v _ Hm1 Hv). unfold apart. lia.
Qed.

Lemma check_spec check_only v m : is_u32 v ->
  wpc (linked s3 1 (check s3 check_only data v)) (fun r m' => exists m1, (forall b, m1 b = mem_write m data 4 v b) /\
    let expected := not32 (u32 (covered m v)) in
    if negb (byte s3 check_only =? 0) then r = bool_to_Z (negb (expected =? word m N)) /\ m' = m1
    else r = 0 /\ forall b, m' b = mem_write m1 (data + SUM_AT s3) 4 expected b) m.
Proof.
  intros Hv. destruct step4_words as (_ & HN & Hsum). rewrite linked_links. apply wpl_sound. unfold check. apply wpl_bind, wpl_bind.
  eapply wpl_call; [done|]. cbn [child_exists child].
  change (child s3 3 [data; v]) with (if child_exists s3 3 then mac_data data v ;; mret 0 else Crash).
  replace (child_exists s3 3) with true by (by destruct s3). apply wp_linked_plain.
  { unfold mac_data, store_bytes. io_calls; exact I. }
  unfold mac_data. apply wp_bind, store_bytes_spec. intros m1 Hm1. apply wp_ret. cbv beta.
  apply wpl_unlinked; [exact I|]. apply wp_ret. apply wpl_unlinked.
  { unfold for_each_with, callback, slot, table, store_bytes. io_calls; done. }
  io_run. apply sum_spec. rewrite (words_covered m m1 v Hm1 Hv). apply wp_bind, wp_load.
  assert (mem_read m1 (data + SUM_AT s3) 4 = word m N) as Hw.
  { replace (data + SUM_AT s3) with (data + 4 * Z.of_nat N) by lia. apply (word_write m m1 data v N Hm1 Hv). unfold apart. lia. }
  destruct (negb (byte s3 check_only =? 0)); cbv zeta.
  - apply wp_ret. exists m1. by rewrite Hw.
  - apply wp_bind, store_bytes_spec. intros m2 Hm2. apply wp_ret. by exists m1.
Qed.

(** Memory after the checksum was stored *)
Lemma stored_sum m m1 m2 v : is_u32 v -> (forall b, m1 b = mem_write m data 4 v b) ->
  (forall b, m2 b = mem_write m1 (data + SUM_AT s3) 4 (not32 (u32 (covered m v))) b) ->
  word m2 0 = v /\ word m2 N = not32 (u32 (covered m v)) /\ (forall k, (0 < k < N)%nat -> word m2 k = word m k).
Proof.
  intros Hv Hm1 Hm2. destruct step4_words as (_ & HN & Hsum).
  assert (He : is_u32 (not32 (u32 (covered m v)))) by (apply (wrap_range 32); lia).
  pose proof (word_write m m1 data v) as H1. pose proof (word_write m1 m2 (data + SUM_AT s3) (not32 (u32 (covered m v)))) as H2. unfold apart in *. split_and!.
  - rewrite (proj2 (H2 _ Hm2 He)), (proj1 (H1 _ Hm1 Hv)) by lia. done.
  - apply (H2 _ Hm2 He). lia.
  - intros k Hk. rewrite (proj2 (H2 _ Hm2 He)), (proj2 (H1 _ Hm1 Hv)) by lia. done.
Qed.

(** The answer of a check of data whose checksum was stored for other words *)
Lemma check_answer c c' : (bool_to_Z (negb (not32 (u32 c) =? not32 (u32 c'))) = 0 <-> u32 c = u32 c').
Proof.
  rewrite !not32_eq by (apply wrap_range; lia). destruct (Z.eqb_spec (2 ^ 32 - 1 - u32 c) (2 ^ 32 - 1 - u32 c')); simpl; lia.
Qed.

Lemma data_word_range m k : (forall b, is_u8 (m b)) -> is_u32 (word m k).
Proof. intros Hm. apply (mem_read_range m _ 4); [done|lia]. Qed.

Lemma covered_agree m m2 v : (forall k, (0 < k < N)%nat -> word m2 k = word m k) -> covered m2 v = covered m v.
Proof. intros Hk. unfold covered. f_equal. apply total_agree. intros i Hi. apply Hk. apply elem_of_seq in Hi. lia. Qed.

(** C24: the checksum of the calibration data.  Take any environment in which the ROM's load routine reads
    a word, and memory in which the data does not overlap the callback table.  [check] in its writing mode
    returns 0, stores the version in the first word and the checksum in the last, and changes nothing
    else.  A later check overwrites the first word with the version it is asked for before it sums, so
    what that word held is not looked at.  When the words after it, the checksum included, are as stored,
    the check returns 0 exactly when it is asked for the version stored; when exactly one of them was
    changed and it is asked for that version, it always returns an error.  The entry point that writes
    the version is linked in. *)
Theorem calibration_check_detects h m v :
  obeys_contract no_guard (mem_io cal_frame) h -> ready m -> is_u32 v ->
  exists m1, exec h (linked s3 1 (check s3 0 data v)) m = Some (0, m1) /\
    word m1 0 = v /\
    (forall b, b < data \/ data + 4 <= b < data + SUM_AT s3 \/ data + SUM_AT s3 + 4 <= b -> m1 b = m b) /\
    forall m2 v2, ready m2 -> is_u32 v2 ->
      exists r m3, exec h (linked s3 1 (check s3 1 data v2)) m2 = Some (r, m3) /\
        ((forall k, (0 < k <= N)%nat -> word m2 k = word m1 k) -> (r = 0 <-> v2 = v)) /\
        (forall k, (0 < k <= N)%nat -> word m2 k <> word m1 k ->
           (forall j, (0 < j <= N)%nat -> j <> k -> word m2 j = word m1 j) -> v2 = v -> r <> 0).
Proof.
  intros Hh Hr Hv. destruct step4_words as (_ & HN & Hsum).
  destruct (exec_wp _ _ h _ _ m Hh (check_spec 0 v m Hv)) as (r & m1 & Hx & m0 & Hm0 & Hpost).
  replace (negb (byte s3 0 =? 0)) with false in Hpost by (by destruct s3). destruct Hpost as [-> Hm1].
  destruct (stored_sum m m0 m1 v Hv Hm0 Hm1) as (Hw0 & HwN & Hwk).
  exists m1. split_and!; [done|done| |].
  { intros b Hb. by rewrite Hm1, mem_write_out, Hm0, mem_write_out by lia. }
  intros m2 v2 Hr2 Hv2. destruct (exec_wp _ _ h _ _ m2 Hh (check_spec 1 v2 m2 Hv2)) as (r & m3 & Hx2 & m4 & _ & Hpost).
  replace (negb (byte s3 1 =? 0)) with true in Hpost by (by destruct s3). destruct Hpost as [-> _].
  eexists _, m3. split_and!; [exact Hx2| |].
  - intros Hk. rewrite (Hk N), HwN, check_answer, (covered_agree m m2) by (lia || (intros j Hj; rewrite Hk, Hwk by lia; done)).
    split; [|by intros ->]. intros Hc. destruct (decide (v2 = v)) as [|Hne]; [done|]. exfalso.
    unfold in_width in Hv, Hv2. revert Hc. apply wrap_differ; unfold covered; lia.
  - intros k Hk Hne Hj ->. destruct (decide (k = N)) as [->|HkN].
    + rewrite (covered_agree m m2) by (intros j Hj'; rewrite Hj, Hwk by lia; done). rewrite <- HwN.
      destruct (Z.eqb_spec (word m1 N) (word m2 N)); [congruence|done].
    + rewrite (Hj N), HwN, check_answer by lia. rewrite (Hwk k) in Hne by lia.
      assert (total (word m2 <$> seq 1 (N - 1)) - total (word m <$> seq 1 (N - 1)) = word m2 k - word m k) as Hd.
      { apply total_differ; [apply NoDup_seq|apply elem_of_seq; lia|]. intros j Hj' ?. apply elem_of_seq in Hj'. rewrite Hj, Hwk by lia. done. }
      pose proof (data_word_range m2 k (ready_bytes _ Hr2)) as H2. pose proof (data_word_range m k (ready_bytes _ Hr)) as H1.
      unfold in_width in H1, H2. apply wrap_differ; unfold covered; lia.
Qed.

(** *** Saving and loading *)

Abbreviation SIZE := (Z.of_nat (PARAM_SIZE s3)).

(** [m'] is [m] with the first [n] bytes at [source] copied to [dest]. *)
Definition copied (m m' : mem) (source dest n : Z) : Prop :=
  forall b, m' b = if (dest <=? b) && (b <? dest + n) then m (source + (b - dest)) else m b.

Lemma copied_grow m m1 m2 source dest n k : 0 <= n -> 0 <= k -> copied m m1 source dest n ->
  (forall b, m2 b = if (dest + n <=? b) && (b <? dest + n + k) then m (source + (b - dest)) else m1 b) ->
  copied m m2 source dest (n + k).
Proof.
  intros Hn Hk H1 H2 b. rewrite H2, H1.
  destruct (Z.leb_spec (dest + n) b), (Z.ltb_spec b (dest + n + k)), (Z.leb_spec dest b), (Z.ltb_spec b (dest + n)),
    (Z.ltb_spec b (dest + (n + k))); simpl; done || lia.
Qed.

Lemma size_words : step4 0 (PARAM_SIZE s3) = (fun k => 4 * k) <$> range 0 (PARAM_SIZE s3 / 4) /\ SIZE = 4 * Z.of_nat (PARAM_SIZE s3 / 4).
Proof. destruct s3; split; vm_compute; reflexivity. Qed.

(** A loop over the words of the parameters *)
Lemma wp_words (Inv : nat -> mem -> Prop) body (Q : unit -> mem -> Prop) m :
  Inv 0%nat m ->
  (forall k m, (k < PARAM_SIZE s3 / 4)%nat -> Inv k m -> wpc (body (4 * Z.of_nat k)) (fun _ m' => Inv (S k) m') m) ->
  (forall m, Inv (PARAM_SIZE s3 / 4)%nat m -> Q tt m) ->
  wpc (for_all (step4 0 (PARAM_SIZE s3)) body) Q m.
Proof.
  intros H0 Hstep Hend. rewrite (proj1 size_words).
  apply (wp_for_all _ _ (fun rest m => exists k, (k <= PARAM_SIZE s3 / 4)%nat /\ rest = (fun k => 4 * k) <$> range k (PARAM_SIZE s3 / 4) /\ Inv k m)).
  - exists 0%nat. split_and!; [lia|done..].
  - intros i l m1 (k & Hk & Hrest & HI). unfold range in Hrest.
    destruct (PARAM_SIZE s3 / 4 - k)%nat as [|n] eqn:Hn; cbn [seq fmap list_fmap] in Hrest; simplify_eq.
    eapply wp_mono; [|apply Hstep; [lia|exact HI]]. intros ? m2 HI2. exists (S k). split_and!; [lia| |done].
    unfold range. by replace (PARAM_SIZE s3 / 4 - S k)%nat with n by lia.
  - intros m1 (k & Hk & Hrest & HI). unfold range in Hrest.
    destruct (PARAM_SIZE s3 / 4 - k)%nat as [|n] eqn:Hn; [|done]. apply Hend. by replace (PARAM_SIZE s3 / 4)%nat with k by lia.
Qed.

Lemma byte_of_word m a k : (forall b, is_u8 (m b)) -> 0 <= k < 4 -> u8 (Z.shiftr (mem_read m a 4) (k * 8)) = m (a + k).
Proof.
  intros Hm Hk. set (bs := (fun i => m (a + Z.of_nat i)) <$> seq 0 4).
  assert (le_bytes 4 (mem_read m a 4) = bs) as Hb.
  { apply (le_bytes_word bs). unfold bs. apply Forall_fmap, Forall_true. intros i. apply Hm. }
  pose proof (le_bytes_4 (mem_read m a 4) k Hk) as Hl. rewrite Hb in Hl. unfold bs in Hl.
  rewrite list_lookup_fmap, lookup_seq_lt in Hl by lia. simpl in Hl. rewrite Z2Nat.id in Hl by lia. congruence.
Qed.

Lemma write_of_read m m1 a w source b : (forall b, is_u8 (m b)) -> 0 <= w ->
  mem_write m1 a w (mem_read m source w) b = if (a <=? b) && (b <? a + w) then m (source + (b - a)) else m1 b.
Proof.
  intros Hm Hw. set (bs := (fun i => m (source + Z.of_nat i)) <$> seq 0 (Z.to_nat w)).
  assert (le_bytes (Z.to_nat w) (mem_read m source w) = bs) as Hbs.
  { replace (Z.to_nat w) with (length bs) by (unfold bs; by rewrite length_fmap, length_seq).
    apply (le_bytes_word bs). unfold bs. apply Forall_fmap, Forall_true. intros i. apply Hm. }
  unfold mem_write. rewrite Hbs. unfold bs. destruct (Z.leb_spec a b); [|done]. cbn [andb]. rewrite list_lookup_fmap.
  destruct (Z.ltb_spec b (a + w)).
  - rewrite lookup_seq_lt by lia. simpl. f_equal. lia.
  - by rewrite lookup_ge_None_2 by (rewrite length_seq; lia).
Qed.

(** The test for a range *)
Lemma in_range a b c : (a <=? b) && (b <? c) = bool_decide (a <= b < c).
Proof. case_bool_decide; destruct (Z.leb_spec a b), (Z.ltb_spec b c); simpl; done || lia. Qed.

(** Reading what was not copied over *)
Lemma copied_read m m1 source dest n a w : copied m m1 source dest n -> apart dest n a w -> mem_read m1 a w = mem_read m a w.
Proof.
  intros Hc Ha. apply mem_read_ext. intros b Hb. rewrite Hc. unfold apart in Ha.
  destruct (Z.leb_spec dest b), (Z.ltb_spec b (dest + n)); simpl; done || lia.
Qed.

Lemma save_word_spec m m1 k : (forall b, is_u8 (m b)) -> apart (data + 12) SIZE P SIZE -> (k < PARAM_SIZE s3 / 4)%nat ->
  copied m m1 P (data + 12) (4 * Z.of_nat k) ->
  wpc (save_word P data (4 * Z.of_nat k)) (fun _ m' => copied m m' P (data + 12) (4 * Z.of_nat (S k))) m1.
Proof.
  intros Hm Ha Hk Hc. pose proof (proj2 size_words) as Hsize. unfold save_word.
  apply (wp_for_range _ _ (fun j m' => copied m m' P (data + 12) (4 * Z.of_nat k + Z.of_nat j))).
  - lia.
  - by rewrite Z.add_0_r.
  - intros j m2 Hj Hc2. io_run. rewrite (copied_read m m2 _ _ _ _ _ Hc2) by (unfold apart in *; lia).
    replace (4 * Z.of_nat k + Z.of_nat (S j)) with (4 * Z.of_nat k + Z.of_nat j + 1) by lia.
    eapply copied_grow; [lia..|exact Hc2|]. intros b. destruct (decide (b = data + 12 + 4 * Z.of_nat k + Z.of_nat j)) as [->|Hb].
    + rewrite mem_write_1, byte_of_word by (done || lia).
      rewrite (proj2 (Z.leb_le _ _)), (proj2 (Z.ltb_lt _ _)) by lia. simpl. f_equal. lia.
    + rewrite mem_write_out by lia.
      destruct (Z.leb_spec (data + 12 + (4 * Z.of_nat k + Z.of_nat j)) b), (Z.ltb_spec b (data + 12 + (4 * Z.of_nat k + Z.of_nat j) + 1)); simpl; done || lia.
  - intros m2 Hc2. by replace (4 * Z.of_nat (S k)) with (4 * Z.of_nat k + Z.of_nat 4) by lia.
Qed.

Lemma load_word_spec m m1 k : (forall b, is_u8 (m b)) -> apart (data + 12) SIZE P SIZE -> (k < PARAM_SIZE s3 / 4)%nat ->
  copied m m1 (data + 12) P (4 * Z.of_nat k) ->
  wpc (load_word s3 P data (4 * Z.of_nat k)) (fun _ m' => copied m m' (data + 12) P (4 * Z.of_nat (S k))) m1.
Proof.
  intros Hm Ha Hk Hc. pose proof (proj2 size_words) as Hsize. unfold load_word. apply wp_bind, wp_load. io_run.
  rewrite (copied_read m m1 _ _ _ _ _ Hc) by (unfold apart in *; lia).
  replace (4 * Z.of_nat (S k)) with (4 * Z.of_nat k + 4) by lia. eapply copied_grow; [lia..|exact Hc|].
  intros b. rewrite write_of_read by (done || lia). replace (data + 12 + 4 * Z.of_nat k + (b - (P + 4 * Z.of_nat k))) with (data + 12 + (b - P)) by lia. done.
Qed.

Lemma transfer_spec save m : (forall b, is_u8 (m b)) -> apart (data + 12) SIZE P SIZE ->
  wpc (transfer s3 data save)
    (fun _ m' => if byte s3 save =? 0 then copied m m' (data + 12) P SIZE else copied m m' P (data + 12) SIZE) m.
Proof.
  intros Hm Ha. unfold transfer. apply wp_bind, wp_param. rewrite (proj2 size_words).
  destruct (byte s3 save =? 0); cbn [negb].
  - apply (wp_words (fun k m' => copied m m' (data + 12) P (4 * Z.of_nat k))); [|by intros; apply load_word_spec|done].
    intros b. rewrite Z.add_0_r. destruct (Z.leb_spec P b), (Z.ltb_spec b P); simpl; done || lia.
  - apply (wp_words (fun k m' => copied m m' P (data + 12) (4 * Z.of_nat k))); [|by intros; apply save_word_spec|done].
    intros b. rewrite Z.add_0_r. destruct (Z.leb_spec (data + 12) b), (Z.ltb_spec b (data + 12)); simpl; done || lia.
Qed.

Lemma backup_spec m : (forall b, is_u8 (m b)) -> apart (data + 12) SIZE P SIZE ->
  wpc (linked s3 1 (backup data)) (fun _ m' => copied m m' P (data + 12) SIZE) m.
Proof.
  intros Hm Ha. rewrite linked_links. apply wpl_sound. unfold backup. apply wpl_bind. eapply wpl_call; [done|].
  change (child s3 4 [data; 1]) with (if child_exists s3 4 then transfer s3 data 1 ;; mret 0 else Crash).
  replace (child_exists s3 4) with true by (by destruct s3). apply wp_linked_plain.
  { unfold transfer, save_word, load_word, param, callback, slot, table. io_calls; done. }
  apply wp_bind. eapply wp_mono; [|by apply transfer_spec]. intros ? m' Hc. cbv beta in Hc.
  replace (byte s3 1 =? 0) with false in Hc by (by destruct s3). apply wp_ret. done.
Qed.

(** The bytes of the parameters a recovery replaces *)
Definition recovered (j : Z) : bool := (218 <=? j) && (j <? 222) || (288 <=? j) && (j <? 288 + if s3 then 236 else 244).

Lemma recovery_spec m : (forall b, is_u8 (m b)) -> apart (data + 12) SIZE P SIZE ->
  wpc (recovery s3 data) (fun _ m' => forall b, m' b = if recovered (b - P) then m (data + 12 + (b - P)) else m b) m.
Proof.
  intros Hm Ha. assert (SIZE = if s3 then 740 else 848) as Hsize by (by destruct s3). unfold apart in Ha. rewrite Hsize in Ha.
  assert (Hpart : forall m1, (forall b, m1 b = if (P + 288 <=? b) && (b <? P + 288 + if s3 then 236 else 244)
                                          then m (data + 300 + (b - (P + 288))) else m b) ->
    forall b, mem_write (mem_write m1 (P + 218) 2 (mem_read m1 (data + 230) 2)) (P + 220) 2 (mem_read m1 (data + 232) 2) b =
      if recovered (b - P) then m (data + 12 + (b - P)) else m b).
  { intros m1 Hm1 b. assert (Hb1 : forall b, is_u8 (m1 b)) by (intros b1; rewrite Hm1; by destruct (_ && _)).
    set (n := if s3 then 236 else 244) in *. assert (n <= 244) by (unfold n; destruct s3; lia).
    assert (n + 288 < if s3 then 740 else 848) by (unfold n; destruct s3; lia).
    rewrite write_of_read, write_of_read by (done || lia). rewrite !Hm1. unfold recovered. fold n. rewrite !in_range.
    destruct (decide (P + 288 <= b < P + 288 + n)); [|destruct (decide (P + 218 <= b < P + 220)); [|destruct (decide (P + 220 <= b < P + 222))]];
      repeat first [rewrite bool_decide_true by lia|rewrite bool_decide_false by lia]; cbn [orb]; f_equal; lia. }
  unfold recovery. apply wp_bind, wp_param, wp_bind, wp_io_run. intros x m1 Hm1. cbn [cal_frame] in Hm1.
  assert (Hrw : mem_read (mem_write m1 (P + 218) 2 (mem_read m1 (data + 230) 2)) (data + 232) 2 = mem_read m1 (data + 232) 2).
  { apply mem_read_write_other. destruct s3; lia. }
  destruct s3 eqn:Hs; io_run; [|rewrite Hrw]; by apply Hpart.
Qed.

(** C25: calibration results survive a reset.  For every environment in which the ROM's load routine reads
    a word and [copy] copies, and data that does not overlap the parameters: [backup] stores every byte of
    the parameter block in the data and changes nothing else.  Later, from any memory that still has that
    data, loading ([transfer] with 0) puts every byte of the parameters back, and [recovery] puts back
    exactly the bytes 218 to 221 and the calibration results from 288 on, from where [backup] stored them;
    neither changes anything else. *)
Theorem calibration_saved_restored h m :
  obeys_contract no_guard (mem_io cal_frame) h ->
  (forall b, is_u8 (m b)) -> apart (data + 12) SIZE P SIZE ->
  exists r m1, exec h (linked s3 1 (backup data)) m = Some (r, m1) /\
    (forall b, data + 12 <= b < data + 12 + SIZE -> m1 b = m (P + (b - (data + 12)))) /\
    (forall b, b < data + 12 \/ data + 12 + SIZE <= b -> m1 b = m b) /\
    forall m2, (forall b, is_u8 (m2 b)) -> (forall b, data + 12 <= b < data + 12 + SIZE -> m2 b = m1 b) ->
      (exists m3, exec h (transfer s3 data 0) m2 = Some (tt, m3) /\
         forall b, m3 b = if bool_decide (P <= b < P + SIZE) then m b else m2 b) /\
      (exists m3, exec h (recovery s3 data) m2 = Some (tt, m3) /\
         forall b, m3 b = if recovered (b - P) then m b else m2 b).
Proof.
  intros Hh Hm Ha. destruct (exec_wp _ _ h _ _ m Hh (backup_spec m Hm Ha)) as (r & m1 & Hx & Hc).
  assert (Hin : forall b, data + 12 <= b < data + 12 + SIZE -> m1 b = m (P + (b - (data + 12)))).
  { intros b Hb. rewrite Hc, in_range. by rewrite bool_decide_true by lia. }
  exists r, m1. split_and!; [done|done| |].
  { intros b Hb. rewrite Hc, in_range. by rewrite bool_decide_false by lia. }
  intros m2 Hm2 Hsame.
  assert (Hback : forall b, 0 <= b - P < SIZE -> m2 (data + 12 + (b - P)) = m b).
  { intros b Hb. rewrite Hsame, Hin by lia. f_equal. lia. }
  split.
  - destruct (exec_wp _ _ h _ _ m2 Hh (transfer_spec 0 m2 Hm2 Ha)) as ([] & m3 & Hx3 & Hc3). exists m3. split; [done|].
    replace (byte s3 0 =? 0) with true in Hc3 by (by destruct s3). intros b. rewrite Hc3, in_range.
    case_bool_decide; [|done]. apply Hback. lia.
  - destruct (exec_wp _ _ h _ _ m2 Hh (recovery_spec m2 Hm2 Ha)) as ([] & m3 & Hx3 & Hc3). exists m3. split; [done|].
    intros b. rewrite Hc3. destruct (recovered (b - P)) eqn:Hr; [|done]. apply Hback. unfold recovered in Hr.
    rewrite !in_range in Hr. apply orb_true_iff in Hr as [Hr%bool_decide_eq_true|Hr%bool_decide_eq_true]; destruct s3; simpl; lia.
Qed.

End Calibration.

(** An environment: the table is at 4096, its pointer at 16 and the parameters
    at 8192; a call with a result reads a word. *)
Definition cal_ref : io method -> mem -> Z * mem :=
  mem_handler (fun y m => match y with
    | Symbol name => (if bool_decide (name = "g_phyFuns"%string) then 16 else 8192, m)
    | Call _ [a] true => (mem_read m a 4, m)
    | Copy d o n => (0, fun b => if (d <=? b) && (b <? d + n) then m (o + (b - d)) else m b)
    | _ => (0, m)
    end).

Lemma cal_ref_obeys s3 : obeys_contract no_guard (mem_io (cal_frame s3 16 8192)) cal_ref.
Proof.
  apply mem_handler_obeys. intros y m. destruct y as [name|f args returns| | | | |]; simpl; try done.
  destruct args as [|a [|]]; simpl; try done. by destruct returns.
Qed.

Definition zero_mem : mem := fun _ => 0.

Lemma calibration_check_detects_witness : exists m1,
  exec cal_ref (linked true 1 (check true 0 20000 0x2c7)) zero_mem = Some (0, m1) /\ word 20000 m1 0 = 0x2c7.
Proof.
  destruct (calibration_check_detects true 16 8192 20000 cal_ref zero_mem 0x2c7) as (m1 & Hx & Hw & _).
  - apply cal_ref_obeys.
  - split; [by intros|by right|by right].
  - unfold in_width. lia.
  - exists m1. exact (conj Hx Hw).
Defined.

Lemma calibration_saved_restored_witness : exists r m1,
  exec cal_ref (linked false 1 (backup 20000)) zero_mem = Some (r, m1) /\
  forall b, b < 20012 \/ 20012 + 848 <= b -> m1 b = 0.
Proof.
  destruct (calibration_saved_restored false 16 8192 20000 cal_ref zero_mem) as (r & m1 & Hx & _ & Ho & _).
  - apply cal_ref_obeys.
  - by intros.
  - by right.
  - exists r, m1. exact (conj Hx Ho).
Defined.

(** ** The power table *)
Section Powers.
Variable s3 : bool.
Variables P C input L B R : Z.

(** [P] is the parameter block, [C] the control block, [input] the caller's
    table, [L] and [B] local buffers and [R] the read-only data. *)
Definition power_frame (y : method) (m : mem) (x : Z) (m' : mem) : Prop :=
  match y with
  | Symbol name => m' = m /\ x = if bool_decide (name = "phy_param"%string) then P else C
  | Local tag _ => m' = m /\ x = if tag =? 1 then L else B
  | Readonly offset => m' = m /\ x = R + offset
  | Copy d o n => forall b, m' b = if (d <=? b) && (b <? d + n) then m (o + (b - d)) else m b
  | Clear d n => forall b, m' b = if (d <=? b) && (b <? d + n) then 0 else m b
  | _ => True
  end.

Abbreviation wpp := (wp no_guard (mem_io power_frame)).

Record areas (m : mem) : Prop := {
  areas_bytes : forall b, is_u8 (m b);
  areas_input : apart P 848 input 77 /\ apart C 42 P 848;
  areas_local : apart L 20 P 848 /\ apart L 20 input 77 /\ apart L 20 B 28 /\ apart L 20 R 36 /\ apart B 28 R 36 /\
                apart B 28 P 848 /\ apart B 28 input 77 /\ apart P 848 R 36;
  areas_readonly : s3 = true -> forall i, 0 <= i < 36 -> m (R + i) = nth (Z.to_nat i) (READONLY true) 0 }.

(** The limit of the power at [i], by the package on the S3 *)
Definition power_limit (m : mem) (i : nat) : Z :=
  if s3 then nth ((if m (P + 525) =? 1 then 14 else 0) + i) (READONLY true) 0 else nth (1 + i) defaults 0.

Lemma wp_symbol_param (Q : Z -> mem -> Prop) m : Q P m -> wpp param Q m.
Proof. intros HQ. apply wp_io_ext. by intros ? ? [-> ->]. Qed.

(** Bytes written one after the other *)
Lemma write_list_spec a k l m (Q : unit -> mem -> Prop) :
  (forall m', (forall b, m' b = if bool_decide (a + Z.of_nat k <= b < a + Z.of_nat k + Z.of_nat (length l))
                                then u8 (nth (Z.to_nat (b - a - Z.of_nat k)) l 0) else m b) -> Q tt m') ->
  wpp (for_all (zip (range k (k + length l)) l) (fun e => write (a + e.1) 1 e.2)) Q m.
Proof.
  revert k m. induction l as [|v l IH]; intros k m HQ; cbn [length].
  - unfold range. replace (k + 0 - k)%nat with 0%nat by lia. apply HQ. intros b. by rewrite bool_decide_false by (cbn [length]; lia).
  - unfold range in *. replace (k + S (length l) - k)%nat with (S (length l)) by lia. cbn [seq fmap list_fmap zip zip_with for_all].
    apply wp_bind, wp_io_write. cbn [fst snd].
    replace (length l) with (S k + length l - S k)%nat at 1 by lia. apply IH. intros m' Hm'. apply HQ. intros b. rewrite Hm'.
    cbn [length]. destruct (decide (b = a + Z.of_nat k)) as [->|Hb].
    + rewrite mem_write_1. repeat case_bool_decide; try lia. by replace (Z.to_nat (a + Z.of_nat k - a - Z.of_nat k)) with 0%nat by lia.
    + rewrite mem_write_out by lia. repeat case_bool_decide; try lia; try done.
      by replace (Z.to_nat (b - a - Z.of_nat k)) with (S (Z.to_nat (b - a - Z.of_nat (S k)))) by lia.
Qed.

Lemma seed_spec first m (Q : unit -> mem -> Prop) :
  (forall m', (forall i, (i < 15)%nat -> m' (L + 1 + Z.of_nat i) = nth i defaults 0) ->
              (forall b, b < L \/ L + 16 <= b -> m' b = m b) ->
              ((forall b, is_u8 (m b)) -> forall b, is_u8 (m' b)) -> Q tt m') ->
  wpp (seed_defaults L first) Q m.
Proof.
  intros HQ. unfold seed_defaults. io_run. apply (write_list_spec L 1 defaults). cbn [length defaults]. intros m' Hm'. apply HQ.
  - intros i Hi. rewrite Hm', bool_decide_true by lia. replace (Z.to_nat (L + 1 + Z.of_nat i - L - Z.of_nat 1)) with i by lia.
    assert (Forall is_u8 defaults) as Hf by decide_now. rewrite Forall_forall in Hf. apply wrap_small, Hf.
    apply list_elem_of_In, nth_In. done.
  - intros b Hb. rewrite Hm', bool_decide_false, mem_write_out by lia. done.
  - intros Hm b. rewrite Hm'. case_bool_decide; [apply wrap_range; lia|by apply mem_write_byte].
Qed.

(** *** The loop over the powers *)

Definition limited_power (m0 : mem) (lim : nat -> Z) (m : mem) (i : nat) : Prop :=
  i8 (m (P + 244 + Z.of_nat i)) = Z.min (i8 (m0 (input + 2 + Z.of_nat i))) (lim i).

Lemma limit_loop m lim : apart P 848 input 77 -> apart L 20 P 848 ->
  (forall i, (i < 14)%nat -> m (L + 2 + Z.of_nat i) = lim i /\ 0 <= lim i < 128) ->
  wpp (for_all (range 2 16) (limit_power P L input)) (fun _ m' =>
    (forall i, (i < 14)%nat -> limited_power m lim m' i) /\ forall b, b < P + 244 \/ P + 258 <= b -> m' b = m b) m.
Proof.
  intros Hpi Hpl Hlim. unfold apart in *.
  apply (wp_for_range _ _ (fun k m' => (forall i, (i < k - 2)%nat -> limited_power m lim m' i) /\
    forall b, b < P + 244 \/ P + 242 + Z.of_nat k <= b -> m' b = m b)); [lia| | |].
  - split; [intros i Hi; lia|done].
  - intros k m1 Hk [Hdone Hout]. unfold limit_power. io_run. rewrite !mem_read_1, !Hout by lia.
    destruct (Hlim (k - 2)%nat) as [Hl Hr]; [lia|]. replace (L + 2 + Z.of_nat (k - 2)) with (L + Z.of_nat k) in Hl by lia.
    set (v := m (input + Z.of_nat k)). rewrite Hl. set (A := P + 242 + Z.of_nat k).
    assert (Hfin : forall m2, i8 (m2 A) = Z.min (i8 v) (lim (k - 2)%nat) -> (forall b, b <> A -> m2 b = m1 b) ->
      (forall i, (i < S k - 2)%nat -> limited_power m lim m2 i) /\ forall b, b < P + 244 \/ P + 242 + Z.of_nat (S k) <= b -> m2 b = m b).
    { intros m2 HA Hne. split.
      - intros i Hi. unfold limited_power. destruct (decide (i = (k - 2)%nat)) as [->|].
        + replace (P + 244 + Z.of_nat (k - 2)) with A by lia. rewrite HA. unfold v. do 3 f_equal. lia.
        + rewrite Hne by lia. apply Hdone. lia.
      - intros b Hb. rewrite Hne by lia. apply Hout. lia. }
    pose proof (sext_range 8 v) as Hv8. unfold in_swidth in Hv8.
    destruct (Z.ltb_spec (lim (k - 2)%nat) (i8 v)); io_run; apply Hfin.
    + rewrite mem_write_1, sext_wrap, sext_small by (unfold in_swidth; lia). lia.
    + intros b Hb. by rewrite !mem_write_out by lia.
    + rewrite mem_write_1, sext_wrap. lia.
    + intros b Hb. by rewrite mem_write_out by lia.
  - intros m1 [Hdone Hout]. split; [intros i Hi; apply Hdone; lia|intros b Hb; apply Hout; lia].
Qed.

Lemma power_limits_spec m : s3 = true -> areas m ->
  wpp (power_limits L) (fun _ m' => (forall i, (i < 14)%nat -> m' (L + 2 + Z.of_nat i) = power_limit m i) /\
    forall b, (b < L + 2 \/ L + 16 <= b) -> (b < B \/ B + 28 <= b) -> m' b = m b) m.
Proof.
  intros Hs [Hm [Hpi Hcp] (Hlp & Hli & Hlb & Hlr & Hbr & Hbp & Hbi & Hpr) Hro]. unfold apart in *. unfold power_limits.
  apply wp_bind, wp_io_ext. intros ? ? [-> ->]. apply wp_bind, wp_io_ext. intros ? ? [-> ->]. apply wp_bind, wp_io_run. intros ? m1 Hm1.
  apply wp_bind, wp_io_ext. intros ? ? [-> ->]. apply wp_bind, wp_io_run. intros ? m2 Hm2. cbn [power_frame Z.eqb] in *.
  assert (Htab : forall i, 0 <= i < 28 -> m2 (B + i) = nth (Z.to_nat (if i <? 14 then 14 + i else i - 14)) (READONLY true) 0).
  { intros i Hi. rewrite Hm2, !Hm1, !in_range. destruct (Z.ltb_spec i 14); repeat case_bool_decide; try lia.
    - rewrite <- Hro by (done || lia). f_equal. lia.
    - rewrite <- Hro by (done || lia). f_equal. lia. }
  assert (Hsame : forall b, b < B \/ B + 28 <= b -> m2 b = m b).
  { intros b Hb. rewrite Hm2, !Hm1, !in_range. repeat case_bool_decide; done || lia. }
  apply (wp_for_range _ _ (fun k m' => (forall i, (i < k)%nat -> m' (L + 2 + Z.of_nat i) = power_limit m i) /\
    forall b, b < L + 2 \/ L + 2 + Z.of_nat k <= b -> m' b = m2 b)); [lia| | |].
  - split; [intros; lia|done].
  - intros k m3 Hk [Hdone Hout]. apply wp_bind, wp_symbol_param. io_run. rewrite !mem_read_1, (Hout (P + 525)), (Hsame (P + 525)) by lia.
    set (kind := m (P + 525) =? 1). rewrite Hout by (destruct kind; lia).
    assert (m2 (B + (if kind then 0 else 14) + Z.of_nat k) = power_limit m k) as ->.
    { unfold power_limit. rewrite Hs. fold kind. destruct kind; rewrite <- Z.add_assoc, Htab by lia; f_equal.
      - rewrite (proj2 (Z.ltb_lt _ _)) by lia. lia.
      - rewrite (proj2 (Z.ltb_ge _ _)) by lia. lia. }
    assert (is_u8 (power_limit m k)) as Hu.
    { unfold power_limit. rewrite Hs. assert (Forall is_u8 (READONLY true)) as Hf by decide_now. rewrite Forall_forall in Hf.
      apply Hf, list_elem_of_In, nth_In. simpl. destruct (m (P + 525) =? 1); lia. }
    split.
    + intros i Hi. destruct (decide (i = k)) as [->|]; [by rewrite mem_write_1, wrap_small|].
      rewrite mem_write_out by lia. apply Hdone. lia.
    + intros b Hb. rewrite mem_write_out by lia. apply Hout. lia.
  - intros m3 [Hdone Hout]. split; [done|]. intros b Hb1 Hb2. rewrite Hout by lia. by apply Hsame.
Qed.

Lemma power_limit_range m i : (i < 14)%nat -> 0 <= power_limit m i < 128.
Proof.
  intros Hi. unfold power_limit. assert (Forall (fun v => 0 <= v < 128) (READONLY true)) as H1 by decide_now.
  assert (Forall (fun v => 0 <= v < 128) defaults) as H2 by decide_now. rewrite Forall_forall in H1, H2.
  destruct s3; [apply H1|apply H2]; apply list_elem_of_In, nth_In; simpl; destruct (m (P + 525) =? 1); lia.
Qed.

(** What follows the loop leaves the powers alone. *)
Definition beside_powers (e : io method) : Prop :=
  match e with
  | Read _ _ => True
  | Write a w _ => apart (P + 244) 14 a w
  | Ext _ => False
  end.

Lemma powers_framed {A} (p : prog (io method) A) lim m0 m :
  calls_only beside_powers p -> (forall i, (i < 14)%nat -> limited_power m0 lim m i) ->
  wpp p (fun _ m' => forall i, (i < 14)%nat -> limited_power m0 lim m' i) m.
Proof.
  intros Hp Hl. apply (wp_frame _ _ beside_powers (fun m' => forall i, (i < 14)%nat -> limited_power m0 lim m' i) p m Hp); [done| |done].
  intros e m1 x m2 He HI Hx i Hi. destruct e as [|a w v|]; [by destruct Hx as [_ ->]; apply HI| |done].
  cbn in Hx. subst m2. unfold limited_power in *. rewrite mem_write_out; [by apply HI|]. cbn in He. unfold apart in He. lia.
Qed.

(** The S3 replaces the limits by those of its package. *)
Lemma limits_installed m : areas m -> (forall i, (i < 15)%nat -> m (L + 1 + Z.of_nat i) = nth i defaults 0) ->
  wpl no_guard (mem_io power_frame) (init_links s3 1) (if s3 then run (Child 13 [L]) else mret tt) (fun _ m' =>
    (forall i, (i < 14)%nat -> m' (L + 2 + Z.of_nat i) = power_limit m i) /\
    forall b, (b < L + 2 \/ L + 16 <= b) -> (b < B \/ B + 28 <= b) -> m' b = m b) m.
Proof.
  intros Har Hd. destruct (Bool.bool_dec s3 true) as [Hs|Hs%not_true_is_false].
  - replace (if s3 then run (Child 13 [L]) else mret tt) with (run (Child 13 [L])) by (by rewrite Hs).
    apply wpl_bind. eapply wpl_call; [done|].
    change (child s3 13 [L]) with (if child_exists s3 13 then power_limits L ;; mret 0 else Crash).
    replace (child_exists s3 13) with true by (by rewrite Hs). apply wp_linked_plain.
    { unfold power_limits, param. by io_calls. }
    apply wp_bind. eapply wp_mono, power_limits_spec; [|done..]. intros [] m' Hm'. exact Hm'.
  - replace (if s3 then run (Child 13 [L]) else mret tt) with (mret tt : prog (io method) unit) by (by rewrite Hs).
    apply wpl_plain; [exact I|]. apply wp_ret. split; [|done].
    intros i Hi. unfold power_limit. rewrite Hs. rewrite <- Hd by lia. f_equal. lia.
Qed.

Lemma init_param_spec m : areas m ->
  wpp (linked s3 1 (init_param s3 input)) (fun _ m' => forall i, (i < 14)%nat -> limited_power m (power_limit m) m' i) m.
Proof.
  intros Har. pose proof Har as [Hm [Hpi Hcp] (Hlp & Hli & Hlb & Hlr & Hbr & Hbp & Hbi & Hpr) Hro].
  rewrite linked_links. apply wpl_sound. unfold init_param.
  apply wpl_bind, wpl_plain; [by io_calls|]. apply wp_symbol_param.
  apply wpl_bind, wpl_plain; [by io_calls|]. apply wp_io_ext. intros ? ? [-> ->]. change (if 1 =? 1 then L else B) with L.
  apply wpl_bind, wpl_plain; [destruct s3; by io_calls|].
  apply (wp_mono _ _ _ (fun _ m1 => (forall b, is_u8 (m1 b)) /\ forall b, b < L \/ L + 20 <= b -> m1 b = m b)).
  2: { destruct s3; [|by apply wp_ret]. apply wp_io_run. intros ? m1 Hm1. cbn in Hm1. split; intros b; rewrite Hm1, in_range.
       - by case_bool_decide.
       - intros Hb. by rewrite bool_decide_false by lia. }
  intros _ m1 [Hb1 Ho1]. apply wpl_bind, wpl_plain; [unfold seed_defaults; by io_calls|].
  apply seed_spec. intros m2 Hd2 Ho2 Hb2. specialize (Hb2 Hb1). unfold apart in *.
  apply wpl_bind, wpl_plain; [destruct s3; by io_calls|].
  apply (wp_mono _ _ _ (fun _ m3 => (forall b, is_u8 (m3 b)) /\ (forall b, b < L + 16 \/ L + 20 <= b -> m3 b = m2 b))).
  2: { destruct s3; [by apply wp_ret|]. apply wp_io_write. split; intros b; [by apply mem_write_byte|].
       intros Hb. by rewrite mem_write_out by lia. }
  intros _ m3 [Hb3 Ho3].
  do 4 (apply wpl_bind, wpl_plain; [by io_calls|]; first [apply wp_io_read|apply wp_io_write]).
  set (m4 := mem_write (mem_write m3 (P + 242) 1 _) (P + 243) 1 _).
  assert (Ho4 : forall b, b < L \/ L + 20 <= b -> b < P + 242 \/ P + 244 <= b -> m4 b = m b).
  { intros b Hb Hb'. unfold m4. by rewrite !mem_write_out, Ho3, Ho2, Ho1 by lia. }
  assert (Hd4 : forall i, (i < 15)%nat -> m4 (L + 1 + Z.of_nat i) = nth i defaults 0).
  { intros i Hi. unfold m4. by rewrite !mem_write_out, Ho3, Hd2 by lia. }
  assert (Hb4 : forall b, is_u8 (m4 b)) by (intros b; unfold m4; apply mem_write_byte; intros ?; by apply mem_write_byte).
  assert (Har4 : areas m4).
  { split; [done|done|unfold apart; auto 10|]. intros Hs i Hi. rewrite Ho4 by lia. by apply Hro. }
  assert (Hlim : power_limit m4 = power_limit m).
  { unfold power_limit. by rewrite Ho4 by lia. }
  apply wpl_bind, (wpl_mono _ _ _ _ (fun _ m5 => (forall i, (i < 14)%nat -> m5 (L + 2 + Z.of_nat i) = power_limit m i) /\
    forall b, (b < L + 2 \/ L + 16 <= b) -> (b < B \/ B + 28 <= b) -> m5 b = m4 b)).
  2: { rewrite <- Hlim. by apply limits_installed. }
  intros _ m5 [Hl5 Ho5]. apply wpl_plain.
  { unfold limit_power, copy_bytes. by io_calls. }
  apply wp_bind. eapply wp_mono; [|apply (limit_loop m5 (power_limit m)); unfold apart; [lia..|]].
  2: { intros i Hi. split; [by apply Hl5|by apply power_limit_range]. }
  intros _ m6 [Hl6 Ho6].
  assert (Hdone : forall i, (i < 14)%nat -> limited_power m (power_limit m) m6 i).
  { intros i Hi. specialize (Hl6 i Hi). unfold limited_power in *. rewrite Hl6, Ho5, Ho4 by lia. done. }
  apply wp_bind, wp_io_read, wp_bind, wp_io_write, wp_bind, wp_io_ext. intros ? ? [-> ->].
  replace (if bool_decide _ then P else C) with C by (by rewrite bool_decide_false).
  apply powers_framed.
  - unfold copy_bytes. apply calls_only_bind; [|intros _].
    { apply calls_only_range. intros g Hg. apply calls_only_range. intros k Hk. io_calls; [exact I|]. cbn. unfold apart. lia. }
    apply calls_only_bind; [|intros _].
    { apply calls_only_range. intros k Hk. io_calls; [exact I|]. cbn. unfold apart. lia. }
    io_calls; cbn; unfold apart; try exact I; lia.
  - intros i Hi. unfold limited_power. rewrite mem_write_out by lia. by apply Hdone.
Qed.

(** C27: the power table is limited.  For any caller's table, in buffers that do not overlap, initialising
    the parameters returns and stores for each of the fourteen rate groups the smaller of the requested
    power, as a signed byte, and the limit: on the C3 the built-in default, on the S3 the value of the
    package the chip reports, which the linked-in entry point [power_limits] copies from the read-only
    data.  No request exceeds its limit, however large. *)
Theorem power_table_limited h m :
  obeys_contract no_guard (mem_io power_frame) h -> areas m ->
  exists m', exec h (linked s3 1 (init_param s3 input)) m = Some (tt, m') /\
    forall i, (i < 14)%nat ->
      i8 (m' (P + 244 + Z.of_nat i)) = Z.min (i8 (m (input + 2 + Z.of_nat i))) (power_limit m i).
Proof.
  intros Hh Har. destruct (exec_wp _ _ h _ _ m Hh (init_param_spec m Har)) as ([] & m' & Hx & Hl). by exists m'.
Qed.

Definition power_ref (e : io method) (m : mem) : Z * mem :=
  mem_handler (fun y m => match y with
    | Symbol name => (if bool_decide (name = "phy_param"%string) then P else C, m)
    | Local tag _ => (if tag =? 1 then L else B, m)
    | Readonly offset => (R + offset, m)
    | Copy d o n => (0, fun b => if (d <=? b) && (b <? d + n) then m (o + (b - d)) else m b)
    | Clear d n => (0, fun b => if (d <=? b) && (b <? d + n) then 0 else m b)
    | _ => (0, m)
    end) e m.

Lemma power_ref_obeys : obeys_contract no_guard (mem_io power_frame) power_ref.
Proof. apply mem_handler_obeys. by intros []. Qed.

End Powers.

(** A package of kind 1, the read-only data at 6000, and requests of 100 for
    every group *)
Definition power_mem : mem := fun b =>
  if b =? 1525 then 1
  else if (6000 <=? b) && (b <? 6036) then nth (Z.to_nat (b - 6000)) (READONLY true) 0
  else if (3000 <=? b) && (b <? 3077) then 100 else 0.

Lemma power_mem_bytes b : is_u8 (power_mem b).
Proof.
  unfold power_mem. destruct (b =? 1525); [done|]. destruct (_ && _); [|by destruct (_ && _)].
  assert (Forall is_u8 (READONLY true)) as Hf by decide_now.
  destruct (nth_in_or_default (Z.to_nat (b - 6000)) (READONLY true) 0) as [Hin| ->]; [|done].
  rewrite Forall_forall in Hf. by apply Hf, list_elem_of_In.
Qed.

Lemma power_table_limited_witness : exists m',
  exec (power_ref 1000 2000 4000 5000 6000) (linked true 1 (init_param true 3000)) power_mem = Some (tt, m') /\
  i8 (m' 1244) = 80.
Proof.
  destruct (power_table_limited true 1000 2000 3000 4000 5000 6000 (power_ref 1000 2000 4000 5000 6000) power_mem) as (m' & Hx & Hl).
  - apply power_ref_obeys.
  - split; [apply power_mem_bytes|unfold apart; lia|unfold apart; lia|]. intros _ i Hi. unfold power_mem.
    destruct (Z.eqb_spec (6000 + i) 1525); [lia|]. rewrite in_range, bool_decide_true by lia. f_equal. lia.
  - exists m'. split; [exact Hx|]. specialize (Hl 0%nat ltac:(lia)). exact Hl.
Defined.
