(* ===== verification/PhyRegSpec.v ===== *)
(** * Correctness of the PHY register programming *)

From S2P Require Import Prelude Program PhyAccess PhyReg.
Import Reg.

(** ** Bit fields *)

(** The signed field of [n] bits at [sh] *)
Definition sfield (sh n w : Z) : Z := sext n (Z.shiftr w sh).

Definition field_mask (sh n : Z) : Z := Z.shiftl (Z.ones n) sh.

(** [w] with the field replaced by the low bits of [v] *)
Definition set_field (sh n w v : Z) : Z :=
  Z.lor (Z.land w (not32 (field_mask sh n))) (Z.land (u32 (Z.shiftl (u32 v) sh)) (field_mask sh n)).

Lemma field_mask_testbit sh n i : 0 <= sh -> 0 <= n -> 0 <= i -> Z.testbit (field_mask sh n) i = bool_decide (sh <= i < sh + n).
Proof.
  intros Hs Hn Hi. unfold field_mask. rewrite shiftl_testbit by lia. destruct (Z.leb_spec sh i); cbn [andb].
  - case_bool_decide.
    + apply Z.ones_spec_low. lia.
    + apply Z.ones_spec_high. lia.
  - by rewrite bool_decide_false by lia.
Qed.

Lemma set_field_testbit sh n w v i : 0 <= sh -> 0 <= n -> sh + n <= 32 -> 0 <= i < 32 ->
  Z.testbit (set_field sh n w v) i = if bool_decide (sh <= i < sh + n) then Z.testbit v (i - sh) else Z.testbit w i.
Proof.
  intros Hs Hn Hsn Hi. unfold set_field, not32.
  rewrite Z.lor_spec, !Z.land_spec, !wrap_testbit, Z.lnot_spec, shiftl_testbit, field_mask_testbit by lia.
  case_bool_decide.
  - rewrite (proj2 (Z.leb_le sh i)), wrap_testbit by lia. rewrite !(proj2 (Z.ltb_lt _ _)) by lia. simpl. by rewrite !andb_true_r, andb_false_r.
  - rewrite (proj2 (Z.ltb_lt _ _)) by lia. simpl. by rewrite !andb_true_r, andb_false_r, orb_false_r.
Qed.

Lemma wrap_shiftr_ext n sh w w' : 0 <= sh -> 0 <= n -> (forall i, sh <= i < sh + n -> Z.testbit w i = Z.testbit w' i) ->
  wrap n (Z.shiftr w sh) = wrap n (Z.shiftr w' sh).
Proof.
  intros Hs Hn Hw. apply (width_bits_ext n); [done|by apply wrap_range..|]. intros i Hi.
  rewrite !wrap_testbit, !Z.shiftr_spec by lia. rewrite (proj2 (Z.ltb_lt _ _)) by lia. apply Hw. lia.
Qed.

(** The field that was set, and a field beside it *)
Lemma sfield_set sh n w v : 0 <= sh -> 0 < n -> sh + n <= 32 -> in_swidth n v -> sfield sh n (set_field sh n w v) = v.
Proof.
  intros Hs Hn Hsn Hv. rewrite <- (sext_small n v) by done. apply sext_cong. apply (width_bits_ext n); [lia|apply wrap_range; lia..|].
  intros i Hi. rewrite !wrap_testbit, Z.shiftr_spec, set_field_testbit by lia. rewrite (proj2 (Z.ltb_lt _ _)), bool_decide_true by lia.
  cbn [andb]. rewrite sext_small by done. f_equal. lia.
Qed.

Lemma sfield_beside sh n sh' n' w v : 0 <= sh -> 0 <= n -> sh + n <= 32 -> 0 <= sh' -> 0 <= n' -> sh' + n' <= 32 -> apart sh n sh' n' ->
  sfield sh' n' (set_field sh n w v) = sfield sh' n' w.
Proof.
  intros Hs Hn Hsn Hs' Hn' Hsn' Ha. unfold apart in Ha. apply sext_cong, wrap_shiftr_ext; [done..|]. intros i Hi.
  rewrite set_field_testbit by lia. by rewrite bool_decide_false by lia.
Qed.

Lemma set_field_width sh n w v : is_u32 w -> is_u32 (set_field sh n w v).
Proof. intros Hw. unfold set_field. apply lor_width; [lia|rewrite Z.land_comm; by apply land_width|rewrite Z.land_comm; apply land_width, wrap_range; lia]. Qed.

(** ** IQ coefficients *)
Section Iq.
Variable s3 : bool.

(** Any environment in which reads and writes act on memory *)
Definition any_method (y : method) (m : mem) (_ : Z) (m' : mem) : Prop := True.
Abbreviation wpr := (wp no_guard (mem_io any_method)).

Lemma rmw_spec a keep set m (Q : unit -> mem -> Prop) :
  Q tt (mem_write m a 4 (Z.lor (Z.land (mem_read m a 4) keep) set)) -> wpr (rmw a keep set) Q m.
Proof. intros HQ. unfold rmw. by io_run. Qed.

Definition IQ : Z := 0x6000607c.

(** The direction and the component of a coefficient: its field, the value
    stored and the answer *)
Definition coefficient_field (rx main : bool) : Z * Z :=
  match rx, main with false, true => (5, 6) | false, false => (0, 5) | true, true => (21, 6) | true, false => (16, 5) end.

Definition stored (rx main : bool) (c : Z) : Z :=
  if main then clamp (-31) 31 c else clamp (-15) 15 (if rx then Z.quot c 2 else c).

Definition set_iq (rx : bool) (c mode : Z) : prog (io method) Z := if rx then rx_iq s3 c mode else tx_iq s3 c mode.

Lemma stored_width rx main c : in_swidth (coefficient_field rx main).2 (stored rx main c).
Proof. unfold stored, clamp, in_swidth. destruct rx, main; cbn; lia. Qed.

Lemma set_iq_spec rx c mode m :
  let main := byte_arg s3 mode =? 0 in
  let v := stored rx main (signed_arg s3 c) in
  let f := coefficient_field rx main in
  wpr (set_iq rx c mode) (fun r m' => r = result s3 (if rx && negb main then v * 2 else v) /\
    m' = mem_write m IQ 4 (set_field f.1 f.2 (mem_read m IQ 4) v)) m.
Proof.
  cbv zeta. unfold set_iq, rx_iq, tx_iq, stored. destruct rx, (byte_arg s3 mode =? 0); cbn [coefficient_field fst snd andb negb];
    unfold update; repeat (apply wp_bind); apply rmw_spec; apply wp_ret; try (apply wp_ret); split; try done.
  unfold set_field. rewrite Z.shiftl_0_r. by rewrite wrap_idem.
Qed.

Lemma signed_result v : in_swidth 8 v -> signed_arg s3 (result s3 v) = v.
Proof.
  intros Hv. unfold in_swidth in Hv. unfold signed_arg, result. destruct s3; rewrite sext_wrap; apply sext_small; unfold in_swidth; lia.
Qed.

Lemma stored_again rx main c : let v := stored rx main c in
  stored rx main (if rx && negb main then v * 2 else v) = v.
Proof.
  cbv zeta. unfold stored, clamp. destruct rx, main; cbn [andb negb]; rewrite ?Z.quot_mul by lia; lia.
Qed.

(** Programming an IQ coefficient.  For every chip, direction, component and argument, [tx_iq] and
    [rx_iq] return; the register's field of that coefficient then holds, as a signed number, the argument
    limited to what the field can hold (the small receive component halved), every other bit of the
    register and all other memory is unchanged, so the other three coefficients keep their values.  The
    answer is the coefficient in effect: programming it again stores the same value. *)
Theorem iq_coefficient_programmed h m rx c mode :
  obeys_contract no_guard (mem_io any_method) h -> (forall b, is_u8 (m b)) ->
  let main := byte_arg s3 mode =? 0 in
  let v := stored rx main (signed_arg s3 c) in
  let f := coefficient_field rx main in
  exists r m', exec h (set_iq rx c mode) m = Some (r, m') /\
    sfield f.1 f.2 (mem_read m' IQ 4) = v /\
    (forall rx' main', (rx', main') <> (rx, main) ->
       let f' := coefficient_field rx' main' in sfield f'.1 f'.2 (mem_read m' IQ 4) = sfield f'.1 f'.2 (mem_read m IQ 4)) /\
    (forall i, 0 <= i < 32 -> i < f.1 \/ f.1 + f.2 <= i -> Z.testbit (mem_read m' IQ 4) i = Z.testbit (mem_read m IQ 4) i) /\
    (forall b, b < IQ \/ IQ + 4 <= b -> m' b = m b) /\
    stored rx main (signed_arg s3 r) = v.
Proof.
  intros Hh Hm main v f. destruct (exec_wp _ _ h _ _ m Hh (set_iq_spec rx c mode m)) as (r & m' & Hx & Hr & Hm').
  fold main in Hr, Hm'. fold v f in Hr, Hm'. pose proof (stored_width rx main (signed_arg s3 c)) as Hv. fold v f in Hv.
  assert (Hf : 0 <= f.1 /\ 0 < f.2 <= 6 /\ f.1 + f.2 <= 32) by (unfold f; destruct rx, main; cbn; lia).
  assert (Hw : mem_read m' IQ 4 = set_field f.1 f.2 (mem_read m IQ 4) v).
  { rewrite Hm', mem_read_write_same by lia. apply Z.mod_small. change (256 ^ 4) with (2 ^ 32). apply set_field_width.
    apply (mem_read_range m IQ 4 Hm). lia. }
  exists r, m'. rewrite Hw. split_and!; [done|apply sfield_set; lia || done| | | |].
  - intros rx' main' Hne f'. apply sfield_beside; unfold f, f' in *; destruct rx, main, rx', main'; try done; unfold apart; cbn; lia.
  - intros i Hi Hout. rewrite set_field_testbit by lia. by rewrite bool_decide_false by lia.
  - intros b Hb. rewrite Hm'. apply mem_write_out. lia.
  - rewrite Hr, signed_result; [apply stored_again|]. unfold v, stored, clamp, in_swidth. destruct rx, main; cbn; lia.
Qed.

End Iq.

Definition reg_ref : io method -> mem -> Z * mem := mem_handler (fun _ m => (0, m)).

Lemma reg_ref_obeys : obeys_contract no_guard (mem_io any_method) reg_ref.
Proof. by apply mem_handler_obeys. Qed.

Lemma iq_coefficient_programmed_witness : exists r m',
  exec reg_ref (set_iq true true 100 1) (fun _ => 255) = Some (r, m') /\ sfield 16 5 (mem_read m' IQ 4) = 15.
Proof.
  destruct (iq_coefficient_programmed true reg_ref (fun _ => 255) true 100 1) as (r & m' & Hx & Hf & _).
  - apply reg_ref_obeys.
  - by intros.
  - exists r, m'. exact (conj Hx Hf).
Defined.
