(* ===== verification/PhyRxGainCal.v ===== *)
(** * Receive gain calibration

    Models [phy_rx_gain_cal.rs] (Module [RxGainCal]): the IQ and DC calibration
    of the receive gain tables.  [s3] selects the chip.  An unchecked index out
    of range has no result. *)

From S2P Require Import Prelude Program PhyAccess.

Module RxGainCal.

Inductive method :=
| Param
| TableGlobal
| Local (kind size : Z)
| Call (target kind : Z) (args : list Z).

(** [get_unchecked] *)
Definition unchecked {E} (l : list Z) (i : Z) : prog E Z :=
  match l !! Z.to_nat i with Some v => mret v | None => Crash end.

Section RxGainCal.
Variable s3 : bool.
Abbreviation prg := (prog (io method)).

Definition byte (value : Z) : Z := if s3 then u8 value else value.

Definition OFFSETS : list Z :=
  if s3 then [404; 408; 36; 72; 68; 28; 424; 428; 240; 244; 440] else [440; 444; 36; 84; 80; 28; 460; 464; 260; 264; 476].

Definition target (kind : Z) : prg Z :=
  offset ← unchecked OFFSETS kind;
  g ← ext TableGlobal;
  t ← read g 4;
  read (t + offset) 4.

Definition call_ (kind : Z) (args : list Z) : prg Z :=
  t ← (if kind <? 11 then target kind else mret 0);
  ext (Call t kind args).

(** A call whose answer is not used *)
Definition do_ (kind : Z) (args : list Z) : prg unit := call_ kind args ;; mret tt.

Definition i2c (value : option Z) : prg Z :=
  match value with
  | Some v => call_ 1 [103; if s3 then 0 else 1; 3; 2; 2; v]
  | None => call_ 0 [103; if s3 then 0 else 1; 3; 2; 2]
  end.

Definition update (mask value : Z) : prg unit := rmw 0x6000607c mask value.

(** Save the I2C field and clear it, if the policy asks for it. *)
Definition hold (policy : Z) : prg Z :=
  if negb (policy =? 0) then v ← i2c None; i2c (Some 0) ;; mret v else mret 0.

(** ** IQ *)

Definition gains : list Z := [63; 31; 15; 7; 3; 1; 0].

Record search := { coarse : Z; fine : Z; selected : Z }.

(** One trial of a gain: the power it gives *)
Definition trial (frequency coefficients logging phase gain fine : Z) : prg Z :=
  do_ 5 [gain; 260; 128 + phase * 32] ;;
  do_ 20 [4000; coefficients; 10; 0; 0] ;;
  do_ 6 [1; 1; 497] ;;
  do_ 6 [1; 1; 505] ;;
  do_ 23 [1; frequency; u8 fine; 0; 0; 0] ;;
  do_ 8 [1; 1023] ;;
  v ← read 0x60006164 4;
  let power := Z.shiftr (i32 v) 7 in
  (if negb (logging =? 0) then
     first ← call_ 7 [5; 1];
     second ← call_ 7 [1; 2];
     x ← read 0x6000615c 4;
     y ← read 0x60006160 4;
     do_ 29 [0; u32 power; 16384; 131072; first; second; u32 fine; u32 (Z.shiftr (i32 x) 16); u32 (Z.shiftr (i32 y) 16)]
   else mret tt) ;;
  do_ 9 [] ;;
  do_ 24 [1] ;;
  mret power.

(** The next gain for a power that is too large or too small *)
Definition adjusted (s : search) (power : Z) : option search :=
  if 131072 <? power then
    Some (if coarse s <? 6 then {| coarse := coarse s + 1; fine := Z.max (fine s) 0; selected := selected s |}
          else {| coarse := coarse s; fine := Z.max (i16 (fine s + 20)) 0; selected := selected s |})
  else if power <? 16384 then
    Some (if 0 <? coarse s then {| coarse := coarse s - 1; fine := Z.max (fine s) 0; selected := selected s |}
          else {| coarse := coarse s; fine := Z.max (i16 (fine s - 20)) 0; selected := selected s |})
  else None.

Definition iq_step (frequency coefficients logging phase : Z) (_ : Z) (s : search) : prg (flow search) :=
  gain ← unchecked gains (coarse s);
  let s := {| coarse := coarse s; fine := fine s; selected := gain |} in
  power ← trial frequency coefficients logging phase gain (fine s);
  mret match adjusted s power with Some s' => Next s' | None => Break s end.

Definition iq_phase (frequency coefficients output logging phase : Z) : prg unit :=
  s ← for_loop (range 0 4) {| coarse := phase + 2; fine := 24; selected := 0 |} (iq_step frequency coefficients logging phase);
  (if negb (logging =? 0) then do_ 29 [1; selected s; 260; u32 (fine s); 128 + phase * 32; phase; 2] else mret tt) ;;
  result ← call_ 25 [frequency; u8 (fine s); logging];
  write (output + phase * 2) 2 result.

Definition iq (policy frequency output logging : Z) : prg unit :=
  let policy := byte policy in
  let logging := byte logging in
  let frequency := if s3 then u32 (i16 frequency) else frequency in
  coefficients ← ext (Local 0 8);
  saved ← hold policy;
  do_ 2 [1] ;;
  do_ 3 [1] ;;
  do_ 4 [1] ;;
  update 0xffffffff 0x08000000 ;;
  update 0xefffffff 0 ;;
  update 0xffffefff 0 ;;
  p ← ext Param;
  packed ← read (p + 0x14c) 2;
  do_ 22 [u32 (Z.shiftr (i32 (u32 (Z.shiftl packed 21))) 27); 1] ;;
  do_ 22 [u32 (Z.shiftr (i32 (u32 (Z.shiftl packed 26))) 26); 0] ;;
  write coefficients 2 256 ;;
  write (coefficients + 2) 2 256 ;;
  for_all (range 0 2) (iq_phase frequency coefficients output logging) ;;
  (if negb (policy =? 0) then i2c (Some saved) ;; mret tt else mret tt) ;;
  do_ 2 [0] ;;
  update 0xffffffff 0x10000000 ;;
  update 0xffffffff 4096.

(** ** DC *)

Record dc_args := { policy : Z; codes : Z; iq_at : Z; dc_at : Z; channels : Z; count : Z; middle : Z;
                    coefficients : Z; output : Z; status_base : Z }.

Record indices := { iq_index : Z; dc_index : Z; channel_index : Z }.

Definition table : list Z := [0; 1; 5; 13; 29].

Definition columns (a : dc_args) (mode : Z) : Z :=
  if mode =? 0 then count a else if mode =? 1 then middle a else if s3 then 1 else 3.

(** The subtractions of the last stage wrap, as in the release profile of the
    repository, which has no overflow checks. *)
Definition dc_gain (a : dc_args) (mode col : Z) : prg Z :=
  if mode =? 0 then code ← read (codes a + col) 1; mret (Z.shiftl code 8)
  else if mode =? 1 then
    t ← unchecked table col;
    code ← read (codes a + 2) 1;
    mret (Z.land (Z.lor (t * 8) (Z.shiftl code 8)) 65535)
  else
    code ← read (u32 (codes a + u32 (if s3 then count a - 1 else count a + col - 3))) 1;
    mret (Z.shiftl code 8).

(** Set the two correction registers of the stage before. *)
Definition dc_prepare (a : dc_args) (mode : Z) : prg unit :=
  if mode =? 1 then
    t ← target 6; v ← read (iq_at a + 46) 2; ext (Call t 6 [2; 1; v]) ;;
    t ← target 6; v ← read (iq_at a + 44) 2; ext (Call t 6 [3; 1; v]) ;; mret tt
  else if mode =? 2 then
    t ← target 6; v ← read (dc_at a + 6) 2; ext (Call t 6 [2; 2; v]) ;;
    t ← target 6; v ← read (dc_at a + 4) 2; ext (Call t 6 [3; 2; v]) ;;
    packed ← read (iq_at a + 44) 4;
    write (coefficients a) 2 (Z.shiftr packed 16) ;;
    write (coefficients a + 2) 2 packed
  else
    do_ 6 [2; 2; 256] ;;
    do_ 6 [3; 2; 256].

(** Store the coefficients that were found. *)
Definition dc_store (a : dc_args) (mode offset status : Z) (ix : indices) : prg indices :=
  x ← read (coefficients a) 2;
  y ← read (coefficients a + 2) 2;
  let packed := Z.lor (Z.shiftl x 16) (u32 (i16 y)) in
  if mode =? 1 then
    write (dc_at a + dc_index ix * 4) 4 packed ;;
    mret {| iq_index := iq_index ix; dc_index := Z.land (dc_index ix + 1) 255; channel_index := channel_index ix |}
  else if mode =? 0 then
    write (iq_at a + iq_index ix * 4) 4 packed ;;
    mret {| iq_index := Z.land (iq_index ix + 1) 255; dc_index := dc_index ix; channel_index := channel_index ix |}
  else
    let next := if s3 then 1 else columns a mode in
    write (channels a + offset * 4) 4 packed ;;
    write (channels a + (offset + next) * 4) 4 packed ;;
    v ← read status 1;
    write (status + next) 1 v ;;
    mret {| iq_index := iq_index ix; dc_index := dc_index ix;
            channel_index := if s3 then Z.land (channel_index ix + 1) 255 else channel_index ix |}.

Definition dc_column (a : dc_args) (mode channel col : Z) (ix : indices) : prg indices :=
  gain ← dc_gain a mode col;
  do_ 10 [gain] ;;
  dc_prepare a mode ;;
  let offset := if s3 then channel_index ix * 2 else channel * columns a mode * 2 + col in
  let status := status_base a + offset in
  do_ 21 [policy a; mode; 2048; coefficients a; output a; status] ;;
  dc_store a mode offset status ix.

Definition dc_channel (a : dc_args) (mode channel : Z) (ix : indices) : prg indices :=
  (if mode =? 2 then
     do_ 26 [2 * (channel + 1)] ;;
     (if negb (policy a =? 0) then i2c (Some 0) ;; mret tt else mret tt)
   else mret tt) ;;
  for_each_with (range 0 (Z.to_nat (columns a mode))) ix (dc_column a mode channel).

Definition dc_mode (a : dc_args) (mode : Z) : prg unit :=
  (if (mode =? 0) || (mode =? 1) then
     write (coefficients a) 2 256 ;;
     write (coefficients a + 2) 2 256
   else mret tt) ;;
  for_each_with (range 0 (if mode =? 2 then 7 else 1))
    {| iq_index := if negb (policy a =? 0) then 0 else 9; dc_index := 0; channel_index := 0 |} (dc_channel a mode) ;;
  mret tt.

(** [while mode < end]: on the C3 an end above 255 is never reached. *)
Fixpoint dc_modes (fuel : nat) (a : dc_args) (mode end_ : Z) : prg unit :=
  if end_ <=? mode then mret tt else
  match fuel with
  | O => Crash
  | S fuel' => dc_mode a mode ;; dc_modes fuel' a (Z.land (mode + 1) 255) end_
  end.

Definition dc (a : list Z) : prg unit :=
  match a with
  | [a0; a1; a2; codes; iq_at; dc_at; channels; a7; a8; _] =>
      let policy := byte a0 in
      coefficients ← ext (Local 0 4);
      output ← ext (Local 1 12);
      status_base ← ext (Local 2 (if s3 then 14 else 42));
      let args := {| policy := policy; codes := codes; iq_at := iq_at; dc_at := dc_at; channels := channels;
                     count := byte a7; middle := if s3 then u8 a8 else 4;
                     coefficients := coefficients; output := output; status_base := status_base |} in
      do_ 3 [1] ;;
      do_ 4 [1] ;;
      do_ 26 [14] ;;
      (if s3 then mret tt else p ← ext Param; write (p + 0x1f2) 1 14) ;;
      saved ← hold policy;
      dc_modes 256 args (byte a1) (byte a2) ;;
      (if negb (policy =? 0) then i2c (Some saved) ;; mret tt else do_ 27 [channels; status_base]) ;;
      do_ 3 [0] ;;
      do_ 4 [0]
  | _ => Crash
  end.

End RxGainCal.
End RxGainCal.
