(* ===== verification/PhyRxGainCalSpec.v ===== *)
(** * Correctness of the receive gain calibration

    [gain_iq_bounded]: the search for a gain stays in its tables.
    [gain_dc_confined]: the DC calibration writes only its buffers. *)

From S2P Require Import Prelude Program PhyAccess PhyRxGainCal.
Import RxGainCal.

Section Cal.
Variable s3 : bool.
Variables C O St Pm : Z.

(** The local buffers, by their kind: coefficients, outputs and statuses; and
    the parameter block *)
Definition locals (e : io method) (x : Z) : Prop :=
  match e with
  | Ext (Local kind _) => x = if kind =? 0 then C else if kind =? 1 then O else St
  | Ext Param => x = Pm
  | _ => True
  end.

Variable allowed : io method -> Prop.
Abbreviation wpa := (wp (fun e _ => allowed e) (any_reply locals)).
Abbreviation trace := (list (io method * Z)).

(** Reads and the address of the table are always allowed. *)
Hypothesis allowed_read : forall a w, allowed (Read a w).
Hypothesis allowed_ext : forall y, match y with Call _ _ _ => True | _ => allowed (Ext y) end.

Lemma wpa_read a w (Q : Z -> trace -> Prop) tr : (forall x tr', Q x tr') -> wpa (read a w) Q tr.
Proof. intros HQ. apply wp_call; [apply allowed_read|]. auto. Qed.

Lemma wpa_write a w v (Q : unit -> trace -> Prop) tr : allowed (Write a w v) -> (forall tr', Q tt tr') -> wpa (write a w v) Q tr.
Proof. intros Ha HQ. unfold write. apply wp_bind, wp_call; [done|]. intros. by apply wp_ret. Qed.

Lemma wpa_target kind (Q : Z -> trace -> Prop) tr : 0 <= kind < 11 -> (forall x tr', Q x tr') -> wpa (target s3 kind) Q tr.
Proof.
  intros Hk HQ. unfold target, unchecked. destruct (lookup_lt_is_Some_2 (OFFSETS s3) (Z.to_nat kind)) as [o Ho].
  { unfold OFFSETS. destruct s3; simpl; lia. }
  rewrite Ho. apply wp_bind, wp_ret, wp_bind, wp_call; [apply (allowed_ext TableGlobal)|]. intros. apply wp_bind, wpa_read. intros. by apply wpa_read.
Qed.

Lemma wpa_call kind args (Q : Z -> trace -> Prop) tr :
  0 <= kind -> (forall t, allowed (Ext (Call t kind args))) -> (forall x tr', Q x tr') -> wpa (call_ s3 kind args) Q tr.
Proof.
  intros Hk Ha HQ. unfold call_. apply wp_bind.
  assert (forall t tr', wpa (ext (Call t kind args)) Q tr') as Hc by (intros; apply wp_call; auto).
  destruct (Z.ltb_spec kind 11); [by apply wpa_target|by apply wp_ret].
Qed.

Lemma wpa_do kind args (Q : unit -> trace -> Prop) tr :
  0 <= kind -> (forall t, allowed (Ext (Call t kind args))) -> (forall tr', Q tt tr') -> wpa (do_ s3 kind args) Q tr.
Proof. intros Hk Ha HQ. unfold do_. apply wp_bind, wpa_call; auto. Qed.

Lemma wpa_i2c v (Q : Z -> trace -> Prop) tr :
  (forall t kind args, kind = 0 \/ kind = 1 -> allowed (Ext (Call t kind args))) -> (forall x tr', Q x tr') -> wpa (i2c s3 v) Q tr.
Proof. intros Ha HQ. destruct v; apply wpa_call; auto; lia. Qed.

Lemma wpa_rmw a keep set (Q : unit -> trace -> Prop) tr : (forall v, allowed (Write a 4 v)) -> (forall tr', Q tt tr') -> wpa (rmw a keep set) Q tr.
Proof. intros Ha HQ. unfold rmw. apply wp_bind, wpa_read. intros. by apply wpa_write. Qed.

End Cal.

(** ** The search for a gain *)

(** Where the search can be after [k] steps, whatever the powers are *)
Definition moves (s : Z * Z) : list (Z * Z) :=
  (fun p => match adjusted {| coarse := s.1; fine := s.2; selected := 0 |} p with
            | Some s' => (coarse s', fine s')
            | None => s
            end) <$> [131073; 0].

Fixpoint reach (phase : Z) (k : nat) : list (Z * Z) :=
  match k with O => [(phase + 2, 24)] | S k' => reach phase k' ≫= moves end.

Lemma adjusted_moves s p s' : adjusted s p = Some s' -> (coarse s', fine s') ∈ moves (coarse s, fine s).
Proof.
  unfold moves, adjusted. destruct s as [c f g]. cbn. intros Hs.
  destruct (Z.ltb_spec 131072 p); [|destruct (Z.ltb_spec p 16384); [|done]]; simplify_eq.
  - destruct (c <? 6); by left.
  - right. destruct (0 <? c); by left.
Qed.

(** Trials are made in the gain table with a small fine gain; the last move may
    leave the fine gain at 44. *)
Definition reach_ok (k : nat) (s : Z * Z) : bool :=
  (0 <=? s.1) && (s.1 <=? 6) && (0 <=? s.2) && (s.2 <=? if (k <? 4)%nat then 24 else 44).

Lemma reach_bounds phase k s : phase = 0 \/ phase = 1 -> (k <= 4)%nat -> s ∈ reach phase k -> reach_ok k s = true.
Proof.
  intros Hp Hk Hs. assert (forallb (fun k => forallb (reach_ok k) (reach 0 k ++ reach 1 k)) (seq 0 5) = true) as Hf by (vm_compute; reflexivity).
  rewrite forallb_forall in Hf. specialize (Hf k). rewrite forallb_forall in Hf. apply Hf.
  - apply in_seq. lia.
  - apply list_elem_of_In, elem_of_app. destruct Hp as [->| ->]; auto.
Qed.

Section Iq.
Variable s3 : bool.
Variables C O St Pm output : Z.

(** What the search may do: coefficients and results are written, gains come
    from the table, fine gains are in range. *)
Definition iq_allowed (e : io method) : Prop :=
  match e with
  | Read _ _ => True
  | Write a w _ => (a = C \/ a = C + 2 \/ a = output \/ a = output + 2) /\ w = 2 \/ a = 0x6000607c /\ w = 4
  | Ext (Call _ kind args) =>
      if kind =? 5 then nth 0 args 0 ∈ gains
      else if kind =? 23 then 0 <= nth 2 args 0 <= 24
      else if kind =? 25 then 0 <= nth 1 args 0 <= 44
      else True
  | Ext _ => True
  end.

Abbreviation wpi := (wp (fun e _ => iq_allowed e) (any_reply (locals C O St Pm))).

Ltac iq_run :=
  repeat (cbv beta iota zeta; lazymatch goal with
  | |- wp _ _ (_ ≫= _) _ _ => apply wp_bind
  | |- wp _ _ (mret _) _ _ => apply wp_ret
  | |- wp _ _ (read _ _) _ _ => apply wpa_read; [by intros|intros]
  | |- wp _ _ (write _ _ _) _ _ => apply wpa_write; [cbn; lia|intros]
  | |- wp _ _ (update _ _) _ _ => apply wpa_rmw; [by intros|cbn; lia|intros]
  | |- wp _ _ (do_ _ _ _) _ _ => apply wpa_do; [by intros|by intros []|lia|cbn; try done|intros]
  | |- wp _ _ (call_ _ _ _) _ _ => apply wpa_call; [by intros|by intros []|lia|cbn; try done|intros]
  | |- wp _ _ (ext Param) _ _ => apply wp_call; [exact I|intros ? ? _]
  | |- wp _ _ (i2c _ _) _ _ => apply wpa_i2c; [by intros|by intros []|by intros ? ? ? [->| ->]|intros]
  | |- wp _ _ (if ?b then _ else _) _ _ => destruct b
  end).

Lemma trial_spec frequency coefficients logging phase gain fine (Q : Z -> list (io method * Z) -> Prop) tr :
  gain ∈ gains -> 0 <= fine <= 24 -> (forall p tr', Q p tr') ->
  wpi (trial s3 frequency coefficients logging phase gain fine) Q tr.
Proof.
  intros Hg Hf HQ. unfold trial. iq_run; auto. all: rewrite wrap_small by (unfold in_width; lia); lia.
Qed.

Lemma unchecked_spec l i (Q : Z -> list (io method * Z) -> Prop) tr :
  0 <= i < Z.of_nat (length l) -> (forall v, v ∈ l -> Q v tr) -> wpi (unchecked l i) Q tr.
Proof.
  intros Hi HQ. unfold unchecked. destruct (lookup_lt_is_Some_2 l (Z.to_nat i)) as [v Hv]; [lia|]. rewrite Hv.
  apply wp_ret, HQ. by eapply list_elem_of_lookup_2.
Qed.

Lemma iq_phase_spec frequency coefficients logging phase (Q : unit -> list (io method * Z) -> Prop) tr :
  phase = 0 \/ phase = 1 -> (forall tr', Q tt tr') -> wpi (iq_phase s3 frequency coefficients output logging phase) Q tr.
Proof.
  intros Hp HQ. unfold iq_phase. apply wp_bind.
  apply (wp_for_loop _ _ (fun rest s _ => exists k, (k <= 4)%nat /\ rest = range k 4 /\ (coarse s, fine s) ∈ reach phase k)).
  - exists 0%nat. split_and!; [lia|done|by left].
  - intros i l s tr1 (k & Hk & Hrest & Hs). unfold range in Hrest.
    destruct (4 - k)%nat as [|n] eqn:Hn; cbn [seq fmap list_fmap] in Hrest; simplify_eq.
    pose proof (reach_bounds phase k _ Hp ltac:(lia) Hs) as Hb. unfold reach_ok in Hb. cbn [fst snd] in Hb.
    rewrite (proj2 (Nat.ltb_lt k 4)) in Hb by lia.
    unfold iq_step. apply wp_bind, unchecked_spec; [cbn; lia|]. intros gain Hg. cbv zeta. cbn [fine].
    apply wp_bind, trial_spec; [done|lia|]. intros p tr2. apply wp_ret. destruct (adjusted _ p) as [s'|] eqn:Ha.
    + exists (S k). split_and!; [lia| |].
      * unfold range. by replace (4 - S k)%nat with n by lia.
      * apply adjusted_moves in Ha. cbn [reach]. apply list_elem_of_bind. by eexists.
    + cbn [fine selected]. iq_run; auto; rewrite ?wrap_small by (unfold in_width; lia); lia || (destruct Hp as [->| ->]; lia).
  - intros s tr1 (k & Hk & Hrest & Hs). pose proof (reach_bounds phase k _ Hp Hk Hs) as Hb. unfold reach_ok in Hb. cbn [fst snd] in Hb.
    assert (0 <= fine s <= 44) by (destruct (k <? 4)%nat; lia).
    iq_run; auto; rewrite ?wrap_small by (unfold in_width; lia); lia || (destruct Hp as [->| ->]; lia).
Qed.

Lemma iq_spec policy frequency logging (Q : unit -> list (io method * Z) -> Prop) tr :
  (forall tr', Q tt tr') -> wpi (iq s3 policy frequency output logging) Q tr.
Proof.
  intros HQ. unfold iq, hold. cbv zeta. apply wp_bind, wp_call; [done|]. intros c tr1 [Hc _]. cbn in Hc. subst c.
  iq_run; apply (wp_for_range _ _ (fun _ _ => True)); try lia; try done;
    intros; try (apply iq_phase_spec; [lia|done]); iq_run; auto.
Qed.

(** C38: the search for a gain stays in its tables.  Wherever the local buffers and the parameter block
    lie, as long as their addresses stay the same during the call, and whatever the hardware measures and
    the called methods answer, the IQ calibration returns: the unchecked index into the gain table is always in range, every trial uses a gain of the
    table and a fine gain between 0 and 24, and the result is computed at a fine gain between 0 and 44, so
    no conversion to a byte loses a bit.  Only the coefficient buffer, the two result halfwords and the
    control register are written. *)
Theorem gain_iq_bounded policy frequency logging answer :
  (forall tr e, locals C O St Pm e (answer tr e)) ->
  exists tr, exec (logged answer) (iq s3 policy frequency output logging) [] = Some (tt, tr) /\
    Forall (fun c => iq_allowed c.1) tr.
Proof.
  intros Ha. destruct (wp_logged iq_allowed (locals C O St Pm) (iq s3 policy frequency output logging) (fun _ _ => True) answer [] Ha)
    as ([] & tr & Hx & Hf & _); [by apply iq_spec|]. by exists tr.
Qed.

End Iq.

Definition local_at (C O St Pm : Z) (_ : list (io method * Z)) (e : io method) : Z :=
  match e with Ext (Local kind _) => if kind =? 0 then C else if kind =? 1 then O else St | Ext Param => Pm | _ => 0 end.

Lemma local_at_ok C O St Pm tr e : locals C O St Pm e (local_at C O St Pm tr e).
Proof. by destruct e as [| |[]]. Qed.

Lemma gain_iq_bounded_witness : exists tr,
  exec (logged (local_at 64 96 112 0x3fcef000)) (iq true 1 10 128 1) [] = Some (tt, tr) /\ Forall (fun c => iq_allowed 64 128 c.1) tr.
Proof. apply (gain_iq_bounded true 64 96 112 0x3fcef000 128 1 10 1 (local_at 64 96 112 0x3fcef000)). apply local_at_ok. Defined.

(** ** DC calibration *)
Ltac dc_run :=
  repeat (cbv beta iota zeta; lazymatch goal with
  | |- wp _ _ (_ ≫= _) _ _ => apply wp_bind
  | |- wp _ _ (mret _) _ _ => apply wp_ret
  | |- wp _ _ (read _ _) _ _ => apply wpa_read; [by intros|intros]
  | |- wp _ _ (target _ _) _ _ => apply wpa_target; [by intros|by intros []|lia|intros]
  | |- wp _ _ (do_ _ _ _) _ _ => apply wpa_do; [by intros|by intros []|lia|cbn; try done|intros]
  | |- wp _ _ (ext (Call _ 6 _)) _ _ => apply wp_call; [done|intros ? ? _]
  | |- wp _ _ (i2c _ _) _ _ => apply wpa_i2c; [by intros|by intros []|by intros ? ? ? [->| ->]|intros]
  end).

Section Dc.
Variable s3 : bool.
Variables C O St Pm : Z.
Variable a : dc_args.

(** Entries of the channel tables *)
Definition cells : Z := if s3 then 14 else 42.

Definition entry_of (base n address : Z) : Prop := exists k, 0 <= k < n /\ address = base + 4 * k.

(** What the calibration may do: its buffers and tables are written within
    their sizes, and statuses are reported into their buffer. *)
Definition dc_allowed (e : io method) : Prop :=
  match e with
  | Read _ _ => True
  | Write address w _ =>
      w = 2 /\ (address = C \/ address = C + 2) \/
      w = 4 /\ (entry_of (iq_at a) (9 + count a) address \/ entry_of (dc_at a) (middle a) address \/ entry_of (channels a) cells address) \/
      w = 1 /\ (St <= address < St + cells \/ address = Pm + 0x1f2)
  | Ext (Call _ kind args) => if kind =? 21 then St <= nth 5 args 0 < St + cells else True
  | Ext _ => True
  end.

(** The caller's contract *)
Record dc_bounds : Prop := {
  bound_count : 0 <= count a <= 42;
  bound_middle : 0 <= middle a <= 5;
  bound_locals : coefficients a = C /\ status_base a = St }.

Hypothesis Hb : dc_bounds.

Abbreviation wpd := (wp (fun e _ => dc_allowed e) (any_reply (locals C O St Pm))).
Abbreviation tr_t := (list (io method * Z)).

Abbreviation base := (if negb (policy a =? 0) then 0 else 9).

(** Where the indices are at a column of a channel *)
Definition ix_at (mode channel col : Z) (ix : indices) : Prop :=
  (mode = 0 -> iq_index ix = base + col) /\ (mode = 1 -> dc_index ix = col) /\
  (s3 = true -> channel_index ix = if mode =? 2 then channel + col else 0).

Definition in_domain (mode channel col : Z) : Prop :=
  0 <= mode <= 2 /\ 0 <= col < columns s3 a mode /\ 0 <= channel < (if mode =? 2 then 7 else 1).

Definition offset_of (mode channel col : Z) (ix : indices) : Z :=
  if s3 then channel_index ix * 2 else channel * columns s3 a mode * 2 + col.

Lemma offset_bound mode channel col ix : in_domain mode channel col -> ix_at mode channel col ix ->
  0 <= offset_of mode channel col ix < cells /\ (mode = 2 -> offset_of mode channel col ix + (if s3 then 1 else 3) < cells).
Proof.
  intros (Hm & Hc & Hch) (_ & _ & Hx). destruct Hb as [Hcount Hmid _]. unfold offset_of, cells, columns in *.
  destruct s3.
  - rewrite Hx by done. destruct (Z.eqb_spec mode 2) as [->|]; cbn in *; lia.
  - destruct (Z.eqb_spec mode 2) as [->|]; cbn in *; [lia|]. replace channel with 0 by lia.
    destruct (mode =? 0), (mode =? 1); lia.
Qed.

Lemma wpd_write address w v (Q : unit -> tr_t -> Prop) tr :
  dc_allowed (Write address w v) -> (forall tr', Q tt tr') -> wpd (write address w v) Q tr.
Proof. intros Ha HQ. apply wpa_write; auto. Qed.

Lemma dc_gain_spec mode channel col (Q : Z -> tr_t -> Prop) tr : in_domain mode channel col -> (forall g tr', Q g tr') ->
  wpd (dc_gain s3 a mode col) Q tr.
Proof.
  intros (Hm & Hc & _) HQ. destruct Hb as [_ Hmid _]. unfold dc_gain, columns in *.
  destruct (mode =? 0); [dc_run; auto|]. destruct (mode =? 1); [|dc_run; auto].
  unfold unchecked. destruct (lookup_lt_is_Some_2 table (Z.to_nat col)) as [v ->]; [cbn; lia|]. dc_run. auto.
Qed.

Lemma dc_prepare_spec mode (Q : unit -> tr_t -> Prop) tr : (forall tr', Q tt tr') -> wpd (dc_prepare s3 a mode) Q tr.
Proof.
  intros HQ. destruct Hb as [_ _ [HC _]]. unfold dc_prepare. destruct (mode =? 1); [dc_run; auto|]. destruct (mode =? 2); [|dc_run; auto].
  dc_run. apply wpd_write; [left; lia|]. intros. apply wpd_write; [left; lia|]. auto.
Qed.

Lemma dc_store_spec mode channel col ix tr : in_domain mode channel col -> ix_at mode channel col ix ->
  let offset := offset_of mode channel col ix in
  wpd (dc_store s3 a mode offset (status_base a + offset) ix) (fun ix' _ => ix_at mode channel (col + 1) ix') tr.
Proof.
  intros Hd Hx offset. pose proof (offset_bound mode channel col ix Hd Hx) as [Ho Ho2]. fold offset in Ho, Ho2.
  destruct Hd as (Hm & Hc & Hch), Hx as (Hx0 & Hx1 & Hx2). destruct Hb as [Hcount Hmid [HC HSt]].
  assert (Hand : forall x, 0 <= x < 255 -> Z.land (x + 1) 255 = x + 1).
  { intros x ?. change 255 with (Z.ones 8). rewrite land_ones_mod by lia. apply Z.mod_small. lia. }
  assert (Hbase : 0 <= base <= 9) by (destruct (negb _); lia).
  unfold dc_store, columns in *. dc_run. destruct (Z.eqb_spec mode 1) as [->|H1]; [|destruct (Z.eqb_spec mode 0) as [->|H0]]; cbn in Hc, Hch.
  - rewrite Hx1 by done. apply wp_bind, wpd_write.
    { right; left. split; [done|]. right; left. exists col. lia. }
    intros. apply wp_ret. unfold ix_at. cbn. rewrite Hand by lia. split_and!; done.
  - rewrite Hx0 by done. apply wp_bind, wpd_write.
    { right; left. split; [done|]. left. exists (base + col). lia. }
    intros. apply wp_ret. unfold ix_at. cbn. rewrite Hand by lia. split_and!; [lia|done|done].
  - assert (mode = 2) as -> by lia. cbn in Hc, Hch. specialize (Ho2 eq_refl).
    set (next := if s3 then 1 else _). assert (next = if s3 then 1 else 3) as Hnext by (unfold next; by destruct s3).
    apply wp_bind, wpd_write.
    { right; left. split; [done|]. right; right. exists offset. lia. }
    intros. apply wp_bind, wpd_write.
    { right; left. split; [done|]. right; right. exists (offset + next). rewrite Hnext. destruct s3; lia. }
    intros. apply wp_bind, wpa_read; [by intros|]. intros. apply wp_bind, wpd_write.
    { right; right. split; [done|]. left. rewrite HSt, Hnext. destruct s3; lia. }
    intros. apply wp_ret. unfold ix_at. cbn. split_and!; [lia|lia|]. intros Hs. rewrite Hs in *. rewrite Hx2 by done. cbn [Z.eqb Pos.eqb]. rewrite Hand; lia.
Qed.

Lemma dc_column_spec mode channel col ix tr : in_domain mode channel col -> ix_at mode channel col ix ->
  wpd (dc_column s3 a mode channel col ix) (fun ix' _ => ix_at mode channel (col + 1) ix') tr.
Proof.
  intros Hd Hx. pose proof (offset_bound mode channel col ix Hd Hx) as [Ho _]. destruct Hb as [_ _ [_ HSt]].
  unfold dc_column. apply wp_bind, (dc_gain_spec mode channel); [done|]. intros. dc_run.
  apply dc_prepare_spec. intros. fold (offset_of mode channel col ix). apply wp_bind, wpa_do; [by intros|by intros []|lia|cbn; rewrite HSt; lia|].
  intros. by apply dc_store_spec.
Qed.

Lemma dc_channel_spec mode channel ix tr :
  0 <= mode <= 2 -> 0 <= channel < (if mode =? 2 then 7 else 1) -> ix_at mode channel 0 ix ->
  wpd (dc_channel s3 a mode channel ix) (fun ix' _ => mode = 2 -> ix_at mode (channel + 1) 0 ix') tr.
Proof.
  intros Hm Hch Hx. destruct Hb as [Hcount Hmid _].
  assert (Hcols : 0 <= columns s3 a mode) by (unfold columns; destruct (mode =? 0), (mode =? 1), s3; lia).
  assert (Hloop : forall tr, wpd (for_each_with (range 0 (Z.to_nat (columns s3 a mode))) ix (dc_column s3 a mode channel))
                                (fun ix' _ => mode = 2 -> ix_at mode (channel + 1) 0 ix') tr).
  { intros tr1. apply (wp_for_each_range _ _ (fun k ix' _ => ix_at mode channel (Z.of_nat k) ix')); [lia|exact Hx| |].
    - intros k ix' tr2 Hk Hi. replace (Z.of_nat (S k)) with (Z.of_nat k + 1) by lia. apply dc_column_spec; [|done].
      split_and!; lia.
    - intros ix' tr2 (_ & _ & Hi) ->. unfold ix_at. split_and!; [lia..|]. intros Hs. rewrite (Hi Hs).
      unfold columns. rewrite Hs. cbn. lia. }
  unfold dc_channel. apply wp_bind. destruct (mode =? 2); [|by apply wp_ret].
  dc_run. destruct (negb (policy a =? 0)); dc_run; apply Hloop.
Qed.

Lemma dc_mode_spec mode (Q : unit -> tr_t -> Prop) tr : 0 <= mode <= 2 -> (forall tr', Q tt tr') -> wpd (dc_mode s3 a mode) Q tr.
Proof.
  intros Hm HQ. pose proof Hb as [_ _ [HC _]]. unfold dc_mode.
  set (ix0 := {| iq_index := _; dc_index := 0; channel_index := 0 |}).
  assert (Hloop : forall tr, wpd (for_each_with (range 0 (if mode =? 2 then 7 else 1)) ix0 (dc_channel s3 a mode) ;; mret tt) Q tr).
  { intros tr1. apply wp_bind. apply (wp_for_each_range _ _ (fun k ix' _ => k = 0%nat \/ mode = 2 -> ix_at mode (Z.of_nat k) 0 ix')).
    - lia.
    - intros _. unfold ix_at, ix0. cbn. split_and!; [lia|done|]. by destruct (mode =? 2).
    - intros k ix' tr2 Hk Hi. replace (Z.of_nat (S k)) with (Z.of_nat k + 1) by lia. destruct (Z.eqb_spec mode 2) as [->|Hne].
      + eapply wp_mono, dc_channel_spec; [|lia|cbn; lia|apply Hi; by right]. intros ? ? Hpost _. by apply Hpost.
      + eapply wp_mono, dc_channel_spec; [|lia| |apply Hi; left; lia]. { intros ? ? _ [?|?]; lia. }
        destruct (Z.eqb_spec mode 2); lia.
    - intros. by apply wp_ret. }
  apply wp_bind. destruct ((mode =? 0) || (mode =? 1)); [|apply wp_ret, Hloop].
  apply wp_bind, wpd_write; [left; lia|]. intros. apply wpd_write; [left; lia|]. intros. apply Hloop.
Qed.

Lemma dc_modes_spec fuel mode end_ (Q : unit -> tr_t -> Prop) tr :
  0 <= mode <= 3 -> end_ <= 3 -> end_ - mode <= Z.of_nat fuel -> (forall tr', Q tt tr') -> wpd (dc_modes s3 fuel a mode end_) Q tr.
Proof.
  revert mode tr. induction fuel as [|fuel IH]; intros mode tr Hm He Hf HQ; cbn [dc_modes]; destruct (Z.leb_spec end_ mode); try (by apply wp_ret); [lia|].
  apply wp_bind, dc_mode_spec; [lia|]. intros tr'. change 255 with (Z.ones 8). rewrite land_ones_mod, Z.mod_small by lia. apply IH; [lia..|done].
Qed.

End Dc.

(** C39: the DC calibration stays in its buffers.  Under the caller's contract (at most 42 codes, at most
    five middle entries, stages up to 2), whatever the estimator finds, the calibration returns; the
    unchecked table index is in range; it writes only its coefficients, the IQ table up to nine plus the
    number of codes, the DC table up to the number of middle entries, the channel table and the status
    buffer within their 14 entries on the S3 and 42 on the C3, and the channel parameter; and every status
    pointer it hands to the estimator lies in the status buffer. *)
Theorem gain_dc_confined s3 C O St Pm a0 a1 a2 codes iq_at dc_at channels a7 a8 a9 answer :
  (forall tr e, locals C O St Pm e (answer tr e)) ->
  0 <= byte s3 a1 <= 3 -> byte s3 a2 <= 3 -> 0 <= byte s3 a7 <= 42 -> (s3 = true -> u8 a8 <= 5) ->
  let args := {| policy := byte s3 a0; codes := codes; iq_at := iq_at; dc_at := dc_at; channels := channels;
                 count := byte s3 a7; middle := if s3 then u8 a8 else 4;
                 coefficients := C; output := O; status_base := St |} in
  exists tr, exec (logged answer) (dc s3 [a0; a1; a2; codes; iq_at; dc_at; channels; a7; a8; a9]) [] = Some (tt, tr) /\
    Forall (fun c => dc_allowed s3 C St Pm args c.1) tr.
Proof.
  intros Hans H1 H2 H7 H8 args.
  destruct (wp_logged (dc_allowed s3 C St Pm args) (locals C O St Pm)
    (dc s3 [a0; a1; a2; codes; iq_at; dc_at; channels; a7; a8; a9]) (fun _ _ => True) answer [] Hans) as ([] & tr & Hx & Hf & _); [|by exists tr].
  assert (Hb : dc_bounds C St args).
  { pose proof (wrap_range 8 a8). unfold in_width in *. split; cbn; [done|destruct s3; [specialize (H8 eq_refl)|]; lia|done]. }
  unfold dc. cbv zeta.
  apply wp_bind, wp_call; [exact I|]. intros ? tr1 [HC _]; cbn in HC; subst. apply wp_bind, wp_call; [exact I|]. intros ? tr2 [HO _]; cbn in HO; subst.
  apply wp_bind, wp_call; [exact I|]. intros ? tr3 [HS _]; cbn in HS; subst.
  fold args.
  assert (Hw : forall (Q : unit -> list (io method * Z) -> Prop) tr, (forall tr', Q tt tr') -> wp (fun e _ => dc_allowed s3 C St Pm args e)
    (any_reply (locals C O St Pm)) (if s3 then mret tt else p ← ext Param; write (p + 0x1f2) 1 14) Q tr).
  { intros Q tr HQ. destruct s3; [by apply wp_ret|]. apply wp_bind, wp_call; [exact I|]. intros ? ? [-> _]. apply wpd_write; [|done].
    right; right. split; [done|by right]. }
  dc_run. apply Hw. intros. unfold hold. destruct (negb (byte s3 a0 =? 0)); dc_run;
    apply (dc_modes_spec s3 C O St Pm args Hb); try lia; intros; dc_run; done.
Qed.

Lemma gain_dc_confined_witness :
  let args := {| policy := 0; codes := 0x1000; iq_at := 0x2000; dc_at := 0x3000; channels := 0x4000; count := 3; middle := 5;
                 coefficients := 64; output := 128; status_base := 192 |} in
  exists tr, exec (logged (local_at 64 128 192 512)) (dc true [0; 0; 3; 0x1000; 0x2000; 0x3000; 0x4000; 3; 5; 0]) [] = Some (tt, tr) /\
    Forall (fun c => dc_allowed true 64 192 512 args c.1) tr.
Proof.
  apply (gain_dc_confined true 64 128 192 512 0 0 3 0x1000 0x2000 0x3000 0x4000 3 5 0 (local_at 64 128 192 512)).
  - apply local_at_ok.
  - by vm_compute.
  - by vm_compute.
  - by vm_compute.
  - intros _. by vm_compute.
Defined.
