(* ===== verification/ChipMacSpec.v ===== *)
(** * What the MAC initialisation leaves in the registers

    The register block is a map of words, but for the power register of the
    MAC, whose lowest bit the hardware raises when it is ready.  A
    straight-line routine is a list of changes to registers; the changes to
    one register compose into one mask, so that the whole initialisation is a
    table of masks, one per register: [mac_defaults]. *)

From stdpp Require Import gmap.
From S2P Require Import Prelude Program PhyAccess ChipMac.

(** The power register of the MAC *)
Definition READY : Z := 0x60033d14.

(** A register with the bits to keep and the bits to set *)
Abbreviation change := (Z * (Z * Z))%type.

Definition masked (w : Z) (f : Z * Z) : Z := Z.lor (Z.land w f.1) f.2.
Definition apply_change (r : Z -> Z) (c : change) : Z -> Z := fun a => if a =? c.1 then masked (r a) c.2 else r a.

(** The registers, and how often the power register was read; its lowest bit
    is up from the read numbered [ready]. *)
Definition mac_registers (ready : nat) (e : io Empty_set) (s : (Z -> Z) * nat) : Z * ((Z -> Z) * nat) :=
  match e with
  | Read a _ =>
      if a =? READY then (Z.lor (Z.land (s.1 a) (not32 1)) (bool_to_Z (ready <=? s.2)%nat), (s.1, S s.2)) else (s.1 a, s)
  | Write a _ v => (0, (fun b => if b =? a then v else s.1 b, s.2))
  | Ext y => match y with end
  end.

(** ** Registers up to the order of the changes

    Two register maps are equal when every register is. *)
Abbreviation same_registers := (pointwise_relation Z (@eq Z)).

#[export] Instance apply_change_proper : Proper (same_registers ==> eq ==> same_registers) apply_change.
Proof. intros r r' Hr c ? <- a. unfold apply_change. by rewrite (Hr a). Qed.

#[export] Instance apply_changes_proper l : Proper (same_registers ==> same_registers) (fun r => foldl apply_change r l).
Proof. induction l as [|c l IHl]; intros r r' Hr; [done|]. apply IHl. by rewrite Hr. Qed.

(** ** Straight-line routines *)

(** The routine makes the changes of the list, and no others. *)
Definition straight (p : prog (io Empty_set) unit) (l : list change) : Prop :=
  forall ready r n, Forall (fun c => c.1 <> READY) l ->
    exists r', exec (mac_registers ready) p (r, n) = Some (tt, (r', n)) /\ same_registers r' (foldl apply_change r l).

Lemma straight_ret : straight (mret tt) [].
Proof. intros ready r n _. by exists r. Qed.

Lemma straight_bind p q l l' : straight p l -> straight q l' -> straight (p ≫= fun _ => q) (l ++ l').
Proof.
  intros Hp Hq ready r n Hf. apply Forall_app in Hf as [Hl Hl']. destruct (Hp ready r n Hl) as (r1 & H1 & Hr1).
  destruct (Hq ready r1 n Hl') as (r2 & H2 & Hr2). exists r2. rewrite exec_bind, H1. split; [exact H2|].
  rewrite foldl_app. etrans; [exact Hr2|]. by apply apply_changes_proper.
Qed.

Lemma straight_if (b : bool) p q l l' : straight p l -> straight q l' -> straight (if b then p else q) (if b then l else l').
Proof. by destruct b. Qed.

Lemma straight_for_all {I} (items : list I) body f : (forall i, straight (body i) (f i)) -> straight (for_all items body) (items ≫= f).
Proof. intros Hb. induction items as [|i items IHi]; [apply straight_ret|]. apply straight_bind; [apply Hb|exact IHi]. Qed.

Lemma straight_write a v : straight (mac_write a v) [(a, (0, v))].
Proof.
  intros ready r n _. eexists. split; [reflexivity|]. intros b. cbn [foldl]. unfold apply_change, masked. cbn.
  by rewrite Z.land_0_r.
Qed.

Lemma straight_update a k s : straight (update a k s) [(a, (k, s))].
Proof.
  intros ready r n Hf. apply Forall_cons in Hf as [Hf _]. cbn [fst] in Hf. unfold update, rmw, read. rewrite exec_bind, exec_call.
  cbn [mac_registers]. rewrite (proj2 (Z.eqb_neq a READY) Hf). eexists. split; [reflexivity|]. intros b.
  cbn [foldl]. unfold apply_change. cbn [fst snd]. by destruct (Z.eqb_spec b a) as [->|].
Qed.

Definition filter_changes (f : Z * (Z * Z * Z)) : list change :=
  let '(index, (config, value, mask)) := f in
  [(0x60033120 + index * 4, (0, config)); (0x6003313c + index * 4, (0, value)); (0x60033158 + index * 4, (0, mask))].

Lemma straight_filter f : straight (C3Mac.write_filter f) (filter_changes f).
Proof. destruct f as [i [[c v] m]]. apply (straight_bind _ _ [_]), (straight_bind _ _ [_]); apply straight_write. Qed.

Ltac straight_run :=
  repeat (cbv beta; lazymatch goal with
  | |- forall _, _ => intros ?
  | |- straight (update _ _ _) _ => apply straight_update
  | |- straight (mac_write _ _) _ => apply straight_write
  | |- straight (C3Mac.write_filter _) _ => apply straight_filter
  | |- straight (mret _) _ => apply straight_ret
  | |- straight (for_all _ _) _ => apply straight_for_all
  | |- straight (_ ≫= _) _ => apply straight_bind
  | |- straight (if _ then _ else _) _ => apply straight_if
  end).

(** ** The composition of the changes *)

Definition compose (f g : Z * Z) : Z * Z := (Z.land f.1 g.1, Z.lor (Z.land f.2 g.1) g.2).

Lemma masked_compose w f g : masked (masked w f) g = masked w (compose f g).
Proof.
  apply Z.bits_inj'. intros i Hi. unfold masked, compose. cbn [fst snd]. rewrite !Z.lor_spec, !Z.land_spec, !Z.lor_spec, !Z.land_spec.
  by destruct (Z.testbit w i), (Z.testbit f.1 i), (Z.testbit f.2 i), (Z.testbit g.1 i), (Z.testbit g.2 i).
Qed.

Definition merge (t : gmap Z (Z * Z)) (c : change) : gmap Z (Z * Z) :=
  <[c.1 := match t !! c.1 with Some f => compose f c.2 | None => c.2 end]> t.

Definition summary (l : list change) : gmap Z (Z * Z) := foldl merge ∅ l.

(** The value of a register after the changes of a table *)
Definition after_table (t : gmap Z (Z * Z)) (r : Z -> Z) (a : Z) : Z :=
  match t !! a with Some f => masked (r a) f | None => r a end.

Lemma after_merge t c r : same_registers (after_table (merge t c) r) (apply_change (after_table t r) c).
Proof.
  intros a. unfold after_table, merge, apply_change. destruct (Z.eqb_spec a c.1) as [->|Hne].
  - rewrite lookup_insert_eq. destruct (t !! c.1); [|done]. by rewrite masked_compose.
  - by rewrite lookup_insert_ne.
Qed.

Lemma summary_spec l r : same_registers (foldl apply_change r l) (after_table (summary l) r).
Proof.
  assert (Hg : forall t, same_registers (foldl apply_change (after_table t r) l) (after_table (foldl merge t l) r)).
  { induction l as [|c l IHl]; intros t; [done|]. cbn [foldl].
    etrans; [|apply IHl]. apply apply_changes_proper. symmetry. apply after_merge. }
  etrans; [|apply (Hg ∅)]. apply apply_changes_proper. intros a. unfold after_table. by rewrite lookup_empty.
Qed.

Lemma straight_summary p l : straight p l -> forallb (fun c => negb (c.1 =? READY)) l = true ->
  forall ready r n, exists r', exec (mac_registers ready) p (r, n) = Some (tt, (r', n)) /\ same_registers r' (after_table (summary l) r).
Proof.
  intros Hs Hl ready r n. destruct (Hs ready r n) as (r' & Hx & Hr).
  - apply Forall_forall. intros c Hc. rewrite forallb_forall in Hl. apply list_elem_of_In in Hc. specialize (Hl c Hc). lia.
  - exists r'. split; [exact Hx|]. etrans; [exact Hr|apply summary_spec].
Qed.

(** ** The initialisation *)

(** The routines before and after the clock is read, as lists of changes *)
Section Tail.
Import C3MacHelpers.

Definition init_tail (calibration : Z) : prg unit :=
  hal_timer_update_by_rtc 1 calibration ;;
  hal_coex_pti_init ;;
  hal_set_rx_active_pti 0 ;;
  hal_set_rx_ack_pti 0 ;;
  hal_set_wifi_default_pti 0.

Definition tail_changes (period : Z) : list change :=
  [(0x60035024, (ALL, 0x2000000)); (0x60035058, (0xfffc0000, period)); (0x60035084, (ALL, 2));
   (0x600332ac, (0xfffffff0, 0)); (0x600332ac, (0xffffff0f, 0)); (0x60035094, (0xfffff0ff, 0))].

Lemma straight_tail calibration : straight (init_tail calibration) (tail_changes (Z.land calibration 0x3ffff)).
Proof.
  unfold init_tail, hal_timer_update_by_rtc. cbn [Z.eqb negb].
  apply (straight_bind _ _ [_; _]). { apply (straight_bind _ _ [_]); apply straight_update. }
  apply (straight_bind _ _ [_]), (straight_bind _ _ [_]), (straight_bind _ _ [_]); apply straight_update.
Qed.

End Tail.

(** What the initialisation leaves behind: for each register the bits kept and
    the bits set.  [low] and [high] are the limits of the receive buffers, which
    differ between the chips, [period] is that of the slow clock. *)
Definition mac_defaults (low high period : Z) : list change :=
  (* low rates off *)
  [(0x6001c860, (0xfffff3ff, 0)); (0x6001c87c, (0xfffff7ff, 0))] ++
  (* filters of the first three interfaces *)
  ((fun i => (0x60033024 + 8 * i, (0xfffeffff, 0))) <$> range 0 3) ++
  ((fun i => (0x60033064 + 8 * i, (0xfffeffff, 0))) <$> range 0 3) ++
  (* reception stopped, with no DMA list *)
  [(0x60033080, (0xffffff00, 0)); (0x60033084, (0x7fffffff, 0)); (0x60033088, (0, 0)); (0x6003309c, (0xffff0000, 0x8100201))] ++
  (* receive policies *)
  ((fun i => (0x600330d8 + 4 * i, (0xfffff6cf, 0x45))) <$> range 0 3) ++
  [(0x600330e4, (0xfffff6df, 0x45)); (0x60033100, (0xffff, 0x5000000)); (0x60033104, (0xffff, 0x5000000));
   (0x60033108, (0xffff, 0)); (0x6003310c, (0xffff, 0)); (0x60033114, (0xffffff0f, 0)); (0x60033118, (0xf00fffff, 0x81b00000))] ++
  (* wake-up filters: configurations, values and masks *)
  [(0x6003311c, (ALL, 0x3f7e))] ++
  imap (fun i v => (0x60033120 + 4 * Z.of_nat i, (0, v))) [0x23006; 0x23006; 0x23006; 0x2301c; 0x2301c; 0x23011] ++
  imap (fun i v => (0x6003313c + 4 * Z.of_nat i, (0, v))) [0x608; 0x808; 0x8e88; 0x44004300; 0x43004400; 1] ++
  imap (fun i v => (0x60033158 + 4 * Z.of_nat i, (0, v))) [0xffff; 0xffff; 0xffff; ALL; ALL; 0xff] ++
  (* antenna and response priorities *)
  [(0x600332a8, (0xfffffff8, 0x20)); (0x600332ac, (0xffffff00, 0)); (0x600332b8, (ALL, 2))] ++
  (* response rates *)
  [(0x60033404, (0, 0x90a0b)); (0x60033408, (0, 0x50100)); (0x6003340c, (0, 0x19191919)); (0x60033410, (0, 0x90a0b));
   (0x60033414, (0, 0x50100)); (0x60033418, (0, 0))] ++
  (* crypto engine *)
  [(0x60033800, (0, 0x30000)); (0x60033804, (0, 0x30000)); (0x60033808, (0, 0)); (0x6003380c, (0, 0)); (0x60033810, (0, 0));
   (0x60033840, (ALL, 0x19))] ++
  (* interrupts and buffers *)
  [(0x60033c10, (0xfffff000, 0xc00000f0)); (0x60033c14, (0xfffff000, 0xf0)); (0x60033c18, (0xfffff000, 0xf0));
   (0x60033c34, (0, 0x19a879e0)); (0x60033c40, (0, ALL)); (0x60033c54, (ALL, 0xffff0000)); (0x60033c5c, (0xfff00000, low));
   (0x60033c60, (0xfff00000, high)); (0x60033c64, (0xfffff, 0x3fc00000)); (0x60033c6c, (ALL, 0x9080a300)); (0x60033c74, (ALL, 8));
   (0x60033c78, (ALL, 3)); (0x60033c88, (0xf0ffffff, 0)); (0x60033c94, (0xffffff0f, 0x40))] ++
  (* antenna of each transmit slot *)
  ((fun i => (0x60034100 + 0x4c * i, (0xffffffe0, 0x20))) <$> range 0 8) ++
  (* timer and coexistence *)
  [(0x60035024, (ALL, 0x2000000)); (0x60035058, (0xfffc0000, period)); (0x60035084, (ALL, 2));
   (0x60035094, (0xfffff0ff, 0))].

Ltac mac_changes := eexists; split; [
  cbv zeta; straight_run |
  split; [vm_compute; by split_and!|];
  intros; match goal with |- _ = ?t => vm_cast_no_check (eq_refl t) end].

Lemma init_changes_c3 : exists l, straight C3Mac.init_registers l /\
  (forallb (fun c => negb (c.1 =? READY)) l = true /\ summary l !! 0x600c0024 = None /\ summary l !! 0x60008054 = None) /\
  forall period, summary (l ++ tail_changes period) = list_to_map (mac_defaults 0xe0000 0x80000 period).
Proof.
  unfold C3Mac.init_registers, C3Mac.init_tx_rx, C3Mac.init_interface, C3Mac.init_rx_buffers, C3MacHelpers.hal_mac_rate_autoack_init,
    C3Phy.disable_low_rate, C3MacHelpers.hal_crypto_init, C3MacHelpers.hal_attenna_init. mac_changes.
Qed.

Lemma init_changes_s3 : exists l, straight S3Mac.init_registers l /\
  (forallb (fun c => negb (c.1 =? READY)) l = true /\ summary l !! 0x600c002c = None /\ summary l !! 0x60008054 = None) /\
  forall period, summary (l ++ tail_changes period) = list_to_map (mac_defaults 0xf8000 0x84000 period).
Proof.
  unfold S3Mac.init_registers, S3Mac.init_tx_rx, S3Mac.init_interface, S3Mac.init_rx_buffers, S3MacHelpers.hal_mac_rate_autoack_init,
    S3Phy.disable_low_rate, S3MacHelpers.hal_crypto_init, S3MacHelpers.hal_attenna_init. 
  change S3Mac.write_filter with C3Mac.write_filter. mac_changes.
Qed.

(** The period of the slow clock as the registers give it: one microsecond
    when the crystal is selected, and the calibrated value otherwise, with
    twelve fractional bits *)
Definition slow_clock (select : Z) (r : Z -> Z) : Z :=
  if Z.testbit (r select) 26 then 4096 else Z.shiftr (r 0x60008054) 7.

(** ** The wait *)

Lemma wait_ready_spec ready polls r n : exists k,
  exec (mac_registers ready) (C3Mac.wait_ready polls) (r, n) = Some (bool_decide (0 < polls /\ ready < n + polls)%nat, (r, k)).
Proof.
  revert n. induction polls as [|polls IH]; intros n; cbn [C3Mac.wait_ready].
  - exists n. rewrite bool_decide_eq_false_2 by lia. done.
  - unfold mac_read, read. rewrite exec_bind, exec_call. cbn [mac_registers]. rewrite Z.eqb_refl. cbn [fst snd mbind option_bind].
    rewrite Z.land_lor_distr_l, <- Z.land_assoc. change (Z.land (not32 1) 1) with 0.
    rewrite Z.land_0_r, Z.lor_0_l. destruct (Nat.leb_spec ready n) as [Hr|Hr].
    + eexists. cbn. rewrite bool_decide_eq_true_2 by lia. done.
    + destruct (IH (S n)) as [k Hk]. exists k. change (Z.land (bool_to_Z false) 1 =? 0) with true. cbv iota. rewrite Hk. do 2 f_equal.
      apply bool_decide_ext. lia.
Qed.

Lemma bit_of_mask v i : 0 <= i -> negb (Z.land v (Z.shiftl 1 i) =? 0) = Z.testbit v i.
Proof.
  intros Hi. rewrite Z.shiftl_1_l. destruct (Z.eqb_spec (Z.land v (2 ^ i)) 0) as [H0|H0]; cbn [negb].
  - assert (Z.testbit (Z.land v (2 ^ i)) i = false) as Ht by (rewrite H0; apply Z.bits_0).
    rewrite Z.land_spec, Z.pow2_bits_true, andb_true_r in Ht by lia. done.
  - destruct (Z.testbit v i) eqn:Ht; [done|]. destruct H0. apply Z.bits_inj'. intros j Hj.
    rewrite Z.land_spec, Z.pow2_bits_eqb, Z.bits_0 by lia. destruct (Z.eqb_spec i j) as [<-|]; [by rewrite Ht|apply andb_false_r].
Qed.

(** ** Both chips *)
Section Init.
Context (select low high : Z) (regs : prg unit) (l : list change).
Hypothesis Hregs : straight regs l.
Hypothesis Hl : forallb (fun c => negb (c.1 =? READY)) l = true /\ summary l !! select = None /\ summary l !! 0x60008054 = None.
Hypothesis Htable : forall period, summary (l ++ tail_changes period) = list_to_map (mac_defaults low high period).
Hypothesis Hselect : select <> READY.

Definition clock : prg Z :=
  selected ← mac_read select;
  if negb (Z.land selected (Z.shiftl 1 26) =? 0) then mret (Z.shiftl 1 12)
  else
    period ← mac_read 0x60008054;
    mret (Z.shiftr period 7).

Lemma clock_spec ready r n : exec (mac_registers ready) clock (r, n) = Some (slow_clock select r, (r, n)).
Proof.
  unfold clock, mac_read, read, slow_clock. rewrite exec_bind, exec_call. cbn [mac_registers].
  rewrite (proj2 (Z.eqb_neq select READY) Hselect). cbn [fst mbind option_bind]. rewrite bit_of_mask by lia. by destruct (Z.testbit (r select) 26).
Qed.

Definition init_of (polls : nat) : prg (option unit) :=
  update READY ALL 2 ;;
  ready ← C3Mac.wait_ready polls;
  if (ready : bool) then regs ;; calibration ← clock; init_tail calibration ;; mret (Some tt) else mret None.

Lemma init_of_spec polls ready r : exists r' n,
  let up := bool_decide (0 < polls /\ ready <= polls)%nat in
  exec (mac_registers ready) (init_of polls) (r, 0%nat) = Some (if up then Some tt else None, (r', n)) /\
  forall a, a <> READY ->
    r' a = if up then after_table (list_to_map (mac_defaults low high (Z.land (slow_clock select r) 0x3ffff))) r a else r a.
Proof.
  set (r0 := fun b : Z => if b =? READY then Z.lor (Z.land (Z.lor (Z.land (r READY) (not32 1)) (bool_to_Z (ready <=? 0)%nat)) ALL) 2 else r b).
  assert (Hr0 : forall a, a <> READY -> r0 a = r a) by (intros a Ha; unfold r0; by rewrite (proj2 (Z.eqb_neq a READY) Ha)).
  assert (Hclock : slow_clock select r0 = slow_clock select r) by (unfold slow_clock; by rewrite !Hr0).
  assert (Hup : exec (mac_registers ready) (update READY ALL 2) (r, 0%nat) = Some (tt, (r0, 1%nat))) by reflexivity.
  destruct (wait_ready_spec ready polls r0 1) as [k Hw]. unfold init_of. rewrite exec_bind, Hup. cbn [mbind option_bind].
  rewrite exec_bind, Hw. cbn [mbind option_bind].
  rewrite (bool_decide_ext (0 < polls /\ ready < 1 + polls)%nat (0 < polls /\ ready <= polls)%nat) by lia.
  clear Hw. destruct (bool_decide (0 < polls /\ ready <= polls)%nat); [|exists r0, k; split; [reflexivity|exact Hr0]].
  destruct Hl as (Hl1 & Hl2 & Hl3). destruct (straight_summary _ _ Hregs Hl1 ready r0 k) as (r1 & Hx1 & Hr1).
  assert (Hsame : slow_clock select r1 = slow_clock select r).
  { unfold slow_clock. rewrite !(Hr1 _). unfold after_table. rewrite Hl2, Hl3. exact Hclock. }
  destruct (straight_tail (slow_clock select r) ready r1 k) as (r2 & Hx2 & Hr2). { by repeat constructor. }
  exists r2, k. split.
  - rewrite exec_bind, Hx1. cbn [mbind option_bind]. rewrite exec_bind, clock_spec, Hsame. cbn [mbind option_bind].
    rewrite exec_bind, Hx2. done.
  - intros a Ha. rewrite <- Htable, (Hr2 a).
    assert (Hr1' : same_registers r1 (foldl apply_change r0 l)) by (etrans; [exact Hr1|symmetry; apply summary_spec]).
    rewrite (apply_changes_proper _ _ _ Hr1' a), <- foldl_app, (summary_spec _ _ a). unfold after_table. by rewrite (Hr0 a Ha).
Qed.
End Init.

(** C17: the MAC comes up with its documented defaults.  On both chips, whatever the registers hold and
    whenever the hardware reports that it is ready, the initialisation returns once the ready bit was seen
    and has then changed exactly the registers of the table, each in exactly the bits the table names: reception is
    stopped and has no DMA list, the interrupt mask, filters, response rates, crypto engine and antenna
    slots hold their defaults, and the timer has the period of the slow clock, cut to 18 bits.  The chips
    differ in the limits of the receive buffers and in the register that selects the slow clock.  If the MAC does not
    become ready, no register but its power register is touched. *)
Theorem mac_init_defaults (s3 : bool) polls ready r : exists r' n,
  let up := bool_decide (0 < polls /\ ready <= polls)%nat in
  let table := if s3 then mac_defaults 0xf8000 0x84000 (Z.land (slow_clock 0x600c002c r) 0x3ffff)
               else mac_defaults 0xe0000 0x80000 (Z.land (slow_clock 0x600c0024 r) 0x3ffff) in
  exec (mac_registers ready) (if s3 then S3Mac.init polls else C3Mac.init polls) (r, 0%nat) = Some (if up then Some tt else None, (r', n)) /\
  forall a, a <> READY -> r' a = if up then after_table (list_to_map table) r a else r a.
Proof.
  destruct s3.
  - destruct init_changes_s3 as (l & Hs & Hl & Ht). apply (init_of_spec 0x600c002c 0xf8000 0x84000 _ l Hs Hl Ht). done.
  - destruct init_changes_c3 as (l & Hs & Hl & Ht). apply (init_of_spec 0x600c0024 0xe0000 0x80000 _ l Hs Hl Ht). done.
Qed.

(** Switching the AGC off and on again, as a channel change does, leaves three
    registers changed: the threshold is the one for operation, the control
    bit is set and the hold is released.  The register of the PHY library's own
    routines, 0x6001c034, is untouched.  Both chips do the same. *)
Theorem agc_pair_registers (s3 : bool) ready r n : exists r',
  exec (mac_registers ready)
    (if s3 then S3Phy.disable_wifi_agc ;; S3Phy.enable_wifi_agc else C3Phy.disable_wifi_agc ;; C3Phy.enable_wifi_agc) (r, n) =
    Some (tt, (r', n)) /\
  same_registers r'
    (after_table (list_to_map [(0x6001c01c, (0xff00ffff, 0x200000)); (0x6001c038, (ALL, 0x80)); (0x6001c080, (0xfffffffe, 0))]) r).
Proof.
  assert (exists l, straight (C3Phy.disable_wifi_agc ;; C3Phy.enable_wifi_agc) l /\ forallb (fun c => negb (c.1 =? READY)) l = true /\
    summary l = list_to_map [(0x6001c01c, (0xff00ffff, 0x200000)); (0x6001c038, (ALL, 0x80)); (0x6001c080, (0xfffffffe, 0))])
    as (l & Hs & Hl & Ht).
  { eexists. unfold C3Phy.disable_wifi_agc, C3Phy.enable_wifi_agc. split; [straight_run|]. by vm_compute. }
  rewrite <- Ht. destruct (straight_summary _ _ Hs Hl ready r n) as (r' & Hx & Hr). exists r'. split; [|exact Hr]. by destruct s3.
Qed.
