(* ===== verification/PhyHelpersSpec.v ===== *)
(** * Theorems on the smaller PHY modules *)

From S2P Require Import Prelude Program PhyAccess PhyHelpers.

(** ** The spur estimate *)
Module SpurSpec.
Import Spur.

Section Power.
Variable level : nat -> Z.
Variable P : Z.

(** The environment: the conversion to decibels answers the levels in turn,
    the parameters are at [P], reads answer anything, and writes are recorded. *)
Definition spur_reply (e : io method) (s : nat * list (Z * Z)) (x : Z) (s' : nat * list (Z * Z)) : Prop :=
  match e with
  | Read _ _ => s' = s
  | Write a _ v => s' = (s.1, s.2 ++ [(a, v)])
  | Ext Parameter_ => x = P /\ s' = s
  | Ext (Call _ kind _) => if kind =? 6 then x = level s.1 /\ s' = (S s.1, s.2) else s' = s
  | Ext _ => s' = s
  end.

(** What the measurements number [i] give *)
Definition noise (i : nat) : Z := rounded (level (2 * i + 1)).
Definition spur (i : nat) : Z := rounded (level (2 * i)).

(** The first smallest noise of the first [n] measurements is number [j]. *)
Definition quietest (n j : nat) : Prop :=
  (j < n)%nat /\ (forall i, (i < n)%nat -> noise j <= noise i) /\ (forall i, (i < j)%nat -> noise j < noise i).

Lemma quietest_first : quietest 1 0.
Proof. split_and!; [lia| |lia]. intros i ?. by replace i with 0%nat by lia. Qed.

Lemma quietest_next n j : quietest n j -> quietest (S n) (if noise n <? noise j then n else j).
Proof.
  intros (Hj & Hmin & Hfirst). destruct (Z.ltb_spec (noise n) (noise j)) as [Hlt|Hge].
  - split_and!; [lia| |].
    + intros i Hi. destruct (decide (i = n)) as [->|]; [lia|]. specialize (Hmin i ltac:(lia)). lia.
    + intros i Hi. specialize (Hmin i ltac:(lia)). lia.
  - split_and!; [lia| |done]. intros i Hi. destruct (decide (i = n)) as [->|]; [lia|]. apply Hmin. lia.
Qed.

Abbreviation wps := (wp no_guard spur_reply).
Abbreviation st := (nat * list (Z * Z))%type.

Lemma wps_read a w (Q : Z -> st -> Prop) s : (forall x, Q x s) -> wps (read a w) Q s.
Proof. intros HQ. apply wp_call; [done|]. by intros x s' ->. Qed.

Lemma wps_write a w v (Q : unit -> st -> Prop) s : Q tt (s.1, s.2 ++ [(a, v)]) -> wps (write a w v) Q s.
Proof. intros HQ. unfold write. apply wp_bind, wp_call; [done|]. by intros x s' ->. Qed.

Lemma wps_target kind args (Q : Z -> st -> Prop) s : 0 <= kind ->
  (forall t, wps (ext (Call t kind args)) Q s) -> wps (call_ kind args) Q s.
Proof.
  intros Hk HQ. unfold call_. apply wp_bind. destruct (Z.ltb_spec kind 7); [|by apply wp_ret].
  apply wp_bind, wp_call; [done|]. intros g s' ->. apply wp_bind, wps_read. intros t.
  destruct (lookup_lt_is_Some_2 OFFSETS (Z.to_nat kind)) as [o ->]; [simpl; lia|]. by apply wps_read.
Qed.

Lemma wps_level args (Q : Z -> st -> Prop) s : Q (level s.1) (S s.1, s.2) -> wps (call_ 6 args) Q s.
Proof. intros HQ. apply wps_target; [lia|]. intros t. apply wp_call; [done|]. cbn. by intros x s' [-> ->]. Qed.

Lemma wps_do kind args (Q : unit -> st -> Prop) s : 0 <= kind -> kind <> 6 -> Q tt s -> wps (do_ kind args) Q s.
Proof.
  intros Hk H6 HQ. unfold do_. apply wp_bind, wps_target; [done|]. intros t. apply wp_call; [done|].
  intros x s' Hr. cbn [spur_reply] in Hr. rewrite (proj2 (Z.eqb_neq kind 6) H6) in Hr. by subst s'.
Qed.

Ltac spur_run :=
  repeat (cbv beta iota zeta; lazymatch goal with
  | |- wp _ _ (_ ≫= _) _ _ => apply wp_bind
  | |- wp _ _ (mret _) _ _ => apply wp_ret
  | |- wp _ _ (read _ _) _ _ => apply wps_read; intros ?
  | |- wp _ _ (write _ _ _) _ _ => apply wps_write
  | |- wp _ _ (call_ 6 _) _ _ => apply wps_level
  | |- wp _ _ (do_ _ _) _ _ => apply wps_do; [lia|lia|]
  end).

(** The state of the search after [k] measurements without a quiet one *)
Definition searching (k : nat) (b : estimate) (s : st) : Prop :=
  s = ((2 * k)%nat, []) /\ iteration b = Z.of_nat k /\ (forall i, (i < k)%nat -> 24 < noise i) /\
  (k <> 0%nat -> exists j, quietest k j /\ associated b = spur j /\ minimum b = noise j).

(** The search has ended after [n] measurements. *)
Definition found (n j : nat) (b : estimate) (s : st) : Prop :=
  s = ((2 * n)%nat, []) /\ (1 <= n <= 10)%nat /\ (forall i, (S i < n)%nat -> 24 < noise i) /\ (n = 10%nat \/ noise (n - 1) <= 24) /\
  quietest n j /\ associated b = spur j /\ minimum b = noise j.

Lemma power_step_spec i k b s : (k < 10)%nat -> searching k b s ->
  wps (power_step i b) (fun r s' => match r with Next b' => searching (S k) b' s' | Break b' => exists n j, found n j b' s' end) s.
Proof.
  intros Hk (-> & Hit & Hloud & Hbest). unfold power_step. spur_run. cbn [fst snd].
  replace (S (2 * k)) with (2 * k + 1)%nat by lia. fold (noise k) (spur k).
  set (b' := if (iteration b =? 0) || (noise k <? minimum b) then _ else b).
  assert (Hb : exists j, quietest (S k) j /\ associated b' = spur j /\ minimum b' = noise j /\ iteration b' = Z.of_nat k).
  { unfold b'. rewrite Hit. destruct (decide (k = 0%nat)) as [->|Hne].
    - exists 0%nat. split_and!; [apply quietest_first|done..].
    - destruct (Hbest Hne) as (j & Hq & Ha & Hm). exists (if noise k <? noise j then k else j). rewrite Hm.
      rewrite (proj2 (Z.eqb_neq (Z.of_nat k) 0)) by lia. cbn [orb]. split; [by apply quietest_next|].
      by destruct (noise k <? noise j). }
  clearbody b'. destruct Hb as (j & Hq & Ha & Hm & Hi). pose proof Hq as (Hj & Hmin & _).
  destruct (Z.leb_spec (minimum b') 24) as [Hle|Hgt]; apply wp_ret.
  - exists (S k), j. unfold found. split_and!; [f_equal; lia|lia|lia| | |done..].
    + intros i' Hi'. apply Hloud. lia.
    + right. replace (S k - 1)%nat with k by lia. destruct (decide (j = k)) as [->|]; [lia|].
      specialize (Hloud j ltac:(lia)). lia.
  - unfold searching. cbn. split_and!; [f_equal; lia|lia| |].
    + intros i' Hi'. specialize (Hmin i' ltac:(lia)). lia.
    + intros _. by exists j.
Qed.

(** What follows the search *)
Lemma power_end n j b s logging timer : found n j b s ->
  wps (do_ 9 [0; 128; 0; 0; 0; 0] ;; do_ 3 [0; 54] ;; param ← ext Parameter_;
       write (param + 0x2d7) 1 (associated b) ;; write (param + 0x2d8) 1 (minimum b) ;;
       if negb (u8 logging =? 0) then
         now ← read 0x60035000 4; do_ 10 [0; iteration b; u32 (now - timer); associated b; minimum b]
       else mret tt)
    (fun _ s => exists n j,
      ((1 <= n <= 10)%nat /\ (forall i, (S i < n)%nat -> 24 < noise i) /\ (n = 10%nat \/ noise (n - 1) <= 24) /\ quietest n j) /\
      s = ((2 * n)%nat, [(P + 0x2d7, spur j); (P + 0x2d8, noise j)])) s.
Proof.
  intros (-> & Hn & Hloud & Hend & Hq & -> & ->). spur_run. apply wp_call; [done|]. intros ? ? [-> ->]. spur_run. cbn [fst snd app].
  destruct (negb (u8 logging =? 0)); spur_run; by exists n, j.
Qed.

(** The spur estimate keeps the quietest of its measurements.  Whatever is measured, the estimate ends: it stops at
    the first noise level of at most 24, or after ten measurements, and not before; it stores the smallest
    noise level seen (the first one, if several are equal) and the spur level measured with it, each
    once, and writes nothing else. *)
Theorem spur_power_quietest logging h :
  obeys_contract no_guard spur_reply h -> exists n j,
  ((1 <= n <= 10)%nat /\ (forall i, (S i < n)%nat -> 24 < noise i) /\ (n = 10%nat \/ noise (n - 1) <= 24) /\ quietest n j) /\
  exec h (power logging) (0%nat, []) = Some (tt, ((2 * n)%nat, [(P + 0x2d7, spur j); (P + 0x2d8, noise j)])).
Proof.
  intros Hh.
  destruct (exec_wp no_guard spur_reply h (power logging) (fun _ s => exists n j,
    ((1 <= n <= 10)%nat /\ (forall i, (S i < n)%nat -> 24 < noise i) /\ (n = 10%nat \/ noise (n - 1) <= 24) /\ quietest n j) /\
    s = ((2 * n)%nat, [(P + 0x2d7, spur j); (P + 0x2d8, noise j)])) (0%nat, []) Hh) as ([] & s & Hx & n & j & Hn & ->).
  2: { by exists n, j. }
  unfold power. spur_run.
  apply (wp_for_loop _ _ (fun rest b s => exists k, (k <= 10)%nat /\ rest = range k 10 /\ searching k b s)).
  - exists 0%nat. split_and!; [lia|done|]. unfold searching. split_and!; [done|done|lia|done].
  - intros i l b s (k & Hk & Hrest & Hs). unfold range in Hrest.
    destruct (10 - k)%nat as [|n] eqn:Hn; cbn [seq fmap list_fmap] in Hrest; simplify_eq.
    eapply wp_mono, (power_step_spec _ k); [|lia|exact Hs]. intros [b'|b'] s' Hb.
    + exists (S k). split_and!; [lia| |done]. unfold range. by replace (10 - S k)%nat with n by lia.
    + destruct Hb as (n' & j & Hf). by apply (power_end n' j).
  - intros b s (k & Hk & Hrest & Hs). unfold range in Hrest. destruct (10 - k)%nat as [|n] eqn:Hn; [|done].
    assert (k = 10%nat) as -> by lia. destruct Hs as (-> & Hit & Hloud & Hbest). destruct (Hbest ltac:(done)) as (j & Hq & Ha & Hm).
    apply (power_end 10 j). unfold found. split_and!; [done|lia|lia| |by left|done..]. intros i Hi. apply Hloud. lia.
Qed.
End Power.

(** An environment in which the noise falls with every measurement *)
Definition falling (i : nat) : Z := 1000 - 100 * Z.of_nat (i / 2).

Definition spur_ref (e : io method) (s : nat * list (Z * Z)) : Z * (nat * list (Z * Z)) :=
  match e with
  | Read _ _ => (0, s)
  | Write a _ v => (0, (s.1, s.2 ++ [(a, v)]))
  | Ext Parameter_ => (0x3000, s)
  | Ext (Call _ kind _) => if kind =? 6 then (falling s.1, (S s.1, s.2)) else (0, s)
  | Ext _ => (0, s)
  end.

Lemma spur_ref_obeys : obeys_contract no_guard (spur_reply falling 0x3000) spur_ref.
Proof. intros [| |[| |t kind args|]] s _; cbn; try done. by destruct (kind =? 6). Qed.

Lemma spur_power_quietest_witness : exists n j,
  ((1 <= n <= 10)%nat /\ (forall i, (S i < n)%nat -> 24 < noise falling i) /\ (n = 10%nat \/ noise falling (n - 1) <= 24) /\ quietest falling n j) /\
  exec spur_ref (power 0) (0%nat, []) = Some (tt, ((2 * n)%nat, [(0x3000 + 0x2d7, spur falling j); (0x3000 + 0x2d8, noise falling j)])).
Proof. apply (spur_power_quietest falling 0x3000 0 spur_ref). apply spur_ref_obeys. Defined.

(** It takes eight measurements. *)
Example spur_power_falling : exec spur_ref (power 0) (0%nat, []) = Some (tt, (16%nat, [(0x32d7, 19); (0x32d8, 19)])).
Proof. vm_compute. reflexivity. Qed.

End SpurSpec.

(** ** The RC calibration *)
Module AnalogSpec.
Import Analog.

Section Rc.
Variable s3 : bool.
Variable P : Z.

(** The parameters are at [P]; everything else answers anything. *)
Definition param_at (e : io method) (x : Z) : Prop := match e with Ext Param => x = P | _ => True end.

(** The sample, the eight codes and the flag that the calibration was done *)
Definition rc_allowed (e : io method) : Prop :=
  match e with
  | Write a w v =>
      w = 1 /\ a = P + 0x166 /\ is_u8 v \/
      w = 1 /\ P + 0x167 <= a < P + 0x16f /\ 2 <= v <= 63 \/
      w = 4 /\ a = P + 0x120 /\ Z.testbit v 23 = true
  | _ => True
  end.

Abbreviation wpr := (wp (fun e _ => rc_allowed e) (any_reply param_at)).
Abbreviation trc := (list (io method * Z)).

Lemma wpr_read a w (Q : Z -> trc -> Prop) tr : (forall x tr', Q x tr') -> wpr (read a w) Q tr.
Proof. intros HQ. by apply wp_call. Qed.

Lemma wpr_write a w v (Q : unit -> trc -> Prop) tr : rc_allowed (Write a w v) -> (forall tr', Q tt tr') -> wpr (write a w v) Q tr.
Proof. intros Ha HQ. unfold write. apply wp_bind, wp_call; [done|]. intros. apply HQ. Qed.

Lemma wpr_ext y (Q : Z -> trc -> Prop) tr : (forall x tr', Q x tr') -> wpr (ext y) Q tr.
Proof. intros HQ. by apply wp_call. Qed.

Lemma write_codes_spec base values (Q : unit -> trc -> Prop) tr :
  length values = 4%nat -> base = P + 0x167 \/ base = P + 0x16b -> (forall tr', Q tt tr') -> wpr (write_codes base values) Q tr.
Proof.
  intros Hlen Hb HQ. unfold write_codes. rewrite Hlen.
  apply (wp_for_all _ _ (fun l _ => Forall (fun e => 0 <= e.1 < 4) l)).
  - destruct values as [|v0 [|v1 [|v2 [|v3 [|]]]]]; try done. by repeat constructor.
  - intros [k v] l tr' Hl. apply Forall_cons in Hl as [Hk Hl]. cbn [fst snd] in *. apply wpr_write; [|done]. right; left.
    assert (2 <= clamp 2 63 v <= 63) by (unfold clamp; lia). rewrite wrap_small by (unfold in_width; lia). lia.
  - intros. apply HQ.
Qed.

Ltac rc_run :=
  repeat (cbv beta iota zeta; lazymatch goal with
  | |- wp _ _ (_ ≫= _) _ _ => apply wp_bind
  | |- wp _ _ (mret _) _ _ => apply wp_ret
  | |- wp _ _ (read _ _) _ _ => apply wpr_read; intros
  | |- wp _ _ (ext _) _ _ => apply wpr_ext; intros
  | |- wp _ _ (write_codes _ _) _ _ => apply write_codes_spec; [done|auto|intros]
  end).

Lemma divisors_spec mode (Q : Z * Z -> trc -> Prop) tr : (forall d tr', Q d tr') -> wpr (divisors s3 mode) Q tr.
Proof. intros HQ. unfold divisors. destruct (mode =? 0); [by apply wp_ret|]. destruct s3; [by apply wp_ret|]. rc_run. apply HQ. Qed.

Lemma double_code_spec n d (Q : Z -> trc -> Prop) tr : (forall x tr', Q x tr') -> wpr (double_code n d) Q tr.
Proof. intros HQ. unfold double_code. rc_run. apply HQ. Qed.

Lemma calibrate_spec (Q : unit -> trc -> Prop) tr : (forall tr', Q tt tr') -> wpr (calibrate s3) Q tr.
Proof.
  intros HQ. unfold calibrate. apply wp_bind, wp_call; [exact I|]. intros param tr1 [Hp _]. cbn in Hp. subst param. rc_run.
  destruct (negb (Z.land x (Z.shiftl 1 23) =? 0)); [by apply wp_ret|]. rc_run. apply divisors_spec. intros ht tr2. rc_run.
  apply wpr_write; [left; split_and!; [done|done|by apply wrap_range]|]. intros. rc_run.
  apply double_code_spec. intros. rc_run. apply double_code_spec. intros. rc_run.
  apply wpr_write; [|done]. right; right. split_and!; [done|done|]. rewrite Z.lor_spec. apply orb_true_r.
Qed.

(** Whatever the analog part answers, a zero divisor and any result of the
    double arithmetic included, the calibration returns and every filter code
    it stores is between 2 and 63; apart from the codes it only writes the
    sample and the flag that says it was done. *)
Theorem rc_codes_in_range answer : (forall tr e, param_at e (answer tr e)) ->
  exists tr, exec (logged answer) (calibrate s3) [] = Some (tt, tr) /\ Forall (fun c => rc_allowed c.1) tr.
Proof.
  intros Ha. destruct (wp_logged rc_allowed param_at (calibrate s3) (fun _ _ => True) answer [] Ha)
    as ([] & tr & Hx & Hf & _); [by apply calibrate_spec|]. by exists tr.
Qed.
End Rc.

(** A calibration whose flag is set is not repeated. *)
Lemma calibrate_once s3 P answer : (forall tr e, param_at P e (answer tr e)) ->
  (forall tr, Z.testbit (answer tr (Read (P + 0x120) 4)) 23 = true) ->
  exists tr, exec (logged answer) (calibrate s3) [] = Some (tt, tr) /\ length tr = 2%nat.
Proof.
  intros Ha Hb. unfold calibrate, ext, read. rewrite exec_bind, exec_call. cbn [logged mbind option_bind fst snd].
  rewrite exec_bind, exec_call. cbn [logged mbind option_bind]. rewrite (Ha [] (Ext Param) : answer [] (Ext Param) = P).
  set (v := answer _ (Read _ _)). assert (Hv : Z.testbit v 23 = true) by apply Hb.
  destruct (Z.eqb_spec (Z.land v (Z.shiftl 1 23)) 0) as [H0|_].
  - assert (Z.testbit (Z.land v (Z.shiftl 1 23)) 23 = false) as Ht by (rewrite H0; apply Z.bits_0).
    rewrite Z.land_spec, Hv in Ht. done.
  - eexists. split; [reflexivity|done].
Qed.
End AnalogSpec.

(** ** IQ fields, filter codes and interpolation *)
Module DebugSpec.
Import Debug.

(** Shifting a field to the top of a word and back extends its sign. *)
Lemma sext_shift k x : 0 <= k < 32 -> Z.shiftr (i32 (u32 (Z.shiftl x k))) k = sext (32 - k) x.
Proof.
  intros Hk. rewrite sext_wrap, Z.shiftl_mul_pow2, Z.shiftr_div_pow2 by lia. unfold sext, wrap.
  assert (Hp : 2 ^ 32 = 2 ^ (32 - k) * 2 ^ k) by (rewrite <- Z.pow_add_r by lia; f_equal; lia).
  assert (Hh : 2 ^ (32 - 1) = 2 ^ (32 - k - 1) * 2 ^ k) by (rewrite <- Z.pow_add_r by lia; f_equal; lia).
  pose proof (Z.pow_pos_nonneg 2 k ltac:(lia) ltac:(lia)). pose proof (Z.pow_pos_nonneg 2 (32 - k) ltac:(lia) ltac:(lia)).
  rewrite Hp, Hh, Z.mul_mod_distr_r by lia. set (r := x mod 2 ^ (32 - k)).
  destruct (Z.ltb_spec (r * 2 ^ k) (2 ^ (32 - k - 1) * 2 ^ k)), (Z.ltb_spec r (2 ^ (32 - k - 1))); try nia.
  - by rewrite Z.div_mul by lia.
  - rewrite <- Z.mul_sub_distr_r. by rewrite Z.div_mul by lia.
Qed.

(** The packed form of a gain of [width] bits and a phase of six *)
Definition packed_iq (width gain phase : Z) : Z := Z.lor (Z.shiftl (wrap width gain) 6) (wrap 6 phase).

Lemma packed_iq_fields width gain phase : 0 < width ->
  wrap width (Z.shiftr (packed_iq width gain phase) 6) = wrap width gain /\ wrap 6 (packed_iq width gain phase) = wrap 6 phase.
Proof.
  intros Hw. unfold packed_iq. pose proof (wrap_range 6 phase ltac:(lia)) as Hp. unfold in_width in Hp.
  rewrite Z.shiftl_mul_pow2, lor_disjoint_add, Z.shiftr_div_pow2 by lia. split.
  - rewrite Z.div_add_l, Z.div_small, Z.add_0_r by lia. apply wrap_idem.
  - unfold wrap at 1. rewrite Z.add_comm, Z.mod_add by lia. apply Z.mod_small. done.
Qed.

(** Unpacking is the inverse of packing: from the packed coefficients of a
    gain and a phase in range the routine stores that gain and that phase, and
    nothing else.  The gain has five bits for selector 0 and six otherwise. *)
Theorem iq_unpacks s3 destination gain phase selector answer :
  let width := if selector =? 0 then 5 else 6 in
  is_u8 selector -> in_swidth width gain -> in_swidth 6 phase ->
  exists x y, exec (logged answer) (iq s3 destination (packed_iq width gain phase) selector) [] =
    Some (tt, [(WriteIq destination 0 gain, x); (WriteIq destination 1 phase, y)]).
Proof.
  intros width Hsel Hg Hp.
  assert (Hw : 5 <= width <= 6) by (unfold width; destruct (selector =? 0); lia).
  destruct (packed_iq_fields width gain phase ltac:(lia)) as [H1 H2].
  assert (Hsize : in_width 16 (packed_iq width gain phase)).
  { unfold packed_iq. rewrite Z.shiftl_mul_pow2 by lia. pose proof (wrap_range width gain ltac:(lia)) as Hr.
    pose proof (wrap_range 6 phase ltac:(lia)) as Hr'. unfold in_width in *.
    assert (2 ^ width <= 2 ^ 6) by (apply Z.pow_le_mono_r; lia). rewrite lor_disjoint_add by lia. lia. }
  unfold iq. replace (if s3 then u16 (packed_iq width gain phase) else _) with (packed_iq width gain phase)
    by (destruct s3; [by rewrite wrap_small|done]).
  replace (if s3 then u8 selector else selector) with selector by (destruct s3; [by rewrite wrap_small|done]).
  cbv zeta. fold width. rewrite !sext_shift by lia. replace (32 - (32 - width)) with width by lia. change (32 - 26) with 6.
  rewrite (sext_cong _ _ _ H1), (sext_cong 6 (packed_iq width gain phase) phase H2), (sext_small width gain), (sext_small 6 phase) by (done || lia).
  assert (in_swidth 8 gain /\ in_swidth 8 phase) as [Hg8 Hp8].
  { unfold in_swidth in *. assert (2 ^ (width - 1) <= 2 ^ 5) by (apply Z.pow_le_mono_r; lia). lia. }
  rewrite !sext_small by (done || lia). by eexists _, _.
Qed.
End DebugSpec.

Module FeatureSpec.
Import Feature.

(** The filter code fits its register, and the subtraction does not wrap. *)
Lemma computed_range parameter narrow : is_u8 parameter -> 49 <= computed parameter narrow <= 63.
Proof.
  intros Hp. unfold in_width in Hp. unfold computed.
  assert (57 <= (parameter + 56) * 103 / (if narrow =? 0 then 100 else 50)) by (destruct (narrow =? 0); apply Z.div_le_lower_bound; lia).
  lia.
Qed.
End FeatureSpec.

Module BasicSpec.
Import Basic.

(** The byte difference, taken with signs, leads from one byte to the other. *)
Lemma byte_difference a b : is_u8 a -> is_u8 b -> u8 (a + (i8 b - i8 a)) = b.
Proof.
  intros Ha Hb. rewrite <- wrap_add_r, <- wrap_sub_l, <- wrap_sub_r, !wrap_sext by lia.
  rewrite wrap_sub_l, wrap_sub_r, wrap_add_r. replace (a + (b - a)) with b by lia. by apply wrap_small.
Qed.

(** At the channels the calibration was made for, the interpolation gives the
    calibrated values; above channel 11 it adds two to the last. *)
Lemma interpolate_calibrated (c : Z -> Z) :
  (forall i, is_u8 (c i)) ->
  let at_channel ch v := exists tr, exec (logged (fun _ => c)) (interpolate ch) [] = Some (v, tr) in
  at_channel 1 (c 0) /\ at_channel 6 (c 1) /\ at_channel 11 (c 2) /\ (forall ch, 12 <= ch <= 14 -> at_channel ch (u8 (c 2 + 2))).
Proof.
  intros Hc at_channel. unfold at_channel, interpolate. split_and!.
  - eexists. cbv zeta. change (u8 (1 - 1)) with 0. cbn -[Z.quot wrap sext Z.mul]. rewrite Z.mul_0_r. change (Z.quot 0 5) with 0.
    rewrite Z.add_0_r, (wrap_small 8) by apply Hc. done.
  - eexists. cbv zeta. change (u8 (6 - 1)) with 5. cbn -[Z.quot wrap sext Z.mul]. rewrite Z.quot_mul, byte_difference by (apply Hc || lia). done.
  - eexists. cbv zeta. change (u8 (11 - 1)) with 10. cbn -[Z.quot wrap sext Z.mul]. change (10 - 5) with 5. rewrite Z.quot_mul, byte_difference by (apply Hc || lia). done.
  - intros ch Hch. assert (ch = 12 \/ ch = 13 \/ ch = 14) as [->|[->| ->]] by lia; by eexists.
Qed.
End BasicSpec.
