(* ===== verification/BuildScript.v ===== *)
(** * The build script: linking the Rust routines in place of the vendor's

    Models [build.rs].  For the C3 and the S3 the script writes linker scripts
    that assign each replaced symbol of the vendor library to the exported
    Rust routine; a list below is one list of the source, in its order, and [libraries] the linker
    scripts.  [main] is the script itself: the lines it prints for cargo and
    the files it writes to the output directory. *)

From stdpp Require Import strings.
From S2P Require Import Prelude External.
#[local] Open Scope list_scope.
#[local] Open Scope Z_scope.

Module Build.

(** ** Configuration flags *)

Definition meta_name (m : Meta) : string :=
  match m with
  | PWR_INTERRUPT_PRESENT => "pwr_interrupt_present"
  | OSI_FUNCS_REQUIRED => "osi_funcs_required"
  | NOMAC_CHANNEL_SET => "nomac_channel_set"
  | OSI_FUNCS_IN_ROM => "osi_funcs_in_rom"
  | TSF_TIMER_PRESENT => "tsf_timer_present"
  end%string.

Definition chip_name (c : Chip) : string :=
  match c with Esp32 => "esp32" | Esp32s2 => "esp32s2" | Esp32s3 => "esp32s3" | Esp32c3 => "esp32c3" end%string.

(** ** Replaced symbols, with the suffix of the routine *)
Section Tables.
Variable s3 : bool.

Definition temperature : list (string * string) :=
  zip (if s3 then ["tsens_dac_to_index"; "tsens_dac_cal_new"; "ram_tsens_temp_read_new"; "phy_get_tsens_value"; "ram_tsens_temp_read"]
       else ["tsens_dac_to_index"; "tsens_dac_cal1"; "tsens_temp_read1"; "phy_get_tsens_value"; "rom1_tsens_temp_read"])
    ["decode"; "range"; "inner"; "forward"; "outer"]%string.

Definition lifecycle : list (string * string) :=
  if s3 then
   [("phy_set_tsens_power", "power"); ("phy_xpd_tsens", "xpd"); ("tsens_read_init_new", "init");
    ("ram_tsens_code_read", "code"); ("ram_temp_to_power", "temp_to_power"); ("get_temp_init", "get_init");
    ("phy_tsens_attribute", "attribute")]
  else
   [("phy_set_tsens_power", "power"); ("phy_xpd_tsens", "xpd"); ("rom2_tsens_read_init1", "init");
    ("rom2_temp_to_power1", "temp_to_power"); ("get_temp_init", "get_init"); ("phy_tsens_attribute", "attribute")].

Definition reg : list (string * string) :=
  [(if s3 then ("ram_set_pbus_reg", "pbus") else ("ram1_set_pbus_reg", "pbus"));
   (if s3 then ("ram_wifi_tx_dig_gain_reg", "digital_gain") else ("rom1_tx_paon_set", "paon"));
   ("btbb_wifi_bb_cfg2", "btbb");
   ("rx_agc_reg_opt", "agc_options");
   ("rx_11b_opt", "options_11b");
   (if s3 then ("ram_disable_wifi_agc", "disable_agc") else ("rom1_disable_wifi_agc", "disable_agc"));
   (if s3 then ("ram_enable_wifi_agc", "enable_agc") else ("rom1_enable_wifi_agc", "enable_agc"));
   (if s3 then ("ram_fe_i2c_reg_renew", "renew") else ("ram1_fe_i2c_reg_renew", "renew"));
   ("phy_wifi_enable_set", "wifi_enable");
   ("txiq_set_reg", "tx_iq");
   ("rxiq_set_reg", "rx_iq");
   ("start_tx_tone_step", "start_tone");
   ("stop_tx_tone", "stop_tone");
   (if s3 then ("ram_set_noise_floor", "noise_floor") else ("rom1_set_noise_floor", "noise_floor"));
   ("phy_freq_correct", "frequency_correct");
   ("force_txrx_off", "force_off")].

Definition rx_gain : list (string * string) :=
  [("gen_rx_gain_table", "generate"); ("wr_rx_gain_mem", "write_memory"); ("set_rx_gain_param", "set_param");
   ("set_rx_gain_table", "set_table"); ("phy_rx_table_init", "initialize")].

Definition tx_gain : list (string * string) :=
  if s3 then
   [("ram_wifi_tx_dig_gain", "digital"); ("bt_chan_pwr_interp", "interpolate"); ("ram_get_rate_fcc_index", "fcc");
    ("ram_get_chan_target_power", "limits"); ("get_tx_gain_value", "lookup"); ("ram_bt_get_tx_gain", "bt_get");
    ("ram_wifi_get_tx_gain", "wifi_get"); ("ram_wifi_set_tx_gain", "wifi_set"); ("ram_bt_set_tx_gain", "bt_set");
    ("bt_tx_gain_init", "bt_initialize"); ("tx_gain_set", "calibration_tables"); ("dig_gain_check", "dig_check")]
  else
   [("rom1_wifi_tx_dig_gain", "digital"); ("bt_chan_pwr_interp", "interpolate"); ("rom1_get_rate_fcc_index", "fcc");
    ("rom1_get_chan_target_power", "limits"); ("rom2_get_tx_gain_value1", "lookup");
    ("rom1_bt_get_tx_gain_new", "bt_get"); ("rom1_wifi_get_tx_gain", "wifi_get"); ("ram1_wifi_set_tx_gain", "wifi_set");
    ("rom1_bt_set_tx_gain", "bt_set"); ("bt_tx_gain_init", "bt_initialize"); ("txcal_gain_check", "calibration_tables")].

Definition rx_controls : list (string * string) :=
  [("rfrx_sat_rst", "reset"); ("phy_force_rx_gain_trig", "trigger"); ("ram_iq_est_enable", "estimate");
   ("phy_check_rx_sat", "check")].

Definition rx_iq : list (string * string) :=
  [("rxiq_get_mis", "mismatch"); ("rxiq_cover_mg_mp", "correct")].

Definition rf_iq : list (string * string) :=
  [("rfcal_rxiq", "sample"); ("get_rfcal_rxiq_data", "collect")].

Definition rx_dc : list (string * string) :=
  [(if s3 then "rxdc_est_min" else "rxdc_est_min_new", "minimum"); ("rx_chan_dc_sort", "sort")]%string.

Definition dc_search : list (string * string) :=
  [("pbus_rx_dco_cal", "general"); (if s3 then "pbus_rx_dco_cal_1step" else "pbus_rx_dco_cal_1step_new", "one_step")]%string.

Definition rx_gain_cal : list (string * string) :=
  [("set_rx_gain_cal_iq", "iq"); ("set_rx_gain_cal_dc", "dc")].

Definition spur : list (string * string) :=
  if s3 then [("spur_coef_cfg_new", "config"); ("phy_2448m_spur_pwr", "power")] else [].

Definition tx_detector : list (string * string) :=
  [("pwdet_ref_code", "reference"); ("pwdet_code_cal", "calibrate")].

Definition txiq : list (string * string) :=
  [("txiq_get_mis_pwr", "measure"); ("get_power_atten", "attenuation")] ++
  [("txiq_cal_init", "initialize"); ("bt_txiq_cal", "bluetooth")] ++
  [("txiq_cover", "search"); ("rfcal_txiq", "calibrate")].

Definition init_names : list (string * string) :=
  if s3 then
   [("phy_get_romfunc_addr", "callbacks"); ("rf_init", "rf"); ("register_chipv7_phy_init_param", "init_param");
    ("phy_set_mac_data", "mac_data"); ("phy_rfcal_data_sub", "transfer"); ("rf_cal_data_recovery", "recovery");
    ("phy_rfcal_data_check_value", "check_value"); ("rf_cal_data_backup", "backup"); ("phy_rfcal_data_check", "check");
    ("bb_init", "bb"); ("register_chipv7_phy", "register"); ("pwr_limit_force", "power_limits");
    ("esp_phy_efuse_get_chip_ver_pkg", "package"); ("get_chip_version", "chip_version");
    ("ram_phy_wakeup_init", "wakeup"); ("ram_phy_close_rf", "close")]
  else
   [("phy_get_romfunc_addr", "callbacks"); ("rf_init", "rf"); ("register_chipv7_phy_init_param", "init_param");
    ("phy_set_mac_data", "mac_data"); ("phy_rfcal_data_sub", "transfer"); ("rf_cal_data_recovery", "recovery");
    ("phy_rfcal_data_check_value", "check_value"); ("rf_cal_data_backup", "backup"); ("phy_rfcal_data_check", "check");
    ("rf_cal_level_check", "level"); ("bb_init", "bb"); ("register_chipv7_phy", "register"); ("get_txcap_data", "txcap");
    ("ram1_phy_wakeup_init", "wakeup"); ("ram1_phy_close_rf", "close")].

Definition init_state : list (string * string) :=
  [("phy_param", "parameters"); ("chip7_phy_init_ctrl", "control"); ("g_phyFuns", "table")].

Definition pbus : list (string * string) :=
  [("txcal_debuge_mode", "debug_mode"); ("txcal_work_mode", "work_mode"); ("save_pbus_reg", "save"); ("set_pbus_mem", "mem")] ++
  if s3 then [] else [("ram_pbus_force_mode", "force_mode")].

Definition i2c : list (string * string) :=
  [("phy_get_i2c_data", "get_data"); ("bias_reg_set", "bias"); ("i2c_bbpll_set", "bbpll"); ("phy_i2c_init2", "init2")].

Definition iram : list (string * string) :=
  if s3 then
   [("phy_i2c_enter_critical", "enter"); ("phy_i2c_exit_critical", "exit"); ("ram_get_i2c_hostid", "hostid");
    ("ram_chip_i2c_readReg", "read"); ("ram_chip_i2c_writeReg", "write"); ("ram_phy_i2c_init1", "init1");
    ("phy_i2c_bbtop_wakeup", "wakeup"); ("ram_set_txcap_reg", "txcap")]
  else
   [("phy_i2c_enter_critical", "enter"); ("phy_i2c_exit_critical", "exit"); ("rom1_get_i2c_hostid", "hostid");
    ("rom1_chip_i2c_readReg", "read"); ("rom1_chip_i2c_writeReg", "write"); ("rom1_phy_i2c_init1", "init1");
    ("phy_i2c_bbtop_wakeup", "wakeup"); ("bias_dreg_i2c_set", "bias_dreg")].

Definition api : list (string * string) :=
  [("phy_wakeup_init", "wakeup"); ("phy_close_rf", "close"); ("phy_get_rf_cal_version", "calibration_version")] ++
  if s3 then [("phy_set_tx_seed", "tx_seed")] else [].

Definition basic : list (string * string) :=
  [(if s3 then "ram_i2c_master_reset" else "rom1_i2c_master_reset", "reset"); ("chan14_mic_cfg", "channel14")]%string ++
  if s3 then [("ram_set_chan_cal_interp", "interpolate")] else [].

Definition feature : list (string * string) :=
  [("phy_dig_reg_backup", "dig"); ("phy_freq_mem_backup", "freq"); ("phy_set_most_tpw", "power"); ("phy_11p_set", "mode")].

Definition debug : list (string * string) :=
  [("get_iq_value", "iq"); ("get_bias_ref_code", "bias"); ("phy_get_vdd33", "voltage")].

Definition pwdet : list (string * string) :=
  [("phy_set_pwdet_power", "power"); ("get_sar_sig_ref", "reference"); ("pwdet_tone_start", "tone");
   ("get_tone_sar_dout", "samples"); ("get_fm_sar_dout", "fm"); ("txtone_linear_pwr", "linear"); ("get_power_db", "db")] ++
  if s3 then [("ram_read_sar2_code", "read")]
  else [("ram_pkdet_vol_start", "pkdet"); ("rom1_read_sar2_code", "read")].

Definition analog : list (string * string) :=
  [("get_rc_dout", "measurement"); ("rc_cal", "calibrate")] ++
  if s3 then [] else [("wifi_ht20", "ht20"); ("wifi_ht40", "ht40")].

Definition track : list (string * string) :=
  if s3 then
   [("wait_hw_freq_busy", "wait"); ("ulp_ext_code_set", "ulp_set"); ("ulp_code_track", "ulp"); ("rfpll_cap_track", "pll");
    ("ram_txpwr_cal_track", "power"); ("txpwr_offset", "offset"); ("ram_wifi_track_tx_power", "wifi");
    ("ram_bt_track_tx_power", "bt")]
  else
   [("rom2_wait_hw_freq_busy", "wait"); ("rom2_ulp_ext_code_set", "ulp_set"); ("rom2_ulp_code_track", "ulp");
    ("ram2_rfpll_cap_track", "pll"); ("rom1_txpwr_cal_track", "power"); ("txpwr_offset", "offset");
    ("rfcal_track", "rfcal")].

Definition rfpll : list (string * string) :=
  [("restart_cal", "restart"); ("write_rfpll_sdm", "sdm"); ("wait_rfpll_cal_end", "wait");
   ("rfpll_set_freq", "frequency"); ("correct_rfpll_offset", "correct_offset"); ("rfpll_cap_init_cal", "init_cap");
   ("set_rfpll_freq", "set"); ("set_rf_freq_offset", "set_offset"); ("set_channel_rfpll_freq", "set_channel");
   ("chip_v7_set_chan_misc", "misc"); ("chip_v7_set_chan", "channel"); ("chip_v7_set_chan_offset", "channel_offset");
   ("chip_v7_set_chan_ana", "channel_analog")] ++
  if s3 then
   [("ram_write_pll_cap", "write_cap"); ("read_pll_cap", "read_cap"); ("rfpll_cap_correct", "correct_cap");
    ("phy_set_freq", "phy_frequency"); ("ram_pll_vol_cal", "voltage")]
  else
   [("rom2_write_pll_cap", "write_cap"); ("rom2_read_pll_cap", "read_cap"); ("ram2_rfpll_cap_correct", "correct_cap")].

Definition hw_freq : list (string * string) :=
  [("wait_freq_set_busy", "wait"); ("wr_rf_freq_mem", "memory"); ("freq_i2c_write_set", "write_i2c");
   ("get_rf_freq_init", "initialize"); ("freq_get_i2c_data", "read_i2c"); ("freq_i2c_data_write", "program_i2c");
   ("set_chan_freq_hw_init", "hardware_init"); ("set_chan_freq_sw_start", "software_start")] ++
  if s3 then
   [("ram_phy_dis_hw_set_freq", "disable"); ("ram_phy_en_hw_set_freq", "enable"); ("pll_cap_mem_update", "cap_memory")]
  else
   [("ram1_phy_dis_hw_set_freq", "disable"); ("rom1_phy_en_hw_set_freq", "enable");
    ("rom2_pll_cap_mem_update", "cap_memory")].

(** ** The linker scripts *)

(** The symbol to assign and the routine it is assigned to *)
Definition redirect (prefix : string) (e : string * string) : string * string :=
  (e.1, "__opensensor_" +:+ prefix +:+ "_" +:+ e.2)%string.

Definition newline : string := String (Ascii.ascii_of_nat 10) EmptyString.

(** [EXTERN(routine);] and [symbol = routine;] *)
Definition statement (e : string * string) : string :=
  ("EXTERN(" +:+ e.2 +:+ ");" +:+ newline +:+ e.1 +:+ " = " +:+ e.2 +:+ ";" +:+ newline)%string.

Definition script (l : list (string * string)) : string := foldr (fun e s => statement e +:+ s)%string EmptyString l.

(** Each script, by the name of its library *)
Definition libraries : list (string * list (string * string)) :=
  [("temperature", redirect "tsens" <$> temperature ++ lifecycle);
   ("reg", (redirect "reg" <$> reg) ++ (redirect "rx_gain" <$> rx_gain) ++ (redirect "tx_gain" <$> tx_gain) ++
           (redirect "rx_controls" <$> rx_controls) ++ (redirect "rx_iq" <$> rx_iq) ++ (redirect "rf_iq" <$> rf_iq) ++
           (redirect "rx_dc" <$> rx_dc) ++ (redirect "dc_search" <$> dc_search) ++ (redirect "rx_gain_cal" <$> rx_gain_cal) ++
           (redirect "spur" <$> spur) ++ (redirect "tx_detector" <$> tx_detector) ++ (redirect "txiq" <$> txiq) ++
           (redirect "init" <$> init_names) ++ (redirect "init" <$> init_state));
   ("pbus", redirect "pbus" <$> pbus);
   ("i2c", redirect "i2c" <$> i2c ++ iram);
   ("api", redirect "api" <$> api);
   ("basic", redirect "basic" <$> basic);
   ("feature", redirect "feature" <$> feature);
   ("debug", redirect "debug" <$> debug);
   ("pwdet", redirect "pwdet" <$> pwdet);
   ("analog", redirect "analog" <$> analog);
   ("track", redirect "track" <$> track);
   ("rfpll", redirect "rfpll" <$> rfpll);
   ("hw-freq", redirect "hw_freq" <$> hw_freq)].

End Tables.

(** ** The script *)

Inductive action :=
| Println (line : string)
| WriteFile (path contents : string).

(** [out] is the output directory of the build, [None] when it is not set:
    then the script panics, as it does when no chip is selected. *)
Definition main (features : option Chip) (out : option string) : option (list action) :=
  c ← features;
  let flags := Println <$> (("cargo:rustc-cfg=" +:+ chip_name c) :: ((fun m => "cargo:rustc-cfg=" +:+ meta_name m) <$> chip_meta c))%string in
  if c3_or_s3 c then
    out ← out;
    let write (e : string * list (string * string)) :=
      WriteFile (out +:+ "/libesp-wifi-hal-" +:+ e.1 +:+ ".a")%string (script e.2) in
    let link (e : string * list (string * string)) := Println ("cargo:rustc-link-lib=esp-wifi-hal-" +:+ e.1)%string in
    let search (e : string * list (string * string)) :=
      if bool_decide (e.1 = "temperature"%string) then [Println ("cargo:rustc-link-search=" +:+ out)%string] else [] in
    let one e := [write e] ++ search e ++ [link e] in
    Some (flags ++ (libraries (bool_decide (c = Esp32s3)) ≫= one))
  else Some flags.

End Build.
