(* ===== verification/BuildSpec.v ===== *)
(** * The linked image

    Which symbols of the vendor's PHY library the build replaces, seen
    together with the symbols the initialisation uses. *)

From stdpp Require Import strings.
From S2P Require Import Prelude External BuildScript PhyInit.
Import Build.
#[local] Open Scope list_scope.

(** Every assignment of every linker script *)
Definition redirects (s3 : bool) : list (string * string) := libraries s3 ≫= snd.

(** The callbacks the initialisation installs, on the C3 with its new ROM *)
Definition installed (s3 : bool) : list (Z * string) :=
  if s3 then Init.s3_patches else Init.c3_new_rom_patches ++ Init.c3_patches.

(** The symbols of the initialisation that are not replaced: the C library,
    routines in ROM, and three routines of the vendor *)
Definition kept (s3 : bool) : list string :=
  ["memcpy"; "memset"; "phy_get_romfuncs"; "rom_phy_param_addr"; "rom_phy_reg_init"; "rom_phy_xpd_rf"; "tx_cap_init";
   "tx_pwctrl_init"; "txdc_cal_init"] ++
  if s3 then [] else
  ["new_rom.4621"; "chip726_phyrom_version_num"; "rom_agc_reg_init"; "rom_bb_reg_init"; "rom_bt_filter_reg"; "rom_bt_tx_dig_gain";
   "rom_index_to_txbbgain"; "rom_open_i2c_xpd"; "rom_pbus_xpd_tx_on"; "rom_phy_ant_init"; "rom_phy_bbpll_cal"; "rom_set_chan_reg";
   "rom_set_tx_dig_gain"; "rom_set_txcap_reg"; "rom_tsens_code_read"; "rom_txbbgain_to_index"; "rom_wifi_agc_sat_gain";
   "rom_write_txrate_power_offset"].

Lemma string_app_assoc (a b c : string) : (a +:+ (b +:+ c) = (a +:+ b) +:+ c)%string.
Proof. induction a as [|x a IHa]; [done|]. change (String x (a +:+ (b +:+ c)) = String x ((a +:+ b) +:+ c)). by rewrite IHa. Qed.

Lemma script_contains l e : e ∈ l -> exists before after, (script l = before +:+ (statement e +:+ after))%string.
Proof.
  induction l as [|d l IHl]; intros He; [by apply not_elem_of_nil in He|]. apply elem_of_cons in He as [->|He].
  - by exists EmptyString, (script l).
  - destruct (IHl He) as (before & after & Hs). exists (statement d +:+ before)%string, after. cbn [script foldr].
    fold (script l). by rewrite Hs, string_app_assoc.
Qed.

Lemma redirects_nodup (s3 : bool) : NoDup (redirects s3).*1 /\ NoDup (redirects s3).*2.
Proof. apply (bool_decide_unpack _). destruct s3; vm_compute; exact I. Qed.

Lemma installed_redirected (s3 : bool) : Forall (fun n => n ∈ (redirects s3).*1) (installed s3).*2.
Proof. apply (bool_decide_unpack _). destruct s3; vm_compute; exact I. Qed.

Lemma symbols_known (s3 : bool) : Forall (fun n => n ∈ (redirects s3).*1 \/ n ∈ kept s3) (Init.symbols s3).
Proof. apply (bool_decide_unpack _). destruct s3; vm_compute; exact I. Qed.

(** Every assignment is written to a file. *)
Lemma main_writes (s3 : bool) out : exists actions, main (Some (if s3 then Esp32s3 else Esp32c3)) (Some out) = Some actions /\
  forall e, e ∈ redirects s3 -> exists path contents before after,
    WriteFile path contents ∈ actions /\ (contents = before +:+ (statement e +:+ after))%string.
Proof.
  unfold main. cbn [mbind option_bind].
  replace (c3_or_s3 (if s3 then Esp32s3 else Esp32c3)) with true by by destruct s3.
  replace (bool_decide ((if s3 then Esp32s3 else Esp32c3) = Esp32s3)) with s3 by by destruct s3.
  unfold redirects. generalize (libraries s3). intros libs. eexists. split; [reflexivity|].
  intros e (lib & He & Hlib)%list_elem_of_bind. destruct (script_contains _ _ He) as (before & after & Hs).
  eexists _, _, before, after. split; [|exact Hs]. apply elem_of_app. right. apply list_elem_of_bind. exists lib.
  split; [|exact Hlib]. apply elem_of_app. left. by apply list_elem_of_singleton.
Qed.

(** C40: the image links the Rust routines.  On both chips every symbol of the vendor library is assigned at most once
    over all linker scripts, and to a routine of its own; every callback the initialisation installs in
    the function table (on the C3, with its new ROM) is one of the replaced symbols; every symbol the
    initialisation looks up is replaced, or is one of the listed symbols of the ROM, the C library and the
    vendor; and the build writes the assignment of each into one of its script files. *)
Theorem phy_symbols_linked (s3 : bool) (out : string) :
  (NoDup (redirects s3).*1 /\ NoDup (redirects s3).*2) /\
  (forall name, name ∈ (installed s3).*2 -> exists routine, (name, routine) ∈ redirects s3) /\
  (forall name, name ∈ Init.symbols s3 -> name ∈ (redirects s3).*1 \/ name ∈ kept s3) /\
  exists actions, main (Some (if s3 then Esp32s3 else Esp32c3)) (Some out) = Some actions /\
    forall e, e ∈ redirects s3 -> exists path contents before after,
      WriteFile path contents ∈ actions /\ (contents = before +:+ (statement e +:+ after))%string.
Proof.
  split; [apply redirects_nodup|]. pose proof (installed_redirected s3) as Hin. pose proof (symbols_known s3) as Hsym.
  rewrite Forall_forall in Hin, Hsym. split; [|split; [exact Hsym|apply main_writes]].
  intros name Hn. apply Hin, list_elem_of_fmap in Hn as ([n routine] & -> & He). by exists routine.
Qed.
