(* ===== verification/PhyNative.v ===== *)
(** * What the native bindings serve

    The [native] module of a PHY module implements its [Access] trait.  Two
    kinds of method dispatch there on a number: the calls through an address,
    on the number of arguments, and the calls of named routines, on a kind
    whose arm then indexes the arguments.  An unknown number is an
    [unreachable!] and a missing argument a panic.  [served] of a module says
    which calls its binding carries out, arm by arm. *)

From S2P Require Import Prelude Program PhyRfpll PhyTxGain PhyTrack PhyHwFreq PhyRxGain PhyRxGainCal PhyHelpers PhyAccess.

(** [match width { 1, 2, 4 }] *)
Definition width_ok (w : Z) : bool := (w =? 1) || (w =? 2) || (w =? 4).

(** [match a.len() { .. }] *)
Definition one_of (args : list Z) (lengths : list Z) : bool := existsb (Z.eqb (Z.of_nat (length args))) lengths.

(** [match kind { .. }]: each arm with the number of arguments it uses *)
Definition arm (arms : list (Z * Z)) (kind : Z) (args : list Z) : bool :=
  existsb (fun a => (kind =? a.1) && (a.2 <=? Z.of_nat (length args))) arms.

(** A trait with reads and writes of memory *)
Definition io_served {X} (ext : X -> bool) (e : io X) : bool :=
  match e with
  | Read _ w => width_ok w
  | Write _ w _ => width_ok w
  | Ext y => ext y
  end.

Section Bindings.
Variable s3 : bool.

(** [arms] of the S3 and of the C3 *)
Abbreviation on_s3 l := (if s3 then l else []).
Abbreviation on_c3 l := (if s3 then [] else l).

Definition hw_freq_external : list (Z * Z) :=
  [(0, 1)] ++ on_c3 [(1, 1)] ++ [(2, 4); (3, 0); (4, 4); (5, 0); (6, 3)].

Definition hw_freq_internal : list (Z * Z) := [(3, 2); (4, 9); (6, 0); (7, 9); (8, 0)].

Definition hw_freq_served : io HwFreq.method -> bool :=
  io_served (fun y => match y with
    | HwFreq.ReadCall _ a => one_of a [3; 5]
    | HwFreq.WriteCall _ a => one_of a [1; 2; 6]
    | HwFreq.External k a => arm hw_freq_external k a
    | HwFreq.Internal k a => arm hw_freq_internal k a
    | HwFreq.LocalRead _ w => width_ok w
    | HwFreq.LocalWrite _ w _ => width_ok w
    | _ => true
    end).

Definition track_external : list (Z * Z) :=
  [(0, 1); (1, 0); (2, 3); (3, 2)] ++ on_c3 [(4, 4); (5, 2); (6, 1); (7, 1)].

Definition track_internal : list (Z * Z) := [(0, 0); (1, 2); (2, 1)].

Definition track_print : list (Z * Z) :=
  [(0, 2)] ++ (if s3 then [(1, 4); (2, 4)] else [(1, 3); (2, 3); (3, 2)]).

Definition track_served (e : Track.acc) : bool :=
  match e with
  | Track.ReadCall _ a => one_of a [1; 2; 3; 5]
  | Track.WriteCall _ a => one_of a [0; 1; 2; 3; 4; 6]
  | Track.External k a => arm track_external k a
  | Track.Internal k a => arm track_internal k a
  | Track.Print k a => arm track_print k a
  | _ => true
  end.

Definition rx_gain_external : list (Z * Z) :=
  [(0, 4); (1, if s3 then 10 else 8); (2, 3)] ++ on_c3 [(3, 0)].

Definition rx_gain_child : list (Z * Z) := [(0, 7); (1, 8); (2, 6)].

(** [if k == 0 { .. } else { .. }] *)
Definition rx_gain_log (k : Z) (args : list Z) : bool := ((if k =? 0 then 8 else 1) <=? Z.of_nat (length args)).

Definition rx_gain_served : io RxGain.method -> bool :=
  io_served (fun y => match y with
    | RxGain.Call _ a => one_of a [0; 1; 2; 3]
    | RxGain.External k a => arm rx_gain_external k a
    | RxGain.Log k a => rx_gain_log k a
    | RxGain.Child k a => arm rx_gain_child k a
    | _ => true
    end).

Definition tx_gain_external : list (Z * Z) := on_c3 [(0, 6); (1, 1)] ++ [(2, 0); (3, 0); (4, 0); (5, 1)].

Definition tx_gain_child : list (Z * Z) :=
  [(0, 1); (1, 2); (2, 4); (3, 7); (4, if s3 then 11 else 8); (5, 11); (6, 13); (7, 2); (8, 1); (9, 0); (10, 0)] ++
  on_s3 [(11, 2); (12, 1)].

Definition tx_gain_log (k : Z) (args : list Z) : bool := ((if k =? 0 then 6 else 7) <=? Z.of_nat (length args)).

Definition tx_gain_served (e : TxGain.acc) : bool :=
  match e with
  | TxGain.Read _ w => width_ok w
  | TxGain.Write _ w _ => width_ok w
  | TxGain.Call _ a returns => one_of a (if returns then [1; 2; 3] else [1; 4; 6; 11; 13])
  | TxGain.External k a => arm tx_gain_external k a
  | TxGain.Log k a => tx_gain_log k a
  | TxGain.Child k a => arm tx_gain_child k a
  | _ => true
  end.

Definition rx_gain_cal_calls : list (Z * Z) :=
  [(0, 5); (1, 6); (2, 1); (3, 1); (4, 1); (10, 1); (5, 3); (6, 3); (7, 2); (8, 2); (9, 0); (20, 5); (21, 6); (22, 2); (23, 6);
   (24, 1); (25, 3); (26, 1); (27, 2)].

(** Kind 29 is the logging, with a format for 0 and another for 1. *)
Definition rx_gain_cal_served : io RxGainCal.method -> bool :=
  io_served (fun y => match y with
    | RxGainCal.Call _ k a =>
        arm rx_gain_cal_calls k a ||
        (k =? 29) && match a with [] => false | a0 :: _ => ((if a0 =? 0 then 9 else 7) <=? Z.of_nat (length a)) end
    | _ => true
    end).

(** S3 only *)
Definition spur_calls : list (Z * Z) :=
  [(0, 1); (1, 4); (2, 2); (3, 2); (4, 2); (5, 0); (6, 2); (7, 2); (8, 2); (9, 6); (10, 5)].

(** Its accesses are of one or four bytes. *)
Definition spur_served (e : io Spur.method) : bool :=
  match e with
  | Read _ w => (w =? 1) || (w =? 4)
  | Write _ w _ => (w =? 1) || (w =? 4)
  | Ext (Spur.Call _ k a) => arm spur_calls k a
  | Ext _ => true
  end.

Definition rfpll_external : list (Z * Z) :=
  [(0, 1); (1, 1); (2, 3); (3, 8)] ++ on_c3 [(4, 1); (5, 2)] ++ [(6, 1)] ++ on_c3 [(7, 0)] ++
  [(8, 1); (9, 2); (10, 2)].

Definition rfpll_internal : list (Z * Z) :=
  [(0, 0); (1, 1); (2, 0); (3, 4); (4, 3); (5, 1); (6, 0); (7, 2); (8, 0); (9, 4); (10, 3); (11, 3); (12, 1); (13, 2); (14, 1);
   (15, 1)] ++ on_s3 [(16, 2); (17, 0)].

Definition rfpll_print : list (Z * Z) := [(0, 0); (1, 6)].

Definition rfpll_served (e : PhyRfpll.acc) : bool :=
  match e with
  | PhyRfpll.Read _ w => width_ok w
  | PhyRfpll.Write _ w _ => width_ok w
  | PhyRfpll.ReadCall _ a => one_of a [0; 1; 3; 5]
  | PhyRfpll.WriteCall _ a => one_of a [0; 1; 2; 4; 6; 7]
  | PhyRfpll.External k a => arm rfpll_external k a
  | PhyRfpll.Internal k a => arm rfpll_internal k a
  | PhyRfpll.Print k a => arm rfpll_print k a
  | _ => true
  end.

End Bindings.
