(* ===== verification/PhyNativeSpec.v ===== *)
(** * The native bindings serve every call

    For the PHY modules with a dispatch in their binding: every entry point
    only makes calls that the binding carries out, so that running it against
    the binding, in which any other call panics, is running it against the
    trait. *)

From S2P Require Import Prelude Program PhyRfpll PhyTxGain PhyTrack PhyHwFreq PhyRxGain PhyRxGainCal PhyHelpers PhyAccess PhyNative.

(** Every call of a program is of the given kind, whatever the answers are;
    a program may end in a panic of its own. *)
Fixpoint calls_within {E A} (P : E -> bool) (p : prog E A) : Prop :=
  match p with
  | Ret _ => True
  | Do e k => P e = true /\ forall x, calls_within P (k x)
  | Crash => True
  end.

Lemma within_bind {E A B} (P : E -> bool) (p : prog E A) (f : A -> prog E B) :
  calls_within P p -> (forall a, calls_within P (f a)) -> calls_within P (p ≫= f).
Proof.
  intros Hp Hf. revert Hp. unfold mbind, prog_bind. induction p as [a|e k IH|]; simpl; auto.
  intros [? Hk]. split; auto.
Qed.

Lemma within_for_loop {E I B} (P : E -> bool) (l : list I) (b : B) body :
  (forall i b, calls_within P (body i b)) -> calls_within P (for_loop l b body).
Proof.
  intros Hbody. revert b. induction l as [|i l IH]; intros b; simpl; [done|].
  apply within_bind; [done|]. by intros [].
Qed.

Lemma within_for_all {E I} (P : E -> bool) (l : list I) body :
  (forall i, calls_within P (body i)) -> calls_within P (for_all l body).
Proof. intros Hbody. induction l as [|i l IH]; simpl; [done|]. by apply within_bind. Qed.

Lemma within_for_each {E I B} (P : E -> bool) (l : list I) (b : B) body :
  (forall i b, calls_within P (body i b)) -> calls_within P (for_each_with l b body).
Proof. intros Hb. apply within_for_loop. intros i c. by apply within_bind. Qed.

(** The program on a binding: a call that is not served is a panic. *)
Fixpoint on_binding {E A} (P : E -> bool) (p : prog E A) : prog E A :=
  match p with
  | Ret a => Ret a
  | Do e k => if P e then Do e (fun x => on_binding P (k x)) else Crash
  | Crash => Crash
  end.

Lemma within_on_binding {E S A} (P : E -> bool) (h : E -> S -> Z * S) (p : prog E A) s :
  calls_within P p -> exec h (on_binding P p) s = exec h p s.
Proof.
  revert s. induction p as [a|e k IH|]; intros s; simpl; auto. intros [-> Hk]. simpl. destruct (h e s) as [x s']. by apply IH.
Qed.

Create HintDb served.

Ltac head_of t := lazymatch t with ?f _ => head_of f | _ => t end.

(** Walk through a program; a routine with a hint is not unfolded. *)
Ltac served_step :=
  cbv beta zeta;
  lazymatch goal with
  | |- forall _, _ => intros ?
  | |- calls_within _ (_ ≫= _) => apply within_bind
  | |- calls_within _ (for_loop _ _ _) => apply within_for_loop
  | |- calls_within _ (for_each_with _ _ _) => apply within_for_each
  | |- calls_within _ (for_all _ _) => apply within_for_all
  | |- calls_within _ (mret _) => exact I
  | |- calls_within _ (Ret _) => exact I
  | |- calls_within _ Crash => exact I
  | |- calls_within _ (call _) => split; [|intros ?; exact I]
  | |- calls_within _ (match ?x with _ => _ end) => destruct x
  | |- calls_within _ ?p => first [solve [eauto with served nocore] | let h := head_of p in unfold h]
  | |- _ = true => first [reflexivity | vm_compute; reflexivity]
  end.
Ltac served := repeat served_step.

(** ** Entry points

    The exported routines of each module, by the chip they exist on.  The
    voltage entry of the PLL is a constant and makes no call. *)

Inductive hw_freq_entry : bool -> forall A, prog (io HwFreq.method) A -> Prop :=
| hw_wait s3 polls : hw_freq_entry s3 _ (HwFreq.wait polls)
| hw_disable s3 : hw_freq_entry s3 _ HwFreq.disable
| hw_enable s3 : hw_freq_entry s3 _ HwFreq.enable
| hw_memory s3 a b : hw_freq_entry s3 _ (HwFreq.memory s3 a b)
| hw_write_i2c s3 p n : hw_freq_entry s3 _ (HwFreq.write_i2c s3 p n)
| hw_cap_memory s3 a : hw_freq_entry s3 _ (HwFreq.cap_memory a)
| hw_initialize s3 : hw_freq_entry s3 _ (HwFreq.initialize s3)
| hw_read_i2c s3 p n : hw_freq_entry s3 _ (HwFreq.read_i2c s3 p n)
| hw_program_i2c s3 : hw_freq_entry s3 _ HwFreq.program_i2c
| hw_hardware_init s3 a b : hw_freq_entry s3 _ (HwFreq.hardware_init a b)
| hw_software_start s3 polls a b c : hw_freq_entry s3 _ (HwFreq.software_start s3 polls a b c).

Inductive track_entry : bool -> forall A, prog Track.acc A -> Prop :=
| track_wait s3 polls : track_entry s3 _ (Track.wait polls)
| track_ulp_set s3 a b : track_entry s3 _ (Track.ulp_set s3 a b)
| track_ulp s3 a : track_entry s3 _ (Track.ulp_track s3 a)
| track_pll s3 a : track_entry s3 _ (Track.pll_track s3 a)
| track_power s3 a b c : track_entry s3 _ (Track.power_track s3 a b c)
| track_offset s3 : track_entry s3 _ (Track.offset s3)
| track_rfcal a b : track_entry false _ (Track.rfcal false a b)
| track_radio r a b : track_entry true _ (Track.radio_power r a b).

Inductive rx_gain_entry : bool -> forall A, prog (io RxGain.method) A -> Prop :=
| rx_generate s3 a : rx_gain_entry s3 _ (RxGain.generate s3 a)
| rx_write_memory s3 a : rx_gain_entry s3 _ (RxGain.write_memory s3 a)
| rx_set_param s3 a : rx_gain_entry s3 _ (RxGain.set_param s3 a)
| rx_set_table s3 a b : rx_gain_entry s3 _ (RxGain.set_table s3 a b)
| rx_initialize s3 : rx_gain_entry s3 _ (RxGain.initialize s3).

Inductive tx_gain_entry : bool -> forall A, prog TxGain.acc A -> Prop :=
| tx_digital s3 a : tx_gain_entry s3 _ (TxGain.digital s3 a)
| tx_interpolate s3 a b : tx_gain_entry s3 _ (TxGain.interpolate s3 a b)
| tx_fcc s3 a : tx_gain_entry s3 _ (TxGain.fcc s3 a)
| tx_limits s3 a : tx_gain_entry s3 _ (TxGain.limits s3 a)
| tx_lookup s3 a : tx_gain_entry s3 _ (TxGain.lookup s3 a)
| tx_bt_get s3 a : tx_gain_entry s3 _ (TxGain.bt_get s3 a)
| tx_wifi_get s3 a : tx_gain_entry s3 _ (TxGain.wifi_get s3 a)
| tx_wifi_set s3 a b : tx_gain_entry s3 _ (TxGain.wifi_set s3 a b)
| tx_bt_set s3 a : tx_gain_entry s3 _ (TxGain.bt_set s3 a)
| tx_bt_initialize s3 : tx_gain_entry s3 _ (TxGain.bt_initialize s3)
| tx_calibration_tables s3 : tx_gain_entry s3 _ (TxGain.calibration_tables s3)
| tx_dig_check a b : tx_gain_entry true _ (TxGain.dig_check a b).

Inductive rx_gain_cal_entry : bool -> forall A, prog (io RxGainCal.method) A -> Prop :=
| cal_iq s3 a b c d : rx_gain_cal_entry s3 _ (RxGainCal.iq s3 a b c d)
| cal_dc s3 a : rx_gain_cal_entry s3 _ (RxGainCal.dc s3 a).

Inductive spur_entry : bool -> forall A, prog (io Spur.method) A -> Prop :=
| spur_configure a0 a1 a2 a3 a4 a5 a6 : spur_entry true _ (Spur.configure a0 a1 a2 a3 a4 a5 a6)
| spur_power a : spur_entry true _ (Spur.power a).

Inductive rfpll_entry : bool -> forall A, prog PhyRfpll.acc A -> Prop :=
| pll_restart s3 : rfpll_entry s3 _ (Rfpll.restart s3)
| pll_sdm s3 a : rfpll_entry s3 _ (Rfpll.sdm s3 a)
| pll_wait s3 : rfpll_entry s3 _ (Rfpll.wait s3)
| pll_frequency s3 a b c d : rfpll_entry s3 _ (Rfpll.frequency s3 a b c d)
| pll_correct_offset s3 a b c : rfpll_entry s3 _ (Rfpll.correct_offset s3 a b c)
| pll_write_cap s3 a : rfpll_entry s3 _ (Rfpll.write_cap s3 a)
| pll_read_cap s3 : rfpll_entry s3 _ (Rfpll.read_cap s3)
| pll_correct_cap s3 a b : rfpll_entry s3 _ (Rfpll.correct_cap s3 a b)
| pll_init_cap s3 : rfpll_entry s3 _ (Rfpll.init_cap s3)
| pll_set s3 a b c d : rfpll_entry s3 _ (Rfpll.set s3 a b c d)
| pll_set_offset s3 a b c : rfpll_entry s3 _ (Rfpll.set_offset s3 a b c)
| pll_set_channel s3 a b c : rfpll_entry s3 _ (Rfpll.set_channel s3 a b c)
| pll_misc s3 a : rfpll_entry s3 _ (Rfpll.misc s3 a)
| pll_channel s3 a b : rfpll_entry s3 _ (Rfpll.channel s3 a b)
| pll_channel_offset s3 a : rfpll_entry s3 _ (Rfpll.channel_offset s3 a)
| pll_channel_analog s3 a : rfpll_entry s3 _ (Rfpll.channel_analog s3 a)
| pll_phy_frequency a b : rfpll_entry true _ (Rfpll.phy_frequency a b).

(** ** Loops *)

Lemma hw_wait_served s3 polls : calls_within (hw_freq_served s3) (HwFreq.wait polls).
Proof. induction polls as [|n IHn]; cbn [HwFreq.wait]; served. Qed.

Lemma track_idle_served s3 polls seen : calls_within (track_served s3) (Track.wait_idle polls seen).
Proof. revert seen. induction polls as [|n IHn]; intros seen; cbn [Track.wait_idle]; served. Qed.

Lemma next_input_served s3 fuel a b c : calls_within (rx_gain_served s3) (RxGain.next_input fuel a b c).
Proof. revert c. induction fuel as [|n IHn]; intros c; cbn [RxGain.next_input]; served. Qed.

Lemma memory_loop_served s3 fuel m alt codes iq dc extra packed count index input gain :
  calls_within (rx_gain_served s3) (RxGain.memory_loop s3 fuel m alt codes iq dc extra packed count index input gain).
Proof. revert index input gain. induction fuel as [|n IHn]; intros index input gain; cbn [RxGain.memory_loop]; destruct s3; served. Qed.

Lemma read_bytes_served s3 b l : calls_within (tx_gain_served s3) (TxGain.read_bytes b l).
Proof. induction l as [|x l IHl]; cbn [TxGain.read_bytes]; served. Qed.

Lemma lookup_scan_served s3 fuel a b c d : calls_within (tx_gain_served s3) (TxGain.lookup_scan fuel a b c d).
Proof. revert d. induction fuel as [|n IHn]; intros d; cbn [TxGain.lookup_scan]; served. Qed.

Lemma lookup_walk_served s3 fuel a b c d e : calls_within (tx_gain_served s3) (TxGain.lookup_walk fuel a b c d e).
Proof. revert d e. induction fuel as [|n IHn]; intros d e; cbn [TxGain.lookup_walk]; served. Qed.

Lemma dig_loop_served fuel a b c : calls_within (tx_gain_served true) (TxGain.dig_loop fuel a b c).
Proof. revert b c. induction fuel as [|n IHn]; intros b c; cbn [TxGain.dig_loop]; served. Qed.

Lemma dc_modes_served s3 fuel a m e : calls_within rx_gain_cal_served (RxGainCal.dc_modes s3 fuel a m e).
Proof. revert m. induction fuel as [|n IHn]; intros m; cbn [RxGainCal.dc_modes]; destruct s3; served. Qed.

#[export] Hint Resolve hw_wait_served track_idle_served next_input_served memory_loop_served read_bytes_served lookup_scan_served
  lookup_walk_served dig_loop_served dc_modes_served : served.

(** The arguments are those of one of two branches. *)
Lemma wifi_set_program_served p b channel logging delta : calls_within (tx_gain_served true) (TxGain.wifi_set_program true p b channel logging delta).
Proof.
  unfold TxGain.wifi_set_program. apply within_bind; [served|]. intros alternate. destruct (alternate =? 1); simpl; repeat (intros; split; [reflexivity|]); done.
Qed.
#[export] Hint Resolve wifi_set_program_served : served.

Ltac entries := intros ? ? He; destruct He; repeat match goal with s : bool |- _ => destruct s end; served.

Lemma hw_freq_entries s3 A p : hw_freq_entry s3 A p -> calls_within (hw_freq_served s3) p.
Proof. revert A p. entries. Qed.

Lemma track_entries s3 A p : track_entry s3 A p -> calls_within (track_served s3) p.
Proof. revert A p. entries. Qed.

Lemma rx_gain_entries s3 A p : rx_gain_entry s3 A p -> calls_within (rx_gain_served s3) p.
Proof. revert A p. entries. Qed.

Lemma tx_gain_entries s3 A p : tx_gain_entry s3 A p -> calls_within (tx_gain_served s3) p.
Proof. revert A p. entries. Qed.

Lemma rx_gain_cal_entries s3 A p : rx_gain_cal_entry s3 A p -> calls_within rx_gain_cal_served p.
Proof. revert A p. entries. Qed.

Lemma spur_entries s3 A p : spur_entry s3 A p -> calls_within spur_served p.
Proof. revert A p. entries. Qed.

Lemma rfpll_entries s3 A p : rfpll_entry s3 A p -> calls_within (rfpll_served s3) p.
Proof. revert A p. entries. Qed.

(** ** All modules *)

(** On the binding a program is what it is on the trait. *)
Definition runs_on {E A} (served : E -> bool) (p : prog E A) : Prop :=
  forall S (h : E -> S -> Z * S) s, exec h (on_binding served p) s = exec h p s.

Lemma within_runs_on {E A} (P : E -> bool) (p : prog E A) : calls_within P p -> runs_on P p.
Proof. intros Hp S h s. by apply within_on_binding. Qed.

(** No dispatch of the native bindings reaches its [unreachable!] or indexes
    past its arguments: on each chip every entry point of the seven modules,
    with any arguments and for every hardware, ROM and parameter memory, runs
    on its binding exactly as on the trait. *)
Theorem native_calls_served s3 :
  (forall A p, hw_freq_entry s3 A p -> runs_on (hw_freq_served s3) p) /\
  (forall A p, track_entry s3 A p -> runs_on (track_served s3) p) /\
  (forall A p, rx_gain_entry s3 A p -> runs_on (rx_gain_served s3) p) /\
  (forall A p, tx_gain_entry s3 A p -> runs_on (tx_gain_served s3) p) /\
  (forall A p, rx_gain_cal_entry s3 A p -> runs_on rx_gain_cal_served p) /\
  (forall A p, spur_entry s3 A p -> runs_on spur_served p) /\
  (forall A p, rfpll_entry s3 A p -> runs_on (rfpll_served s3) p).
Proof.
  repeat split; intros A p Hp; apply within_runs_on;
    [by apply (hw_freq_entries s3) | by apply (track_entries s3) | by apply (rx_gain_entries s3) | by apply (tx_gain_entries s3)
    | by apply (rx_gain_cal_entries s3) | by apply (spur_entries s3) | by apply (rfpll_entries s3)].
Qed.

(** The bindings differ by chip: the C3's call of kind 1 in the frequency
    module is not served on the S3. *)
Example write_cap_c3_only : hw_freq_served false (Ext (HwFreq.External 1 [0])) = true /\ hw_freq_served true (Ext (HwFreq.External 1 [0])) = false.
Proof. done. Qed.
