(* ===== verification/Capture.v ===== *)
(** * The capture application

    [examples/src/capture_protocol.rs] and [examples/src/bin/raw_capture.rs]:
    a receiver that streams selected frames over USB, and the host program
    [docs/network/tools/raw-capture/decode.py] that reads the stream.

    The firmware has three tasks that run interleaved at their [await]s: the
    command reader, the writer of the output channel, and the main loop.  They
    share the settings and the channel.  [step] is the relation between the
    states at those points, labelled with what the outside can observe. *)

From S2P Require Import Prelude External Queue RxFrame.

(** ** Framing ([capture_protocol.rs]) *)

Module Protocol.

(** ["RWCAP3\r\n"] *)
Definition MAGIC : list Z := [82; 87; 67; 65; 80; 51; 13; 10].
Definition HEADER_LEN : nat := 24.
Definition MAX_PAYLOAD : nat := 1604.

Definition crc_bit (value : Z) : Z := Z.lxor (Z.shiftr value 1) (Z.land 0xedb88320 (u32 (0 - Z.land value 1))).

(** [const fn crc_table()] *)
Definition crc_table : list Z := (fun i => Nat.iter 8 crc_bit i) <$> seqZ 0 256.

Definition TABLE : list Z := Eval vm_compute in crc_table.

(** The index is a byte, so the table is never left. *)
Definition crc_step (crc byte : Z) : Z :=
  Z.lxor (Z.shiftr crc 8) (nth (Z.to_nat (Z.lxor (u8 crc) byte)) TABLE 0).

Definition crc32 (bytes : list Z) : Z := u32 (Z.lnot (foldl crc_step (u32 (Z.lnot 0)) bytes)).

(** [None] is the failed assertion. *)
Definition header (kind : Z) (payload_len : nat) (sequence micros : Z) : option (list Z) :=
  if decide (payload_len <= MAX_PAYLOAD)%nat then
    Some (MAGIC ++ le_bytes 2 (u16 (Z.of_nat payload_len)) ++ [kind; 1] ++ le_bytes 4 sequence ++ le_bytes 8 micros)
  else None.

End Protocol.

(** ** Commands *)

Record Settings := mkSettings {
  bssid : option (list Z);
  station : option (list Z);
  seconds : Z;
  generation : Z;
  bad_commands : Z;
  stop : bool
}.

Module Commands.

Definition SETTINGS : Settings := mkSettings None None 1200 0 0 false.

Definition digit (b : Z) : option Z :=
  if (48 <=? b) && (b <=? 57) then Some (b - 48)
  else if (97 <=? b) && (b <=? 102) then Some (b - 97 + 10)
  else if (65 <=? b) && (b <=? 70) then Some (b - 65 + 10)
  else None.

(** The loop over [text.chunks_exact(2)] *)
Fixpoint octets (text : list Z) : option (list Z) :=
  match text with
  | a :: b :: text' =>
      x ← digit a;
      y ← digit b;
      rest ← octets text';
      Some (Z.lor (Z.shiftl x 4) y :: rest)
  | _ => Some []
  end.

Definition address (text : list Z) : option (list Z) :=
  if negb (length text =? 12)%nat then None else
  r ← octets text;
  if negb (Z.land (nth 0 r 0) 1 =? 0) || bool_decide (r = replicate 6 0) then None else Some r.

(** The digits of [u32::from_str]: [checked_mul] and [checked_add] *)
Fixpoint decimal (acc : Z) (text : list Z) : option Z :=
  match text with
  | [] => Some acc
  | b :: text' =>
      if (48 <=? b) && (b <=? 57) then
        let acc := acc * 10 + (b - 48) in if acc <? 2 ^ 32 then decimal acc text' else None
      else None
  end.

(** [from_utf8(text).ok().and_then(|n| n.parse::<u32>().ok())]: an optional
    plus sign and digits; text that is not UTF-8 has a byte that is none. *)
Definition parse_u32 (text : list Z) : option Z :=
  match text with
  | [] | [43] | [45] => None
  | 43 :: rest => decimal 0 rest
  | _ => decimal 0 text
  end.

(** What an accepted line changes *)
Definition accept (line : list Z) (s : Settings) : option Settings :=
  match line with
  | 66 :: rest => mac ← address rest; Some (mkSettings (Some mac) (station s) (seconds s) (generation s) (bad_commands s) (stop s))
  | 77 :: rest => mac ← address rest; Some (mkSettings (bssid s) (Some mac) (seconds s) (generation s) (bad_commands s) (stop s))
  | 68 :: rest =>
      n ← parse_u32 rest;
      if (1 <=? n) && (n <=? 3600)
      then Some (mkSettings (bssid s) (station s) n (generation s) (bad_commands s) (stop s)) else None
  | [83] => Some (mkSettings (bssid s) (station s) (seconds s) (generation s) (bad_commands s) true)
  | _ => None
  end.

Definition command (line : list Z) (s : Settings) : Settings :=
  match accept line s with
  | Some s' => mkSettings (bssid s') (station s') (seconds s') (u32 (generation s' + 1)) (bad_commands s') (stop s')
  | None => mkSettings (bssid s) (station s) (seconds s) (generation s) (u32 (bad_commands s + 1)) (stop s)
  end.

(** The locals of the task: [line[..used]] and [overflow]; [line] has 32
    bytes. *)
Record Reader := mkReader { used : list Z; overflow : bool }.

Definition fresh : Reader := mkReader [] false.

Definition on_byte (byte : Z) (rs : Reader * Settings) : Reader * Settings :=
  let '(r, s) := rs in
  if byte =? 10 then (fresh, command (if overflow r then [63] else used r) s)
  else if negb (byte =? 13) then
    if (length (used r) <? 32)%nat then (mkReader (used r ++ [byte]) (overflow r), s)
    else (mkReader (used r) true, s)
  else (r, s).

(** One turn of [commands]: the bytes of one read *)
Definition commands (input : list Z) (rs : Reader * Settings) : Reader * Settings := foldl (flip on_byte) rs input.

End Commands.

(** ** Records *)

Record Record_ := mkRecord { kind : Z; seq_no : Z; micros : Z; len : nat; payload : list Z }.

Module Main.

Import Protocol.

(** What the writer task puts on the wire for a record; [None] is the failed
    assertion of [header] or a slice out of range. *)
Definition wire (r : Record_) : option (list Z) :=
  h ← header (kind r) (len r) (seq_no r) (micros r);
  body ← slice 0 (len r) (payload r);
  Some (h ++ body ++ le_bytes 4 (crc32 (h ++ body))).

(** [record]: the second component is the sequence number afterwards. *)
Definition record (k now sequence : Z) : Record_ * Z :=
  (mkRecord k sequence now 0 (replicate MAX_PAYLOAD 0), u32 (sequence + 1)).

Definition status (k now sequence : Z) (counts : list Z) (s : Settings) (running : bool) : Record_ * Z :=
  let '(r, sequence) := record k now sequence in
  let values := counts ++ [bad_commands s; generation s; bool_to_Z (bool_decide (is_Some (bssid s)));
                           bool_to_Z (bool_decide (is_Some (station s))); bool_to_Z running] in
  (mkRecord k (seq_no r) now (length values * 4) (splice 0 (values ≫= le_bytes 4) (payload r)), sequence).

(** [mpdu[o..o + 6] == a], for an [o] of the three addresses *)
Definition has_address (a mpdu : list Z) : bool := existsb (fun o => bool_decide (take 6 (drop o mpdu) = a)) [4; 10; 16]%nat.

Definition selected (mpdu : list Z) (s : Settings) : bool :=
  if (length mpdu <? 24)%nat then false else
  match bssid s with
  | None => false
  | Some b =>
      if negb (has_address b mpdu) then false else
      match station s with
      | Some a => has_address a mpdu
      | None =>
          let b0 := nth 0 mpdu 0 in
          let k := Z.land (Z.shiftr b0 2) 3 in
          if k =? 0 then negb (Z.shiftr b0 4 =? 8) && negb (Z.shiftr b0 4 =? 5) else
          let qos := negb (Z.land b0 0x80 =? 0) in
          let header := if qos then 26%nat else 24%nat in
          (k =? 2) && bool_decide (slice header (header + 8) mpdu = Some [0xaa; 0xaa; 3; 0; 0; 0; 0x88; 0x8e])
      end
  end.

(** [OUTPUT] holds sixteen records. *)
Definition CAPACITY : nat := 16.

Definition try_send (r : Record_) (queue : list Record_) : bool * list Record_ :=
  if (length queue <? CAPACITY)%nat then (true, queue ++ [r]) else (false, queue).

(** [counts[i] += 1] *)
Definition bump (i : nat) (counts : list Z) : list Z := alter (fun n => u32 (n + 1)) i counts.

Section Main.
Context `{RxCtrl}.

(** The build's [SNIFFER_DIAG_HEADS == "1"] and [get_test_channel()] *)
Variable diag : bool.
Variable channel : Z.

(** The locals of the main loop and the channel *)
Record Locals := mkLocals { sequence : Z; counts : list Z; next_status : Z; OUTPUT : list Record_ }.

(** The head of a turn: [now] is the clock at the comparison, [now'] in
    [record].  The status record that was offered, if any, and whether the
    channel took it. *)
Definition turn_status (s : Settings) (now now' : Z) (l : Locals) : list (Record_ * bool) * Locals :=
  if next_status l <=? now then
    let '(r, sequence) := status 2 now' (sequence l) (counts l) s true in
    let '(ok, queue) := try_send r (OUTPUT l) in
    ([(r, ok)], mkLocals sequence (if ok then counts l else bump 5 (counts l)) (now + 1000000) queue)
  else ([], l).

(** The diagnostic record of a frame; [padded_buffer()[..r.len - 4]] is in
    range. *)
Definition turn_diag (now : Z) (padded : list Z) (l : Locals) : list (Record_ * bool) * Locals :=
  if diag && (nth 0 (counts l) 0 <=? 32) then
    let '(r, sequence) := record 4 now (sequence l) in
    let len := (Nat.min (length padded) 72 + 4)%nat in
    let r := mkRecord 4 (seq_no r) now len (splice 4 (take (len - 4) padded) (<[2%nat := channel]> (payload r))) in
    let '(ok, queue) := try_send r (OUTPUT l) in
    ([(r, ok)], mkLocals sequence (if ok then counts l else bump 5 (counts l)) (next_status l) queue)
  else ([], l).

(** The record of a selected frame.  [None]: a slice of the payload is out of
    range. *)
Definition turn_frame (now : Z) (padded mpdu : list Z) (l : Locals) : option (list (Record_ * bool) * Locals) :=
  let counts := bump 1 (counts l) in
  if (1600 <? length padded)%nat then Some ([], mkLocals (sequence l) (bump 4 counts) (next_status l) (OUTPUT l)) else
  let '(r, sequence) := record 1 now (sequence l) in
  let payload := <[2%nat := channel]> (splice 0 (le_bytes 2 (u16 (Z.of_nat (length mpdu)))) (payload r)) in
  let len := (length padded + 4)%nat in
  _ ← slice 4 len payload;
  let r := mkRecord 1 (seq_no r) now len (splice 4 padded payload) in
  let '(ok, queue) := try_send r (OUTPUT l) in
  Some ([(r, ok)], mkLocals sequence (bump (if ok then 2 else 3) counts) (next_status l) queue).

(** Whether a frame is streamed *)
Definition chosen (padded : list Z) (s : Settings) : bool :=
  match BorrowedBuffer.mpdu_buffer padded with Some mpdu => selected mpdu s | None => false end.

(** The rest of a turn after [receive] has returned a frame with the padded
    buffer [padded].  [s] is the copy of the settings from the head of the
    turn. *)
Definition turn_received (s : Settings) (now now' : Z) (padded : list Z) (l : Locals) : option (list (Record_ * bool) * Locals) :=
  let l := mkLocals (sequence l) (bump 0 (counts l)) (next_status l) (OUTPUT l) in
  let '(o, l) := turn_diag now padded l in
  mpdu ← BorrowedBuffer.mpdu_buffer padded;
  if selected mpdu s then
    '(o', l) ← turn_frame now' padded mpdu l;
    Some (o ++ o', l)
  else Some (o, l).

End Main.

(** ** The tasks together *)

(** Where the main task stands: before a turn, in the [select] of a turn with
    its copy of the settings, in the final [send], or in the last loop. *)
Inductive Phase := Top | Select (s : Settings) | Send (r : Record_) | Done.

Record World := mkWorld {
  settings : Settings;
  reader : Commands.Reader;
  locals : Locals;
  writing : option Record_;
  phase : Phase;
  clock : Z
}.

(** What can be observed: a frame taken from [receive] and whether it was
    selected, a record offered to the channel and whether it was taken, and
    bytes written to USB *)
Inductive Event := Received (padded : list Z) (streamed : bool) | Offered (r : Record_) (ok : bool) | Wrote (bytes : list Z).

Definition offers (l : list (Record_ * bool)) : list Event := (fun o => Offered o.1 o.2) <$> l.

Section Step.
Context `{RxCtrl}.
Variable diag : bool.
Variable channel : Z.
Variable start : Z.

(** [now.duration_since(start).as_secs() >= seconds] *)
Definition expired (now : Z) (s : Settings) : bool := stop s || (seconds s <=? (now - start) / 1000000).

(** The clock does not go back; the timer fires at [next_status].  A frame is one that [receive] returns: its
    descriptor's bytes, accepted by [is_rx_frame_valid] on the C3. *)
Inductive step : World -> list Event -> World -> Prop :=
| step_commands w input :
    step w [] (let '(r, s) := Commands.commands input (reader w, settings w) in
               mkWorld s r (locals w) (writing w) (phase w) (clock w))
| step_take w l r queue :
    locals w = l -> OUTPUT l = r :: queue -> writing w = None ->
    step w [] (mkWorld (settings w) (reader w) (mkLocals (sequence l) (counts l) (next_status l) queue) (Some r) (phase w) (clock w))
| step_write w r bytes :
    writing w = Some r -> wire r = Some bytes ->
    step w [Wrote bytes] (mkWorld (settings w) (reader w) (locals w) None (phase w) (clock w))
| step_turn w now now' o l :
    phase w = Top -> clock w <= now -> now <= now' < 2 ^ 64 -> expired now (settings w) = false ->
    turn_status (settings w) now now' (locals w) = (o, l) ->
    step w (offers o) (mkWorld (settings w) (reader w) l (writing w) (Select (settings w)) now')
| step_timer w s now :
    phase w = Select s -> clock w <= now < 2 ^ 64 -> next_status (locals w) <= now ->
    step w [] (mkWorld (settings w) (reader w) (locals w) (writing w) Top now)
| step_frame w s padded now now' o l :
    phase w = Select s -> clock w <= now -> now <= now' < 2 ^ 64 ->
    (exists n memory, padded = take n memory /\ (n <= length memory)%nat /\ Forall is_u8 memory /\
       is_rx_frame_valid Esp32c3 n (Some memory) = Some true) ->
    turn_received diag channel s now now' padded (locals w) = Some (o, l) ->
    step w (Received padded (chosen padded s) :: offers o)
      (mkWorld (settings w) (reader w) l (writing w) Top now')
| step_break w now now' r sequence :
    phase w = Top -> clock w <= now -> now <= now' < 2 ^ 64 -> expired now (settings w) = true ->
    status 3 now' (Main.sequence (locals w)) (counts (locals w)) (settings w) false = (r, sequence) ->
    step w [] (mkWorld (settings w) (reader w)
                 (mkLocals sequence (counts (locals w)) (next_status (locals w)) (OUTPUT (locals w))) (writing w) (Send r) now')
| step_send w r ok queue :
    phase w = Send r -> try_send r (OUTPUT (locals w)) = (ok, queue) -> ok = true ->
    step w [Offered r true] (mkWorld (settings w) (reader w)
                 (mkLocals (sequence (locals w)) (counts (locals w)) (next_status (locals w)) queue) (writing w) Done (clock w)).

End Step.
End Main.
