(* ===== verification/CaptureHost.v ===== *)
(** * The host side of the capture application

    [docs/network/tools/raw-capture/decode.py]: the decoder of the byte stream,
    which may start inside boot text, arrive in pieces and contain damage, and
    the verdict [validate] on a capture. *)

From S2P Require Import Prelude Capture.

Module Host.

Import Protocol.

(** The fields of [stats] *)
Record Stats := mkStats {
  records : Z;
  frames : Z;
  prefix_bytes : Z;
  corrupt_bytes : Z;
  crc_errors : Z;
  sequence_gaps : Z;
  sequence_regressions : Z;
  records_after_end : Z
}.

(** A decoded record, as [feed] yields it *)
Record Message := mkMessage { m_kind : Z; m_sequence : Z; m_micros : Z; m_payload : list Z }.

Record Decoder := mkDecoder {
  buffer : list Z;
  stats : Stats;
  last_sequence : option Z;
  final : option (list Z)
}.

Definition init : Decoder := mkDecoder [] (mkStats 0 0 0 0 0 0 0 0) None None.

(** [HEADER.size] *)
Definition HEADER_size : nat := 24.

(** [b.startswith(MAGIC)] *)
Definition starts (b : list Z) : bool := bool_decide (take 8 b = MAGIC).

(** [buffer.find(MAGIC)] *)
Fixpoint find (b : list Z) : option nat :=
  match b with
  | [] => None
  | _ :: b' => if starts b then Some 0%nat else S <$> find b'
  end.

Definition discard (n : nat) (d : Decoder) : Decoder :=
  let st := stats d in
  let k := Z.of_nat n in
  mkDecoder (drop n (buffer d))
    (match last_sequence d with
     | None => mkStats (records st) (frames st) (prefix_bytes st + k) (corrupt_bytes st) (crc_errors st) (sequence_gaps st)
                 (sequence_regressions st) (records_after_end st)
     | Some _ => mkStats (records st) (frames st) (prefix_bytes st) (corrupt_bytes st + k) (crc_errors st) (sequence_gaps st)
                   (sequence_regressions st) (records_after_end st)
     end) (last_sequence d) (final d).

(** The words of [struct.unpack('<11I', payload)]; [None] is the [ValueError]. *)
Definition counters (payload : list Z) : option (list Z) :=
  if (length payload =? 44)%nat
  then Some ((fun i => le_word (take 4 (drop (4 * i) payload))) <$> seq 0 11) else None.

(** [HEADER.unpack_from(buffer)], without the magic *)
Definition h_length (b : list Z) : nat := Z.to_nat (le_word (take 2 (drop 8 b))).
Definition h_kind (b : list Z) : Z := nth 10 b 0.
Definition h_version (b : list Z) : Z := nth 11 b 0.
Definition h_sequence (b : list Z) : Z := le_word (take 4 (drop 12 b)).
Definition h_micros (b : list Z) : Z := le_word (take 8 (drop 16 b)).

(** [zlib.crc32]: the CRC-32 of IEEE 802.3, bit by bit, the lowest bit of each
    byte first *)
Definition zlib_bit (crc : Z) (bit : bool) : Z :=
  let x := Z.shiftr crc 1 in
  if xorb (Z.odd crc) bit then Z.lxor x 0xedb88320 else x.

Definition zlib_byte (crc byte : Z) : Z := foldl zlib_bit crc (Z.testbit byte <$> seqZ 0 8).

Definition zlib_crc32 (bytes : list Z) : Z := Z.lxor (foldl zlib_byte 0xffffffff bytes) 0xffffffff.

Definition add_crc_error (d : Decoder) : Decoder :=
  let st := stats d in
  mkDecoder (buffer d) (mkStats (records st) (frames st) (prefix_bytes st) (corrupt_bytes st) (crc_errors st + 1) (sequence_gaps st)
    (sequence_regressions st) (records_after_end st)) (last_sequence d) (final d).

(** The statistics after an intact record *)
Definition account (m : Message) (d : Decoder) : Stats :=
  let st := stats d in
  let '(gaps, regressions) :=
    match last_sequence d with
    | Some last =>
        let gap := Z.land (m_sequence m - last - 1) 0xffffffff in
        if 0x7fffffff <? gap then (sequence_gaps st, sequence_regressions st + 1) else (sequence_gaps st + gap, sequence_regressions st)
    | None => (sequence_gaps st + m_sequence m, sequence_regressions st)
    end in
  mkStats (records st + 1) (frames st + (if m_kind m =? 1 then 1 else 0)) (prefix_bytes st) (corrupt_bytes st) (crc_errors st) gaps
    regressions (records_after_end st + match final d with Some _ => 1 | None => 0 end).

(** An intact record of [end_ + 4] bytes; [None] is the exception of
    [counters]. *)
Definition accept (end_ : nat) (d : Decoder) : option (Message * Decoder) :=
  let b := buffer d in
  let m := mkMessage (h_kind b) (h_sequence b) (h_micros b) (drop HEADER_size (take end_ b)) in
  fin ← (if m_kind m =? 3 then Some <$> counters (m_payload m) else Some (final d));
  Some (m, mkDecoder (drop (end_ + 4) b) (account m d) (Some (m_sequence m)) fin).

(** What a turn of the loop in [feed] does: return, continue, or yield *)
Inductive Turn := Return (d : Decoder) | Continue (d : Decoder) | Yield (m : Message) (d : Decoder) | Raise.

(** The part of the loop after [discard(offset)]: the buffer starts with the
    magic. *)
Definition examine (d : Decoder) : Turn :=
  let b := buffer d in
  if (length b <? HEADER_size)%nat then Return d else
  if (1604 <? h_length b)%nat || negb (existsb (Z.eqb (h_kind b)) [1; 2; 3; 4]) || negb (h_version b =? 1)
  then Continue (discard 1 d) else
  let end_ := (HEADER_size + h_length b)%nat in
  if (length b <? end_ + 4)%nat then Return d else
  if negb (zlib_crc32 (take end_ b) =? le_word (take 4 (drop end_ b)))
  then Continue (discard 1 (add_crc_error d)) else
  match accept end_ d with Some (m, d) => Yield m d | None => Raise end.

Definition turn (d : Decoder) : Turn :=
  match find (buffer d) with
  | None => Return (discard (length (buffer d) + 1 - length MAGIC) d)
  | Some offset => examine (discard offset d)
  end.

(** The loop of [feed]; a turn that does not return shortens the buffer. *)
Fixpoint loop (fuel : nat) (d : Decoder) : option (list Message * Decoder) :=
  match fuel with
  | O => None
  | S fuel' =>
      match turn d with
      | Return d => Some ([], d)
      | Continue d => loop fuel' d
      | Yield m d => '(ms, d) ← loop fuel' d; Some (m :: ms, d)
      | Raise => None
      end
  end.

(** [buffer.extend(data)] *)
Definition extend (data : list Z) (d : Decoder) : Decoder := mkDecoder (buffer d ++ data) (stats d) (last_sequence d) (final d).

Definition feed (data : list Z) (d : Decoder) : option (list Message * Decoder) :=
  let d := extend data d in loop (S (length (buffer d))) d.

(** A capture read in pieces *)
Fixpoint feeds (pieces : list (list Z)) (d : Decoder) : option (list Message * Decoder) :=
  match pieces with
  | [] => Some ([], d)
  | p :: pieces' => '(ms, d) ← feed p d; '(ms', d) ← feeds pieces' d; Some (ms ++ ms', d)
  end.

(** The eleven counters by name *)
Definition c_seen (f : list Z) : Z := nth 0 f 0.
Definition c_selected (f : list Z) : Z := nth 1 f 0.
Definition c_enqueued (f : list Z) : Z := nth 2 f 0.
Definition c_running (f : list Z) : Z := nth 10 f 0.

Definition validate (d : Decoder) : bool :=
  match final d with
  | None => false
  | Some f =>
      (c_running f =? 0) && (c_enqueued f =? frames (stats d)) && (c_selected f =? c_enqueued f) && (c_selected f <=? c_seen f) &&
      forallb (fun i => nth i f 0 =? 0) [3; 4; 5; 6]%nat &&
      forallb (Z.eqb 0) [corrupt_bytes (stats d); crc_errors (stats d); sequence_gaps (stats d); sequence_regressions (stats d);
                         records_after_end (stats d)] &&
      bool_decide (buffer d = [])
  end.

(** The frame of a kind 1 record for the capture file: fifteen bytes of
    Radiotap header and the MPDU; [None] is a [ValueError]. *)
Definition radiotap (payload : list Z) : option (list Z) :=
  if (length payload <? 52)%nat then None else
  let length_ := Z.to_nat (le_word (take 2 payload)) in
  let channel := nth 2 payload 0 in
  let raw := drop 4 payload in
  if (length_ <? 24)%nat || (length raw - 48 <? length_)%nat || negb ((1 <=? channel) && (channel <=? 14)) then None else
  let freq := if channel =? 14 then 2484 else 2407 + 5 * channel in
  Some ([0; 0] ++ le_bytes 2 15 ++ le_bytes 4 0x2a ++ [0; 0] ++ le_bytes 2 freq ++ le_bytes 2 0x80 ++ take 1 raw ++
        take length_ (drop 48 raw)).

(** ** The recorder ([capture.py]) *)

(** [bytes.hex()] *)
Definition hex_digit (x : Z) : Z := if x <? 10 then 48 + x else 97 + (x - 10).
Definition hex (bytes : list Z) : list Z := bytes ≫= fun b => [hex_digit (b / 16); hex_digit (b mod 16)].

(** [str(n)] *)
Fixpoint digits (fuel : nat) (n : Z) : list Z :=
  match fuel with
  | O => []
  | S fuel' => if n <? 10 then [48 + n] else digits fuel' (n / 10) ++ [48 + n mod 10]
  end.
Definition str (n : Z) : list Z := digits (S (Z.to_nat (Z.log2 n))) n.

(** The bytes written to the port before reading starts *)
Definition session (seconds : Z) (bssid : list Z) (station : option (list Z)) : list Z :=
  [68] ++ str seconds ++ [10; 66] ++ hex bssid ++ [10] ++
  match station with Some a => [77] ++ hex a ++ [10] | None => [] end.

(** What [address] lets through: six bytes, not zero, not a group address *)
Definition unicast (raw : list Z) : Prop := length raw = 6%nat /\ Forall is_u8 raw /\ raw <> replicate 6 0 /\ Z.land (nth 0 raw 0) 1 = 0.

End Host.
