(* ===== verification/CaptureCrc.v ===== *)
(** * The checksum of the capture stream

    The table-driven CRC of the firmware is the bitwise CRC of the host, and
    it changes with every burst of at most four damaged bytes. *)

From S2P Require Import Prelude Capture CaptureHost.

Import Protocol.

(** ** One bit *)

Lemma crc_bit_cases v : crc_bit v = Z.lxor (Z.shiftr v 1) (if Z.odd v then 0xedb88320 else 0).
Proof.
  unfold crc_bit. f_equal. change 1 with (Z.ones 1) at 1. rewrite Z.land_ones, Z.pow_1_r, Zmod_odd by lia.
  by destruct (Z.odd v).
Qed.

Lemma odd_lxor a b : Z.odd (Z.lxor a b) = xorb (Z.odd a) (Z.odd b).
Proof. by rewrite <- !Z.bit0_odd, Z.lxor_spec. Qed.

Lemma lxor_swap a b c d : Z.lxor (Z.lxor a b) (Z.lxor c d) = Z.lxor (Z.lxor a c) (Z.lxor b d).
Proof. rewrite !Z.lxor_assoc. f_equal. rewrite <- !Z.lxor_assoc. f_equal. apply Z.lxor_comm. Qed.

Lemma crc_bit_linear a b : crc_bit (Z.lxor a b) = Z.lxor (crc_bit a) (crc_bit b).
Proof.
  rewrite !crc_bit_cases, lxor_swap, <- Z.shiftr_lxor. f_equal. rewrite odd_lxor. by destruct (Z.odd a), (Z.odd b).
Qed.

Lemma crc_bit_double x : crc_bit (2 * x) = x.
Proof.
  rewrite crc_bit_cases, Z.odd_mul. cbn [Z.odd andb]. rewrite Z.lxor_0_r, Z.shiftr_div_pow2, Z.mul_comm by lia.
  by apply Z.div_mul.
Qed.

Lemma crc_bit_u32 v : is_u32 v -> is_u32 (crc_bit v).
Proof.
  intros Hv. rewrite crc_bit_cases. unfold in_width in *.
  assert (0 <= Z.shiftr v 1 < 2 ^ 31) as Hs by (rewrite Z.shiftr_div_pow2 by lia; split; [apply Z.div_pos; lia|apply Z.div_lt_upper_bound; lia]).
  split; [apply Z.lxor_nonneg; split; intros _; [destruct (Z.odd v); lia|lia]|].
  destruct (Z.eq_dec (Z.lxor (Z.shiftr v 1) (if Z.odd v then 0xedb88320 else 0)) 0) as [->|Hn]; [lia|].
  assert (0 <= Z.lxor (Z.shiftr v 1) (if Z.odd v then 0xedb88320 else 0)) by (apply Z.lxor_nonneg; split; intros _; [destruct (Z.odd v); lia|lia]).
  apply Z.log2_lt_pow2; [lia|]. eapply Z.le_lt_trans; [apply Z.log2_lxor; [lia|destruct (Z.odd v); lia]|].
  apply Z.max_lub_lt; [|by destruct (Z.odd v)].
  destruct (Z.eq_dec (Z.shiftr v 1) 0) as [->|]; [done|]. apply Z.log2_lt_pow2; lia.
Qed.

Lemma crc_bit_kernel v : is_u32 v -> crc_bit v = 0 -> v = 0.
Proof.
  intros [H0 H1]. rewrite crc_bit_cases. intros E%Z.lxor_eq. rewrite Z.shiftr_div_pow2 in E by lia.
  change (2 ^ 1) with 2 in E. pose proof (Zmod_odd v). pose proof (Z.div_mod v 2).
  destruct (Z.odd v); lia.
Qed.

(** ** Several bits *)

Definition crc_bits (n : nat) : Z -> Z := Nat.iter n crc_bit.

Lemma crc_bits_S n v : crc_bits (S n) v = crc_bits n (crc_bit v).
Proof. apply Nat.iter_succ_r. Qed.

Lemma crc_bits_add n m v : crc_bits (n + m) v = crc_bits n (crc_bits m v).
Proof. apply Nat.iter_add. Qed.

Lemma crc_bits_linear n a b : crc_bits n (Z.lxor a b) = Z.lxor (crc_bits n a) (crc_bits n b).
Proof. revert a b. induction n as [|n IH]; intros a b; [done|]. by rewrite !crc_bits_S, crc_bit_linear, IH. Qed.

Lemma crc_bits_shift n x : crc_bits n (2 ^ Z.of_nat n * x) = x.
Proof.
  revert x. induction n as [|n IH]; intros x; [apply Z.mul_1_l|].
  rewrite crc_bits_S, Nat2Z.inj_succ, Z.pow_succ_r, <- Z.mul_assoc, crc_bit_double by lia. apply IH.
Qed.

Lemma crc_bits_u32 n v : is_u32 v -> is_u32 (crc_bits n v).
Proof. revert v. induction n as [|n IH]; intros v Hv; [done|]. rewrite crc_bits_S. by apply IH, crc_bit_u32. Qed.

Lemma crc_bits_kernel n v : is_u32 v -> crc_bits n v = 0 -> v = 0.
Proof.
  revert v. induction n as [|n IH]; intros v Hv; [done|]. rewrite crc_bits_S. intros E.
  apply crc_bit_kernel; [done|]. by apply IH; [apply crc_bit_u32|].
Qed.

Lemma lxor_width w a b : 0 <= w -> in_width w a -> in_width w b -> in_width w (Z.lxor a b).
Proof.
  intros Hw Ha Hb.
  assert (Z.lxor a b = wrap w (Z.lxor a b)) as ->; [|by apply wrap_range].
  apply Z.bits_inj'. intros i Hi. rewrite wrap_testbit by lia. destruct (Z.ltb_spec i w); [done|].
  by rewrite Z.lxor_spec, !(testbit_high w) by (done || lia).
Qed.

Lemma crc_bits_inj n a b : is_u32 a -> is_u32 b -> crc_bits n a = crc_bits n b -> a = b.
Proof.
  intros Ha Hb E. apply Z.lxor_eq, (crc_bits_kernel n); [by apply lxor_width|]. by rewrite crc_bits_linear, E, Z.lxor_nilpotent.
Qed.

(** ** Bytes *)

(** Adding to the upper part is an exclusive or. *)
Lemma lxor_add_high n a x : 0 <= n -> 0 <= a < 2 ^ n -> Z.lxor a (2 ^ n * x) = a + 2 ^ n * x.
Proof. intros Hn Ha. rewrite Z.mul_comm, <- Z.add_nocarry_lxor; [done|]. rewrite Z.land_comm. by apply land_disjoint. Qed.

Lemma crc_step_bits crc byte : is_u32 crc -> is_u8 byte -> crc_step crc byte = crc_bits 8 (Z.lxor crc byte).
Proof.
  intros Hc Hb. unfold crc_step. change TABLE with crc_table. unfold crc_table.
  assert (is_u8 (Z.lxor (u8 crc) byte)) as Hi by (apply lxor_width; [lia|by apply wrap_range|done]).
  rewrite (nth_lookup_Some _ _ _ (crc_bits 8 (Z.lxor (u8 crc) byte))).
  - rewrite (Z.lxor_comm (Z.shiftr _ _)). rewrite <- (crc_bits_shift 8 (Z.shiftr crc 8)), <- crc_bits_linear. f_equal.
    rewrite !Z.lxor_assoc, (Z.lxor_comm byte), <- Z.lxor_assoc. f_equal.
    change (Z.of_nat 8) with 8. rewrite lxor_add_high by (try apply wrap_range; lia).
    rewrite Z.shiftr_div_pow2 by lia. unfold wrap. pose proof (Z.div_mod crc (2 ^ 8)). lia.
  - rewrite list_lookup_fmap, lookup_seqZ_lt by (width). rewrite Z.add_0_l, Z2Nat.id by apply Hi. unfold crc_bits. cbn [fmap option_fmap option_map]. reflexivity.
Qed.

Lemma zlib_bits crc bits :
  foldl Host.zlib_bit crc bits = crc_bits (length bits) (Z.lxor crc (foldr (fun b acc => Z.b2z b + 2 * acc) 0 bits)).
Proof.
  revert crc. induction bits as [|b bits IH]; intros crc; cbn [foldl foldr length]; [by rewrite Z.lxor_0_r|].
  rewrite IH, crc_bits_S. f_equal.
  set (x := foldr _ 0 bits). change 2 with (2 ^ 1). rewrite <- lxor_add_high by (destruct b; cbn; lia).
  rewrite <- Z.lxor_assoc, (crc_bit_linear _ (_ * x)), Z.pow_1_r, crc_bit_double. f_equal.
  rewrite crc_bit_cases, Z.shiftr_lxor, odd_lxor. unfold Host.zlib_bit.
  assert (Z.shiftr (Z.b2z b) 1 = 0) as -> by (by destruct b). rewrite Z.lxor_0_r.
  replace (Z.odd (Z.b2z b)) with b by (by destruct b). case_match; [done|]. by rewrite Z.lxor_0_r.
Qed.

Lemma byte_bits byte : is_u8 byte -> foldr (fun b acc => Z.b2z b + 2 * acc) 0 (Z.testbit byte <$> seqZ 0 8) = byte.
Proof.
  intros Hb. change (seqZ 0 8) with [0; 1; 2; 3; 4; 5; 6; 7]. cbn [fmap list_fmap foldr].
  rewrite !Z.testbit_spec' by lia. width. change (2 ^ 0) with 1; change (2 ^ 1) with 2; change (2 ^ 2) with 4.
  Z.div_mod_to_equations. lia.
Qed.

Lemma zlib_byte_bits crc byte : is_u8 byte -> Host.zlib_byte crc byte = crc_bits 8 (Z.lxor crc byte).
Proof. intros Hb. unfold Host.zlib_byte. rewrite zlib_bits, byte_bits by done. by rewrite length_fmap, length_seqZ. Qed.

(** The state of both after some bytes *)
Definition crc_state (bytes : list Z) (s : Z) : Z := foldl (fun s b => crc_bits 8 (Z.lxor s b)) s bytes.

Lemma u8_u32 b : is_u8 b -> is_u32 b.
Proof. width. Qed.

Lemma crc_state_u32 bytes s : Forall is_u8 bytes -> is_u32 s -> is_u32 (crc_state bytes s).
Proof.
  revert s. unfold crc_state. induction bytes as [|b bytes IH]; intros s; [done|]. rewrite Forall_cons. intros [Hb Hf] Hs. cbn [foldl].
  apply IH; [done|]. apply crc_bits_u32, lxor_width; [lia|done|by apply u8_u32].
Qed.

Lemma crc_state_app l k s : crc_state (l ++ k) s = crc_state k (crc_state l s).
Proof. apply foldl_app. Qed.

Lemma firmware_state bytes s : Forall is_u8 bytes -> is_u32 s -> foldl crc_step s bytes = crc_state bytes s.
Proof.
  revert s. unfold crc_state. induction bytes as [|b bytes IH]; intros s; [done|]. rewrite Forall_cons. intros [Hb Hf] Hs. cbn [foldl].
  rewrite crc_step_bits by done. apply IH; [done|]. apply crc_bits_u32, lxor_width; [lia|done|by apply u8_u32].
Qed.

Lemma host_state bytes s : Forall is_u8 bytes -> foldl Host.zlib_byte s bytes = crc_state bytes s.
Proof.
  revert s. unfold crc_state. induction bytes as [|b bytes IH]; intros s; [done|]. rewrite Forall_cons. intros [Hb Hf]. cbn [foldl].
  rewrite zlib_byte_bits by done. by apply IH.
Qed.

Lemma lnot_u32 s : is_u32 s -> u32 (Z.lnot s) = Z.lxor s 0xffffffff.
Proof.
  intros Hs. apply (width_bits_ext 32); [lia|by apply wrap_range|apply lxor_width; [lia|done|width]|].
  intros i Hi. rewrite wrap_testbit, Z.lnot_spec, Z.lxor_spec by lia. change 0xffffffff with (Z.ones 32).
  rewrite Z.ones_spec_low by lia. rewrite (proj2 (Z.ltb_lt i 32)) by lia. by destruct (Z.testbit s i).
Qed.

(** The firmware's checksum is the host's. *)
Lemma crc_firmware_host bytes : Forall is_u8 bytes -> crc32 bytes = Host.zlib_crc32 bytes.
Proof.
  intros Hf. unfold crc32, Host.zlib_crc32. change (u32 (Z.lnot 0)) with 0xffffffff.
  rewrite firmware_state, host_state by (done || width). apply lnot_u32, crc_state_u32; [done|width].
Qed.

Example crc_vector : crc32 [49; 50; 51; 52; 53; 54; 55; 56; 57] = 0xcbf43926.
Proof. vm_compute. reflexivity. Qed.

(** ** Bursts *)

(** A short run of bytes acts as one word. *)
Lemma crc_state_word w s : Forall is_u8 w -> crc_state w s = crc_bits (8 * length w) (Z.lxor s (le_word w)).
Proof.
  revert s. induction w as [|b w IH]; intros s; [by rewrite Z.lxor_0_r|]. rewrite Forall_cons. intros [Hb Hw].
  unfold crc_state. cbn [foldl]. fold (crc_state w (crc_bits 8 (Z.lxor s b))). rewrite IH by done. cbn [length le_word].
  replace (8 * S (length w))%nat with (8 * length w + 8)%nat by lia. rewrite crc_bits_add. f_equal.
  change 256 with (2 ^ 8). rewrite <- lxor_add_high by (lia || exact Hb). rewrite <- Z.lxor_assoc, (crc_bits_linear 8 _ (2 ^ 8 * _)).
  f_equal. symmetry. apply (crc_bits_shift 8).
Qed.

Lemma le_word_u32 w : Forall is_u8 w -> (length w <= 4)%nat -> is_u32 (le_word w).
Proof.
  intros Hw Hl. pose proof (le_word_range w Hw). split; [lia|]. eapply Z.lt_le_trans; [apply H|].
  change (2 ^ 32) with (256 ^ 4). apply Z.pow_le_mono_r; lia.
Qed.

Lemma le_word_inj w w' : Forall is_u8 w -> Forall is_u8 w' -> length w = length w' -> le_word w = le_word w' -> w = w'.
Proof. intros Hw Hw' Hl E. rewrite <- (le_bytes_word w), <- (le_bytes_word w'), E, Hl by done. done. Qed.

Lemma lxor_cancel_l s a b : Z.lxor s a = Z.lxor s b -> a = b.
Proof. intros E. rewrite <- (Z.lxor_0_l a), <- (Z.lxor_nilpotent s), Z.lxor_assoc, E, <- Z.lxor_assoc, Z.lxor_nilpotent. apply Z.lxor_0_l. Qed.

Lemma crc_state_burst s w w' :
  is_u32 s -> Forall is_u8 w -> Forall is_u8 w' -> length w = length w' -> (length w <= 4)%nat ->
  crc_state w s = crc_state w' s -> w = w'.
Proof.
  intros Hs Hw Hw' Hl H4 E. rewrite !crc_state_word, <- Hl in E by done. apply le_word_inj; [done..|].
  apply (lxor_cancel_l s), (crc_bits_inj (8 * length w)); [| |done]; apply lxor_width; try done; by apply le_word_u32; [|lia].
Qed.

Lemma crc_state_inj q s s' : Forall is_u8 q -> is_u32 s -> is_u32 s' -> crc_state q s = crc_state q s' -> s = s'.
Proof.
  revert s s'. unfold crc_state. induction q as [|b q IH]; intros s s'; [done|]. rewrite Forall_cons. intros [Hb Hq] Hs Hs' E. cbn [foldl] in E.
  assert (forall x, is_u32 x -> is_u32 (Z.lxor x b)) as Hx by (intros x Hx; apply lxor_width; [lia|done|by apply u8_u32]).
  apply IH in E; [|done|by apply crc_bits_u32, Hx..]. apply crc_bits_inj in E; [|by apply Hx..].
  rewrite (Z.lxor_comm s), (Z.lxor_comm s') in E. by apply lxor_cancel_l in E.
Qed.

(** The state after a message and its checksum does not depend on the
    message. *)
Lemma crc_residue m c : Forall is_u8 m -> Forall is_u8 c -> length c = 4%nat ->
  (Host.zlib_crc32 m = le_word c <-> crc_state (m ++ c) 0xffffffff = crc_bits 32 0xffffffff).
Proof.
  intros Hm Hc Hl. unfold Host.zlib_crc32. rewrite host_state, crc_state_app, (crc_state_word c), Hl by done.
  set (s := crc_state m 0xffffffff). assert (is_u32 s) by (apply crc_state_u32; [done|width]).
  assert (is_u32 (le_word c)) by (apply le_word_u32; [done|lia]). split.
  - intros <-. f_equal. by rewrite <- Z.lxor_assoc, Z.lxor_nilpotent, Z.lxor_0_l.
  - intros E%crc_bits_inj; [|apply lxor_width; done || lia|width]. rewrite <- E, <- Z.lxor_assoc, Z.lxor_nilpotent. apply Z.lxor_0_l.
Qed.

(** A burst of at most four bytes in a message with its checksum is
    detected. *)
Lemma burst_detected p w w' q :
  Forall is_u8 (p ++ w ++ q) -> Forall is_u8 w' -> length w = length w' -> (length w <= 4)%nat -> w <> w' ->
  crc_state (p ++ w ++ q) 0xffffffff <> crc_state (p ++ w' ++ q) 0xffffffff.
Proof.
  intros Hf Hw' Hl H4 Hne E. apply Forall_app in Hf as [Hp Hf]. apply Forall_app in Hf as [Hw Hq].
  rewrite !crc_state_app in E. assert (is_u32 (crc_state p 0xffffffff)) by (apply crc_state_u32; [done|width]).
  apply crc_state_inj in E; [|done|by apply crc_state_u32..]. by apply crc_state_burst in E.
Qed.
