(* ===== verification/CaptureHostSpec.v ===== *)
(** * The decoder of the capture stream

    Reading in pieces makes no difference, and what the firmware writes is
    decoded as it was. *)

From S2P Require Import Prelude Capture CaptureHost CaptureCrc.

Import Protocol Host.

(** ** Finding the magic *)

Lemma find_Some b n : find b = Some n <-> starts (drop n b) = true /\ forall i, (i < n)%nat -> starts (drop i b) = false.
Proof.
  revert n. induction b as [|x b IH]; intros n; cbn [find].
  - split; [done|]. rewrite drop_nil. by intros [? _].
  - destruct (starts (x :: b)) eqn:E.
    + split; [intros [= <-]; split; [done|lia]|]. intros [_ Hn]. destruct n; [done|]. specialize (Hn 0%nat). rewrite drop_0, E in Hn. by discriminate Hn; lia.
    + destruct n as [|n].
      * split; [by destruct (find b)|]. intros [Hs _]. by rewrite drop_0, E in Hs.
      * rewrite skipn_cons. assert (S <$> find b = Some (S n) <-> find b = Some n) as -> by (destruct (find b); cbn; split; congruence). rewrite IH.
        split; intros [Hs Hn]; (split; [done|]); [intros [|i] Hi; [done|]; apply Hn; lia|].
        intros i Hi. apply (Hn (S i)). lia.
Qed.

Lemma find_None b : find b = None <-> forall i, starts (drop i b) = false.
Proof.
  induction b as [|x b IH]; cbn [find].
  - split; [|done]. intros _ i. by rewrite drop_nil.
  - destruct (starts (x :: b)) eqn:E.
    + split; [done|]. intros Hn. specialize (Hn 0%nat). by rewrite drop_0, E in Hn.
    + rewrite fmap_None, IH. split; [intros Hn [|i]; [done|apply Hn]|]. intros Hn i. apply (Hn (S i)).
Qed.

Lemma starts_length b : starts b = true -> (8 <= length b)%nat.
Proof. unfold starts. rewrite bool_decide_eq_true. intros E%(f_equal length). rewrite length_take in E. change (length MAGIC) with 8%nat in E. lia. Qed.

Lemma starts_app b k : (8 <= length b)%nat -> starts (b ++ k) = starts b.
Proof. intros Hl. unfold starts. by rewrite take_app_le by lia. Qed.

Lemma find_app b k n : find b = Some n -> find (b ++ k) = Some n.
Proof.
  rewrite !find_Some. intros [Hs Hn]. pose proof (starts_length _ Hs) as Hl. rewrite length_drop in Hl. split.
  - by rewrite drop_app_le, starts_app by (rewrite ?length_drop; lia).
  - intros i Hi. rewrite drop_app_le, starts_app by (rewrite ?length_drop; lia). by apply Hn.
Qed.

(** The last seven bytes are all that matters of a part without the magic. *)
Lemma find_tail b k : find b = None -> find (b ++ k) = Nat.add (length b + 1 - 8) <$> find (drop (length b + 1 - 8) b ++ k).
Proof.
  intros Hb. rewrite find_None in Hb. set (n := (length b + 1 - 8)%nat).
  assert (forall i, (i < n)%nat -> starts (drop i (b ++ k)) = false) as Hlow.
  { intros i Hi. rewrite drop_app_le, starts_app by (rewrite ?length_drop; lia). apply Hb. }
  rewrite <- (drop_app_le b) by lia. destruct (find (drop n (b ++ k))) as [m|] eqn:E; cbn.
  - apply find_Some in E as [Hs Hm]. apply find_Some. rewrite drop_drop in Hs. split; [done|].
    intros i Hi. destruct (decide (i < n)%nat); [by apply Hlow|]. specialize (Hm (i - n)%nat). rewrite drop_drop in Hm.
    replace (n + (i - n))%nat with i in Hm by lia. apply Hm. lia.
  - apply find_None. rewrite find_None in E. intros i. destruct (decide (i < n)%nat); [by apply Hlow|].
    specialize (E (i - n)%nat). rewrite drop_drop in E. by replace (n + (i - n))%nat with i in E by lia.
Qed.

(** ** Discarding and extending *)

Lemma discard_0 d : discard 0 d = d.
Proof. destruct d as [b [] l f]. unfold discard. cbn. destruct l; by rewrite Z.add_0_r. Qed.

Lemma discard_discard m n d : discard m (discard n d) = discard (n + m) d.
Proof. destruct d as [b [] l f]. unfold discard. cbn. rewrite drop_drop, Nat2Z.inj_add. destruct l; cbn; by rewrite Z.add_assoc. Qed.

Lemma extend_discard n k d : (n <= length (buffer d))%nat -> discard n (extend k d) = extend k (discard n d).
Proof. intros Hn. unfold discard, extend. cbn. by rewrite drop_app_le. Qed.

Lemma extend_extend j k d : extend k (extend j d) = extend (j ++ k) d.
Proof. unfold extend. cbn. by rewrite app_assoc. Qed.

Lemma extend_nil d : extend [] d = d.
Proof. destruct d. unfold extend. cbn. by rewrite app_nil_r. Qed.

(** ** The loop *)

Definition run (d : Decoder) : option (list Message * Decoder) := loop (S (length (buffer d))) d.

(** What a turn leads to *)
Definition continued (t : Turn) : option (list Message * Decoder) :=
  match t with
  | Return d => Some ([], d)
  | Continue d => run d
  | Yield m d => '(ms, d) ← run d; Some (m :: ms, d)
  | Raise => None
  end.

Lemma examine_shrinks d d' m :
  examine d = Continue d' \/ examine d = Yield m d' -> (length (buffer d') < length (buffer d))%nat.
Proof.
  unfold examine, accept. intros He. repeat (case_match; try (destruct He; done)); simplify_eq.
  all: destruct He; simplify_eq; cbn; rewrite ?length_drop.
  all: repeat match goal with H : (_ <? _)%nat = false |- _ => apply Nat.ltb_ge in H end; unfold HEADER_size in *; try lia.
  all: match goal with H : _ ≫= _ = Some _ |- _ => apply bind_Some in H as (? & _ & ?) end; simplify_eq; cbn; rewrite length_drop; lia.
Qed.

Lemma turn_shrinks d d' m :
  turn d = Continue d' \/ turn d = Yield m d' -> (length (buffer d') < length (buffer d))%nat.
Proof.
  unfold turn. destruct (find (buffer d)); [|by intros []]. intros Hs%examine_shrinks.
  eapply Nat.lt_le_trans; [exact Hs|]. cbn. rewrite length_drop. lia.
Qed.

(** The fuel of [feed] is enough. *)
Lemma loop_fuel n d : (length (buffer d) < n)%nat -> loop n d = continued (turn d).
Proof.
  revert n d. induction n as [n IH] using lt_wf_ind. intros d Hn. destruct n as [|n]; [lia|]. cbn [loop]. unfold continued, run.
  destruct (turn d) as [|d'|m d'|] eqn:E; [done| | |done].
  - pose proof (turn_shrinks d d' (mkMessage 0 0 0 []) (or_introl E)). rewrite !IH by lia. done.
  - pose proof (turn_shrinks d d' m (or_intror E)). rewrite !IH by lia. done.
Qed.

Lemma run_turn d : run d = continued (turn d).
Proof. apply loop_fuel. lia. Qed.
#[global] Opaque run.

(** ** Reading in pieces *)

(** A turn that does not wait for more bytes does not look at them. *)
Definition extend_turn (k : list Z) (t : Turn) : Turn :=
  match t with
  | Return d => Return (extend k d)
  | Continue d => Continue (extend k d)
  | Yield m d => Yield m (extend k d)
  | Raise => Raise
  end.

Lemma header_app b k : (24 <= length b)%nat ->
  h_length (b ++ k) = h_length b /\ h_kind (b ++ k) = h_kind b /\ h_version (b ++ k) = h_version b /\
  h_sequence (b ++ k) = h_sequence b /\ h_micros (b ++ k) = h_micros b.
Proof.
  intros Hl. unfold h_length, h_kind, h_version, h_sequence, h_micros.
  rewrite !drop_app_le, !take_app_le, !app_nth1 by (rewrite ?length_drop; lia). done.
Qed.

Lemma examine_extend k d : (forall d', examine d <> Return d') -> examine (extend k d) = extend_turn k (examine d).
Proof.
  unfold examine. destruct (Nat.ltb_spec (length (buffer d)) HEADER_size) as [|Hl]; [naive_solver|].
  unfold HEADER_size in *. cbn [buffer extend]. destruct (header_app (buffer d) k Hl) as (E1 & E2 & E3 & E4 & E5).
  rewrite E1, E2, E3, length_app. assert ((length (buffer d) + length k <? 24)%nat = false) as -> by (apply Nat.ltb_ge; lia).
  case_match; [intros _; cbn [extend_turn]; by rewrite extend_discard by lia|].
  destruct (Nat.ltb_spec (length (buffer d)) (24 + h_length (buffer d) + 4)) as [|Hr]; [naive_solver|].
  assert ((length (buffer d) + length k <? 24 + h_length (buffer d) + 4)%nat = false) as -> by (apply Nat.ltb_ge; lia).
  rewrite drop_app_le, !take_app_le by (rewrite ?length_drop; lia). case_match; intros _.
  - cbn [extend_turn]. rewrite <- extend_discard by (cbn; lia). done.
  - unfold accept. cbn [buffer extend]. rewrite E2, E4, E5, take_app_le, drop_app_le by lia.
    unfold account. cbn [stats extend last_sequence final m_kind m_payload m_sequence]. by destruct (_ : option (option (list Z))).
Qed.

Lemma starts_drop_find d n : find (buffer d) = Some n -> find (buffer (discard n d)) = Some 0%nat.
Proof. rewrite !find_Some. cbn. rewrite drop_0. intros [? _]. split; [done|lia]. Qed.

Lemma find_le b n : find b = Some n -> (n <= length b)%nat.
Proof. rewrite find_Some. intros [Hs%starts_length _]. rewrite length_drop in Hs. lia. Qed.

(** Waiting for more bytes loses nothing. *)
Lemma return_extend k d d' : turn d = Return d' -> run (extend k d) = run (extend k d').
Proof.
  unfold turn. intros Ht. rewrite !run_turn. f_equal. unfold turn. cbn [buffer extend].
  destruct (find (buffer d)) as [n|] eqn:E.
  - assert (d' = discard n d) as -> by (revert Ht; unfold examine, accept; repeat case_match; congruence).
    rewrite (find_app _ k n E), (find_app _ k 0 (starts_drop_find d n E)), discard_0, extend_discard by (by apply find_le). done.
  - injection Ht as <-. change (length MAGIC) with 8%nat. rewrite (find_tail _ k E). cbn [buffer discard].
    set (n := (length (buffer d) + 1 - 8)%nat). assert (n <= length (buffer d))%nat by lia.
    rewrite <- extend_discard by done. destruct (find (drop n (buffer d) ++ k)) as [m|]; cbn [fmap option_fmap option_map].
    + by rewrite discard_discard.
    + rewrite discard_discard, !length_app, length_drop. do 2 f_equal.
      destruct (decide (n = 0)%nat) as [->|]; [lia|]. lia.
Qed.

Lemma turn_extend k d : (forall d', turn d <> Return d') -> turn (extend k d) = extend_turn k (turn d).
Proof.
  unfold turn. destruct (find (buffer d)) as [o|] eqn:Ef; [|naive_solver]. intros Ht. cbn [buffer extend].
  rewrite (find_app _ k o Ef), extend_discard by (by apply find_le). by apply examine_extend.
Qed.

Lemma run_app k d : run (extend k d) = '(ms, d) ← run d; '(ms', d) ← run (extend k d); Some (ms ++ ms', d).
Proof.
  remember (length (buffer d)) as n eqn:En. revert d En. induction n as [n IH] using lt_wf_ind. intros d ->.
  rewrite (run_turn d). destruct (turn d) as [d'|d'|m d'|] eqn:E; cbn [continued].
  - rewrite (return_extend k d d' E). cbn. by destruct (run (extend k d')) as [[]|].
  - pose proof (turn_shrinks d d' (mkMessage 0 0 0 []) (or_introl E)).
    rewrite run_turn, turn_extend, E by (by rewrite E). by apply (IH (length (buffer d'))).
  - pose proof (turn_shrinks d d' m (or_intror E)).
    rewrite run_turn, turn_extend, E by (by rewrite E). cbn [extend_turn continued].
    rewrite (IH (length (buffer d')) ltac:(done) d' eq_refl). destruct (run d') as [[ms d1]|]; [|done]. cbn.
    by destruct (run (extend k d1)) as [[]|].
  - by rewrite run_turn, turn_extend, E by (by rewrite E).
Qed.

Lemma run_settled d ms d' : run d = Some (ms, d') -> run d' = Some ([], d').
Proof.
  intros E. pose proof (run_app [] d) as Ha. rewrite extend_nil, E in Ha. cbn in Ha. rewrite extend_nil in Ha.
  destruct (run d') as [[ms' d2]|]; [|done]. cbn in Ha. injection Ha as Hm ->.
  rewrite <- (app_nil_r ms) in Hm at 1. by apply app_inv_head in Hm as <-.
Qed.

Lemma feed_run p d : feed p d = run (extend p d).
Proof. reflexivity. Qed.

(** The pieces in which a stream arrives make no difference. *)
Lemma feeds_concat p pieces d : feeds (p :: pieces) d = run (extend (concat (p :: pieces)) d).
Proof.
  revert p d. induction pieces as [|q pieces IH]; intros p d.
  - cbn [feeds concat]. rewrite app_nil_r. rewrite feed_run. destruct (run (extend p d)) as [[ms d']|]; [|done].
    cbn. by rewrite app_nil_r.
  - change (feeds (p :: q :: pieces) d) with ('(ms, d) ← feed p d; '(ms', d) ← feeds (q :: pieces) d; Some (ms ++ ms', d)).
    cbn [concat]. rewrite <- extend_extend, run_app. rewrite feed_run.
    destruct (run (extend p d)) as [[ms d']|]; [|done]. cbn [mbind option_bind]. by rewrite (IH q d').
Qed.

(** ** Records of the firmware *)

(** What the firmware puts in the channel *)
Record rec_ok (r : Record_) : Prop := mkRecOk {
  ok_kind : kind r ∈ [1; 2; 3; 4];
  ok_seq : is_u32 (seq_no r);
  ok_micros : in_width 64 (micros r);
  ok_len : (len r <= MAX_PAYLOAD)%nat;
  ok_payload : length (payload r) = MAX_PAYLOAD;
  ok_bytes : Forall is_u8 (payload r);
  ok_end : kind r = 3 -> len r = 44%nat
}.

Definition message (r : Record_) : Message := mkMessage (kind r) (seq_no r) (micros r) (take (len r) (payload r)).

(** The header and the payload of a record *)
Definition head (r : Record_) : list Z :=
  MAGIC ++ le_bytes 2 (u16 (Z.of_nat (len r))) ++ [kind r; 1] ++ le_bytes 4 (seq_no r) ++ le_bytes 8 (micros r).

Definition framed (r : Record_) : list Z := head r ++ take (len r) (payload r).

Definition image (r : Record_) : list Z := framed r ++ le_bytes 4 (Host.zlib_crc32 (framed r)).

Lemma head_length r : length (head r) = 24%nat.
Proof. reflexivity. Qed.

Lemma kind_u8 r : rec_ok r -> is_u8 (kind r).
Proof. intros [Hk _ _ _ _ _ _]. by enum_in Hk; width. Qed.

Lemma framed_u8 r : rec_ok r -> Forall is_u8 (framed r).
Proof.
  intros Hr. unfold framed, head. rewrite !Forall_app. split_and!; try apply le_bytes_u8.
  - decide_now.
  - repeat constructor; try (by apply kind_u8); width.
  - apply Forall_take, Hr.
Qed.

Lemma framed_length r : rec_ok r -> length (framed r) = (24 + len r)%nat.
Proof. intros Hr. unfold framed. rewrite length_app, head_length, length_take, (ok_payload r Hr). pose proof (ok_len r Hr). lia. Qed.

(** The writer never fails. *)
Lemma wire_image r : rec_ok r -> Main.wire r = Some (image r).
Proof.
  intros Hr. unfold Main.wire, header. rewrite decide_True by apply Hr. cbn [mbind option_bind].
  rewrite slice_Some by (rewrite (ok_payload r Hr); pose proof (ok_len r Hr); lia). rewrite drop_0, Nat.sub_0_r. cbn [mbind option_bind].
  fold (head r). change (head r ++ take (len r) (payload r)) with (framed r). rewrite crc_firmware_host by (by apply framed_u8).
  unfold image, framed. by rewrite <- app_assoc.
Qed.

Lemma zlib_u32 bytes : Forall is_u8 bytes -> is_u32 (zlib_crc32 bytes).
Proof. intros Hb. unfold zlib_crc32. rewrite host_state by done. apply lxor_width; [lia| |width]. apply crc_state_u32; [done|width]. Qed.

Lemma image_fields r k : rec_ok r ->
  let b := image r ++ k in
  starts b = true /\ h_length b = len r /\ h_kind b = kind r /\ h_version b = 1 /\ h_sequence b = seq_no r /\ h_micros b = micros r /\
  take (24 + len r) b = framed r /\ le_word (take 4 (drop (24 + len r) b)) = zlib_crc32 (framed r) /\ drop (24 + len r + 4) b = k.
Proof.
  intros Hr b. pose proof (framed_length r Hr) as Hl. pose proof (ok_len r Hr) as Hm. unfold MAX_PAYLOAD in Hm. split_and!; try reflexivity.
  - unfold h_length. change (take 2 (drop 8 b)) with (le_bytes 2 (u16 (Z.of_nat (len r)))). rewrite le_word_bytes, wrap_small, Z.mod_small by width. lia.
  - unfold h_sequence. change (take 4 (drop 12 b)) with (le_bytes 4 (seq_no r)). rewrite le_word_bytes. apply Z.mod_small, Hr.
  - unfold h_micros. change (take 8 (drop 16 b)) with (le_bytes 8 (micros r)). rewrite le_word_bytes. apply Z.mod_small, Hr.
  - unfold b, image. rewrite <- app_assoc. by apply take_app_length'.
  - unfold b, image. rewrite <- app_assoc, drop_app_length' by done. rewrite take_app_length' by (by rewrite le_bytes_length).
    rewrite le_word_bytes. apply Z.mod_small. by apply zlib_u32, framed_u8.
  - unfold b. apply drop_app_length'. unfold image. rewrite length_app, le_bytes_length. lia.
Qed.

(** The counters of an end record *)
Definition words (payload : list Z) : list Z := (fun i => le_word (take 4 (drop (4 * i) payload))) <$> seq 0 11.

(** The decoder after a record *)
Definition got (d : Decoder) (r : Record_) (k : list Z) : Decoder :=
  mkDecoder k (account (message r) d) (Some (seq_no r)) (if kind r =? 3 then Some (words (take (len r) (payload r))) else final d).

Lemma turn_image d r k : rec_ok r -> buffer d = image r ++ k -> turn d = Yield (message r) (got d r k).
Proof.
  intros Hr Hb. destruct (image_fields r k Hr) as (Hs & Hl & Hk & Hv & Hq & Hm & Hf & Hc & Hd). rewrite <- Hb in *.
  assert (find (buffer d) = Some 0%nat) as E by (apply find_Some; rewrite drop_0; split; [done|lia]).
  unfold turn. rewrite E, discard_0. unfold examine, HEADER_size. rewrite Hl, Hk, Hv.
  assert (length (buffer d) = 24 + len r + 4 + length k)%nat as Hlen.
  { rewrite Hb. unfold image. rewrite !length_app, framed_length, le_bytes_length by done. lia. }
  rewrite (proj2 (Nat.ltb_ge _ _)) by lia. rewrite (proj2 (Nat.ltb_ge 1604 _)) by apply Hr.
  assert (existsb (Z.eqb (kind r)) [1; 2; 3; 4] = true) as -> by (pose proof (ok_kind r Hr) as Hk'; by enum_in Hk'; rewrite ?Hk').
  cbn [negb orb Z.eqb Pos.eqb]. rewrite (proj2 (Nat.ltb_ge (length (buffer d)) _)) by lia. rewrite Hf, Hc, Z.eqb_refl. cbn [negb].
  unfold accept, HEADER_size. rewrite Hk, Hq, Hm, Hf, Hd.
  assert (drop 24 (framed r) = take (len r) (payload r)) as -> by (by apply drop_app_length').
  fold (message r). cbn [m_kind m_payload m_sequence message]. unfold got. destruct (Z.eqb_spec (kind r) 3) as [E3|]; [|done].
  unfold counters. rewrite length_take, (ok_payload r Hr), (ok_end r Hr E3). reflexivity.
Qed.

(** ** A whole stream *)

(** The decoder after the records [rs], when nothing else follows *)
Fixpoint gots (d : Decoder) (rs : list Record_) : Decoder :=
  match rs with
  | [] => d
  | r :: rs' => gots (got d r (concat (image <$> rs'))) rs'
  end.

Lemma run_empty d : buffer d = [] -> run d = Some ([], d).
Proof. intros E. rewrite run_turn. unfold turn. rewrite E. cbn [continued find length MAGIC Nat.add Nat.sub]. by rewrite discard_0. Qed.

Lemma run_images d rs : Forall rec_ok rs -> buffer d = concat (image <$> rs) -> run d = Some (message <$> rs, gots d rs).
Proof.
  intros Hr. revert d. induction Hr as [|r rs Hr Hrs IH]; intros d Hb; [by apply run_empty|].
  rewrite run_turn, (turn_image d r (concat (image <$> rs))) by done. cbn [continued]. rewrite IH by done. reflexivity.
Qed.

(** The magic does not overlap itself. *)
Lemma find_boot boot k : find boot = None -> find (boot ++ MAGIC ++ k) = Some (length boot).
Proof.
  intros Hb. apply find_Some. rewrite drop_app_length. split; [reflexivity|]. intros i Hi.
  destruct (decide (i + 8 <= length boot)%nat) as [Hl|Hl].
  - rewrite drop_app_le, starts_app by (rewrite ?length_drop; lia). by apply find_None.
  - rewrite drop_app_le by lia. set (u := drop i boot). assert (length u < 8 /\ 0 < length u)%nat as Hu by (unfold u; rewrite length_drop; lia).
    unfold starts. rewrite bool_decide_eq_false. intros E. assert (MAGIC !! length u = Some 82) as Hm.
    { rewrite <- E, lookup_take_lt, lookup_app_r, Nat.sub_diag by lia. done. }
    clear -Hm Hu. destruct (length u) as [|[|[|[|[|[|[|[|n]]]]]]]]; [lia|discriminate Hm..|lia].
Qed.

(** Boot text before the first record is skipped. *)
Lemma run_boot boot r rs : find boot = None -> Forall rec_ok (r :: rs) ->
  run (extend (boot ++ concat (image <$> r :: rs)) init) =
  Some (message <$> r :: rs, gots (discard (length boot) (extend (boot ++ concat (image <$> r :: rs)) init)) (r :: rs)).
Proof.
  intros Hb Hr. set (d := extend _ init). rewrite run_turn. unfold turn.
  assert (buffer d = boot ++ concat (image <$> r :: rs)) as Ed by done.
  assert (exists k, concat (image <$> r :: rs) = MAGIC ++ k) as [k Hk] by (eexists; reflexivity).
  assert (find (buffer d) = Some (length boot)) as Ef by (rewrite Ed, Hk; by apply find_boot). rewrite Ef.
  assert (buffer (discard (length boot) d) = concat (image <$> r :: rs)) as Eb by (cbn [buffer discard]; rewrite Ed; by apply drop_app_length).
  rewrite <- (run_images _ (r :: rs)) by done. rewrite run_turn. f_equal. unfold turn.
  rewrite (starts_drop_find d _ Ef). by rewrite discard_0.
Qed.

(** ** The statistics of a stream *)

(** The last sequence number, or the one before the first *)
Definition prev (d : Decoder) : Z := match last_sequence d with Some l => l | None => -1 end.

(** The sequence numbers grow and stay below [2^31]. *)
Fixpoint increasing (lo : Z) (rs : list Record_) : Prop :=
  match rs with
  | [] => True
  | r :: rs' => lo < seq_no r < 2 ^ 31 /\ increasing (seq_no r) rs'
  end.

Definition is_frame (r : Record_) : bool := kind r =? 1.

Definition kind1 (rs : list Record_) : Z := Z.of_nat (length (List.filter is_frame rs)).

Lemma gap_small x y : -1 <= x -> x < y < 2 ^ 31 -> Z.land (y - x - 1) 0xffffffff = y - x - 1.
Proof. intros Hx Hy. change 0xffffffff with (Z.ones 32). rewrite Z.land_ones by lia. apply Z.mod_small. lia. Qed.

Lemma account_got d r : -1 <= prev d -> prev d < seq_no r < 2 ^ 31 ->
  account (message r) d =
    let st := stats d in
    mkStats (records st + 1) (frames st + bool_to_Z (is_frame r)) (prefix_bytes st) (corrupt_bytes st) (crc_errors st)
      (sequence_gaps st + (seq_no r - prev d - 1)) (sequence_regressions st)
      (records_after_end st + bool_to_Z (bool_decide (is_Some (final d)))).
Proof.
  intros Hp Hs. unfold account, prev in *. cbn [m_kind m_sequence message].
  assert (forall x : option (list Z), match x with Some _ => 1 | None => 0 end = bool_to_Z (bool_decide (is_Some x))) as Ef by (by intros []).
  rewrite Ef. destruct (last_sequence d) as [l|].
  - rewrite gap_small by lia. rewrite (proj2 (Z.ltb_ge _ _)) by lia. reflexivity.
  - replace (seq_no r - -1 - 1) with (seq_no r) by lia. reflexivity.
Qed.

(** The decoder after a stream that ends with an end record. *)
Lemma gots_final rs r d :
  -1 <= prev d -> increasing (prev d) (rs ++ [r]) -> Forall (fun r => kind r <> 3) rs -> kind r = 3 -> final d = None ->
  let st := stats d in
  let n := Z.of_nat (length rs) + 1 in
  gots d (rs ++ [r]) =
    mkDecoder [] (mkStats (records st + n) (frames st + kind1 rs) (prefix_bytes st) (corrupt_bytes st) (crc_errors st)
      (sequence_gaps st + (seq_no r - prev d - n)) (sequence_regressions st) (records_after_end st))
      (Some (seq_no r)) (Some (words (take (len r) (payload r)))).
Proof.
  revert d. induction rs as [|r' rs IH]; intros d Hp Hi Hk Hr Hf; cbn [gots app].
  - destruct Hi as [Hs _]. unfold got. rewrite (account_got d r Hp Hs), Hr, Hf. unfold is_frame. rewrite Hr. cbn [Z.eqb Pos.eqb bool_to_Z fmap list_fmap concat length].
    unfold kind1. cbn. f_equal. f_equal; lia.
  - destruct Hi as [Hs Hi]. apply Forall_cons in Hk as [Hk Hks]. set (d1 := got d r' _).
    assert (final d1 = None) as Hf1 by (unfold d1, got; cbn; by rewrite (proj2 (Z.eqb_neq _ _) Hk)).
    rewrite (IH d1); [|cbn; lia|done..]. change (stats d1) with (account (message r') d). rewrite (account_got d r' Hp Hs), Hf.
    change (prev d1) with (seq_no r'). unfold kind1. cbn [List.filter length bool_to_Z records frames prefix_bytes corrupt_bytes crc_errors
      sequence_gaps sequence_regressions records_after_end]. f_equal. destruct (is_frame r'); cbn [length bool_to_Z]; f_equal; try lia.
    all: cbn; lia.
Qed.

(** ** Damage *)

Lemma image_u8 r : rec_ok r -> Forall is_u8 (image r).
Proof. intros Hr. apply Forall_app. split; [by apply framed_u8|apply le_bytes_u8]. Qed.

Lemma image_length r : rec_ok r -> length (image r) = (24 + len r + 4)%nat.
Proof. intros Hr. unfold image. rewrite length_app, framed_length, le_bytes_length by done. lia. Qed.

Lemma image_residue r : rec_ok r -> crc_state (image r) 0xffffffff = crc_bits 32 0xffffffff.
Proof.
  intros Hr. apply crc_residue; [by apply framed_u8|apply le_bytes_u8|apply le_bytes_length|].
  rewrite le_word_bytes. symmetry. apply Z.mod_small. by apply zlib_u32, framed_u8.
Qed.

(** A prefix of ten bytes determines the magic and the length. *)
Lemma prefix_fields b b' : take 10 b = take 10 b' -> starts b = starts b' /\ h_length b = h_length b'.
Proof.
  intros E. unfold starts, h_length.
  assert (forall l : list Z, take 8 l = take 8 (take 10 l)) as E8 by (intros l; by rewrite take_take).
  assert (forall l : list Z, take 2 (drop 8 l) = drop 8 (take 10 l)) as E2 by (intros l; by rewrite skipn_firstn_comm).
  by rewrite (E8 b), (E8 b'), (E2 b), (E2 b'), E.
Qed.

Lemma damaged_rejected r p w w' q k d :
  rec_ok r -> image r = p ++ w ++ q -> (10 <= length p)%nat ->
  Forall is_u8 w' -> length w' = length w -> (length w <= 4)%nat -> w' <> w ->
  buffer d = (p ++ w' ++ q) ++ k ->
  turn d = Continue (discard 1 d) \/ turn d = Continue (discard 1 (add_crc_error d)).
Proof.
  intros Hr Hi Hp Hw' Hl H4 Hne Hb. set (x := p ++ w' ++ q) in *.
  assert (length x = (24 + len r + 4)%nat) as Hx by (rewrite <- image_length, Hi by done; unfold x; rewrite !length_app; lia).
  assert (take 10 (buffer d) = take 10 (image r ++ k)) as Ht by (rewrite Hb, Hi; unfold x; rewrite <- !app_assoc; by rewrite !take_app_le by lia).
  destruct (prefix_fields _ _ Ht) as [Hs Hlen]. destruct (image_fields r k Hr) as (Hs0 & Hl0 & _). rewrite Hs0 in Hs. rewrite Hl0 in Hlen.
  assert (find (buffer d) = Some 0%nat) as Ef by (apply find_Some; rewrite drop_0; split; [done|lia]).
  unfold turn. rewrite Ef, discard_0. unfold examine, HEADER_size. rewrite Hlen.
  assert (length (buffer d) = 24 + len r + 4 + length k)%nat as Hd by (rewrite Hb, length_app; lia).
  rewrite (proj2 (Nat.ltb_ge _ _)) by lia. case_match; [by left|]. rewrite (proj2 (Nat.ltb_ge _ _)) by lia.
  destruct (Z.eqb_spec (zlib_crc32 (take (24 + len r) (buffer d))) (le_word (take 4 (drop (24 + len r) (buffer d))))) as [E|]; [|by right].
  exfalso. pose proof (image_u8 r Hr) as Hu. rewrite Hi in Hu.
  assert (Forall is_u8 x) as Hxu by (rewrite !Forall_app in Hu; unfold x; rewrite !Forall_app; tauto).
  assert (take (24 + len r) (buffer d) = take (24 + len r) x) as E1 by (rewrite Hb; apply take_app_le; lia).
  assert (take 4 (drop (24 + len r) (buffer d)) = drop (24 + len r) x) as E2.
  { rewrite Hb, drop_app_le by lia. apply take_app_length'. rewrite length_drop. lia. }
  rewrite E1, E2 in E. apply crc_residue in E; [|by apply Forall_take|by apply Forall_drop|rewrite length_drop; lia].
  rewrite take_drop in E. unfold x in E. refine (burst_detected p w w' q Hu Hw' _ H4 _ _); [done..|].
  by rewrite E, <- Hi, image_residue.
Qed.
