(* ===== verification/CaptureSpec.v ===== *)
(** * The capture application, end to end

    Every interleaving of the three tasks keeps the channel in order, counts
    what is lost and numbers the records; with the decoder of the host this
    makes the host's verdict exact. *)

From S2P Require Import Prelude External Queue RxFrame Capture CaptureHost CaptureCrc CaptureHostSpec.

Import Protocol Main.

(** ** Traces *)

Definition offered (t : list Event) : list (Record_ * bool) := omap (fun e => match e with Offered r ok => Some (r, ok) | _ => None end) t.
Definition wrote (t : list Event) : list Z := concat (omap (fun e => match e with Wrote b => Some b | _ => None end) t).
Definition streamed (t : list Event) : list (list Z) := omap (fun e => match e with Received p true => Some p | _ => None end) t.

(** The records the channel took, and those it refused *)
Definition taken (t : list Event) : list Record_ := fst <$> List.filter snd (offered t).
Definition dropped (t : list Event) : list Record_ := fst <$> List.filter (fun o => negb o.2) (offered t).

(** The number of events of a kind *)
Definition tally (P : Event -> bool) (t : list Event) : Z := Z.of_nat (length (List.filter P t)).

Definition is_received (e : Event) : bool := match e with Received _ _ => true | _ => false end.
Definition is_streamed (e : Event) : bool := match e with Received _ b => b | _ => false end.
Definition is_enqueued (e : Event) : bool := match e with Offered r ok => is_frame r && ok | _ => false end.
Definition is_dropped (e : Event) : bool := match e with Offered r ok => is_frame r && negb ok | _ => false end.
Definition is_status_dropped (e : Event) : bool := match e with Offered r ok => negb (is_frame r) && negb ok | _ => false end.

Lemma tally_events_app P t u : tally P (t ++ u) = tally P t + tally P u.
Proof. unfold tally. rewrite List.filter_app, length_app. lia. Qed.

Lemma tally_one P e : tally P [e] = bool_to_Z (P e).
Proof. unfold tally. cbn. by destruct (P e). Qed.

Lemma offered_app t u : offered (t ++ u) = offered t ++ offered u.
Proof. apply omap_app. Qed.

Lemma wrote_app t u : wrote (t ++ u) = wrote t ++ wrote u.
Proof. unfold wrote. by rewrite omap_app, concat_app. Qed.

Lemma streamed_app t u : streamed (t ++ u) = streamed t ++ streamed u.
Proof. apply omap_app. Qed.

Lemma taken_app t u : taken (t ++ u) = taken t ++ taken u.
Proof. unfold taken. by rewrite offered_app, List.filter_app, fmap_app. Qed.

Lemma offered_offers o : offered (offers o) = o.
Proof. induction o as [|[r ok] o IH]; [done|]. cbn. f_equal. apply IH. Qed.

Create Rewrite HintDb trace.
#[export] Hint Rewrite tally_events_app tally_one offered_app wrote_app streamed_app taken_app : trace.

(** ** Counting *)

Ltac count_events t :=
  induction t as [|[?p b|?r ok|?bs] t IH]; [done|..]; try destruct b; try destruct ok;
  unfold tally, kind1, taken, dropped, offered, streamed in *; cbn in *; try destruct (is_frame _); cbn in *; lia.

Lemma tally_enqueued t : tally is_enqueued t = kind1 (taken t).
Proof. count_events t. Qed.

Lemma tally_frames t : tally is_enqueued t + tally is_dropped t = Z.of_nat (length (List.filter is_frame (offered t).*1)).
Proof. count_events t. Qed.

Lemma tally_dropped t : tally is_dropped t + tally is_status_dropped t = Z.of_nat (length (dropped t)).
Proof. count_events t. Qed.

Lemma tally_offered t : (length (offered t) = length (taken t) + length (dropped t))%nat.
Proof. count_events t. Qed.

Lemma tally_streamed t : tally is_streamed t = Z.of_nat (length (streamed t)).
Proof. count_events t. Qed.

Lemma streamed_received t : tally is_streamed t <= tally is_received t.
Proof. count_events t. Qed.

Lemma frames_offered l : (length (List.filter is_frame l) <= length l)%nat.
Proof. induction l as [|r l IH]; [done|]. cbn. destruct (is_frame r); cbn; lia. Qed.

Lemma all_taken t : dropped t = [] -> taken t = (offered t).*1.
Proof.
  unfold taken, dropped. generalize (offered t). intros o. induction o as [|[r []] o IH]; cbn; [done| |done].
  intros E. f_equal. by apply IH.
Qed.

(** The numbers of the records the channel took grow. *)
Lemma taken_increasing (o : list (Record_ * bool)) lo base :
  (forall i r ok, o !! i = Some (r, ok) -> seq_no r = base + Z.of_nat i) -> lo < base -> base + Z.of_nat (length o) <= 2 ^ 31 ->
  increasing lo (List.filter snd o).*1.
Proof.
  revert lo base. induction o as [|[r ok] o IH]; intros lo base Hn Hlo Hb; [done|]. cbn [length] in Hb. rewrite Nat2Z.inj_succ in Hb.
  pose proof (Hn 0%nat r ok eq_refl) as H0.
  assert (forall lo', lo' < base + 1 -> increasing lo' (List.filter snd o).*1) as Ho.
  { intros lo' Hl. apply (IH lo' (base + 1)); [|done|lia]. intros i r' ok' Hi. rewrite (Hn (S i) r' ok' Hi). lia. }
  cbn [List.filter snd]. destruct ok; cbn [fmap list_fmap fst increasing]; [|apply Ho; lia]. split; [lia|]. apply Ho. lia.
Qed.

(** ** Records *)

Lemma splice_Forall {A} (P : A -> Prop) a k l : Forall P k -> Forall P l -> Forall P (splice a k l).
Proof. intros Hk Hl. unfold splice. rewrite !Forall_app. split_and!; [by apply Forall_take|done|by apply Forall_drop]. Qed.

Lemma take_splice {A} a (k l : list A) : (a <= length l)%nat -> take (a + length k) (splice a k l) = take a l ++ k.
Proof.
  intros Ha. unfold splice. rewrite app_assoc. apply take_app_length'. rewrite length_app, length_take. lia.
Qed.

Lemma zeros_u8 n : Forall is_u8 (replicate n 0).
Proof. apply Forall_replicate. width. Qed.

Lemma words_bytes_length values : length (values ≫= le_bytes 4) = (4 * length values)%nat.
Proof. induction values as [|v values IH]; [done|]. rewrite bind_cons, length_app, IH. cbn [length]. rewrite le_bytes_length. lia. Qed.

Lemma words_bytes_u8 values : Forall is_u8 (values ≫= le_bytes 4).
Proof. apply Forall_bind, Forall_true. intros v. apply le_bytes_u8. Qed.

Lemma unpack_words values :
  (fun i => le_word (take 4 (drop (4 * i) (values ≫= le_bytes 4)))) <$> seq 0 (length values) = u32 <$> values.
Proof.
  induction values as [|v values IH]; [done|]. cbn [length seq]. rewrite !fmap_cons, bind_cons. f_equal.
  - rewrite Nat.mul_0_r, drop_0, take_app_length' by (by rewrite le_bytes_length). apply (le_word_bytes 4).
  - rewrite <- IH, <- fmap_S_seq, <- list_fmap_compose. apply list_fmap_ext. intros i j _. unfold compose.
    replace (4 * S j)%nat with (4 + 4 * j)%nat by lia. rewrite <- drop_drop. do 3 f_equal.
Qed.

(** A status record is in order, and the host reads the values from it. *)
Lemma status_record k now seq counts s running r seq' :
  status k now seq counts s running = (r, seq') -> k ∈ [2; 3] -> is_u32 seq -> in_width 64 now -> length counts = 6%nat ->
  rec_ok r /\ kind r = k /\ seq_no r = seq /\ seq' = u32 (seq + 1) /\
  words (take (len r) (payload r)) = u32 <$> counts ++ [bad_commands s; generation s; bool_to_Z (bool_decide (is_Some (bssid s)));
                           bool_to_Z (bool_decide (is_Some (station s))); bool_to_Z running].
Proof.
  intros Heq Hk Hs Hn Hc. pose proof (f_equal fst Heq) as E1. pose proof (f_equal snd Heq) as E2. cbn [fst snd] in E1, E2. subst r seq'. clear Heq.
  unfold status, record.
  set (values := counts ++ _). cbn [fst snd kind seq_no len payload].
  assert (length values = 11%nat) as Hv by (unfold values; rewrite length_app; cbn; lia). rewrite Hv.
  pose proof (words_bytes_length values) as Hb. rewrite Hv in Hb. split_and!; [|done..|].
  - split; cbn [kind seq_no micros len payload]; try done.
    + enum_in Hk; set_solver.
    + unfold MAX_PAYLOAD. lia.
    + rewrite splice_length; rewrite ?Hb; rewrite length_replicate; [done|]. unfold MAX_PAYLOAD. lia.
    + apply splice_Forall; [apply words_bytes_u8|apply zeros_u8].
  - replace (11 * 4)%nat with (0 + length (values ≫= le_bytes 4))%nat by lia.
    rewrite take_splice by (rewrite length_replicate; lia). rewrite take_0. cbn [app]. unfold words. rewrite <- Hv. apply unpack_words.
Qed.

Section Run.
Context `{R : RxCtrl}.
Variables (diag : bool) (channel start : Z).

(** The state when the main task enters its loop *)
Definition start_world : World :=
  mkWorld Commands.SETTINGS Commands.fresh (mkLocals 0 (replicate 6 0) start []) None Top start.

Inductive steps : list Event -> World -> Prop :=
| steps_start : steps [] start_world
| steps_step t w u w' : steps t w -> step diag channel start w u w' -> steps (t ++ u) w'.

(** The payload of a frame's record *)
Definition frame_payload (padded : list Z) : list Z :=
  le_bytes 2 (u16 (Z.of_nat (length (default [] (BorrowedBuffer.mpdu_buffer padded))))) ++ [channel; 0] ++ padded.

Definition body (r : Record_) : list Z := take (len r) (payload r).

(** The counters of the code, from the trace; [owed] frames have been received
    but not yet handled. *)
Definition expected (owed : nat) (t : list Event) : list Z :=
  [u32 (tally is_received t); u32 (tally is_streamed t - Z.of_nat owed); u32 (tally is_enqueued t); u32 (tally is_dropped t); 0;
   u32 (tally is_status_dropped t)].

(** What was written, is being written and waits in the channel is what the
    channel took, in order. *)
Definition fifo (t : list Event) (wr : option Record_) (queue : list Record_) : Prop :=
  exists sent, taken t = sent ++ option_list wr ++ queue /\ wrote t = concat (image <$> sent).

Record local_inv (owed : list (list Z)) (t : list Event) (wr : option Record_) (l : Locals) : Prop := mkLocalInv {
  l_sequence : sequence l = u32 (Z.of_nat (length (offered t)));
  l_counts : counts l = expected (length owed) t;
  l_numbers : forall i r ok, offered t !! i = Some (r, ok) -> seq_no r = u32 (Z.of_nat i);
  l_ok : Forall (fun o => rec_ok o.1) (offered t);
  l_running : Forall (fun o => kind o.1 <> 3) (offered t);
  l_frames : (body <$> List.filter is_frame (offered t).*1) ++ (frame_payload <$> owed) = frame_payload <$> streamed t;
  l_fifo : fifo t wr (OUTPUT l);
  l_capacity : (length (OUTPUT l) <= CAPACITY)%nat
}.

(** Offering a record to the channel *)
Lemma local_offer owed owed' t wr l r ok queue counts' ns :
  local_inv owed t wr l -> rec_ok r -> seq_no r = sequence l -> kind r <> 3 ->
  try_send r (OUTPUT l) = (ok, queue) ->
  counts' = expected (length owed') (t ++ [Offered r ok]) ->
  (if is_frame r then body r :: (frame_payload <$> owed') else frame_payload <$> owed') = frame_payload <$> owed ->
  local_inv owed' (t ++ [Offered r ok]) wr (mkLocals (u32 (sequence l + 1)) counts' ns queue).
Proof.
  intros [H1 H2 H3 H4 H5 H6 (sent & H7 & H7') H8] Hr Hs Hk Ht Hc Hf. unfold try_send, CAPACITY in *. split; cbn [sequence counts OUTPUT].
  - rewrite H1, offered_app, length_app, wrap_add_l. cbn. f_equal. lia.
  - done.
  - intros i r' ok'. rewrite offered_app. intros [Hi|[Hi Hi']]%lookup_app_Some; [by apply (H3 i r' ok')|].
    apply list_lookup_singleton_Some in Hi' as [Hi' [= <- <-]]. rewrite Hs, H1. do 2 f_equal. lia.
  - rewrite offered_app. apply Forall_app. split; [done|]. by apply Forall_singleton.
  - rewrite offered_app. apply Forall_app. split; [done|]. by apply Forall_singleton.
  - rewrite offered_app, streamed_app, fmap_app, List.filter_app, !fmap_app, <- H6, <- Hf, <- app_assoc.
    change (streamed [Offered r ok]) with (@nil (list Z)). change ((offered [Offered r ok]).*1) with [r]. rewrite app_nil_r. f_equal.
    cbn [List.filter]. by destruct (is_frame r).
  - exists sent. rewrite taken_app, wrote_app, H7, H7'. change (wrote [Offered r ok]) with (@nil Z). rewrite app_nil_r. split; [|done].
    destruct (length (OUTPUT l) <? 16)%nat; injection Ht as <- <-.
    + change (taken [Offered r true]) with [r]. by rewrite <- !app_assoc.
    + change (taken [Offered r false]) with (@nil Record_). by rewrite app_nil_r.
  - destruct (length (OUTPUT l) <? 16)%nat eqn:E; injection Ht as <- <-; [|done]. apply Nat.ltb_lt in E. rewrite length_app. cbn. unfold CAPACITY. lia.
Qed.

Lemma local_received padded t wr l (b : bool) : local_inv [] t wr l ->
  local_inv (if b then [padded] else []) (t ++ [Received padded b]) wr
    (mkLocals (sequence l) (bump 0 (counts l)) (next_status l) (OUTPUT l)).
Proof.
  intros [H1 H2 H3 H4 H5 H6 (sent & H7 & H7') H8]. split; cbn [sequence counts OUTPUT]; rewrite ?offered_app, ?app_nil_r; try done.
  - rewrite H2. unfold expected. autorewrite with trace. cbn [is_received is_streamed is_enqueued is_dropped is_status_dropped bool_to_Z].
    unfold bump. cbn [alter list_alter]. rewrite wrap_add_l, !Z.add_0_r. destruct b; cbn [length bool_to_Z]; rewrite ?Z.add_0_r; [|done].
    by replace (tally is_streamed t + 1 - Z.of_nat 1) with (tally is_streamed t - Z.of_nat 0) by lia.
  - rewrite streamed_app, fmap_app, <- H6. destruct b; cbn; by rewrite ?app_nil_r.
  - exists sent. by rewrite taken_app, wrote_app, !app_nil_r.
Qed.

(** The counters after an offer *)
Lemma expected_other owed t r (ok : bool) : is_frame r = false ->
  (if ok then expected owed t else bump 5 (expected owed t)) = expected owed (t ++ [Offered r ok]).
Proof.
  intros Hf. unfold expected. autorewrite with trace. cbn [is_received is_streamed is_enqueued is_dropped is_status_dropped]. rewrite Hf.
  cbn [andb negb bool_to_Z]. rewrite !Z.add_0_r. destruct ok; cbn [negb bool_to_Z]; [by rewrite Z.add_0_r|].
  unfold bump. cbn [alter list_alter]. by rewrite wrap_add_l.
Qed.

Lemma expected_frame t r (ok : bool) : is_frame r = true ->
  bump (if ok then 2 else 3) (bump 1 (expected 1 t)) = expected 0 (t ++ [Offered r ok]).
Proof.
  intros Hf. unfold expected. autorewrite with trace. cbn [is_received is_streamed is_enqueued is_dropped is_status_dropped]. rewrite Hf.
  cbn [andb negb bool_to_Z]. rewrite !Z.add_0_r. unfold bump.
  destruct ok; cbn [negb bool_to_Z alter list_alter]; rewrite !wrap_add_l, Z.add_0_r;
    by replace (tally is_streamed t - Z.of_nat 1 + 1) with (tally is_streamed t - Z.of_nat 0) by lia.
Qed.

Lemma sequence_u32 owed t wr l : local_inv owed t wr l -> is_u32 (sequence l).
Proof. intros Hi. rewrite (l_sequence _ _ _ _ Hi). by apply wrap_range. Qed.

Lemma local_status t wr l s now now' o l' :
  local_inv [] t wr l -> in_width 64 now' -> turn_status s now now' l = (o, l') -> local_inv [] (t ++ offers o) wr l'.
Proof.
  intros Hi Hn. unfold turn_status. destruct (next_status l <=? now); [|intros [= <- <-]; cbn; by rewrite app_nil_r].
  destruct (status 2 now' (sequence l) (counts l) s true) as [r sq] eqn:Es. destruct (try_send r (OUTPUT l)) as [ok q] eqn:Et.
  apply status_record in Es as (Hr & Hk & Hq & -> & _); [|set_solver|by eapply sequence_u32|done|by rewrite (l_counts _ _ _ _ Hi)].
  intros [= <- <-]. assert (is_frame r = false) as Hf by (unfold is_frame; by rewrite Hk). cbn [offers fmap list_fmap fst snd].
  eapply local_offer; [exact Hi|done|done|by rewrite Hk|exact Et| |by rewrite Hf].
  rewrite (l_counts _ _ _ _ Hi). by apply expected_other.
Qed.

(** Every byte of the configuration and the frame is a byte. *)
Hypothesis channel_u8 : is_u8 channel.

Lemma local_diag owed t wr l now padded o l' :
  local_inv owed t wr l -> in_width 64 now -> Forall is_u8 padded ->
  turn_diag diag channel now padded l = (o, l') -> local_inv owed (t ++ offers o) wr l'.
Proof.
  intros Hi Hn Hp. unfold turn_diag. destruct (diag && _); [|intros [= <- <-]; cbn; by rewrite app_nil_r].
  unfold record. set (r := mkRecord 4 _ _ _ _). destruct (try_send r (OUTPUT l)) as [ok q] eqn:Et. intros [= <- <-].
  cbn [offers fmap list_fmap fst snd].
  assert (length (take (Nat.min (length padded) 72 + 4 - 4) padded) <= 72)%nat by (rewrite length_take; lia).
  assert (rec_ok r) as Hr.
  { unfold r. split; cbn [kind seq_no micros len payload]; try done.
    - set_solver.
    - by eapply sequence_u32.
    - unfold MAX_PAYLOAD. lia.
    - rewrite splice_length; rewrite length_insert, length_replicate; unfold MAX_PAYLOAD; lia.
    - apply splice_Forall; [by apply Forall_take|]. apply Forall_insert; [apply zeros_u8|done]. }
  eapply local_offer; [exact Hi|done|done|done|exact Et| |done]. rewrite (l_counts _ _ _ _ Hi). by apply expected_other.
Qed.

Lemma local_frame t wr l now padded mpdu :
  local_inv [padded] t wr l -> in_width 64 now -> Forall is_u8 padded -> (length padded <= 1600)%nat ->
  BorrowedBuffer.mpdu_buffer padded = Some mpdu ->
  exists o l', turn_frame channel now padded mpdu l = Some (o, l') /\ local_inv [] (t ++ offers o) wr l'.
Proof.
  intros Hi Hn Hp Hl Hm. unfold turn_frame. rewrite (proj2 (Nat.ltb_ge _ _)) by done. unfold record. cbn [payload seq_no].
  set (z := <[2%nat := channel]> _).
  assert (z = (le_bytes 2 (u16 (Z.of_nat (length mpdu))) ++ [channel; 0]) ++ replicate 1600 0) as Hz by reflexivity.
  assert (length z = MAX_PAYLOAD) as Hzl by (rewrite Hz, length_app, length_replicate; reflexivity). unfold MAX_PAYLOAD in *.
  rewrite slice_Some by lia. cbn [mbind option_bind]. set (r := mkRecord 1 _ _ _ _).
  destruct (try_send r (OUTPUT l)) as [ok q] eqn:Et. eexists _, _. split; [reflexivity|]. cbn [offers fmap list_fmap fst snd].
  assert (rec_ok r) as Hr.
  { unfold r. split; cbn [kind seq_no micros len payload]; try done.
    - decide_now.
    - by eapply sequence_u32.
    - unfold MAX_PAYLOAD. lia.
    - rewrite splice_length; unfold MAX_PAYLOAD; lia.
    - apply splice_Forall; [done|]. rewrite Hz, !Forall_app. split_and!; [apply le_bytes_u8| |apply zeros_u8].
      apply Forall_cons. split; [done|]. apply Forall_singleton. width. }
  eapply local_offer; [exact Hi|done|done|done|exact Et| |].
  - rewrite (l_counts _ _ _ _ Hi). by apply expected_frame.
  - cbn [is_frame kind r Z.eqb Pos.eqb fmap list_fmap]. f_equal. unfold body, r, frame_payload. cbn [len payload]. rewrite Hm. cbn [default].
    rewrite (Nat.add_comm _ 4), take_splice by lia. by rewrite Hz, app_assoc.
Qed.

Context `{!RxCtrl48 R}.

(** A frame that [receive] returns *)
Definition delivered (padded : list Z) : Prop :=
  exists n memory, padded = take n memory /\ (n <= length memory)%nat /\ Forall is_u8 memory /\
    is_rx_frame_valid Esp32c3 n (Some memory) = Some true.

Lemma delivered_views padded : delivered padded ->
  Forall is_u8 padded /\ (52 <= length padded <= 1600)%nat /\
  exists mpdu padding, padded = take 48 padded ++ mpdu ++ padding /\ BorrowedBuffer.mpdu_buffer padded = Some mpdu.
Proof.
  intros (n & memory & -> & Hn & Hu & Hv). split; [by apply Forall_take|].
  destruct (accepted_views (H := macro_bits_ref) Esp32c3 memory n eq_refl Hn Hv) as (_ & mpdu & padding & Ha & Hb & _). split; [|eauto].
  unfold is_rx_frame_valid in Hv. cbn [c3_or_s3] in Hv. case_match eqn:E; [done|]. apply orb_false_iff in E as [E _]. rewrite Nat.ltb_ge in E.
  injection Hv as Hv. apply valid_length_spec in Hv as [Hv _]. rewrite length_take in *. unfold RX_BUFFER_SIZE in E. lia.
Qed.

Lemma local_turn t wr l s now now' padded :
  local_inv [] t wr l -> in_width 64 now -> in_width 64 now' -> delivered padded ->
  exists o l', turn_received diag channel s now now' padded l = Some (o, l') /\
    local_inv [] (t ++ Received padded (chosen padded s) :: offers o) wr l'.
Proof.
  intros Hi Hn Hn' Hd. destruct (delivered_views padded Hd) as (Hu & Hl & mpdu & padding & _ & Hm).
  unfold turn_received, chosen. rewrite Hm. cbn [mbind option_bind].
  pose proof (local_received padded t wr l (selected mpdu s) Hi) as Hr.
  destruct (turn_diag _ _ _ _ _) as [o l'] eqn:Ed. eapply local_diag in Ed; [|exact Hr|done..].
  destruct (selected mpdu s).
  - destruct (local_frame _ wr l' now' padded mpdu Ed Hn' Hu ltac:(lia) Hm) as (o' & l2 & -> & H2). eexists _, _. split; [reflexivity|].
    unfold offers in *. rewrite fmap_app. by rewrite <- !app_assoc in H2.
  - eexists _, _. split; [reflexivity|]. by rewrite <- app_assoc in Ed.
Qed.

(** ** The tasks together *)

Lemma fifo_take t r queue : fifo t None (r :: queue) -> fifo t (Some r) queue.
Proof. intros (sent & H1 & H2). by exists sent. Qed.

Lemma fifo_write t r queue : fifo t (Some r) queue -> fifo (t ++ [Wrote (image r)]) None queue.
Proof.
  intros (sent & H1 & H2). exists (sent ++ [r]). rewrite taken_app, wrote_app, H1, H2, fmap_app, concat_app. cbn. rewrite !app_nil_r.
  split; [|done]. by rewrite <- app_assoc.
Qed.

Lemma local_wrote owed t wr l r : local_inv owed t (Some r) l -> wr = Some r -> local_inv owed (t ++ [Wrote (image r)]) None l.
Proof.
  intros [H1 H2 H3 H4 H5 H6 H7 H8] ->. split; rewrite ?offered_app, ?streamed_app, ?app_nil_r; try done.
  - rewrite H2. unfold expected. autorewrite with trace. cbn [is_received is_streamed is_enqueued is_dropped is_status_dropped bool_to_Z].
    by rewrite !Z.add_0_r.
  - by apply fifo_write.
Qed.

Lemma taken_ok t : Forall (fun o => rec_ok o.1) (offered t) -> Forall rec_ok (taken t).
Proof.
  unfold taken. intros Ho. apply Forall_fmap, Forall_forall. intros o [_ Hin]%list_elem_of_In%List.filter_In%and_comm.
  by eapply Forall_forall in Ho; [|apply list_elem_of_In].
Qed.

Lemma fifo_ok t r queue : Forall rec_ok (taken t) -> fifo t (Some r) queue -> rec_ok r.
Proof. intros Ho (sent & E & _). rewrite E in Ho. by apply Forall_app in Ho as [_ [Ho _]%Forall_cons]. Qed.

(** The end record of a trace *)
Record closing (t : list Event) (r : Record_) : Prop := mkClosing {
  c_ok : rec_ok r;
  c_kind : kind r = 3;
  c_seq : seq_no r = u32 (Z.of_nat (length (offered t)));
  c_words : exists bad gen b s, is_u32 bad /\ words (body r) = expected 0 t ++ [bad; gen; b; s; 0]
}.

Definition is_wrote (e : Event) : Prop := match e with Wrote _ => True | _ => False end.

Definition finished (t : list Event) (wr : option Record_) (l : Locals) : Prop :=
  exists t0 r tail wr0 l0, t = t0 ++ Offered r true :: tail /\ local_inv [] t0 wr0 l0 /\ closing t0 r /\ Forall is_wrote tail /\
    fifo t wr (OUTPUT l) /\ (length (OUTPUT l) <= CAPACITY)%nat.

Record inv (t : list Event) (w : World) : Prop := mkInv {
  i_clock : 0 <= clock w;
  i_settings : is_u32 (bad_commands (settings w)) /\ is_u32 (generation (settings w));
  i_phase : match phase w with
            | Top | Select _ => local_inv [] t (writing w) (locals w)
            | Send r => closing t r /\ sequence (locals w) = u32 (Z.of_nat (length (offered t)) + 1) /\
                        local_inv [] t (writing w) (mkLocals (u32 (Z.of_nat (length (offered t)))) (counts (locals w))
                          (next_status (locals w)) (OUTPUT (locals w)))
            | Done => finished t (writing w) (locals w)
            end
}.

Lemma command_u32 line s : is_u32 (bad_commands s) /\ is_u32 (generation s) ->
  is_u32 (bad_commands (Commands.command line s)) /\ is_u32 (generation (Commands.command line s)).
Proof.
  intros [Hb Hg]. unfold Commands.command. destruct (Commands.accept line s) as [s'|] eqn:E; cbn; [|split; [by apply wrap_range|done]].
  split; [|by apply wrap_range]. assert (bad_commands s' = bad_commands s) as ->; [|done].
  unfold Commands.accept in E. repeat (case_match; simplify_eq; try done); by repeat (apply bind_Some in E as (? & _ & E) || case_match); simplify_eq.
Qed.

Lemma commands_u32 input r s r' s' : Commands.commands input (r, s) = (r', s') ->
  is_u32 (bad_commands s) /\ is_u32 (generation s) -> is_u32 (bad_commands s') /\ is_u32 (generation s').
Proof.
  unfold Commands.commands. revert r s. induction input as [|b input IH]; intros r s; cbn [foldl]; [by intros [= <- <-]|].
  destruct (flip Commands.on_byte (r, s) b) as [r1 s1] eqn:E. intros H1 H2. apply (IH r1 s1 H1). unfold flip, Commands.on_byte in E.
  repeat case_match; simplify_eq; try done; by apply command_u32.
Qed.

Lemma local_take t l r queue : local_inv [] t None l -> OUTPUT l = r :: queue ->
  local_inv [] t (Some r) (mkLocals (sequence l) (counts l) (next_status l) queue).
Proof.
  intros [H1 H2 H3 H4 H5 H6 H7 H8] E. rewrite E in H7, H8. split; try done; cbn [OUTPUT]. cbn in H8. lia.
Qed.

Lemma finished_ok t wr l : finished t wr l -> Forall rec_ok (taken t).
Proof.
  intros (t0 & r & tail & wr0 & l0 & -> & Hl & Hc & Ht & _). apply taken_ok. rewrite offered_app. apply Forall_app. split; [apply Hl|].
  cbn. apply Forall_cons. split; [apply Hc|]. clear -Ht. induction Ht as [|[] ? ? ? IH]; done.
Qed.

(** The record in hand and the channel change by themselves. *)
Lemma inv_take t w r queue : inv t w -> OUTPUT (locals w) = r :: queue -> writing w = None ->
  inv t (mkWorld (settings w) (reader w) (mkLocals (sequence (locals w)) (counts (locals w)) (next_status (locals w)) queue) (Some r)
           (phase w) (clock w)).
Proof.
  intros [H1 H2 H3] Hq Hw. rewrite Hw in H3. split; cbn [clock settings phase writing locals]; try done.
  destruct (phase w) as [|s|r'|]; [by apply local_take|by apply local_take| |].
  - destruct H3 as (Hc & Hs & Hl). split_and!; [done|done|]. by apply (local_take _ _ r queue) in Hl.
  - destruct H3 as (t0 & r0 & tail & wr0 & l0 & -> & Hl & Hc & Ht & Hf & Hcap). exists t0, r0, tail, wr0, l0. rewrite Hq in *.
    split_and!; try done. cbn in *. lia.
Qed.

Lemma inv_write t w r bytes : inv t w -> writing w = Some r -> wire r = Some bytes ->
  inv (t ++ [Wrote bytes]) (mkWorld (settings w) (reader w) (locals w) None (phase w) (clock w)).
Proof.
  intros [H1 H2 H3] Hw Hb. rewrite Hw in H3.
  assert (bytes = image r) as ->.
  { rewrite wire_image in Hb; [by injection Hb|]. destruct (phase w) as [|s|r'|].
    - eapply fifo_ok; [|apply H3]. apply taken_ok, H3.
    - eapply fifo_ok; [|apply H3]. apply taken_ok, H3.
    - destruct H3 as (_ & _ & Hl). eapply fifo_ok; [|apply Hl]. apply taken_ok, Hl.
    - eapply fifo_ok; [by eapply finished_ok|]. by destruct H3 as (? & ? & ? & ? & ? & _ & _ & _ & _ & ? & _). }
  split; cbn [clock settings phase writing locals]; try done. destruct (phase w) as [|s|r'|].
  - by eapply local_wrote.
  - by eapply local_wrote.
  - destruct H3 as ([C1 C2 C3 C4] & Hs & Hl). rewrite offered_app, app_nil_r. split_and!; [|done|by eapply local_wrote].
    split; rewrite ?offered_app, ?app_nil_r; try done. unfold expected. autorewrite with trace.
    cbn [is_received is_streamed is_enqueued is_dropped is_status_dropped bool_to_Z]. by rewrite !Z.add_0_r.
  - destruct H3 as (t0 & r0 & tail & wr0 & l0 & -> & Hl & Hc & Ht & Hf & Hcap). exists t0, r0, (tail ++ [Wrote (image r)]), wr0, l0.
    split_and!; try done; [by rewrite <- app_assoc| |by apply fifo_write]. apply Forall_app. split; [done|]. by apply Forall_singleton.
Qed.

Lemma inv_break t w now now' r sq : inv t w -> phase w = Top -> clock w <= now -> now <= now' < 2 ^ 64 ->
  status 3 now' (sequence (locals w)) (counts (locals w)) (settings w) false = (r, sq) ->
  inv t (mkWorld (settings w) (reader w) (mkLocals sq (counts (locals w)) (next_status (locals w)) (OUTPUT (locals w))) (writing w) (Send r) now').
Proof.
  intros [H1 H2 H3] Hp Hn Hn' Hs. rewrite Hp in H3. pose proof (l_sequence _ _ _ _ H3) as Hq. pose proof (l_counts _ _ _ _ H3) as Hc.
  apply status_record in Hs as (Hr & Hk & Hsq & -> & Hw);
    [|decide_now|by eapply sequence_u32|split; lia|by rewrite Hc].
  split; cbn [clock settings phase writing locals sequence counts next_status OUTPUT]; [lia|done|]. split_and!.
  - split; [done|done|by rewrite Hsq|]. rewrite Hc, fmap_app in Hw. unfold body. rewrite Hw. cbn [fmap list_fmap].
    rewrite (wrap_small 32 (bad_commands _)) by apply H2. exists (bad_commands (settings w)). do 3 eexists. split; [apply H2|].
    unfold expected. cbn [fmap list_fmap app]. rewrite !wrap_idem. reflexivity.
  - by rewrite Hq, wrap_add_l.
  - rewrite <- Hq. by destruct (locals w).
Qed.

Lemma inv_send t w r ok queue : inv t w -> phase w = Send r -> try_send r (OUTPUT (locals w)) = (ok, queue) -> ok = true ->
  inv (t ++ [Offered r true]) (mkWorld (settings w) (reader w)
    (mkLocals (sequence (locals w)) (counts (locals w)) (next_status (locals w)) queue) (writing w) Done (clock w)).
Proof.
  intros [H1 H2 H3] Hp Hs ->. rewrite Hp in H3. destruct H3 as (Hc & Hq & Hl).
  split; cbn [clock settings phase writing locals]; [done..|]. exists t, r, [], (writing w). eexists. split_and!; [done|exact Hl|done|done| |].
  - destruct (l_fifo _ _ _ _ Hl) as (sent & E1 & E2). exists sent. unfold try_send in Hs. case_match; [|done]. injection Hs as <-.
    rewrite taken_app, wrote_app, E1, E2. cbn. rewrite app_nil_r. split; [|done]. by rewrite <- !app_assoc.
  - unfold try_send in Hs. case_match eqn:E; [|done]. injection Hs as <-. apply Nat.ltb_lt in E. cbn [OUTPUT]. rewrite length_app. cbn. lia.
Qed.

Hypothesis start_u64 : in_width 64 start.

(** The invariant holds in every state the tasks reach. *)
Lemma steps_inv t w : steps t w -> inv t w.
Proof.
  induction 1 as [|t w u w' _ IH Hstep].
  - split; [apply start_u64|split; cbn; width|]. cbn. split; try done; [by exists []|]. unfold CAPACITY. cbn. lia.
  - destruct Hstep as [w input|w l r queue El Hq Hw|w r bytes Hw Hb|w now now' o l Hp Hc Hn He Ht|w s now Hp Hc
      |w s padded now now' o l Hp Hc Hn Hd Ht|w now now' r sq Hp Hc Hn He Hs|w r ok queue Hp Hs Hok]; rewrite ?app_nil_r.
    + destruct (Commands.commands input (reader w, settings w)) as [r s] eqn:E. destruct IH as [H1 H2 H3].
      split; cbn [clock settings phase writing locals]; [done| |done]. by eapply commands_u32.
    + subst l. by apply inv_take.
    + by eapply inv_write.
    + destruct IH as [H1 H2 H3]. rewrite Hp in H3. split; cbn [clock settings phase writing locals]; [lia|done|].
      eapply local_status; [exact H3| |done]. split; lia.
    + destruct IH as [H1 H2 H3]. rewrite Hp in H3. split; cbn [clock settings phase writing locals]; [lia|done|done].
    + destruct IH as [H1 H2 H3]. rewrite Hp in H3. split; cbn [clock settings phase writing locals]; [lia|done|].
      edestruct (local_turn t (writing w) (locals w) s now now' padded) as (o' & l' & E & Hl); [done|split; lia|split; lia|done|].
      rewrite Ht in E. by injection E as -> ->.
    + by eapply inv_break.
    + by eapply inv_send.
Qed.

(** ** The stream of a run *)

Lemma wrote_only tail : Forall is_wrote tail -> offered tail = [] /\ streamed tail = [].
Proof. induction 1 as [|[] ? ? ? IH]; done. Qed.

Lemma streamed_delivered t w p : steps t w -> p ∈ streamed t -> delivered p /\ exists s, chosen p s = true.
Proof.
  intros Hs. revert p. induction Hs as [|t w u w' _ IH Hstep]; intros p; [by intros ?%not_elem_of_nil|].
  rewrite streamed_app, elem_of_app. intros [?|Hp]; [by apply IH|]. clear IH.
  assert (forall o, streamed (offers o) = []) as Ho by (by induction o as [|[] ? IHo]).
  destruct Hstep; try (by rewrite ?Ho in Hp; apply not_elem_of_nil in Hp).
  destruct (chosen padded s) eqn:E.
  - change (p ∈ padded :: streamed (offers o)) in Hp. rewrite Ho in Hp. apply list_elem_of_singleton in Hp as ->. split; [done|]. by exists s.
  - change (p ∈ streamed (offers o)) in Hp. rewrite Ho in Hp. by apply not_elem_of_nil in Hp.
Qed.

(** What the host stores of a frame *)
Lemma radiotap_frame p s : delivered p -> chosen p s = true -> 1 <= channel <= 14 ->
  exists mpdu, BorrowedBuffer.mpdu_buffer p = Some mpdu /\ drop 15 <$> Host.radiotap (frame_payload p) = Some mpdu.
Proof.
  intros Hd Hc Hch. destruct (delivered_views p Hd) as (_ & Hl & mpdu & padding & Hp & Hm). exists mpdu. split; [done|].
  unfold chosen in Hc. rewrite Hm in Hc. unfold selected in Hc. case_match eqn:E; [done|]. apply Nat.ltb_ge in E. clear Hc.
  assert (length p = 48 + length mpdu + length padding)%nat as Hpl by (rewrite Hp at 1; rewrite !length_app, length_take; lia).
  unfold Host.radiotap, frame_payload. rewrite Hm. cbn [default id]. set (n := length mpdu) in *.
  assert (le_word (take 2 (le_bytes 2 (u16 (Z.of_nat n)) ++ [channel; 0] ++ p)) = Z.of_nat n) as En.
  { change (take 2 _) with (le_bytes 2 (u16 (Z.of_nat n))). rewrite le_word_bytes, wrap_small, Z.mod_small by width. done. }
  rewrite En, Nat2Z.id. change (nth 2 _ 0) with channel. change (drop 4 (le_bytes 2 _ ++ [channel; 0] ++ p)) with p.
  assert (length (le_bytes 2 (u16 (Z.of_nat n)) ++ [channel; 0] ++ p) = (4 + length p)%nat) as -> by done.
  rewrite !(proj2 (Nat.ltb_ge _ _)) by lia. rewrite (proj2 (Z.leb_le 1 _)), (proj2 (Z.leb_le channel 14)) by lia. cbn [negb andb orb fmap option_fmap option_map].
  f_equal. assert (exists x, take 1 p = [x]) as [x ->] by (destruct p as [|x p']; [cbn in Hl; lia|by exists x]).
  change (drop 15 _) with (take n (drop 48 p)). rewrite Hp, drop_app_length' by (rewrite length_take; lia). by apply take_app_length.
Qed.

Lemma filter_messages rs : List.filter (fun m => Host.m_kind m =? 1) (message <$> rs) = message <$> List.filter is_frame rs.
Proof. induction rs as [|r rs IH]; [done|]. cbn. unfold is_frame at 1. destruct (kind r =? 1); cbn; by rewrite IH. Qed.

Lemma u32_small x : 0 <= x < 2 ^ 32 -> u32 x = x.
Proof. apply wrap_small. Qed.

Lemma taken_end t0 r wr l : local_inv [] t0 wr l -> closing t0 r -> Z.of_nat (length (offered t0)) < 2 ^ 31 ->
  Forall rec_ok (taken t0 ++ [r]) /\ Forall (fun r => kind r <> 3) (taken t0) /\ seq_no r = Z.of_nat (length (offered t0)) /\
  increasing (-1) (taken t0 ++ [r]).
Proof.
  intros Hl Hc Hn. pose proof (l_ok _ _ _ _ Hl) as Ho. pose proof (c_seq _ _ Hc) as Hq. rewrite u32_small in Hq by lia. split_and!; [| |done|].
  - apply Forall_app. split; [by apply taken_ok|]. apply Forall_singleton, Hc.
  - unfold taken. apply Forall_fmap, Forall_forall. intros o [_ Hin]%list_elem_of_In%List.filter_In%and_comm.
    pose proof (l_running _ _ _ _ Hl) as Hr. by eapply Forall_forall in Hr; [|apply list_elem_of_In].
  - pose proof (taken_increasing (offered t0 ++ [(r, true)]) (-1) 0) as Hi. rewrite List.filter_app, fmap_app in Hi. apply Hi; [|lia|].
    + intros i r' ok [Hi'|[Hge Hi']]%lookup_app_Some.
      * rewrite (l_numbers _ _ _ _ Hl i r' ok Hi'). apply lookup_lt_Some in Hi'. apply u32_small. lia.
      * apply list_lookup_singleton_Some in Hi' as [Hi' [= <- <-]]. lia.
    + rewrite length_app. cbn. lia.
Qed.

(** The decoder after the stream of a finished run *)
Lemma finished_decoder boot t0 r wr l :
  local_inv [] t0 wr l -> closing t0 r -> Z.of_nat (length (offered t0)) < 2 ^ 31 -> tally is_received t0 < 2 ^ 32 ->
  Host.find boot = None ->
  exists d, run (Host.extend (boot ++ concat (image <$> taken t0 ++ [r])) Host.init) = Some (message <$> taken t0 ++ [r], d) /\
    Host.final d = Some (words (body r)) /\
    (Host.validate d = true <-> dropped t0 = [] /\ nth 6 (words (body r)) 0 = 0).
Proof.
  intros Hl Hc Hn Hrec Hb. destruct (taken_end t0 r wr l Hl Hc Hn) as (Hok & Hk & Hq & Hi).
  set (d0 := Host.discard (length boot) (Host.extend (boot ++ concat (image <$> taken t0 ++ [r])) Host.init)).
  exists (gots d0 (taken t0 ++ [r])). split.
  { destruct (taken t0 ++ [r]) as [|x xs] eqn:E; [by destruct (taken t0)|]. by apply run_boot. }
  rewrite (gots_final (taken t0) r d0); [|done|done|done|apply Hc|done]. cbn [Host.final Host.stats Host.buffer]. split; [done|].
  destruct (c_words _ _ Hc) as (bad & gen & b & s & Hbad & Hw). unfold body in Hw |- *. rewrite Hw.
  pose proof (tally_enqueued t0) as T1. pose proof (tally_frames t0) as T2. pose proof (tally_dropped t0) as T3.
  pose proof (tally_offered t0) as T4. pose proof (tally_streamed t0) as T5. pose proof (streamed_received t0) as T6.
  pose proof (frames_offered (offered t0).*1) as T7. rewrite length_fmap in T7.
  pose proof (f_equal length (l_frames _ _ _ _ Hl)) as T8. rewrite app_nil_r, !length_fmap in T8.
  assert (forall P, 0 <= tally P t0) as Tp by (intros P; unfold tally; lia).
  pose proof (Tp is_enqueued). pose proof (Tp is_dropped). pose proof (Tp is_status_dropped). pose proof (Tp is_streamed).
  unfold expected. rewrite !u32_small by lia. unfold Host.validate. cbn [Host.final Host.stats Host.buffer Host.frames Host.corrupt_bytes Host.crc_errors
    Host.sequence_gaps Host.sequence_regressions Host.records_after_end nth app forallb Host.c_running Host.c_enqueued Host.c_selected Host.c_seen].
  change (prev d0) with (-1). rewrite Hq. cbn [d0 Host.discard Host.extend Host.init Host.stats Host.last_sequence Host.frames Host.corrupt_bytes Host.crc_errors
    Host.sequence_gaps Host.sequence_regressions Host.records_after_end].
  rewrite bool_decide_true by done. rewrite !andb_true_iff, !Z.eqb_eq, Z.leb_le.
  assert (dropped t0 = [] <-> length (dropped t0) = 0%nat) as -> by (split; [by intros ->|apply nil_length_inv]). lia.
Qed.

End Run.

(** ** Properties *)

(** C12: the capture firmware loses nothing unnoticed.  In every state that the
    three tasks reach by any interleaving, with any commands and any frames
    that [receive] may return: what was written to USB, is being written and
    waits in the channel, in this order, are exactly the records the channel
    took; the channel holds at most sixteen; nothing panics, the writer's
    assertion and slices included, and every frame can be handled.  While the
    capture runs, the next number is that of the records made so far, and the
    counters are the numbers of frames received, selected, enqueued, refused
    by the full channel, oversized (none) and of status records refused, with
    every selected frame enqueued or refused; the bodies of the frame records
    are the selected frames, in order. *)
Theorem capture_accounting `{R : RxCtrl} `{!RxCtrl48 R} diag channel start t w :
  is_u8 channel -> in_width 64 start -> steps diag channel start t w ->
  fifo t (writing w) (OUTPUT (locals w)) /\ (length (OUTPUT (locals w)) <= 16)%nat /\
  (forall r, writing w = Some r -> exists bytes, wire r = Some bytes) /\
  (forall s now now' padded, phase w = Select s -> in_width 64 now -> in_width 64 now' -> delivered padded ->
     exists o l, turn_received diag channel s now now' padded (locals w) = Some (o, l)) /\
  (phase w = Top \/ (exists s, phase w = Select s) ->
   sequence (locals w) = u32 (Z.of_nat (length (offered t))) /\
   counts (locals w) = u32 <$> [tally is_received t; tally is_streamed t; tally is_enqueued t; tally is_dropped t; 0;
                                tally is_status_dropped t] /\
   tally is_streamed t = tally is_enqueued t + tally is_dropped t /\
   body <$> List.filter is_frame (offered t).*1 = frame_payload channel <$> streamed t).
Proof.
  intros Hch Hst Hs. pose proof (steps_inv diag channel start Hch Hst t w Hs) as [_ _ H3].
  assert (fifo t (writing w) (OUTPUT (locals w)) /\ (length (OUTPUT (locals w)) <= 16)%nat /\ Forall rec_ok (taken t)) as (Hf & Hcap & Hok).
  { destruct (phase w).
    - split_and!; [apply H3..|apply taken_ok, H3].
    - split_and!; [apply H3..|apply taken_ok, H3].
    - destruct H3 as (_ & _ & Hl). split_and!; [apply Hl..|apply taken_ok, Hl].
    - pose proof (finished_ok _ _ _ _ H3). by destruct H3 as (? & ? & ? & ? & ? & _ & _ & _ & _ & ? & ?). }
  split_and!; [done|done| | |].
  - intros r Hr. rewrite Hr in Hf. eexists. by eapply wire_image, fifo_ok.
  - intros s now now' padded Hp Hn Hn' Hd. rewrite Hp in H3.
    destruct (local_turn diag channel Hch t (writing w) (locals w) s now now' padded H3 Hn Hn' Hd) as (o & l & E & _). eauto.
  - intros Hp. assert (local_inv channel [] t (writing w) (locals w)) as Hl by (destruct Hp as [Hp|[s Hp]]; by rewrite Hp in H3).
    destruct Hl as [L1 L2 _ _ _ L6 _ _]. rewrite app_nil_r in L6. split_and!; [done| | |done].
    + rewrite L2. unfold expected. cbn [fmap list_fmap length]. by rewrite Z.sub_0_r.
    + rewrite tally_streamed, tally_frames. apply (f_equal length) in L6. rewrite !length_fmap in L6. by rewrite L6.
Qed.

(** C13: the host's verdict on a capture is exact.  Take any finished run of the
    firmware whose records were all written, with fewer than [2^31] records
    and [2^32] frames, preceded on USB by boot text without the magic, and
    read by the host in any pieces.  The decoder returns the records the
    channel took, in order and unchanged, and the counters of the end record.
    It declares the capture complete exactly when the channel refused no
    record and the end record counts no bad command; and then the capture file
    holds the MPDUs of all selected frames, in order. *)
Theorem capture_verdict `{R : RxCtrl} `{!RxCtrl48 R} diag channel start t w boot pieces :
  is_u8 channel -> in_width 64 start -> steps diag channel start t w ->
  phase w = Done -> writing w = None -> OUTPUT (locals w) = [] ->
  Z.of_nat (length (offered t)) <= 2 ^ 31 -> tally is_received t < 2 ^ 32 ->
  Host.find boot = None -> concat pieces = boot ++ wrote t ->
  exists d r, Host.feeds pieces Host.init = Some (message <$> taken t, d) /\
    last (taken t) = Some r /\ kind r = 3 /\ Host.final d = Some (words (body r)) /\
    (Host.validate d = true <-> dropped t = [] /\ nth 6 (words (body r)) 0 = 0) /\
    (Host.validate d = true -> 1 <= channel <= 14 ->
     Forall2 (fun padded m => exists mpdu, BorrowedBuffer.mpdu_buffer padded = Some mpdu /\ drop 15 <$> Host.radiotap (Host.m_payload m) = Some mpdu)
       (streamed t) (List.filter (fun m => Host.m_kind m =? 1) (message <$> taken t))).
Proof.
  intros Hch Hst Hs Hp Hw Hq Hn Hr Hb Hpc. pose proof (steps_inv diag channel start Hch Hst t w Hs) as [_ _ H3]. rewrite Hp, Hw in H3.
  destruct H3 as (t0 & r & tail & wr0 & l0 & Et & Hl & Hc & Ht & (sent & Hf & Hwr) & _). rewrite Hq, !app_nil_r in Hf. subst sent.
  destruct (wrote_only tail Ht) as [Ho1 Ho2].
  assert (offered t = offered t0 ++ [(r, true)]) as Eo by (rewrite Et, offered_app; change (offered (Offered r true :: tail)) with ((r, true) :: offered tail); by rewrite Ho1).
  assert (streamed t = streamed t0) as Es by (rewrite Et, streamed_app; change (streamed (Offered r true :: tail)) with (streamed tail); by rewrite Ho2, app_nil_r).
  assert (taken t = taken t0 ++ [r]) as Ek by (unfold taken; by rewrite Eo, List.filter_app, fmap_app).
  assert (dropped t = dropped t0) as Ed by (unfold dropped; rewrite Eo, List.filter_app, fmap_app; apply app_nil_r).
  rewrite Eo, length_app in Hn. cbn [length] in Hn.
  assert (tally is_received t0 < 2 ^ 32) as Hr0 by (rewrite Et, tally_events_app in Hr; unfold tally in *; lia).
  destruct (finished_decoder channel boot t0 r wr0 l0 Hl Hc ltac:(lia) Hr0 Hb) as (d & Hrun & Hfin & Hval).
  exists d, r. rewrite Ek, Ed, Es. split_and!; [|apply last_snoc|apply Hc|done|done|].
  - destruct pieces as [|p pieces].
    + apply (f_equal length) in Hpc. rewrite Hwr, Ek, fmap_app, concat_app, !length_app in Hpc. cbn in Hpc. lia.
    + rewrite feeds_concat, Hpc, Hwr, Ek. exact Hrun.
  - intros Hv Hc14. apply Hval in Hv as [Hd _]. rewrite filter_messages, List.filter_app, (all_taken t0 Hd).
    assert (is_frame r = false) as Hfr by (unfold is_frame; by rewrite (c_kind _ _ Hc)).
    cbn [List.filter]. rewrite Hfr, app_nil_r. apply Forall2_fmap_r. pose proof (l_frames _ _ _ _ _ Hl) as Hfs. rewrite app_nil_r in Hfs.
    apply Forall2_same_length_lookup. apply (f_equal length) in Hfs as Hlen. rewrite !length_fmap in Hlen. split; [done|].
    intros i p r' Hi Hi'. apply (f_equal (fun l => l !! i)) in Hfs. rewrite !list_lookup_fmap, Hi, Hi' in Hfs. injection Hfs as Hfs.
    assert (p ∈ streamed t) as Hin by (rewrite Es; by eapply list_elem_of_lookup_2).
    destruct (streamed_delivered diag channel start t w p Hs Hin) as [Hdel [s Hsel]].
    unfold compose. change (Host.m_payload (message r')) with (body r'). rewrite Hfs. by eapply radiotap_frame.
Qed.

(** C28: damage is detected.  When a burst of up to four bytes of a record the
    firmware wrote, its checksum included, arrives changed after the magic and
    the length, the decoder does not accept the record: it drops a byte and
    searches on. *)
Theorem damage_detected r bytes p w w' q rest d :
  rec_ok r -> wire r = Some bytes -> bytes = p ++ w ++ q -> (10 <= length p)%nat ->
  Forall is_u8 w' -> length w' = length w -> (length w <= 4)%nat -> w' <> w ->
  Host.buffer d = (p ++ w' ++ q) ++ rest ->
  exists d', Host.turn d = Host.Continue d' /\ Host.buffer d' = drop 1 (Host.buffer d) /\ Host.last_sequence d' = Host.last_sequence d.
Proof.
  intros Hr Hw. rewrite wire_image in Hw by done. injection Hw as <-. intros Hi Hp Hw' Hl H4 Hne Hb.
  destruct (damaged_rejected r p w w' q rest d Hr Hi Hp Hw' Hl H4 Hne Hb) as [E|E]; rewrite E; eauto.
Qed.

Lemma damage_detected_witness : exists d d', Host.turn d = Host.Continue d' /\ length (Host.buffer d) = 29%nat /\ length (Host.buffer d') = 28%nat.
Proof.
  set (r := mkRecord 1 7 5 1 (9 :: replicate 1603 0)).
  assert (rec_ok r) as Hr by (split; try decide_now; reflexivity || done).
  set (d := Host.mkDecoder (take 24 (image r) ++ [8] ++ drop 25 (image r)) (Host.stats Host.init) None None). exists d.
  destruct (damage_detected r (image r) (take 24 (image r)) [9] [8] (drop 25 (image r)) [] d Hr (wire_image r Hr)) as (d' & E & Hb & _).
  - vm_compute. reflexivity.
  - vm_compute. lia.
  - decide_now.
  - reflexivity.
  - cbn. lia.
  - done.
  - vm_compute. reflexivity.
  - exists d'. split_and!; [exact E|vm_compute; reflexivity|]. rewrite Hb. vm_compute. reflexivity.
Defined.

(** ** A run

    The BSSID is set, a status record is made, one frame is selected, the
    capture is stopped, and everything is written. *)

(** The header of a frame of 28 bytes, to the address 02:00:00:00:00:01 *)
Definition example_frame : list Z :=
  replicate 44 0 ++ [32; 0; 0; 0] ++ [0; 0; 0; 0; 2; 0; 0; 0; 0; 1] ++ replicate 18 7.

(** ["B020000000001\n"] *)
Definition example_command : list Z := [66; 48; 50; 48; 48; 48; 48; 48; 48; 48; 48; 48; 49; 10].

Abbreviation ref := rx_ctrl_ref.

Lemma example_delivered : @delivered ref example_frame.
Proof. exists 76%nat, example_frame. split_and!; [reflexivity|cbn; lia|decide_now|reflexivity]. Qed.

(** ["S\n"] *)
Definition example_stop : list Z := [83; 10].

Definition s1 : Settings := mkSettings (Some [2; 0; 0; 0; 0; 1]) None 1200 1 0 false.
Definition s2 : Settings := mkSettings (Some [2; 0; 0; 0; 0; 1]) None 1200 2 0 true.
Definition r1 : Record_ := (status 2 7 0 (replicate 6 0) s1 true).1.
Definition r2 : Record_ := mkRecord 1 1 9 80 (splice 4 example_frame (<[2%nat := 6]> (splice 0 [28; 0] (replicate MAX_PAYLOAD 0)))).
Definition r3 : Record_ := (status 3 11 2 [1; 1; 1; 0; 0; 0] s2 false).1.

Lemma example_records : rec_ok r1 /\ rec_ok r2 /\ rec_ok r3.
Proof.
  split_and!.
  - by destruct (status_record 2 7 0 (replicate 6 0) s1 true r1 _ eq_refl) as [? _]; [decide_now..|].
  - split; try decide_now; reflexivity || done.
  - by destruct (status_record 3 11 2 [1; 1; 1; 0; 0; 0] s2 false r3 _ eq_refl) as [? _]; [decide_now..|].
Qed.

Definition example_trace : list Event :=
  [Offered r1 true; Received example_frame true; Offered r2 true; Wrote (image r1); Offered r3 true; Wrote (image r2); Wrote (image r3)].

Definition example_end : World :=
  mkWorld s2 Commands.fresh (mkLocals 3 [1; 1; 1; 0; 0; 0] 1000006 []) None Done 11.

Lemma example_steps : @steps ref false 6 5 example_trace example_end.
Proof.
  destruct example_records as (Hr1 & Hr2 & Hr3).
  pose proof (steps_start (R := ref) false 6 5) as H.
  eapply steps_step in H; [|exact (step_commands false 6 5 _ example_command)].
  eapply steps_step in H; [|exact (step_turn false 6 5 (mkWorld s1 Commands.fresh (mkLocals 0 (replicate 6 0) 5 []) None Top 5) 6 7 [(r1, true)]
    (mkLocals 1 (replicate 6 0) 1000006 [r1]) eq_refl ltac:(cbn; lia) ltac:(lia) eq_refl eq_refl)].
  eapply steps_step in H; [|exact (step_frame false 6 5 (mkWorld s1 Commands.fresh (mkLocals 1 (replicate 6 0) 1000006 [r1]) None (Select s1) 7)
    s1 example_frame 8 9 [(r2, true)] (mkLocals 2 [1; 1; 1; 0; 0; 0] 1000006 [r1; r2]) eq_refl ltac:(cbn; lia) ltac:(lia) example_delivered eq_refl)].
  eapply steps_step in H; [|exact (step_commands false 6 5 (mkWorld s1 Commands.fresh (mkLocals 2 [1; 1; 1; 0; 0; 0] 1000006 [r1; r2]) None Top 9) example_stop)].
  eapply steps_step in H; [|exact (step_break false 6 5 (mkWorld s2 Commands.fresh (mkLocals 2 [1; 1; 1; 0; 0; 0] 1000006 [r1; r2]) None Top 9)
    10 11 r3 3 eq_refl ltac:(cbn; lia) ltac:(lia) eq_refl eq_refl)].
  eapply steps_step in H; [|exact (step_take false 6 5 (mkWorld s2 Commands.fresh (mkLocals 3 [1; 1; 1; 0; 0; 0] 1000006 [r1; r2]) None (Send r3) 11)
    _ r1 [r2] eq_refl eq_refl eq_refl)].
  eapply steps_step in H; [|exact (step_write false 6 5 (mkWorld s2 Commands.fresh (mkLocals 3 [1; 1; 1; 0; 0; 0] 1000006 [r2]) (Some r1) (Send r3) 11)
    r1 (image r1) eq_refl (wire_image r1 Hr1))].
  eapply steps_step in H; [|exact (step_send false 6 5 (mkWorld s2 Commands.fresh (mkLocals 3 [1; 1; 1; 0; 0; 0] 1000006 [r2]) None (Send r3) 11)
    r3 true [r2; r3] eq_refl eq_refl eq_refl)].
  eapply steps_step in H; [|exact (step_take false 6 5 (mkWorld s2 Commands.fresh (mkLocals 3 [1; 1; 1; 0; 0; 0] 1000006 [r2; r3]) None Done 11)
    _ r2 [r3] eq_refl eq_refl eq_refl)].
  eapply steps_step in H; [|exact (step_write false 6 5 (mkWorld s2 Commands.fresh (mkLocals 3 [1; 1; 1; 0; 0; 0] 1000006 [r3]) (Some r2) Done 11)
    r2 (image r2) eq_refl (wire_image r2 Hr2))].
  eapply steps_step in H; [|exact (step_take false 6 5 (mkWorld s2 Commands.fresh (mkLocals 3 [1; 1; 1; 0; 0; 0] 1000006 [r3]) None Done 11)
    _ r3 [] eq_refl eq_refl eq_refl)].
  eapply steps_step in H; [|exact (step_write false 6 5 (mkWorld s2 Commands.fresh (mkLocals 3 [1; 1; 1; 0; 0; 0] 1000006 []) (Some r3) Done 11)
    r3 (image r3) eq_refl (wire_image r3 Hr3))].
  exact H.
Qed.

Lemma capture_accounting_witness : fifo example_trace None [] /\ (length (OUTPUT (locals example_end)) <= 16)%nat.
Proof.
  destruct (@capture_accounting ref rx_ctrl_ref_48 false 6 5 example_trace example_end) as (Hf & Hl & _);
    [decide_now|decide_now|apply example_steps|]. exact (conj Hf Hl).
Defined.

(** The stream after some boot text, in three pieces *)
Lemma capture_verdict_witness : exists d, Host.feeds [[98; 111; 111; 116; 13; 10]; take 100 (wrote example_trace); drop 100 (wrote example_trace)]
    Host.init = Some (message <$> [r1; r2; r3], d) /\ Host.validate d = true.
Proof.
  destruct (@capture_verdict ref rx_ctrl_ref_48 false 6 5 example_trace example_end [98; 111; 111; 116; 13; 10]
    [[98; 111; 111; 116; 13; 10]; take 100 (wrote example_trace); drop 100 (wrote example_trace)])
    as (d & r & Hf & Hl & _ & _ & Hv & _);
    [decide_now|decide_now|apply example_steps|reflexivity..|vm_compute; discriminate|vm_compute; reflexivity|reflexivity| |].
  - cbn [concat]. by rewrite app_nil_r, take_drop.
  - exists d. split; [exact Hf|]. apply Hv. change (last (taken example_trace)) with (Some r3) in Hl. injection Hl as <-.
    split; [reflexivity|]. vm_compute. reflexivity.
Defined.
