(* ===== verification/CaptureCommands.v ===== *)
(** * The commands of the capture application

    The reader task handles its input line by line, and understands what the
    recorder on the host sends. *)

From S2P Require Import Prelude Capture CaptureHost.

Import Commands.

(** ** Lines *)

(** The text of a line as the task sees it: without carriage returns, and
    refused when longer than the buffer *)
Definition cleaned (line : list Z) : list Z :=
  let l := List.filter (fun b => negb (b =? 13)) line in if (length l <=? 32)%nat then l else [63].

(** The reader within a line *)
Definition reading (line : list Z) : Reader :=
  let l := List.filter (fun b => negb (b =? 13)) line in mkReader (take 32 l) (32 <? length l)%nat.

Definition no_newline (line : list Z) : Prop := Forall (fun b => b <> 10) line.

Lemma filter_snoc {A} (f : A -> bool) l x : List.filter f (l ++ [x]) = List.filter f l ++ (if f x then [x] else []).
Proof. rewrite List.filter_app. cbn. by destruct (f x). Qed.

Lemma commands_reading line rest s : no_newline rest -> commands rest (reading line, s) = (reading (line ++ rest), s).
Proof.
  revert line. induction rest as [|b rest IH]; intros line; [by rewrite app_nil_r|]. intros [Hb Hr]%Forall_cons.
  unfold commands. cbn [foldl]. fold (commands rest (flip on_byte (reading line, s) b)).
  replace (line ++ b :: rest) with ((line ++ [b]) ++ rest) by (by rewrite <- app_assoc). rewrite <- IH by done. f_equal.
  unfold flip, on_byte, reading. rewrite (proj2 (Z.eqb_neq b 10) Hb), filter_snoc. set (l := List.filter _ line).
  destruct (b =? 13); cbn [negb]; [by rewrite app_nil_r|]. cbn [used overflow]. rewrite length_take, length_app. cbn [length].
  destruct (Nat.ltb_spec (Nat.min 32 (length l)) 32) as [Hl|Hl].
  - rewrite !take_ge by (rewrite ?length_app; cbn; lia). f_equal. f_equal. destruct (Nat.ltb_spec 32 (length l)), (Nat.ltb_spec 32 (length l + 1)); lia || done.
  - rewrite take_app_le by lia. f_equal. f_equal. symmetry. apply Nat.ltb_lt. lia.
Qed.

Lemma on_newline line s : on_byte 10 (reading line, s) = (fresh, command (cleaned line) s).
Proof.
  unfold on_byte, reading, cleaned. cbn [Z.eqb Pos.eqb overflow used]. f_equal. f_equal. set (l := List.filter _ line).
  destruct (Nat.ltb_spec 32 (length l)), (Nat.leb_spec (length l) 32); try lia; [done|]. by rewrite take_ge by lia.
Qed.

Lemma commands_app a b rs : commands (a ++ b) rs = commands b (commands a rs).
Proof. apply foldl_app. Qed.

(** The task is a fold of [command] over the lines of its input. *)
Lemma commands_lines lines rest s :
  Forall no_newline lines -> no_newline rest ->
  commands (concat ((fun l => l ++ [10]) <$> lines) ++ rest) (fresh, s) = (reading rest, foldl (fun s l => command (cleaned l) s) s lines).
Proof.
  intros Hl Hr. revert s. induction Hl as [|l lines Hl _ IH]; intros s; cbn [fmap list_fmap concat app foldl].
  - by apply (commands_reading []).
  - rewrite <- !app_assoc, commands_app. change fresh with (reading []). rewrite commands_reading by done. cbn [app].
    unfold commands at 1. cbn [foldl]. unfold flip at 2. rewrite on_newline. apply IH.
Qed.

(** Reading in pieces *)
Lemma commands_pieces pieces rs : foldl (flip commands) rs pieces = commands (concat pieces) rs.
Proof. revert rs. induction pieces as [|p pieces IH]; intros rs; [done|]. cbn [foldl concat]. by rewrite commands_app, IH. Qed.

(** ** Addresses and numbers *)

Lemma hex_digit_value x : 0 <= x < 16 -> digit (Host.hex_digit x) = Some x /\ Host.hex_digit x <> 10 /\ Host.hex_digit x <> 13.
Proof. intros Hx. bit_range x 0 16; vm_compute; done. Qed.

Lemma nibbles b : is_u8 b -> 0 <= b / 16 < 16 /\ 0 <= b mod 16 < 16 /\ Z.lor (Z.shiftl (b / 16) 4) (b mod 16) = b.
Proof.
  intros Hb. unfold in_width in Hb. pose proof (Z.mod_pos_bound b 16). pose proof (Z.div_mod b 16).
  assert (0 <= b / 16 < 16) by (split; [apply Z.div_pos; lia|apply Z.div_lt_upper_bound; lia]). split_and!; try lia.
  rewrite Z.shiftl_mul_pow2, lor_disjoint_add by lia. lia.
Qed.

Lemma octets_hex bytes : Forall is_u8 bytes -> octets (Host.hex bytes) = Some bytes.
Proof.
  induction 1 as [|b bytes Hb _ IH]; [done|]. destruct (nibbles b Hb) as (H1 & H2 & H3).
  change (Host.hex (b :: bytes)) with (Host.hex_digit (b / 16) :: Host.hex_digit (b mod 16) :: Host.hex bytes). cbn [octets].
  destruct (hex_digit_value _ H1) as [-> _]. destruct (hex_digit_value _ H2) as [-> _]. cbn [mbind option_bind]. rewrite IH. cbn [mbind option_bind].
  by rewrite H3.
Qed.

Lemma hex_length bytes : length (Host.hex bytes) = (2 * length bytes)%nat.
Proof. induction bytes as [|b bytes IH]; [done|]. change (Host.hex (b :: bytes)) with (Host.hex_digit (b / 16) :: Host.hex_digit (b mod 16) :: Host.hex bytes). cbn [length]. lia. Qed.

Lemma address_hex raw : Host.unicast raw -> address (Host.hex raw) = Some raw.
Proof.
  intros (Hl & Hu & Hz & Hg). unfold address. rewrite hex_length, Hl, octets_hex by done. cbn [negb Nat.eqb Nat.mul Nat.add mbind option_bind].
  rewrite Hg. cbn [Z.eqb negb orb]. by rewrite bool_decide_false.
Qed.

(** Text of a line that the reader leaves alone *)
Definition plain (l : list Z) : Prop := Forall (fun b => b <> 10 /\ b <> 13) l.

Lemma plain_cleaned l : plain l -> (length l <= 32)%nat -> no_newline l /\ cleaned l = l.
Proof.
  intros Hp Hl. split; [eapply Forall_impl; [exact Hp|]; by intros ? []|]. unfold cleaned.
  assert (List.filter (fun b => negb (b =? 13)) l = l) as ->; [|by rewrite (proj2 (Nat.leb_le _ _))].
  clear Hl. induction Hp as [|b l [_ Hb] _ IH]; [done|]. cbn. rewrite (proj2 (Z.eqb_neq b 13) Hb). cbn. by rewrite IH.
Qed.

Lemma hex_plain bytes : Forall is_u8 bytes -> plain (Host.hex bytes).
Proof.
  induction 1 as [|b bytes Hb _ IH]; [by constructor|]. destruct (nibbles b Hb) as (H1 & H2 & _).
  change (Host.hex (b :: bytes)) with (Host.hex_digit (b / 16) :: Host.hex_digit (b mod 16) :: Host.hex bytes).
  constructor; [apply (hex_digit_value _ H1)|]. constructor; [apply (hex_digit_value _ H2)|done].
Qed.

(** The durations the recorder accepts, all of them *)
Lemma str_parsed n : 1 <= n <= 3600 -> parse_u32 (Host.str n) = Some n /\ plain (Host.str n) /\ (length (Host.str n) <= 4)%nat.
Proof.
  intros Hn. assert (forallb (fun n => bool_decide (parse_u32 (Host.str n) = Some n /\ plain (Host.str n) /\ (length (Host.str n) <= 4)%nat))
    (seqZ 1 3600) = true) as Hall by (vm_compute; reflexivity).
  rewrite forallb_forall in Hall. specialize (Hall n). rewrite <- list_elem_of_In, elem_of_seqZ in Hall. specialize (Hall ltac:(lia)).
  by apply bool_decide_eq_true in Hall.
Qed.

(** C29: the firmware understands the recorder.  For every duration and every
    selection the recorder accepts, whatever settings the firmware had and in
    whatever pieces the bytes arrive, it then has that duration and those
    addresses, has counted each command as accepted, and has changed nothing
    else; the reader is ready for the next line. *)
Theorem session_understood pieces seconds_ raw raw' s :
  1 <= seconds_ <= 3600 -> Host.unicast raw -> (forall a, raw' = Some a -> Host.unicast a) ->
  concat pieces = Host.session seconds_ raw raw' ->
  foldl (flip commands) (fresh, s) pieces =
    (fresh, mkSettings (Some raw) (match raw' with Some a => Some a | None => station s end) seconds_
              (match raw' with Some _ => u32 (generation s + 3) | None => u32 (generation s + 2) end) (bad_commands s) (stop s)).
Proof.
  intros Hn Hr Hr' Hp. rewrite commands_pieces, Hp. clear Hp. destruct (str_parsed seconds_ Hn) as (Hs & Hsp & Hsl).
  assert (forall a, Host.unicast a -> no_newline (77 :: Host.hex a) /\ cleaned (77 :: Host.hex a) = 77 :: Host.hex a /\
    no_newline (66 :: Host.hex a) /\ cleaned (66 :: Host.hex a) = 66 :: Host.hex a) as Ha.
  { intros a (Hl & Hu & _). split_and!; apply plain_cleaned; try (constructor; [lia|by apply hex_plain]); cbn [length]; rewrite hex_length; lia. }
  assert (no_newline (68 :: Host.str seconds_) /\ cleaned (68 :: Host.str seconds_) = 68 :: Host.str seconds_) as [Hd Hd'].
  { apply plain_cleaned; [constructor; [lia|done]|cbn [length]; lia]. }
  assert (command (68 :: Host.str seconds_) s = mkSettings (bssid s) (station s) seconds_ (u32 (generation s + 1)) (bad_commands s) (stop s)) as Ed.
  { unfold command, accept. rewrite Hs. cbn [mbind option_bind]. by rewrite (proj2 (Z.leb_le 1 _)), (proj2 (Z.leb_le _ 3600)) by lia. }
  destruct (Ha raw Hr) as (_ & _ & Hb & Hb').
  destruct raw' as [a|].
  - specialize (Hr' a eq_refl). destruct (Ha a Hr') as (Hm & Hm' & _).
    assert (Host.session seconds_ raw (Some a) = concat ((fun l => l ++ [10]) <$> [68 :: Host.str seconds_; 66 :: Host.hex raw; 77 :: Host.hex a]) ++ []) as ->.
    { unfold Host.session. cbn [fmap list_fmap concat]. rewrite !app_nil_r. cbn [app]. by rewrite <- !app_assoc. }
    rewrite commands_lines by (repeat (constructor; try done)). cbn [foldl]. rewrite Hd', Hb', Hm', Ed. f_equal.
    unfold command, accept. rewrite !address_hex by done. cbn. by rewrite wrap_add_l, <- Z.add_assoc, wrap_add_l, <- Z.add_assoc.
  - assert (Host.session seconds_ raw None = concat ((fun l => l ++ [10]) <$> [68 :: Host.str seconds_; 66 :: Host.hex raw]) ++ []) as ->.
    { unfold Host.session. cbn [fmap list_fmap concat]. rewrite !app_nil_r. cbn [app]. by rewrite <- !app_assoc. }
    rewrite commands_lines by (repeat (constructor; try done)). cbn [foldl]. rewrite Hd', Hb', Ed. f_equal.
    unfold command, accept. rewrite !address_hex by done. cbn. by rewrite !wrap_add_l, <- !Z.add_assoc.
Qed.

Lemma session_understood_witness :
  foldl (flip commands) (fresh, SETTINGS) [take 5 (Host.session 90 [2; 0; 0; 0; 0; 1] (Some [2; 171; 0; 0; 0; 255]));
    drop 5 (Host.session 90 [2; 0; 0; 0; 0; 1] (Some [2; 171; 0; 0; 0; 255]))] =
  (fresh, mkSettings (Some [2; 0; 0; 0; 0; 1]) (Some [2; 171; 0; 0; 0; 255]) 90 3 0 false).
Proof.
  rewrite (session_understood _ 90 [2; 0; 0; 0; 0; 1] (Some [2; 171; 0; 0; 0; 255]) SETTINGS); [reflexivity|lia| | |].
  - split_and!; [reflexivity|decide_now|done|reflexivity].
  - intros a [= <-]. split_and!; [reflexivity|decide_now|done|reflexivity].
  - cbn [concat]. by rewrite app_nil_r, take_drop.
Defined.
