(* ===== verification/PhySmoke.v ===== *)
(** * The on-target test of the PHY

    [examples/src/bin/phy_lifetime_smoke.rs] runs on the chips and compares the
    linked routines with vectors and tables.  Here the same vectors are
    evaluated on the models: what was measured on the hardware and what is
    proved elsewhere are about the same functions. *)

From stdpp Require Import strings.
From S2P Require Import Prelude Program PhyAccess PhyRfpll PhyBus PhyHelpers PhyTemperature PhyTrack PhyInit.

#[local] Open Scope list_scope.
#[local] Open Scope Z_scope.

Module Smoke.
Section Smoke.
Variable s3 : bool.

(** [inspect_pbus] *)
Definition EXPECTED : list Z :=
  if s3 then [0x06040300; 0x110f0e07; 0x16151412; 0x1d1b1a17; 0x2826251e; 0x2d2c2b29]
  else [0x05040300; 0x0f0e0d06; 0x14131210; 0x1a191815; 0x2423221b; 0x29282725].

(** The callbacks that must be installed: [inspect_sensor_lifecycle], *)
Definition sensor_entries : list (Z * string) :=
  if s3 then [(0x144, "ram_temp_to_power"); (0x1e4, "ram_tsens_code_read")] else [(0x130, "phy_set_tsens_power")].

(** [inspect_pbus], *)
Definition pbus_entries : list (Z * string) := if s3 then [] else [(0x1c0, "ram_pbus_force_mode")].

(** [inspect_i2c], *)
Definition i2c_entries : list (Z * string) :=
  if s3 then [(0x15c, "ram_get_i2c_hostid"); (0x16c, "ram_chip_i2c_readReg"); (0x18c, "ram_chip_i2c_writeReg");
              (0x254, "ram_phy_i2c_init1"); (0x100, "ram_set_txcap_reg")]
  else [(0x180, "rom1_get_i2c_hostid"); (0x190, "rom1_chip_i2c_readReg"); (0x1b0, "rom1_chip_i2c_writeReg"); (0x278, "rom1_phy_i2c_init1")].

(** and [inspect_temperature]. *)
Definition temperature_entries : list (Z * string) :=
  if s3 then [(0x258, "ram_tsens_temp_read")] else [(0x27c, "rom1_tsens_temp_read"); (0x210, "phy_get_tsens_value")].

(** [inspect_temperature]: the settings of the sensor *)
Definition dacs : list Z := [5; 7; 15; 11; 10].

(** [inspect_api] *)
Definition version : Z := if s3 then 0x2c7 else 0x4d0.

(** [inspect_basic]: the data and the cases, on the S3 *)
Definition data : list Z := [0x80; 0x7f; 0xfe].
Definition interpolations : list (Z * Z) := [(0, 0); (1, 128); (6, 127); (7, 102); (11, 254); (12, 0); (257, 128)].

(** [inspect_debug] *)
Definition high_selector_first : Z := if s3 then -16 else 16.
Definition iq_cases : list (Z * Z * (Z * Z)) :=
  [(0, 0, (0, 0)); (0x3f, 1, (0, -1)); (0x420, 0, (-16, -32)); (0x420, 1, (16, -32)); (0x81f, 0, (0, 31)); (0x81f, 1, (-32, 31));
   (0xffff, 0, (-1, -1)); (0xffff, 1, (-1, -1)); (0xffff0420, 0, (-16, -32)); (0x420, 256, (high_selector_first, -32))].

(** [inspect_pwdet]: the expected signal and reference *)
Definition pwdet_expected (baseline calibration input : Z) : Z * Z :=
  let adjusted := u16 (u32 (input + if s3 then 50 else 40)) in
  (if baseline <=? adjusted then u16 (adjusted - baseline) else 0, if baseline <=? calibration then u16 (calibration - baseline) else 0).

(** [inspect_analog] and [inspect_track]: the flags that the calibrations have
    set *)
Definition rc_done : Z := Z.shiftl 1 23.
Definition offset_done : Z := Z.shiftl 1 22.

(** [inspect_rfpll] *)
Definition pll_cases : list (Z * Z * Z * list Z) :=
  if s3 then
    [(2412, 1, 0, [91; 177; 59]); (2437, 2, 100, [69; 139; 187]); (2484, 3, 0, [50; 204; 204]); (2400, 0, 0, [48; 0; 0]);
     (0, 1, 0, [224; 24; 55]); (2412, 257, 65535, [91; 177; 55]); (65535, 3, 32768, [103; 66; 97]);
     (4294967295, 255, 4294967295, [224; 150; 56])]
  else
    [(2412, 1, 0, [91; 177; 59]); (2437, 2, 100, [69; 139; 187]); (2484, 3, 0, [37; 0; 0]); (2400, 0, 0, [48; 0; 0]);
     (0, 1, 0, [224; 24; 55]); (2412, 257, 65535, [95; 13; 150]); (65535, 3, 32768, [253; 183; 49]);
     (4294967295, 255, 4294967295, [224; 150; 56])].

End Smoke.
End Smoke.

Import Smoke.

(** The values a program writes, with answers that do not depend on the
    history *)
Definition written {E A} (answer : E -> Z) (value : E -> option Z) (p : prog E A) : option (list Z) :=
  match exec (logged (fun _ => answer)) p [] with
  | Some (_, tr) => Some (omap (fun c : E * Z => value c.1) (tr : list (E * Z)))
  | None => None
  end.

(** The registers and the saved words after the PBUS programs are loaded *)
Definition pbus_port (e : Pbus.acc) (s : (Z -> Z) * (Z -> Z)) : Z * ((Z -> Z) * (Z -> Z)) :=
  match e with
  | Pbus.ReadRegister a => (s.1 a, s)
  | Pbus.WriteRegister a v => (0, (fun b => if b =? a then v else s.1 b, s.2))
  | Pbus.Write32 off v => (0, (s.1, fun o => if o =? off then v else s.2 o))
  | _ => (0, s)
  end.

Definition smoke_pbus (s3 : bool) : bool :=
  match exec pbus_port (Pbus.mem s3) (fun _ => 0xffffffff, fun _ => 0) with
  | Some (_, s) => bool_decide ((fun i => s.1 (0x600060e0 + i * 4)) <$> seqZ 0 6 = EXPECTED s3 /\
                                (fun i => s.2 ((if s3 then 0x2ac else 0x328) + i * 4)) <$> seqZ 0 6 = EXPECTED s3)
  | None => false
  end.

(** A flag that is not zero is set. *)
Lemma flag_tested flags i : 0 <= i -> Z.land flags (Z.shiftl 1 i) <> 0 -> Z.testbit flags i = true.
Proof.
  intros Hi Hf. destruct (Z.testbit flags i) eqn:E; [done|]. destruct Hf. apply Z.bits_inj'. intros j Hj.
  rewrite Z.land_spec, Z.shiftl_1_l, Z.pow2_bits_eqb, Z.bits_0 by done. destruct (Z.eqb_spec i j) as [<-|]; [by rewrite E|apply andb_false_r].
Qed.

(** Every vector and table of the test that is about routines modelled here
    holds: the PBUS ranges, live and saved; the callbacks that initialisation
    installs; the settings of the sensor; the calibration version; the
    interpolation; the IQ conversion; the arithmetic of the power detector, for
    every input and calibration; the digits of the PLL; and the RC calibration
    and the voltage offset, once done, write nothing when they run again. *)
Theorem lifetime_smoke_holds s3 :
  smoke_pbus s3 = true /\
  sensor_entries s3 ++ pbus_entries s3 ++ i2c_entries s3 ++ temperature_entries s3 ⊆ (if s3 then Init.s3_patches else Init.c3_patches) /\
  (forall t, Temperature.range_dac t ∈ dacs) /\
  Api.calibration_version s3 = version s3 /\
  Forall (fun c => exec (fun i (_ : unit) => (nth (Z.to_nat i) data 0, tt)) (Basic.interpolate c.1) tt = Some (c.2, tt)) interpolations /\
  Forall (fun c => written (fun _ => 0) (fun e => match e with Debug.WriteIq _ _ v => Some v | _ => None end) (Debug.iq s3 0 c.1.1 c.1.2) =
                   Some [c.2.1; c.2.2]) (iq_cases s3) /\
  (forall baseline calibration input,
     written (fun e => match e with Pwdet.Read16 0xda => baseline | Pwdet.Read16 0xdc => calibration | _ => 0 end)
       (fun e => match e with Pwdet.Write16 _ v => Some v | _ => None end) (Pwdet.reference s3 input 0x1000 0x1002) =
     Some [(pwdet_expected s3 baseline calibration input).1; (pwdet_expected s3 baseline calibration input).2]) /\
  Forall (fun c => written (fun _ => 0) (fun e => match e with PhyRfpll.Write _ _ v => Some v | _ => None end)
                     (Rfpll.frequency s3 c.1.1.1 c.1.1.2 c.1.2 0x2000) = Some c.2) (pll_cases s3) /\
  (forall flags param, Z.land flags rc_done <> 0 ->
     written (fun e => match e with Ext _ => param | _ => flags end)
       (fun e => match e with PhyAccess.Read _ _ | Ext Analog.Param => None | _ => Some 0 end) (Analog.calibrate s3) = Some []) /\
  (forall flags, Z.land flags offset_done <> 0 ->
     written (fun _ => flags) (fun e => match e with Track.Read32 _ => None | _ => Some 0 end) (Track.offset s3) = Some []).
Proof.
  split_and!.
  - destruct s3; vm_compute; reflexivity.
  - destruct s3; apply (bool_decide_unpack _); vm_compute; exact I.
  - intros t. unfold Temperature.range_dac, dacs. repeat case_match; decide_now.
  - by destruct s3.
  - repeat constructor; vm_compute; reflexivity.
  - destruct s3; repeat constructor; vm_compute; reflexivity.
  - intros baseline calibration input. reflexivity.
  - destruct s3; repeat constructor; vm_compute; reflexivity.
  - intros flags param Hf. apply Z.eqb_neq in Hf. unfold written, Analog.calibrate. cbn. change (Z.shiftl 1 23) with rc_done. rewrite Hf. reflexivity.
  - intros flags Hf. unfold written, Track.offset. cbn -[Z.testbit]. rewrite (flag_tested flags 22) by done. reflexivity.
Qed.
